(** * osmem: a shallow embedding of the heap allocator in [src/osmem.c]

    The allocator keeps its bookkeeping in-band: every block starts with a
    [struct block_meta] header that sits in the same byte-addressed memory
    as the payloads.  The embedding therefore models one flat memory of
    bytes, the three globals of the file ([head], [heap_preallocated],
    [MAP_THRESHOLD]) and a small model of the operating system (program
    break, anonymous mappings, and the log of the system calls made). *)

From Stdlib Require Import ZArith List Bool Lia.
Import ListNotations.
Local Open Scope Z_scope.

(** ** Machine integers *)

Definition SIZE_MAX1 : Z := 2 ^ 64.

(** [size_t] arithmetic wraps around modulo 2^64. *)
Definition w64 (x : Z) : Z := x mod SIZE_MAX1.

Definition ALIGNMENT : Z := 8.

(** [#define ALIGN(size) (((size) + (ALIGNMENT-1)) & ~(ALIGNMENT-1))],
    evaluated in [size_t]. *)
Definition ALIGN (size : Z) : Z :=
  Z.land (w64 (size + (ALIGNMENT - 1))) (w64 (Z.lnot (ALIGNMENT - 1))).

Definition PREALLOC_SIZE : Z := 128 * 1024.

(** [(void * ) -1], the failure value of [sbrk] and [mmap]. *)
Definition ALLOCATION_FAILED : Z := SIZE_MAX1 - 1.

(** ** The block header

    Modelled from the spec: [struct block_meta] and the status constants
    are declared in a header that is not part of the sources at hand.  The
    specification describes the header as a fixed-layout record of three
    fields, a payload byte length, a next pointer and a status tag; on an
    LP64 target this is [size_t size] at offset 0, [struct block_meta *next]
    at offset 8 and [int status] at offset 16, padded to 24 bytes. *)
Definition BLOCK_META_SIZE : Z := 24.
Definition OFF_SIZE : Z := 0.
Definition OFF_NEXT : Z := 8.
Definition OFF_STATUS : Z := 16.

Definition STATUS_FREE : Z := 0.
Definition STATUS_ALLOC : Z := 1.
Definition STATUS_MAPPED : Z := 2.

(** ** Byte-addressed memory

    The content of memory is a function from addresses to bytes.  Which
    addresses the process may store to is not part of the content: it
    follows from the program break and from the log of system calls, see
    [granted] below. *)

Definition mem : Type := Z -> Z.

(** Little-endian load of [n] bytes. *)
Fixpoint load (n : nat) (m : mem) (a : Z) : Z :=
  match n with
  | O => 0
  | S k => (m a) mod 256 + 256 * load k m (a + 1)
  end.

Definition byte_at (v i : Z) : Z := (v / 256 ^ i) mod 256.

(** Little-endian store of the low [n] bytes of [v]. *)
Definition store (n : Z) (m : mem) (a v : Z) : mem :=
  fun x => if (a <=? x) && (x <? a + n) then byte_at v (x - a) else m x.

Definition get_size (m : mem) (b : Z) : Z := load 8 m (b + OFF_SIZE).
Definition get_next (m : mem) (b : Z) : Z := load 8 m (b + OFF_NEXT).
Definition get_status (m : mem) (b : Z) : Z := load 4 m (b + OFF_STATUS).

Definition set_size (m : mem) (b v : Z) : mem := store 8 m (b + OFF_SIZE) v.
Definition set_next (m : mem) (b v : Z) : mem := store 8 m (b + OFF_NEXT) v.
Definition set_status (m : mem) (b v : Z) : mem := store 4 m (b + OFF_STATUS) v.

(** [memset(p, c, n)]. *)
Definition memset (m : mem) (p c n : Z) : mem :=
  fun x => if (p <=? x) && (x <? p + n) then c mod 256 else m x.

(** [memmove(dst, src, n)]: the source bytes are read before any byte of
    the destination is written, so overlapping regions are handled. *)
Definition memmove (m : mem) (dst src n : Z) : mem :=
  fun x => if (dst <=? x) && (x <? dst + n) then m (src + (x - dst)) else m x.

(** ** Allocator and operating-system state *)

(** The log of system calls: the arguments of each call and, for [mmap],
    the address the call returned. *)
Inductive syscall : Type :=
| Sbrk (increment : Z)
| Mmap (addr length : Z)
| Munmap (addr length : Z).

Record state : Type := mkState {
  memory : mem;
  head : Z;                 (* static struct block_meta *head *)
  heap_preallocated : Z;    (* static int heap_preallocated *)
  MAP_THRESHOLD : Z;        (* size_t MAP_THRESHOLD *)
  brk : Z;                  (* current program break *)
  brk_limit : Z;            (* highest break the system grants *)
  map_next : Z;             (* address of the next anonymous mapping *)
  map_limit : Z;            (* end of the area the system maps into *)
  page_size : Z;            (* getpagesize() *)
  trace : list syscall      (* system calls made so far, oldest first *)
}.

Definition with_memory (s : state) (m : mem) : state :=
  mkState m (head s) (heap_preallocated s) (MAP_THRESHOLD s) (brk s)
          (brk_limit s) (map_next s) (map_limit s) (page_size s) (trace s).

Definition with_head (s : state) (h : Z) : state :=
  mkState (memory s) h (heap_preallocated s) (MAP_THRESHOLD s) (brk s)
          (brk_limit s) (map_next s) (map_limit s) (page_size s) (trace s).

Definition with_prealloc (s : state) (v : Z) : state :=
  mkState (memory s) (head s) v (MAP_THRESHOLD s) (brk s)
          (brk_limit s) (map_next s) (map_limit s) (page_size s) (trace s).

Definition with_threshold (s : state) (v : Z) : state :=
  mkState (memory s) (head s) (heap_preallocated s) v (brk s)
          (brk_limit s) (map_next s) (map_limit s) (page_size s) (trace s).

(** Outcome of a call: it returns a value in a new state, the process is
    terminated by [DIE], the process faults (a null pointer is
    dereferenced, or a store leaves the memory the system has granted), or
    the model ran out of loop fuel. *)
Inductive result (A : Type) : Type :=
| Ok (a : A) (s : state)
| Fatal
| Fault
| OutOfFuel.
Arguments Ok {A} a s.
Arguments Fatal {A}.
Arguments Fault {A}.
Arguments OutOfFuel {A}.

Definition M (A : Type) : Type := state -> result A.

Definition ret {A} (a : A) : M A := fun s => Ok a s.

Definition bind {A B} (c : M A) (k : A -> M B) : M B :=
  fun s => match c s with
           | Ok a s' => k a s'
           | Fatal => Fatal
           | Fault => Fault
           | OutOfFuel => OutOfFuel
           end.

Notation "x <- c ;; k" := (bind c (fun x => k))
  (at level 61, c at next level, right associativity).
Notation "c ;;; k" := (bind c (fun _ => k))
  (at level 61, right associativity).

Definition get_mem : M mem := fun s => Ok (memory s) s.
Definition lift_opt {A} (o : option A) : M A :=
  fun s => match o with Some a => Ok a s | None => OutOfFuel end.

(** *** System calls

    [sbrk] moves the break by the increment read as an [intptr_t] and
    returns the old break; it fails with [(void * ) -1] when the new break
    would leave the range the system grants. *)
Definition sbrk (increment : Z) : M Z := fun s =>
  let inc := if increment <? 2 ^ 63 then increment else increment - SIZE_MAX1 in
  let nb := brk s + inc in
  let tr := trace s ++ [Sbrk increment] in
  if (0 <=? nb) && (nb <=? brk_limit s) then
    Ok (brk s)
       (mkState (memory s) (head s) (heap_preallocated s) (MAP_THRESHOLD s) nb
                (brk_limit s) (map_next s) (map_limit s) (page_size s) tr)
  else
    Ok ALLOCATION_FAILED
       (mkState (memory s) (head s) (heap_preallocated s) (MAP_THRESHOLD s)
                (brk s) (brk_limit s) (map_next s) (map_limit s) (page_size s) tr).

(** The end of a mapping of [length] bytes placed at [map_next]: mappings
    take whole pages. *)
Definition mapped_end (s : state) (length : Z) : Z :=
  map_next s + (length + page_size s - 1) / page_size s * page_size s.

(** [mmap(NULL, length, PROT_READ | PROT_WRITE, MAP_PRIVATE | MAP_ANONYMOUS,
    -1, 0)]: a fresh zero-filled region of whole pages, or [MAP_FAILED]
    when the length is zero or the region does not fit the mapping area. *)
Definition mmap (length : Z) : M Z := fun s =>
  if (length =? 0) || (map_limit s <? mapped_end s length) then
    Ok ALLOCATION_FAILED
       (mkState (memory s) (head s) (heap_preallocated s) (MAP_THRESHOLD s)
                (brk s) (brk_limit s) (map_next s) (map_limit s) (page_size s)
                (trace s ++ [Mmap ALLOCATION_FAILED length]))
  else
    let a := map_next s in
    Ok a
       (mkState (memset (memory s) a 0 (mapped_end s length - a))
                (head s) (heap_preallocated s) (MAP_THRESHOLD s)
                (brk s) (brk_limit s) (mapped_end s length) (map_limit s)
                (page_size s) (trace s ++ [Mmap a length])).

(** [munmap(addr, length)] returns 0, or -1 when the address is not page
    aligned or the length is zero. *)
Definition munmap (addr length : Z) : M Z := fun s =>
  let tr := trace s ++ [Munmap addr length] in
  let s' := mkState (memory s) (head s) (heap_preallocated s) (MAP_THRESHOLD s)
                    (brk s) (brk_limit s) (map_next s) (map_limit s)
                    (page_size s) tr in
  if (length =? 0) || negb (addr mod page_size s =? 0) then Ok (-1) s'
  else Ok 0 s'.

Definition getpagesize : M Z := fun s => Ok (page_size s) s.

(** A load, and a store that is not checked against the granted memory
    (see [store_to] for the stores that are). *)
Definition rd {A} (f : mem -> A) : M A := fun s => Ok (f (memory s)) s.
Definition wr (f : mem -> mem) : M unit :=
  fun s => Ok tt (with_memory s (f (memory s))).
Definition die {A} : M A := fun _ => Fatal.

(** *** The memory the system has granted

    The kernel maps the heap in whole pages: the bytes below the end of
    the page that holds the last byte under the program break can be
    stored to, the bytes from a page-aligned break on cannot.  A mapping
    is granted from the call of [mmap] in the log that returned it until
    a call of [munmap] in the log releases it. *)
Definition page_up (s : state) (x : Z) : Z :=
  (x + page_size s - 1) / page_size s * page_size s.

(** The [n] bytes at [a] lie in the pages of a mapping of [len] bytes at
    [addr]. *)
Definition covers (P addr len a n : Z) : bool :=
  (addr <=? a) && (a + n <=? addr + (len + P - 1) / P * P).

(** The [n] bytes at [a] share a byte with those pages. *)
Definition overlaps (P addr len a n : Z) : bool :=
  (a <? addr + (len + P - 1) / P * P) && (addr <? a + n).

(** The [n] bytes at [a] lie in a mapping that the log [tr] shows as
    live; [acc] tells whether they did before the calls of [tr]. *)
Fixpoint live (P : Z) (tr : list syscall) (acc : bool) (a n : Z) : bool :=
  match tr with
  | [] => acc
  | Sbrk _ :: tr' => live P tr' acc a n
  | Mmap addr len :: tr' =>
      live P tr'
        (acc || (negb (addr =? ALLOCATION_FAILED) && covers P addr len a n))
        a n
  | Munmap addr len :: tr' =>
      live P tr'
        (acc && ((len =? 0) || negb (addr mod P =? 0)
                 || negb (overlaps P addr len a n)))
        a n
  end.

(** The [n] bytes at [a] can be stored to: they lie at positive addresses
    below the end of the page that holds the break (the model does not tell
    the heap from what the process holds below it), or in a live
    mapping. *)
Definition granted (s : state) (a n : Z) : bool :=
  (0 <? a) && (0 <=? n)
  && ((a + n <=? page_up s (brk s))
      || live (page_size s) (trace s) false a n).

(** A store of [n] bytes at [a]: it faults outside the granted memory.
    The stores of the allocator through a pointer that [sbrk] or [mmap]
    has just returned (the header that [request_memory] and
    [preallocate_heap] initialise), and the stores of a length that the
    caller chose ([memset], [memmove]), are made with [store_to].  Every
    other store goes through a pointer of the block list, into a header of
    the list or into the payload behind it, and is made with [wr], which
    does not check the address: a header was granted when it entered the
    list, a heap block of the list lies under the break, and a mapped
    block leaves the list before [munmap] releases it. *)
Definition store_to (a n : Z) (f : mem -> mem) : M unit := fun s =>
  if granted s a n then Ok tt (with_memory s (f (memory s))) else Fault.

(** ** Helper functions of [osmem.c] *)

(** [while (current) { prev = current; current = current->next; }] *)
Fixpoint walk_to_end (fuel : nat) (m : mem) (current prev : Z) : option Z :=
  match fuel with
  | O => None
  | S f =>
      if current =? 0 then Some prev
      else walk_to_end f m (get_next m current) current
  end.

(** Appending at the tail, the code shared by the [STATUS_ALLOC] and the
    [STATUS_FREE] branches of [add_memory_block]. *)
Definition append_block (fuel : nat) (block : Z) : M unit := fun s =>
  if head s =? 0 then Ok tt (with_head s block)
  else
    match walk_to_end fuel (memory s) (head s) 0 with
    | None => OutOfFuel
    | Some prev =>
        if prev =? 0 then Fatal
        else Ok tt (with_memory s (set_next (memory s) prev block))
    end.

Definition add_memory_block (fuel : nat) (block : Z) : M unit := fun s =>
  let st := get_status (memory s) block in
  if st =? STATUS_MAPPED then
    if head s =? 0 then Ok tt (with_head s block)
    else Ok tt (with_head (with_memory s (set_next (memory s) block (head s)))
                          block)
  else if st =? STATUS_ALLOC then append_block fuel block s
  else if (st =? STATUS_FREE) && (heap_preallocated s =? 0) then
    append_block fuel block s
  else Fatal.

(** [((struct block_meta * ) ptr) - 1] *)
Definition get_block_ptr (ptr : Z) : Z := ptr - BLOCK_META_SIZE.

(** [block + 1] *)
Definition get_ptr_block (block : Z) : Z := block + BLOCK_META_SIZE.

Fixpoint remove_loop (fuel : nat) (block current prev : Z) : M unit :=
  fun s =>
  match fuel with
  | O => OutOfFuel
  | S f =>
      if current =? 0 then Ok tt s
      else if current =? block then
        let m := memory s in
        if current =? head s then
          let s1 := with_head s (get_next m (head s)) in
          Ok tt (with_memory s1 (set_next (memory s1) block 0))
        else if prev =? 0 then Fault
        else
          let m1 := set_next m prev (get_next m block) in
          Ok tt (with_memory s (set_next m1 block 0))
      else remove_loop f block (get_next (memory s) current) current s
  end.

Definition remove_memory_block (fuel : nat) (block : Z) : M unit :=
  fun s => remove_loop fuel block (head s) 0 s.

Fixpoint member_loop (fuel : nat) (m : mem) (block current : Z) : option Z :=
  match fuel with
  | O => None
  | S f =>
      if current =? 0 then Some 0
      else if current =? block then Some 1
      else member_loop f m block (get_next m current)
  end.

Definition is_block_in_memory (fuel : nat) (block : Z) : M Z :=
  fun s => lift_opt (member_loop fuel (memory s) block (head s)) s.

Definition request_memory (size : Z) : M Z :=
  let total_size := w64 (ALIGN size + ALIGN BLOCK_META_SIZE) in
  thr <- (fun s => Ok (MAP_THRESHOLD s) s) ;;
  block <- (if total_size <? thr then sbrk total_size else mmap total_size) ;;
  if (block =? ALLOCATION_FAILED) || (block =? 0) then ret 0
  else
    store_to (block + OFF_SIZE) 8
      (fun m => set_size m block (ALIGN size)) ;;;
    store_to (block + OFF_NEXT) 8 (fun m => set_next m block 0) ;;;
    store_to (block + OFF_STATUS) 4
      (fun m => set_status m block
                  (if total_size <? thr then STATUS_ALLOC else STATUS_MAPPED)) ;;;
    ret block.

Definition preallocate_heap (fuel : nat) : M unit :=
  heap <- sbrk PREALLOC_SIZE ;;
  if heap =? 0 then die
  else
    store_to (heap + OFF_SIZE) 8
      (fun m => set_size m heap (w64 (PREALLOC_SIZE - ALIGN BLOCK_META_SIZE))) ;;;
    store_to (heap + OFF_NEXT) 8 (fun m => set_next m heap 0) ;;;
    store_to (heap + OFF_STATUS) 4 (fun m => set_status m heap STATUS_FREE) ;;;
    add_memory_block fuel heap.

Definition coalesce_blocks (m : mem) (block1 block2 : Z) : mem :=
  let m1 := set_size m block1
              (w64 (get_size m block1
                    + w64 (get_size m block2 + ALIGN BLOCK_META_SIZE))) in
  let m2 := set_next m1 block1 (get_next m1 block2) in
  set_status m2 block1 STATUS_FREE.

Fixpoint coalesce_loop (fuel : nat) (m : mem) (current : Z) : option mem :=
  match fuel with
  | O => None
  | S f =>
      if current =? 0 then Some m
      else if get_next m current =? 0 then Some m
      else
        let m' :=
          if (get_status m current =? STATUS_FREE)
             && (get_status m (get_next m current) =? STATUS_FREE)
          then coalesce_blocks m current (get_next m current)
          else m in
        coalesce_loop f m' (get_next m' current)
  end.

Definition coalesce_memory (fuel : nat) : M unit := fun s =>
  match coalesce_loop fuel (memory s) (head s) with
  | None => OutOfFuel
  | Some m => Ok tt (with_memory s m)
  end.

Definition split_block (m : mem) (block size : Z) : mem :=
  if w64 (w64 (ALIGN size + ALIGN BLOCK_META_SIZE) + ALIGNMENT)
       <=? get_size m block
  then
    let new_block := block + ALIGN BLOCK_META_SIZE + ALIGN size in
    let m1 := set_size m new_block
                (w64 (w64 (get_size m block - ALIGN size)
                      - ALIGN BLOCK_META_SIZE)) in
    let m2 := set_next m1 new_block (get_next m1 block) in
    let m3 := set_status m2 new_block STATUS_FREE in
    let m4 := set_size m3 block (ALIGN size) in
    let m5 := set_next m4 block new_block in
    set_status m5 block STATUS_ALLOC
  else set_status m block STATUS_ALLOC.

(** The scan of [find_best_free_block]; it yields [best] and the value left
    in [*last]. *)
Fixpoint best_loop (fuel : nat) (m : mem) (size current best last : Z)
  : option (Z * Z) :=
  match fuel with
  | O => None
  | S f =>
      if current =? 0 then Some (best, last)
      else
        let best' :=
          if (get_status m current =? STATUS_FREE)
             && (size <=? get_size m current)
          then
            if best =? 0 then current
            else if get_size m current <? get_size m best then current
            else best
          else best in
        best_loop f m size (get_next m current) best' current
  end.

Definition find_best_free_block (fuel : nat) (last size : Z) : M (Z * Z) :=
  fun s =>
  let current := head s in
  match coalesce_memory fuel s with
  | Ok _ s1 => lift_opt (best_loop fuel (memory s1) size current 0 last) s1
  | Fatal => Fatal
  | Fault => Fault
  | OutOfFuel => OutOfFuel
  end.

Definition find_last_free_block (fuel : nat) : M Z := fun s =>
  match walk_to_end fuel (memory s) (head s) 0 with
  | None => OutOfFuel
  | Some prev =>
      if prev =? 0 then Fault
      else if get_status (memory s) prev =? STATUS_FREE then Ok prev s
      else Ok 0 s
  end.

Definition min (a b : Z) : Z := if a <? b then a else b.

(** ** The public operations *)

(** The heap branch of [os_malloc] once the heap is preallocated: best fit,
    else extension of a free last block, else a new block at the break. *)
Definition os_malloc_heap (fuel : nat) (size : Z) : M Z :=
  last0 <- (fun s => Ok (head s) s) ;;
  r <- find_best_free_block fuel last0 (ALIGN size) ;;
  let block := fst r in
  if negb (block =? 0) then
    wr (fun m => split_block m block size) ;;;
    ret (get_ptr_block block)
  else
    last <- find_last_free_block fuel ;;
    if last =? 0 then
      block <- request_memory size ;;
      if block =? 0 then die
      else
        add_memory_block fuel block ;;;
        ret (get_ptr_block block)
    else
      lsz <- rd (fun m => get_size m last) ;;
      block <- request_memory
                 (w64 (w64 (size - lsz) - ALIGN BLOCK_META_SIZE)) ;;
      if block =? 0 then die
      else
        wr (fun m => set_status m block STATUS_FREE) ;;;
        wr (fun m => coalesce_blocks m last block) ;;;
        wr (fun m => set_status m last STATUS_ALLOC) ;;;
        ret (get_ptr_block last).

Definition os_malloc (fuel : nat) (size : Z) : M Z :=
  if size =? 0 then ret 0
  else
    let total_size := w64 (ALIGN size + ALIGN BLOCK_META_SIZE) in
    thr <- (fun s => Ok (MAP_THRESHOLD s) s) ;;
    if total_size <? thr then
      pre <- (fun s => Ok (heap_preallocated s) s) ;;
      (if pre =? 0 then
         preallocate_heap fuel ;;;
         (fun s => Ok tt (with_prealloc s 1))
       else ret tt) ;;;
      os_malloc_heap fuel size
    else
      block <- request_memory size ;;
      if block =? 0 then die
      else
        add_memory_block fuel block ;;;
        ret (get_ptr_block block).

Definition os_free (fuel : nat) (ptr : Z) : M unit :=
  if ptr =? 0 then ret tt
  else
    let block := get_block_ptr ptr in
    found <- is_block_in_memory fuel block ;;
    if found =? 0 then ret tt
    else
      st <- rd (fun m => get_status m block) ;;
      if st =? STATUS_ALLOC then
        wr (fun m => set_status m block STATUS_FREE) ;;;
        coalesce_memory fuel
      else if st =? STATUS_MAPPED then
        remove_memory_block fuel block ;;;
        sz <- rd (fun m => get_size m block) ;;
        r <- munmap block (w64 (sz + BLOCK_META_SIZE)) ;;
        if negb (r =? 0) then die else ret tt
      else ret tt.

Definition os_calloc (fuel : nat) (nmemb size : Z) : M Z :=
  pg <- getpagesize ;;
  (fun s => Ok tt (with_threshold s pg)) ;;;
  ptr <- os_malloc fuel (w64 (nmemb * size)) ;;
  (fun s => Ok tt (with_threshold s (128 * 1024))) ;;;
  if ptr =? 0 then ret 0
  else
    store_to ptr (w64 (nmemb * size))
      (fun m => memset m ptr 0 (w64 (nmemb * size))) ;;;
    ret ptr.

(** The common tail of the branches of [os_realloc] that move the block:
    [memmove(new_ptr, get_ptr_block(block), min(block->size, size))]. *)
Definition copy_payload (new_ptr block size : Z) : M unit :=
  n <- rd (fun m => min (get_size m block) size) ;;
  store_to new_ptr n (fun m => memmove m new_ptr (get_ptr_block block) n).

Definition os_realloc (fuel : nat) (ptr size0 : Z) : M Z :=
  if ptr =? 0 then os_malloc fuel size0
  else if size0 =? 0 then os_free fuel ptr ;;; ret 0
  else
    let block := get_block_ptr ptr in
    st <- rd (fun m => get_status m block) ;;
    if st =? STATUS_FREE then ret 0
    else
      let size := ALIGN size0 in
      bsz <- rd (fun m => get_size m block) ;;
      if bsz =? size then ret ptr
      else if st =? STATUS_ALLOC then
        if size <? bsz then
          wr (fun m => split_block m block size) ;;;
          ret (get_ptr_block block)
        else
          coalesce_memory fuel ;;;
          m <- get_mem ;;
          if negb (get_next m block =? 0)
             && (get_status m (get_next m block) =? STATUS_FREE)
             && (size <=? w64 (w64 (get_size m block
                                    + get_size m (get_next m block))
                               + ALIGN BLOCK_META_SIZE))
          then
            wr (fun m => set_size m block
                           (w64 (get_size m block
                                 + w64 (get_size m (get_next m block)
                                        + ALIGN BLOCK_META_SIZE)))) ;;;
            wr (fun m => set_next m block (get_next m (get_next m block))) ;;;
            wr (fun m => set_status m block STATUS_ALLOC) ;;;
            wr (fun m => split_block m block size) ;;;
            ret (get_ptr_block block)
          else if get_next m block =? 0 then
            os_free fuel (get_ptr_block block) ;;;
            new_ptr <- os_malloc fuel size ;;
            if new_ptr =? 0 then ret 0
            else copy_payload new_ptr block size ;;; ret new_ptr
          else
            new_ptr <- os_malloc fuel size ;;
            if new_ptr =? 0 then ret 0
            else
              copy_payload new_ptr block size ;;;
              os_free fuel (get_ptr_block block) ;;;
              ret new_ptr
      else if st =? STATUS_MAPPED then
        new_ptr <- os_malloc fuel size ;;
        if new_ptr =? 0 then ret 0
        else
          copy_payload new_ptr block size ;;;
          os_free fuel (get_ptr_block block) ;;;
          ret new_ptr
      else ret 0.

(** ** A fresh process *)

Definition fresh : state :=
  mkState (fun _ => 0) 0 0 (128 * 1024)
          4096000 (4096000 + 2 ^ 30) (2 ^ 40) (2 ^ 41) 4096 [].

(** The addresses, statuses and sizes of the blocks reachable from [head]. *)
Fixpoint block_list (fuel : nat) (m : mem) (a : Z) : list (Z * Z * Z) :=
  match fuel with
  | O => []
  | S f =>
      if a =? 0 then []
      else (a, get_status m a, get_size m a) :: block_list f m (get_next m a)
  end.


(** ** The block list as seen from the heap

    [chain m a l]: following the [next] fields from [a] in memory [m] visits
    exactly the headers [l] and then reaches the null pointer. *)
Inductive chain (m : mem) : Z -> list Z -> Prop :=
| chain_nil : chain m 0 []
| chain_cons a l :
    a <> 0 -> chain m (get_next m a) l -> chain m a (a :: l).

(** Two headers that do not share a byte. *)
Definition hdr_disjoint (a b : Z) : Prop :=
  a + BLOCK_META_SIZE <= b \/ b + BLOCK_META_SIZE <= a.

Fixpoint sep (l : list Z) : Prop :=
  match l with
  | [] => True
  | a :: l' => Forall (hdr_disjoint a) l' /\ sep l'
  end.

(** [x] is a byte of none of the headers in [l]. *)
Definition outside (l : list Z) (x : Z) : Prop :=
  forall b, In b l -> x < b \/ b + BLOCK_META_SIZE <= x.

(** [m'] differs from [m] only inside the headers in [l]. *)
Definition framed (m m' : mem) (l : list Z) : Prop :=
  forall x, outside l x -> m' x = m x.

(** A block that the best-fit scan may take for a request of [size]. *)
Definition fits (m : mem) (size c : Z) : Prop :=
  get_status m c = STATUS_FREE /\ size <= get_size m c.

(** The scan of [find_best_free_block] over the list of headers. *)
Fixpoint best_of (m : mem) (size : Z) (l : list Z) (best : Z) : Z :=
  match l with
  | [] => best
  | c :: l' =>
      best_of m size l'
        (if (get_status m c =? STATUS_FREE) && (size <=? get_size m c)
         then
           if best =? 0 then c
           else if get_size m c <? get_size m best then c
           else best
         else best)
  end.

(** What best fit means on a list of headers: [best] is null when no block
    fits; otherwise it is a fitting block of the list, every fitting block
    before it is strictly larger, and no fitting block after it is
    smaller. *)
Definition best_fit_of (m : mem) (size : Z) (l : list Z) (best : Z) : Prop :=
  (best = 0 /\ forall c, In c l -> ~ fits m size c) \/
  (best <> 0 /\
   exists l1 l2,
     l = l1 ++ best :: l2 /\ fits m size best /\
     (forall c, In c l1 -> fits m size c -> get_size m best < get_size m c) /\
     (forall c, In c l2 -> fits m size c -> get_size m best <= get_size m c)).

(** ** Running scenarios *)

Definition state_of {A} (r : result A) : state :=
  match r with Ok _ s => s | _ => fresh end.

Definition value_of (r : result Z) : Z :=
  match r with Ok a _ => a | _ => 0 end.

(** The application writes [n] bytes of value [c] into a payload. *)
Definition user_fill (p c n : Z) : M unit := wr (fun m => memset m p c n).

(** [p = os_malloc(200); q = os_malloc(300); os_free(p)] in a fresh
    process: a free block, an allocated block and the free remainder. *)
Definition after_one_free : state :=
  state_of ((p <- os_malloc 8 200 ;; q <- os_malloc 8 300 ;; os_free 8 p) fresh).

(** A fresh process after [os_malloc(100)]. *)
Definition after_malloc_100 : state := state_of (os_malloc 8 100 fresh).

(** What the model expects of the operating system: a break that is
    positive, 8-byte aligned and never above its limit; a mapping area that
    starts at least one header above that limit, at page-aligned
    addresses, and ends at or below 2^63; a page size that is a positive
    multiple of 8. *)
Definition os_sane (s : state) : Prop :=
  0 < page_size s /\ page_size s mod 8 = 0 /\ page_size s < 2 ^ 63 /\
  0 < brk s /\ brk s mod 8 = 0 /\ brk s <= brk_limit s /\
  brk_limit s + BLOCK_META_SIZE <= map_next s /\
  map_next s mod page_size s = 0 /\
  map_next s <= map_limit s /\ map_limit s <= 2 ^ 63.

Definition is_ok {A} (r : result A) : bool :=
  match r with Ok _ _ => true | _ => false end.

(** The system can serve a request of [size] bytes: the break may still
    grow by the preallocation and by the request with its header, and a
    mapping of the request with its header is granted. *)
Definition room (s : state) (size : Z) : Prop :=
  brk s + PREALLOC_SIZE + size + 31 <= brk_limit s /\
  map_next s + size + 31 + page_size s <= map_limit s.

(** The blocks of [l] lie back to back in memory: each header is followed
    by its payload and then by the next header of the list, and the last
    payload ends at [top]. *)
Fixpoint contig (m : mem) (l : list Z) (top : Z) : Prop :=
  match l with
  | [] => True
  | a :: l' =>
      0 < a /\ a + BLOCK_META_SIZE + get_size m a = hd top l' /\
      contig m l' top
  end.

(** No header of [l] lies inside the payload of the block [b]. *)
Definition payload_clear (m : mem) (l : list Z) (b : Z) : Prop :=
  forall c, In c l -> c <= b \/ b + BLOCK_META_SIZE + get_size m b <= c.

(** The log holds calls of [mmap] that returned [b], and all of them asked
    for [len] bytes. *)
Definition mapping_logged (tr : list syscall) (b len : Z) : Prop :=
  forall l, In (Mmap b l) tr <-> l = len.

(** Every call of [mmap] in the log failed or returned an address below
    [top]. *)
Definition mappings_below (tr : list syscall) (top : Z) : Prop :=
  forall a l, In (Mmap a l) tr -> a < top \/ a = ALLOCATION_FAILED.

(** The invariant of the allocator.  The list is the mapped blocks [lm]
    followed by the heap blocks [lh].  A mapped block has the status
    [MAPPED], starts a page of the mapping area and its header lies below
    [map_next]; the mapped headers are pairwise disjoint, and the log
    holds the call of [mmap] that returned the block, for the payload size
    of the header plus the header size.  The heap blocks are [FREE] or
    [ALLOCATED], 8-byte aligned, and lie back to back up to the break.  All
    payload sizes are multiples of 8, the heap list is not empty once the
    heap is preallocated, and no logged mapping lies at or above
    [map_next]. *)
Definition heap_inv (s : state) (lm lh : list Z) : Prop :=
  os_sane s /\ 0 <= MAP_THRESHOLD s < 2 ^ 63 /\
  chain (memory s) (head s) (lm ++ lh) /\
  sep lm /\
  (forall b, In b lm ->
     get_status (memory s) b = STATUS_MAPPED /\
     b mod page_size s = 0 /\ brk_limit s + BLOCK_META_SIZE <= b /\
     b + BLOCK_META_SIZE <= map_next s /\
     get_size (memory s) b mod 8 = 0 /\
     get_size (memory s) b + BLOCK_META_SIZE < SIZE_MAX1 /\
     mapping_logged (trace s) b (get_size (memory s) b + BLOCK_META_SIZE)) /\
  contig (memory s) lh (brk s) /\
  (forall b, In b lh ->
     (get_status (memory s) b = STATUS_FREE \/
      get_status (memory s) b = STATUS_ALLOC) /\
     b mod 8 = 0 /\ get_size (memory s) b mod 8 = 0) /\
  (heap_preallocated s <> 0 -> lh <> []) /\
  mappings_below (trace s) (map_next s).

(** [p = os_malloc(200); q = os_malloc(300); os_free(p); os_free(q)]. *)
Definition alloc_alloc_free_free : M unit :=
  p <- os_malloc 8 200 ;;
  q <- os_malloc 8 300 ;;
  os_free 8 p ;;;
  os_free 8 q.

(** No two neighbours of a block list are both [FREE]. *)
Fixpoint no_adjacent_free (l : list (Z * Z * Z)) : bool :=
  match l with
  | (_, st1, _) :: (((_, st2, _) :: _) as l') =>
      negb ((st1 =? STATUS_FREE) && (st2 =? STATUS_FREE))
      && no_adjacent_free l'
  | _ => true
  end.

(** A heap whose last block is allocated and preceded by a free block:
    [a = os_malloc(16); p = os_malloc(131008)], the payload of [p] filled
    with the byte 0xAA by the application, then [os_free(a)]. *)
Definition tail_allocated : state :=
  state_of ((a <- os_malloc 8 16 ;;
             p <- os_malloc 8 131008 ;;
             user_fill p 170 131008 ;;;
             os_free 8 a) fresh).



(** A fresh process after [os_malloc(1000)]: an allocated block of 1000
    bytes followed by the free remainder of 130024 bytes, which is the
    last block of the list. *)
Definition after_malloc_1000 : state := state_of (os_malloc 8 1000 fresh).

(** A computation that leaves [MAP_THRESHOLD] as it found it. *)
Definition keeps_threshold {A} (c : M A) : Prop :=
  forall s a s', c s = Ok a s' -> MAP_THRESHOLD s' = MAP_THRESHOLD s.


(** The states that the allocator reaches from an initial state through
    calls of [os_malloc], [os_calloc], [os_free] and [os_realloc] that
    return, the last one on the null pointer or on the payload of a block
    of the list, and through the application storing into the payload of
    an [ALLOCATED] block of the list.  The calls that allocate are made
    while the system has [room] for the request.  The index bounds the
    number of blocks of the list, and with it the fuel the loops need. *)
Inductive reachable : nat -> state -> Prop :=
| reach_init s :
    os_sane s -> head s = 0 -> heap_preallocated s = 0 ->
    MAP_THRESHOLD s = 128 * 1024 -> trace s = [] -> reachable 0 s
| reach_malloc n s fuel size p s' :
    reachable n s -> (n + 1 < fuel)%nat -> 0 <= size -> room s size ->
    os_malloc fuel size s = Ok p s' -> reachable (n + 2) s'
| reach_calloc n s fuel nmemb size p s' :
    reachable n s -> (n + 1 < fuel)%nat -> room s (w64 (nmemb * size)) ->
    os_calloc fuel nmemb size s = Ok p s' -> reachable (n + 2) s'
| reach_free n s fuel ptr s' :
    reachable n s -> (n < fuel)%nat ->
    os_free fuel ptr s = Ok tt s' -> reachable n s'
| reach_realloc n s fuel ptr size p s' :
    reachable n s -> (n + 2 < fuel)%nat -> 0 <= size ->
    room s (size + 7) ->
    ptr = 0 \/ is_block_in_memory fuel (get_block_ptr ptr) s = Ok 1 s ->
    os_realloc fuel ptr size s = Ok p s' -> reachable (n + 2) s'
| reach_store n s fuel b x c k :
    reachable n s -> (n < fuel)%nat ->
    is_block_in_memory fuel b s = Ok 1 s ->
    get_status (memory s) b = STATUS_ALLOC ->
    b + BLOCK_META_SIZE <= x ->
    x + k <= b + BLOCK_META_SIZE + get_size (memory s) b ->
    reachable n (with_memory s (memset (memory s) x c k)).

(** A fresh process after [os_malloc(200000)], served by a mapping, and
    [os_malloc(100)], served from the preallocated heap. *)
Definition mapped_and_heap : state :=
  state_of ((p <- os_malloc 8 200000 ;; os_malloc 8 100) fresh).

(** ** Runs of free blocks *)

Definition is_free (m : mem) (b : Z) : bool := get_status m b =? STATUS_FREE.

(** No two neighbours of the list of headers [l] are both [FREE]. *)
Fixpoint no_free_pair (m : mem) (l : list Z) : bool :=
  match l with
  | [] => true
  | a :: l' =>
      match l' with
      | b :: _ => negb (is_free m a && is_free m b)
      | [] => true
      end && no_free_pair m l'
  end.

(** No three consecutive blocks of [l] are all [FREE]. *)
Fixpoint no_free_triple (m : mem) (l : list Z) : bool :=
  match l with
  | [] => true
  | a :: l' =>
      match l' with
      | b :: c :: _ => negb (is_free m a && is_free m b && is_free m c)
      | _ => true
      end && no_free_triple m l'
  end.

(** ** What a call leaves alone *)

(** The break, the mapping area and the two scalar globals are the same in
    [s] and [s']. *)
Definition same_system (s s' : state) : Prop :=
  brk s' = brk s /\ brk_limit s' = brk_limit s /\
  map_next s' = map_next s /\ map_limit s' = map_limit s /\
  page_size s' = page_size s /\
  heap_preallocated s' = heap_preallocated s /\
  MAP_THRESHOLD s' = MAP_THRESHOLD s.

(** [mapped_and_heap] after [os_free] of its mapped block. *)
Definition after_unmap : state :=
  state_of (os_free 8 (get_ptr_block (2 ^ 40)) mapped_and_heap).

(** ** Requests at the edges *)

(** [os_malloc(131040); b = os_malloc(4064); os_free(b)] in a fresh
    process: the preallocated block is in use, and the last block of the
    list is free, holds 4064 bytes and ends at the break, 8 bytes below a
    page boundary. *)
Definition second_block : result Z :=
  os_malloc 8 4064 (state_of (os_malloc 8 131040 fresh)).

Definition tail_before_page_end : state :=
  state_of (os_free 8 (value_of second_block) (state_of second_block)).

(** A fresh process after [os_malloc(SIZE_MAX)]. *)
Definition zero_payload_block : state :=
  state_of (os_malloc 8 (SIZE_MAX1 - 1) fresh).

(** The resize identity as the specification words it, for every [n]:
    on a header that is [ALLOCATED] or [MAPPED], [os_realloc(p, n)] with
    [ALIGN(n)] equal to the payload size returns [p] and changes
    nothing. *)
Definition resize_identity_law (fuel : nat) (s : state) (p n : Z) : Prop :=
  get_status (memory s) (get_block_ptr p) = STATUS_ALLOC \/
  get_status (memory s) (get_block_ptr p) = STATUS_MAPPED ->
  ALIGN n = get_size (memory s) (get_block_ptr p) ->
  os_realloc fuel p n s = Ok p s.
(** ** Arithmetic of [ALIGN] *)

Lemma w64_range x : 0 <= w64 x < SIZE_MAX1.
Proof. unfold w64, SIZE_MAX1. apply Z.mod_pos_bound. lia. Qed.

Lemma w64_small x : 0 <= x < SIZE_MAX1 -> w64 x = x.
Proof. intros H. unfold w64. apply Z.mod_small. exact H. Qed.

Lemma land_mask8 y : 0 <= y < 2 ^ 64 -> Z.land y (2 ^ 64 - 8) = 8 * (y / 8).
Proof.
  intros Hy.
  replace (2 ^ 64 - 8) with (Z.shiftl (Z.ones 61) 3) by reflexivity.
  replace (8 * (y / 8)) with (Z.shiftl (Z.shiftr y 3) 3)
    by (rewrite Z.shiftl_mul_pow2, Z.shiftr_div_pow2 by lia;
        change (2 ^ 3) with 8; lia).
  apply Z.bits_inj'. intros n Hn.
  rewrite Z.land_spec.
  destruct (Z.lt_ge_cases n 3) as [Hlt | Hge].
  - rewrite !Z.shiftl_spec_low by lia. apply andb_false_r.
  - rewrite !Z.shiftl_spec by lia. rewrite Z.shiftr_spec by lia.
    replace (n - 3 + 3) with n by lia.
    destruct (Z.lt_ge_cases (n - 3) 61) as [Hin | Hout].
    + rewrite Z.ones_spec_low by lia. apply andb_true_r.
    + rewrite Z.ones_spec_high by lia. rewrite andb_false_r.
      symmetry. destruct (Z.eq_dec y 0) as [-> | Hnz].
      * apply Z.bits_0.
      * apply Z.bits_above_log2; [lia |].
        assert (Z.log2 y < 64) by (apply Z.log2_lt_pow2; lia). lia.
Qed.

Lemma ALIGN_div x : ALIGN x = 8 * (w64 (x + 7) / 8).
Proof.
  unfold ALIGN. change (ALIGNMENT - 1) with 7.
  change (w64 (Z.lnot 7)) with (2 ^ 64 - 8).
  apply land_mask8. apply w64_range.
Qed.

Lemma ALIGN_mod8 x : ALIGN x mod 8 = 0.
Proof. rewrite ALIGN_div, Z.mul_comm. apply Z.mod_mul. lia. Qed.

Lemma ALIGN_range x : 0 <= ALIGN x < SIZE_MAX1.
Proof.
  rewrite ALIGN_div. pose proof (w64_range (x + 7)) as H.
  unfold SIZE_MAX1 in *.
  pose proof (Z.mul_div_le (w64 (x + 7)) 8). 
  assert (0 <= w64 (x + 7) / 8) by (apply Z.div_pos; lia). lia.
Qed.

Lemma ALIGN_small x :
  0 <= x -> x + 7 < SIZE_MAX1 -> x <= ALIGN x < x + 8.
Proof.
  intros H0 H1. rewrite ALIGN_div, w64_small by lia.
  pose proof (Z.div_mod (x + 7) 8). pose proof (Z.mod_pos_bound (x + 7) 8). lia.
Qed.

Lemma ALIGN_pos x : 0 < x -> x + 7 < SIZE_MAX1 -> 0 < ALIGN x.
Proof. intros. pose proof (ALIGN_small x). lia. Qed.

Lemma ALIGN_fixed x : 0 <= x < SIZE_MAX1 -> x mod 8 = 0 -> ALIGN x = x.
Proof.
  intros Hx Hm. rewrite ALIGN_div.
  assert (x + 7 < SIZE_MAX1).
  { unfold SIZE_MAX1 in *. pose proof (Z.div_mod x 8). 
    assert (x / 8 < 2 ^ 61) by (apply Z.div_lt_upper_bound; lia). lia. }
  rewrite w64_small by lia.
  pose proof (Z.div_mod x 8). pose proof (Z.div_mod (x + 7) 8).
  pose proof (Z.mod_pos_bound (x + 7) 8). lia.
Qed.

Lemma ALIGN_idem x : ALIGN (ALIGN x) = ALIGN x.
Proof. apply ALIGN_fixed; [apply ALIGN_range | apply ALIGN_mod8]. Qed.

Lemma ALIGN_header : ALIGN BLOCK_META_SIZE = BLOCK_META_SIZE.
Proof. reflexivity. Qed.

(** ** Loads and stores *)

Lemma load_bound n m a : 0 <= load n m a < 256 ^ Z.of_nat n.
Proof.
  revert a. induction n as [| n IH]; intros a.
  - simpl. lia.
  - rewrite Nat2Z.inj_succ, Z.pow_succ_r by lia.
    cbn [load]. specialize (IH (a + 1)).
    pose proof (Z.mod_pos_bound (m a) 256). lia.
Qed.

Lemma load_ext n m1 m2 a :
  (forall x, a <= x < a + Z.of_nat n -> m1 x = m2 x) ->
  load n m1 a = load n m2 a.
Proof.
  revert a. induction n as [| n IH]; intros a H; [reflexivity |].
  cbn [load]. rewrite (H a) by lia. rewrite (IH (a + 1)); [reflexivity |].
  intros x Hx. apply H. lia.
Qed.

Lemma load_bytes n m a v k :
  0 <= k ->
  (forall i, 0 <= i < Z.of_nat n -> m (a + i) = byte_at v (k + i)) ->
  load n m a = (v / 256 ^ k) mod 256 ^ Z.of_nat n.
Proof.
  revert a k. induction n as [| n IH]; intros a k Hk H.
  - simpl. rewrite Z.mod_1_r. reflexivity.
  - cbn [load]. rewrite (IH (a + 1) (k + 1)); [| lia |].
    + specialize (H 0). rewrite !Z.add_0_r in H. rewrite H by lia.
      unfold byte_at. rewrite Z.mod_mod by lia.
      rewrite Nat2Z.inj_succ, Z.pow_succ_r by lia.
      rewrite Z.rem_mul_r by lia.
      rewrite Z.pow_add_r, Z.pow_1_r by lia.
      rewrite Z.div_div by lia. reflexivity.
    + intros i Hi. replace (a + 1 + i) with (a + (1 + i)) by lia.
      rewrite H by lia. f_equal. lia.
Qed.

Lemma load_store_same n m a v :
  load n (store (Z.of_nat n) m a v) a = v mod 256 ^ Z.of_nat n.
Proof.
  rewrite (load_bytes n _ a v 0); [| lia |].
  - rewrite Z.pow_0_r, Z.div_1_r. reflexivity.
  - intros i Hi. unfold store.
    replace ((a <=? a + i) && (a + i <? a + Z.of_nat n)) with true
      by (symmetry; apply andb_true_iff; split;
          [apply Z.leb_le | apply Z.ltb_lt]; lia).
    f_equal. lia.
Qed.

Lemma store_outside n m a v x : x < a \/ a + n <= x -> store n m a v x = m x.
Proof.
  intros H. unfold store.
  destruct (Z.leb_spec a x); destruct (Z.ltb_spec x (a + n)); simpl;
    try reflexivity; lia.
Qed.

Lemma load_store_disj n1 m a1 n2 a2 v :
  a1 + Z.of_nat n1 <= a2 \/ a2 + n2 <= a1 ->
  load n1 (store n2 m a2 v) a1 = load n1 m a1.
Proof.
  intros H. apply load_ext. intros x Hx. apply store_outside. lia.
Qed.

Lemma load8_store8 m a v : load 8 (store 8 m a v) a = w64 v.
Proof. exact (load_store_same 8 m a v). Qed.

Lemma load4_store4 m a v : load 4 (store 4 m a v) a = v mod 2 ^ 32.
Proof. exact (load_store_same 4 m a v). Qed.

Lemma load_memset_disj n m a p c k :
  a + Z.of_nat n <= p \/ p + k <= a ->
  load n (memset m p c k) a = load n m a.
Proof.
  intros H. apply load_ext. intros x Hx. unfold memset.
  destruct (Z.leb_spec p x); destruct (Z.ltb_spec x (p + k)); simpl;
    try reflexivity; lia.
Qed.

Lemma load_memmove_disj n m a dst src k :
  a + Z.of_nat n <= dst \/ dst + k <= a ->
  load n (memmove m dst src k) a = load n m a.
Proof.
  intros H. apply load_ext. intros x Hx. unfold memmove.
  destruct (Z.leb_spec dst x); destruct (Z.ltb_spec x (dst + k)); simpl;
    try reflexivity; lia.
Qed.

(** Rewriting of header reads through header writes. *)
Ltac unfold_fields :=
  unfold get_size, get_next, get_status, set_size, set_next, set_status,
    get_ptr_block, get_block_ptr,
    OFF_SIZE, OFF_NEXT, OFF_STATUS, BLOCK_META_SIZE in *.

Ltac mem_simpl :=
  unfold_fields;
  repeat first
    [ rewrite load8_store8
    | rewrite load4_store4
    | rewrite load_store_disj by (simpl Z.of_nat; lia)
    | rewrite load_memset_disj by (simpl Z.of_nat; lia) ].

Lemma get_size_range m b : 0 <= get_size m b < SIZE_MAX1.
Proof. unfold get_size. exact (load_bound 8 m _). Qed.

Lemma get_next_range m b : 0 <= get_next m b < SIZE_MAX1.
Proof. unfold get_next. exact (load_bound 8 m _). Qed.

(** ** Walking the block list *)

Lemma chain_nonzero m a l : chain m a l -> ~ In 0 l.
Proof.
  induction 1 as [| a l Ha Hc IH]; simpl; [tauto |].
  intros [H | H]; [congruence | tauto].
Qed.

Lemma chain_head m a l : chain m a l -> a = hd 0 l.
Proof. destruct 1; reflexivity. Qed.

Lemma chain_frame m m' a l :
  chain m a l ->
  (forall b, In b l -> get_next m' b = get_next m b) ->
  chain m' a l.
Proof.
  induction 1 as [| a l Ha Hc IH]; intros H; constructor; trivial.
  rewrite H by (left; reflexivity). apply IH. intros b Hb. apply H. now right.
Qed.

Lemma chain_nil_inv m l : chain m 0 l -> l = [].
Proof. inversion 1; [reflexivity | congruence]. Qed.

Lemma chain_cons_inv m a l :
  chain m a l -> a <> 0 -> exists l0, l = a :: l0 /\ chain m (get_next m a) l0.
Proof. inversion 1; subst; [congruence | eauto]. Qed.

Lemma chain_unique m a l1 l2 : chain m a l1 -> chain m a l2 -> l1 = l2.
Proof.
  intros H. revert l2. induction H as [| a l Ha Hc IH]; intros l2 H2.
  - inversion H2; [reflexivity | congruence].
  - inversion H2; subst; [congruence |]. f_equal. now apply IH.
Qed.

Lemma last_default_irrelevant (x : Z) l d1 d2 :
  last (x :: l) d1 = last (x :: l) d2.
Proof.
  revert x. induction l as [| y l IH]; intros x; [reflexivity |].
  change (last (y :: l) d1 = last (y :: l) d2). apply IH.
Qed.

Lemma last_cons (a : Z) l d : last (a :: l) d = last l a.
Proof.
  destruct l as [| x l]; [reflexivity |].
  change (last (x :: l) d = last (x :: l) a). apply last_default_irrelevant.
Qed.

Lemma walk_to_end_chain fuel m a l prev :
  chain m a l -> (length l < fuel)%nat ->
  walk_to_end fuel m a prev = Some (last l prev).
Proof.
  intros H. revert fuel prev.
  induction H as [| a l Ha Hc IH]; intros fuel prev Hf.
  - destruct fuel; [simpl in Hf; lia | reflexivity].
  - destruct fuel; [simpl in Hf; lia |]. cbn [walk_to_end].
    destruct (Z.eqb_spec a 0); [contradiction |].
    rewrite IH by (simpl in Hf; lia).
    f_equal. symmetry. apply last_cons.
Qed.

Lemma member_loop_chain fuel m a l b :
  chain m a l -> (length l < fuel)%nat ->
  member_loop fuel m b a = Some (if in_dec Z.eq_dec b l then 1 else 0).
Proof.
  intros H. revert fuel.
  induction H as [| a l Ha Hc IH]; intros fuel Hf.
  - destruct fuel; [simpl in Hf; lia | reflexivity].
  - destruct fuel; [simpl in Hf; lia |]. cbn [member_loop].
    destruct (Z.eqb_spec a 0); [contradiction |].
    destruct (Z.eqb_spec a b) as [-> | Hab].
    + destruct (in_dec Z.eq_dec b (b :: l)) as [_ | Hn]; [reflexivity |].
      exfalso. apply Hn. now left.
    + rewrite IH by (simpl in Hf; lia).
      destruct (in_dec Z.eq_dec b l) as [Hi | Hi];
        destruct (in_dec Z.eq_dec b (a :: l)) as [Hj | Hj];
        try reflexivity; exfalso.
      * apply Hj. now right.
      * destruct Hj; [congruence | contradiction].
Qed.

Lemma best_loop_chain fuel m size a l best lst :
  chain m a l -> (length l < fuel)%nat ->
  best_loop fuel m size a best lst = Some (best_of m size l best, last l lst).
Proof.
  intros H. revert fuel best lst.
  induction H as [| a l Ha Hc IH]; intros fuel best lst Hf.
  - destruct fuel; [simpl in Hf; lia | reflexivity].
  - destruct fuel; [simpl in Hf; lia |]. cbn [best_loop best_of].
    destruct (Z.eqb_spec a 0); [contradiction |].
    rewrite IH by (simpl in Hf; lia). f_equal. f_equal.
    symmetry. apply last_cons.
Qed.

(** ** Frames *)

Lemma w64_mod8 x : w64 x mod 8 = x mod 8.
Proof.
  unfold w64, SIZE_MAX1. apply Z.mod_mod_divide.
  exists (2 ^ 61). reflexivity.
Qed.

Lemma w64_idem x : w64 (w64 x) = w64 x.
Proof. apply w64_small, w64_range. Qed.

Lemma sep_cons_inv a l : sep (a :: l) -> Forall (hdr_disjoint a) l /\ sep l.
Proof. exact (fun H => H). Qed.

Lemma hdr_disjoint_sym a b : hdr_disjoint a b -> hdr_disjoint b a.
Proof. unfold hdr_disjoint. tauto. Qed.

Lemma framed_refl m l : framed m m l.
Proof. intros x _. reflexivity. Qed.

Lemma framed_trans m1 m2 m3 l :
  framed m1 m2 l -> framed m2 m3 l -> framed m1 m3 l.
Proof. intros H1 H2 x Hx. rewrite H2, H1 by assumption. reflexivity. Qed.

Lemma framed_incl m m' l l' : incl l l' -> framed m m' l -> framed m m' l'.
Proof. intros Hi H x Hx. apply H. intros b Hb. apply Hx, Hi, Hb. Qed.

Lemma outside_disjoint l b x :
  Forall (hdr_disjoint b) l -> b <= x < b + BLOCK_META_SIZE -> outside l x.
Proof.
  intros Hd Hx c Hc. rewrite Forall_forall in Hd. specialize (Hd c Hc).
  unfold hdr_disjoint in Hd. lia.
Qed.

Lemma framed_fields m m' l b :
  framed m m' l -> Forall (hdr_disjoint b) l ->
  get_next m' b = get_next m b /\
  get_size m' b = get_size m b /\
  get_status m' b = get_status m b.
Proof.
  intros Hf Hd.
  repeat split; unfold get_next, get_size, get_status;
    apply load_ext; intros x Hx; apply Hf; apply (outside_disjoint l b);
    trivial; unfold OFF_NEXT, OFF_SIZE, OFF_STATUS, BLOCK_META_SIZE in *;
    simpl Z.of_nat in Hx; lia.
Qed.

Lemma store_framed n m a v b :
  b <= a -> a + n <= b + BLOCK_META_SIZE -> framed m (store n m a v) [b].
Proof.
  intros H1 H2 x Hx. apply store_outside.
  specialize (Hx b (or_introl eq_refl)). lia.
Qed.

Lemma coalesce_blocks_spec m a b :
  hdr_disjoint a b ->
  get_next (coalesce_blocks m a b) a = get_next m b /\
  get_status (coalesce_blocks m a b) a = STATUS_FREE /\
  get_size (coalesce_blocks m a b) a
  = w64 (get_size m a + w64 (get_size m b + ALIGN BLOCK_META_SIZE)) /\
  framed m (coalesce_blocks m a b) [a].
Proof.
  intros Hd. unfold hdr_disjoint in Hd. unfold coalesce_blocks.
  repeat split.
  - pose proof (get_next_range m b) as Hr. mem_simpl.
    apply w64_small. exact Hr.
  - mem_simpl. reflexivity.
  - pose proof (w64_range (get_size m a
                           + w64 (get_size m b + ALIGN BLOCK_META_SIZE))).
    mem_simpl. apply w64_idem.
  - eapply framed_trans; [eapply framed_trans |];
      apply store_framed; unfold_fields; lia.
Qed.

Lemma chain_framed m m' a l l0 :
  chain m a l -> framed m m' l0 ->
  (forall b, In b l -> Forall (hdr_disjoint b) l0) ->
  chain m' a l.
Proof.
  intros Hc Hf Hd. apply (chain_frame m); trivial.
  intros b Hb. apply (framed_fields m m' l0 b); auto.
Qed.

Lemma merged_size_mod8 x y :
  x mod 8 = 0 -> y mod 8 = 0 ->
  w64 (x + w64 (y + ALIGN BLOCK_META_SIZE)) mod 8 = 0.
Proof.
  intros Hx Hy. rewrite ALIGN_header. unfold BLOCK_META_SIZE.
  rewrite w64_mod8, Z.add_mod, w64_mod8 by lia.
  rewrite Hx, (Z.add_mod y 24), Hy by lia. reflexivity.
Qed.

(** ** Blocks laid out back to back *)

Lemma contig_fields m m' l top :
  (forall b, In b l -> get_size m' b = get_size m b) ->
  contig m l top -> contig m' l top.
Proof.
  induction l as [| a l IH]; intros Hf Hc; [exact I |].
  destruct Hc as (Ha & Hn & Hc). simpl.
  rewrite (Hf a (or_introl eq_refl)).
  repeat split; trivial. apply IH; trivial. intros b Hb. apply Hf. now right.
Qed.

Lemma contig_hd_le m l top : contig m l top -> hd top l <= top.
Proof.
  destruct l as [| a l]; simpl; [lia |]. intros (Ha & Hn & Hc).
  pose proof (get_size_range m a). unfold BLOCK_META_SIZE in *.
  revert a Ha Hn H. induction l as [| c l IH]; intros a Ha Hn H; simpl in *.
  - lia.
  - destruct Hc as (Hc0 & Hcn & Hc).
    pose proof (get_size_range m c) as Hr.
    specialize (IH Hc c Hc0 Hcn Hr). lia.
Qed.

Lemma contig_top m l top b :
  contig m l top -> In b l ->
  0 < b /\ b + BLOCK_META_SIZE + get_size m b <= top.
Proof.
  induction l as [| a l IH]; intros Hc Hin; [destruct Hin |].
  destruct Hc as (Ha & Hn & Hc). destruct Hin as [<- | Hin]; [| auto].
  split; [exact Ha |]. rewrite Hn. apply (contig_hd_le m l top Hc).
Qed.

Lemma chain_hd_eq m1 m2 a l1 l2 d :
  chain m1 a l1 -> chain m2 a l2 -> hd d l1 = hd d l2.
Proof.
  intros H1 H2. destruct H1 as [| a l Ha Hc].
  - apply chain_nil_inv in H2. subst l2. reflexivity.
  - destruct (chain_cons_inv _ _ _ H2 Ha) as (l0 & -> & _). reflexivity.
Qed.

Lemma contig_after m l top a b :
  contig m (a :: l) top -> In b l ->
  a + BLOCK_META_SIZE + get_size m a <= b.
Proof.
  revert a. induction l as [| c l IH]; intros a Hc Hin; [destruct Hin |].
  destruct Hc as (Ha & Hn & Hc). simpl in Hn.
  destruct Hin as [<- | Hin]; [lia |].
  specialize (IH c Hc Hin). pose proof (get_size_range m c).
  unfold BLOCK_META_SIZE in *. lia.
Qed.

Lemma contig_sep m l top : contig m l top -> sep l.
Proof.
  induction l as [| a l IH]; intros Hc; [exact I |].
  split; [| apply IH; apply Hc].
  apply Forall_forall. intros b Hb.
  pose proof (contig_after m l top a b Hc Hb).
  pose proof (get_size_range m a). unfold hdr_disjoint, BLOCK_META_SIZE in *.
  lia.
Qed.

(** ** The coalesce pass keeps the list a list *)

Lemma coalesce_loop_chain fuel : forall m a l,
  chain m a l -> sep l -> (length l < fuel)%nat ->
  exists m' l',
    coalesce_loop fuel m a = Some m' /\
    chain m' a l' /\ incl l' l /\ sep l' /\ (l <> [] -> l' <> []) /\
    framed m m' l /\
    (forall b, In b l -> get_status m' b = get_status m b) /\
    ((forall b, In b l -> get_size m b mod 8 = 0) ->
     forall b, In b l' -> get_size m' b mod 8 = 0) /\
    (length l' <= length l)%nat /\
    (forall top, top < 2 ^ 63 -> contig m l top -> contig m' l' top).
Proof.
  induction fuel as [| f IH]; intros m a l Hc Hs Hf; [lia |].
  cbn [coalesce_loop].
  destruct (Z.eqb_spec a 0) as [-> | Ha].
  { apply chain_nil_inv in Hc. subst l. exists m, [].
    repeat split; auto using framed_refl; try constructor; try easy. }
  destruct (chain_cons_inv _ _ _ Hc Ha) as (l0 & -> & Hc0).
  destruct Hs as [Hda Hs0].
  destruct (Z.eqb_spec (get_next m a) 0) as [Hn | Hn].
  { rewrite Hn in Hc0. apply chain_nil_inv in Hc0. subst l0. exists m, [a].
    repeat split; auto using framed_refl, incl_refl; try easy;
      try (constructor; trivial; rewrite Hn; constructor);
      match goal with H : contig _ _ _ |- _ => apply H end. }
  destruct (chain_cons_inv _ _ _ Hc0 Hn) as (rest & -> & Hc1).
  set (nx := get_next m a) in *.
  destruct Hs0 as [Hdn Hs1].
  pose proof (Forall_inv Hda) as Hanx.
  pose proof (Forall_inv_tail Hda) as Harest.
  match goal with |- context [coalesce_loop f ?mm _] => set (m1 := mm) end.
  destruct ((get_status m a =? STATUS_FREE) && (get_status m nx =? STATUS_FREE))
    eqn:Hfree.
  - (* the pair is merged; the scan resumes after the absorbed block *)
    apply andb_true_iff in Hfree. destruct Hfree as [Hfa Hfn].
    apply Z.eqb_eq in Hfa.
    destruct (coalesce_blocks_spec m a nx Hanx) as (Enext & Est & Esz & Hfr).
    fold m1 in Enext, Est, Esz, Hfr. rewrite Enext.
    assert (Hc1' : chain m1 (get_next m nx) rest).
    { apply (chain_framed m m1 _ rest [a]); trivial.
      intros b Hb. constructor; [| constructor].
      rewrite Forall_forall in Harest. apply hdr_disjoint_sym. auto. }
    destruct (IH m1 (get_next m nx) rest Hc1' Hs1) as
      (m2 & l2 & E & Hc2 & Hi2 & Hs2 & _ & Hfr2 & Hst2 & Hsz2 & Hlen2 & Hct2);
      [simpl in Hf; lia |].
    destruct (framed_fields m1 m2 rest a Hfr2 Harest) as (En2 & Es2 & Et2).
    destruct (framed_fields m1 m2 rest nx Hfr2 Hdn) as (_ & _ & Etn2).
    assert (Hct : forall top, top < 2 ^ 63 ->
                    contig m (a :: nx :: rest) top ->
                    0 < a /\
                    a + BLOCK_META_SIZE + get_size m2 a = hd top l2 /\
                    contig m2 l2 top).
    { intros top Htop (Ha0 & Han & Hnx0 & Hnn & Hcr).
      simpl in Han.
      assert (Hcr1 : contig m1 rest top).
      { apply (contig_fields m); trivial. intros c Hc'.
        apply (framed_fields m m1 [a] c Hfr).
        constructor; [| constructor]. apply hdr_disjoint_sym.
        rewrite Forall_forall in Harest. auto. }
      pose proof (contig_hd_le m rest top Hcr) as Hle.
      pose proof (get_size_range m a) as Hra.
      pose proof (get_size_range m nx) as Hrn.
      split; [exact Ha0 |]. split; [| exact (Hct2 top Htop Hcr1)].
      rewrite Es2, Esz, ALIGN_header.
      rewrite (chain_hd_eq m2 m (get_next m nx) l2 rest top Hc2 Hc1).
      unfold BLOCK_META_SIZE, SIZE_MAX1 in *.
      rewrite (w64_small (get_size m nx + 24)) by (unfold SIZE_MAX1; lia).
      rewrite w64_small by (unfold SIZE_MAX1; lia). lia. }
    exists m2, (a :: l2). repeat split.
    + exact E.
    + constructor; trivial. rewrite En2, Enext. exact Hc2.
    + intros b [<- | Hb]; [now left | right; right; auto].
    + rewrite Forall_forall in *. intros b Hb. auto.
    + exact Hs2.
    + discriminate.
    + intros x Hx. rewrite Hfr2, Hfr; trivial.
      * intros b [<- | []]. apply Hx. now left.
      * intros b Hb. apply Hx. right. now right.
    + intros b [<- | [<- | Hb]].
      * rewrite Et2, Est. symmetry. exact Hfa.
      * rewrite Etn2.
        apply (framed_fields m m1 [a] nx Hfr).
        constructor; [apply hdr_disjoint_sym; exact Hanx | constructor].
      * rewrite Hst2 by exact Hb.
        apply (framed_fields m m1 [a] b Hfr).
        constructor; [| constructor]. apply hdr_disjoint_sym.
        rewrite Forall_forall in Harest. auto.
    + intros H8 b [<- | Hb].
      * rewrite Es2, Esz. apply merged_size_mod8; apply H8; simpl; auto.
      * apply Hsz2; trivial. intros c Hc'.
        replace (get_size m1 c) with (get_size m c);
          [apply H8; right; now right |].
        symmetry. apply (framed_fields m m1 [a] c Hfr).
        constructor; [| constructor]. apply hdr_disjoint_sym.
        rewrite Forall_forall in Harest. auto.
    + simpl in *. lia.
    + apply (Hct top); assumption.
    + apply (Hct top); assumption.
    + apply (Hct top); assumption.
  - (* no merge; the scan moves to the next block *)
    subst m1. fold nx.
    destruct (IH m nx (nx :: rest) Hc0 (conj Hdn Hs1)) as
      (m2 & l2 & E & Hc2 & Hi2 & Hs2 & _ & Hfr2 & Hst2 & Hsz2 & Hlen2 & Hct2);
      [simpl in Hf |- *; lia |].
    destruct (framed_fields m m2 (nx :: rest) a Hfr2 Hda) as (En2 & Es2 & Et2).
    assert (Hct : forall top, top < 2 ^ 63 ->
                    contig m (a :: nx :: rest) top ->
                    0 < a /\
                    a + BLOCK_META_SIZE + get_size m2 a = hd top l2 /\
                    contig m2 l2 top).
    { intros top Htop (Ha0 & Han & Hcr).
      split; [exact Ha0 |]. split; [| exact (Hct2 top Htop Hcr)].
      rewrite Es2. simpl in Han. rewrite Han.
      rewrite (chain_hd_eq m2 m nx l2 (nx :: rest) top Hc2 Hc0). reflexivity. }
    exists m2, (a :: l2). repeat split.
    + exact E.
    + constructor; trivial. rewrite En2. exact Hc2.
    + intros b [<- | Hb]; [now left | right; auto].
    + rewrite Forall_forall in *. intros b Hb. auto.
    + exact Hs2.
    + discriminate.
    + intros x Hx. apply Hfr2. intros b Hb. apply Hx. now right.
    + intros b [<- | Hb]; [exact Et2 | auto].
    + intros H8 b [<- | Hb].
      * rewrite Es2. apply H8. now left.
      * apply Hsz2; trivial. intros c Hc'. apply H8. now right.
    + simpl in *. lia.
    + apply (Hct top); assumption.
    + apply (Hct top); assumption.
    + apply (Hct top); assumption.
Qed.

(** ** Best fit *)

Section BestFit.

Variable m : mem.
Variable size : Z.

Lemma fits_bool c :
  (get_status m c =? STATUS_FREE) && (size <=? get_size m c) = true
  <-> fits m size c.
Proof.
  unfold fits. rewrite andb_true_iff, Z.eqb_eq, Z.leb_le. reflexivity.
Qed.

Lemma best_of_spec : forall l pre best,
  ~ In 0 l ->
  best_fit_of m size pre best ->
  best_fit_of m size (pre ++ l) (best_of m size l best).
Proof.
  induction l as [| c l IH]; intros pre best Hnz Hb.
  - rewrite app_nil_r. exact Hb.
  - cbn [best_of].
    replace (pre ++ c :: l) with ((pre ++ [c]) ++ l)
      by (rewrite <- app_assoc; reflexivity).
    assert (Hc : c <> 0) by (intros ->; apply Hnz; now left).
    apply IH; [intros H; apply Hnz; now right |].
    destruct ((get_status m c =? STATUS_FREE) && (size <=? get_size m c))
      eqn:Hfit.
    + apply fits_bool in Hfit.
      destruct Hb as [[-> Hnone] | (Hbn & l1 & l2 & -> & Hfb & Hlt & Hle)].
      * right. split; [exact Hc |]. exists pre, [].
        split; [reflexivity |]. split; [exact Hfit |]. split.
        -- intros x Hx Hfx. exfalso. exact (Hnone x Hx Hfx).
        -- intros x [].
      * destruct (Z.eqb_spec best 0) as [| _]; [contradiction |].
        destruct (Z.ltb_spec (get_size m c) (get_size m best)) as [Hlt' | Hge].
        -- right. split; [exact Hc |]. exists (l1 ++ best :: l2), [].
           split; [reflexivity |]. split; [exact Hfit |]. split.
           ++ intros x Hx Hfx. apply in_app_or in Hx.
              destruct Hx as [Hx | [<- | Hx]].
              ** specialize (Hlt x Hx Hfx). lia.
              ** exact Hlt'.
              ** specialize (Hle x Hx Hfx). lia.
           ++ intros x [].
        -- right. split; [exact Hbn |]. exists l1, (l2 ++ [c]).
           split; [rewrite <- app_assoc; reflexivity |].
           split; [exact Hfb |]. split; [exact Hlt |].
           intros x Hx Hfx. apply in_app_or in Hx.
           destruct Hx as [Hx | [<- | []]]; [auto | exact Hge].
    + assert (Hnf : ~ fits m size c)
        by (intros H; apply fits_bool in H; congruence).
      destruct Hb as [[-> Hnone] | (Hbn & l1 & l2 & -> & Hfb & Hlt & Hle)].
      * left. split; [reflexivity |]. intros x Hx. apply in_app_or in Hx.
        destruct Hx as [Hx | [<- | []]]; auto.
      * right. split; [exact Hbn |]. exists l1, (l2 ++ [c]).
        split; [rewrite <- app_assoc; reflexivity |].
        split; [exact Hfb |]. split; [exact Hlt |].
        intros x Hx Hfx. apply in_app_or in Hx.
        destruct Hx as [Hx | [<- | []]]; [auto | contradiction].
Qed.

Lemma best_of_best_fit a l :
  chain m a l -> best_fit_of m size l (best_of m size l 0).
Proof.
  intros Hc. apply (best_of_spec l [] 0).
  - exact (chain_nonzero m a l Hc).
  - left. split; [reflexivity |]. intros c [].
Qed.

End BestFit.

Lemma coalesce_memory_chain fuel s l :
  chain (memory s) (head s) l -> sep l -> (length l < fuel)%nat ->
  exists m' l',
    coalesce_memory fuel s = Ok tt (with_memory s m') /\
    chain m' (head s) l' /\ incl l' l /\ sep l' /\ (l <> [] -> l' <> []) /\
    framed (memory s) m' l /\
    (forall b, In b l -> get_status m' b = get_status (memory s) b) /\
    ((forall b, In b l -> get_size (memory s) b mod 8 = 0) ->
     forall b, In b l' -> get_size m' b mod 8 = 0) /\
    (length l' <= length l)%nat /\
    (forall top, top < 2 ^ 63 ->
                 contig (memory s) l top -> contig m' l' top).
Proof.
  intros Hc Hs Hf.
  destruct (coalesce_loop_chain fuel _ _ _ Hc Hs Hf) as (m' & l' & E & H).
  exists m', l'. split; [| exact H].
  unfold coalesce_memory. rewrite E. reflexivity.
Qed.



(** ** The early returns of the public operations *)

(** C8. [os_malloc(0)] returns the null pointer and the state it leaves is
    the state it was called in: memory and block list, [head],
    [heap_preallocated], [MAP_THRESHOLD], the program break and the log of
    system calls are all unchanged. *)
Theorem os_malloc_zero fuel s : os_malloc fuel 0 s = Ok 0 s.
Proof. reflexivity. Qed.

(** C9. On a non-null payload [p] whose header is [ALLOCATED] or [MAPPED],
    [os_realloc(p, n)] with [n] non-zero and [ALIGN(n)] equal to the
    payload size recorded in the header returns [p] in an unchanged state;
    in particular this holds for [n] the current payload size itself, a
    positive multiple of 8. *)
Theorem os_realloc_same_size fuel s p :
  p <> 0 ->
  get_status (memory s) (get_block_ptr p) = STATUS_ALLOC
  \/ get_status (memory s) (get_block_ptr p) = STATUS_MAPPED ->
  (forall n, 0 < n -> ALIGN n = get_size (memory s) (get_block_ptr p) ->
             os_realloc fuel p n s = Ok p s) /\
  (0 < get_size (memory s) (get_block_ptr p) ->
   get_size (memory s) (get_block_ptr p) mod 8 = 0 ->
   os_realloc fuel p (get_size (memory s) (get_block_ptr p)) s = Ok p s).
Proof.
  intros Hp Hst.
  assert (H : forall n, 0 < n ->
                        ALIGN n = get_size (memory s) (get_block_ptr p) ->
                        os_realloc fuel p n s = Ok p s).
  { intros n Hpos Hn. unfold os_realloc.
    destruct (Z.eqb_spec p 0); [contradiction |].
    destruct (Z.eqb_spec n 0); [lia |].
    unfold bind, rd, ret.
    destruct Hst as [-> | ->]; simpl; rewrite Hn, Z.eqb_refl; reflexivity. }
  split; [exact H |].
  intros Hpos H8. apply H; [exact Hpos |].
  apply ALIGN_fixed; [apply get_size_range | exact H8].
Qed.

Lemma os_realloc_same_size_witness :
  (forall n, 0 < n ->
     ALIGN n = get_size (memory after_malloc_100) (get_block_ptr 4096024) ->
     os_realloc 8 4096024 n after_malloc_100 = Ok 4096024 after_malloc_100) /\
  (0 < get_size (memory after_malloc_100) (get_block_ptr 4096024) ->
   get_size (memory after_malloc_100) (get_block_ptr 4096024) mod 8 = 0 ->
   os_realloc 8 4096024
     (get_size (memory after_malloc_100) (get_block_ptr 4096024))
     after_malloc_100 = Ok 4096024 after_malloc_100).
Proof.
  apply (os_realloc_same_size 8 after_malloc_100 4096024).
  - lia.
  - left. vm_compute. reflexivity.
Defined.

(** C7. [os_free] leaves the state unchanged when the pointer is null and
    when its header is not one of the blocks of the list; [os_realloc] with
    a non-zero size on a header whose status is [FREE] returns the null
    pointer and leaves the state unchanged. *)
Theorem os_free_ignores_unknown fuel s :
  os_free fuel 0 s = Ok tt s /\
  (forall l p,
     chain (memory s) (head s) l -> (length l < fuel)%nat ->
     ~ In (get_block_ptr p) l ->
     os_free fuel p s = Ok tt s) /\
  (forall p n,
     p <> 0 -> 0 < n ->
     get_status (memory s) (get_block_ptr p) = STATUS_FREE ->
     os_realloc fuel p n s = Ok 0 s).
Proof.
  split; [reflexivity |]. split.
  - intros l p Hc Hf Hn. unfold os_free.
    destruct (Z.eqb_spec p 0); [reflexivity |].
    unfold bind, is_block_in_memory, lift_opt.
    rewrite (member_loop_chain fuel _ _ l _ Hc Hf).
    destruct (in_dec Z.eq_dec (get_block_ptr p) l); [contradiction |].
    reflexivity.
  - intros p n Hp Hn Hst. unfold os_realloc.
    destruct (Z.eqb_spec p 0); [contradiction |].
    destruct (Z.eqb_spec n 0); [lia |].
    unfold bind, rd. rewrite Hst. reflexivity.
Qed.

Lemma os_free_ignores_unknown_witness :
  os_free 8 0 after_one_free = Ok tt after_one_free /\
  os_free 8 12345 after_one_free = Ok tt after_one_free /\
  os_realloc 8 4096024 10 after_one_free = Ok 0 after_one_free.
Proof.
  destruct (os_free_ignores_unknown 8 after_one_free) as (H1 & H2 & H3).
  split; [exact H1 |]. split.
  - apply (H2 [4096000; 4096224; 4096552]).
    + repeat (apply chain_cons; [vm_compute; discriminate |]).
      apply chain_nil.
    + simpl. lia.
    + vm_compute. intuition discriminate.
  - apply H3; [lia | lia | vm_compute; reflexivity].
Defined.



(** ** Acquiring memory from the system *)

Lemma bind_ok {A B} (c : M A) (k : A -> M B) s a s' :
  c s = Ok a s' -> bind c k s = k a s'.
Proof. intros H. unfold bind. rewrite H. reflexivity. Qed.

Ltac run :=
  unfold bind, wr, rd, ret, die, get_mem, lift_opt, with_memory, with_head,
    with_prealloc, with_threshold;
  cbn [memory head heap_preallocated MAP_THRESHOLD brk brk_limit map_next
       map_limit page_size trace fst snd].

Lemma init_header m b sz nx st :
  0 <= st < 2 ^ 32 ->
  let m' := set_status (set_next (set_size m b sz) b nx) b st in
  get_size m' b = w64 sz /\ get_next m' b = w64 nx /\ get_status m' b = st /\
  framed m m' [b].
Proof.
  intros Hst m'. subst m'. repeat split.
  - mem_simpl. reflexivity.
  - mem_simpl. reflexivity.
  - mem_simpl. apply Z.mod_small. exact Hst.
  - eapply framed_trans; [eapply framed_trans |];
      apply store_framed; unfold_fields; lia.
Qed.

Lemma os_sane_bounds s :
  os_sane s ->
  0 < brk s < 2 ^ 63 /\ 0 < map_next s /\ map_next s mod 8 = 0.
Proof.
  intros (Hp & Hp8 & Hp63 & Hb & Hb8 & Hbl & Hlm & Hmp & Hml & Hm63).
  unfold BLOCK_META_SIZE in *. repeat split; try lia.
  apply Z.mod_divide in Hmp; [| lia]. apply Z.mod_divide in Hp8; [| lia].
  apply Z.mod_divide; [lia |]. eapply Z.divide_trans; eassumption.
Qed.

(** ** The granted memory *)

Lemma page_up_ge s x : 0 < page_size s -> x <= page_up s x.
Proof.
  intros Hp. unfold page_up.
  pose proof (Z.div_mod (x + page_size s - 1) (page_size s) ltac:(lia)) as E.
  pose proof (Z.mod_pos_bound (x + page_size s - 1) (page_size s) Hp).
  rewrite (Z.mul_comm (page_size s)) in E. lia.
Qed.

Lemma page_up_mono s x y :
  0 < page_size s -> x <= y -> page_up s x <= page_up s y.
Proof.
  intros Hp Hle. unfold page_up.
  apply Z.mul_le_mono_nonneg_r; [lia |].
  apply Z.div_le_mono; lia.
Qed.

Lemma live_app P t1 : forall t2 acc a n,
  live P (t1 ++ t2) acc a n = live P t2 (live P t1 acc a n) a n.
Proof.
  induction t1 as [| e t1 IH]; intros t2 acc a n; [reflexivity |].
  destruct e; simpl; apply IH.
Qed.

Lemma granted_with_memory s m a n :
  granted (with_memory s m) a n = granted s a n.
Proof. reflexivity. Qed.

Lemma granted_heap s a n :
  0 < a -> 0 <= n -> a + n <= page_up s (brk s) -> granted s a n = true.
Proof.
  intros Ha Hn Hle. unfold granted.
  apply andb_true_iff. split.
  - apply andb_true_iff. split; [apply Z.ltb_lt | apply Z.leb_le]; lia.
  - apply orb_true_iff. left. apply Z.leb_le. exact Hle.
Qed.

Lemma granted_mapping s tr addr len a n :
  trace s = tr ++ [Mmap addr len] -> addr <> ALLOCATION_FAILED ->
  0 < a -> 0 <= n -> addr <= a ->
  a + n <= addr + (len + page_size s - 1) / page_size s * page_size s ->
  granted s a n = true.
Proof.
  intros Et Hf Ha Hn Hlo Hhi. unfold granted. rewrite Et, live_app.
  apply andb_true_iff. split.
  - apply andb_true_iff. split; [apply Z.ltb_lt | apply Z.leb_le]; lia.
  - apply orb_true_iff. right. simpl. apply orb_true_iff. right.
    apply andb_true_iff. split; [apply negb_true_iff, Z.eqb_neq; exact Hf |].
    unfold covers. apply andb_true_iff. split; apply Z.leb_le; lia.
Qed.

Lemma live_shrink P tr : forall acc acc' a n n',
  (acc = true -> acc' = true) -> n' <= n ->
  live P tr acc a n = true -> live P tr acc' a n' = true.
Proof.
  induction tr as [| e tr IH]; intros acc acc' a n n' Hacc Hn;
    [exact Hacc |].
  destruct e as [d | addr len | addr len]; cbn [live].
  - apply IH; assumption.
  - apply IH; [| exact Hn]. intros H.
    apply orb_true_iff in H. apply orb_true_iff.
    destruct H as [H | H]; [left; auto |]. right.
    apply andb_true_iff in H. destruct H as [H1 H2].
    apply andb_true_iff. split; [exact H1 |].
    unfold covers in *. apply andb_true_iff in H2. destruct H2 as [H2 H3].
    apply Z.leb_le in H2, H3.
    apply andb_true_iff. split; apply Z.leb_le; lia.
  - apply IH; [| exact Hn]. intros H.
    apply andb_true_iff in H. destruct H as [H1 H2].
    apply andb_true_iff. split; [auto |].
    apply orb_true_iff in H2. apply orb_true_iff.
    destruct H2 as [H2 | H2]; [left; exact H2 |]. right.
    apply negb_true_iff in H2. apply negb_true_iff.
    unfold overlaps in *. apply andb_false_iff in H2. apply andb_false_iff.
    destruct H2 as [H2 | H2]; [left; exact H2 |]. right.
    apply Z.ltb_ge in H2. apply Z.ltb_ge. lia.
Qed.

(** A shorter store at the same address is granted as well. *)
Lemma granted_shrink s a n n' :
  0 <= n' <= n -> granted s a n = true -> granted s a n' = true.
Proof.
  intros Hn H. unfold granted in *.
  apply andb_true_iff in H. destruct H as [H1 H2].
  apply andb_true_iff in H1. destruct H1 as [H0 H1].
  apply andb_true_iff. split.
  - apply andb_true_iff. split; [exact H0 | apply Z.leb_le; lia].
  - apply orb_true_iff in H2. apply orb_true_iff.
    destruct H2 as [H2 | H2].
    + left. apply Z.leb_le in H2. apply Z.leb_le. lia.
    + right. apply (live_shrink _ _ false false a n n'); trivial. lia.
Qed.

Lemma store_to_ok s a n f :
  granted s a n = true ->
  store_to a n f s = Ok tt (with_memory s (f (memory s))).
Proof. intros G. unfold store_to. rewrite G. reflexivity. Qed.

(** The three stores that initialise a header, when they are granted. *)
Lemma header_init_ok {A} s b sz nx st (k : M A) :
  granted s (b + OFF_SIZE) 8 = true ->
  granted s (b + OFF_NEXT) 8 = true ->
  granted s (b + OFF_STATUS) 4 = true ->
  (store_to (b + OFF_SIZE) 8 (fun m => set_size m b sz) ;;;
   store_to (b + OFF_NEXT) 8 (fun m => set_next m b nx) ;;;
   store_to (b + OFF_STATUS) 4 (fun m => set_status m b st) ;;;
   k) s
  = k (with_memory s (set_status (set_next (set_size (memory s) b sz) b nx)
                        b st)).
Proof.
  intros G1 G2 G3. unfold bind at 1. unfold store_to at 1. rewrite G1.
  unfold bind at 1. unfold store_to at 1. rewrite granted_with_memory, G2.
  unfold bind at 1. unfold store_to at 1.
  rewrite !granted_with_memory, G3. reflexivity.
Qed.

(** Without that knowledge they fault or go through. *)
Lemma header_init_cases {A} s b sz nx st (k : M A) :
  let c := (store_to (b + OFF_SIZE) 8 (fun m => set_size m b sz) ;;;
            store_to (b + OFF_NEXT) 8 (fun m => set_next m b nx) ;;;
            store_to (b + OFF_STATUS) 4 (fun m => set_status m b st) ;;;
            k) in
  c s = Fault \/
  c s = k (with_memory s (set_status (set_next (set_size (memory s) b sz) b nx)
                            b st)).
Proof.
  intros c. subst c.
  destruct (granted s (b + OFF_SIZE) 8) eqn:G1;
    [| left; unfold bind at 1; unfold store_to at 1; rewrite G1; reflexivity].
  destruct (granted s (b + OFF_NEXT) 8) eqn:G2;
    [| left; unfold bind at 1; unfold store_to at 1; rewrite G1;
       unfold bind at 1; unfold store_to at 1;
       rewrite granted_with_memory, G2; reflexivity].
  destruct (granted s (b + OFF_STATUS) 4) eqn:G3;
    [right; apply header_init_ok; assumption |].
  left. unfold bind at 1. unfold store_to at 1. rewrite G1.
  unfold bind at 1. unfold store_to at 1. rewrite granted_with_memory, G2.
  unfold bind at 1. unfold store_to at 1.
  rewrite !granted_with_memory, G3. reflexivity.
Qed.

(** The header that [request_memory] writes at the old break lies in
    granted memory when it ends below the end of the page of the new
    break. *)
Lemma granted_at_break s total k n :
  0 < brk s -> 0 <= k -> 0 <= n -> k + n <= BLOCK_META_SIZE ->
  brk s + BLOCK_META_SIZE <= page_up s (brk s + total) ->
  granted
    (mkState (memory s) (head s) (heap_preallocated s) (MAP_THRESHOLD s)
       (brk s + total) (brk_limit s) (map_next s) (map_limit s)
       (page_size s) (trace s ++ [Sbrk total]))
    (brk s + k) n = true.
Proof.
  intros Hb Hk Hn Hkn Hfit. apply granted_heap; [lia | lia |].
  unfold page_up in *. cbn [brk page_size]. lia.
Qed.

(** [request_memory] on the [sbrk] path: the break moves and the header
    is stored at the old break. *)
Lemma request_memory_sbrk_step s size :
  os_sane s ->
  let total := w64 (ALIGN size + ALIGN BLOCK_META_SIZE) in
  total < MAP_THRESHOLD s -> total < 2 ^ 63 ->
  brk s + total <= brk_limit s ->
  request_memory size s
  = (store_to (brk s + OFF_SIZE) 8
       (fun m => set_size m (brk s) (ALIGN size)) ;;;
     store_to (brk s + OFF_NEXT) 8 (fun m => set_next m (brk s) 0) ;;;
     store_to (brk s + OFF_STATUS) 4
       (fun m => set_status m (brk s) STATUS_ALLOC) ;;;
     ret (brk s))
      (mkState (memory s) (head s) (heap_preallocated s) (MAP_THRESHOLD s)
         (brk s + total) (brk_limit s) (map_next s) (map_limit s)
         (page_size s) (trace s ++ [Sbrk total])).
Proof.
  intros Hos total Hthr H63 Hroom.
  destruct (os_sane_bounds s Hos) as (Hb & _ & _).
  pose proof (w64_range (ALIGN size + ALIGN BLOCK_META_SIZE)) as Ht.
  fold total in Ht.
  unfold request_memory. fold total. unfold bind at 1.
  destruct (Z.ltb_spec total (MAP_THRESHOLD s)) as [_ |]; [| lia].
  unfold bind at 1. unfold sbrk.
  destruct (Z.ltb_spec total (2 ^ 63)) as [_ |]; [| lia].
  replace ((0 <=? brk s + total) && (brk s + total <=? brk_limit s)) with true
    by (symmetry; apply andb_true_iff; split; apply Z.leb_le; lia).
  replace ((brk s =? ALLOCATION_FAILED) || (brk s =? 0)) with false
    by (symmetry; apply orb_false_iff; split; apply Z.eqb_neq;
        unfold ALLOCATION_FAILED, SIZE_MAX1; lia).
  reflexivity.
Qed.

(** On that path the process faults, or the call returns the old break
    with a header written there. *)
Lemma request_memory_sbrk_cases s size :
  os_sane s ->
  let total := w64 (ALIGN size + ALIGN BLOCK_META_SIZE) in
  total < MAP_THRESHOLD s -> total < 2 ^ 63 ->
  brk s + total <= brk_limit s ->
  request_memory size s = Fault \/
  exists m1,
    request_memory size s =
    Ok (brk s)
       (mkState m1 (head s) (heap_preallocated s) (MAP_THRESHOLD s)
          (brk s + total) (brk_limit s) (map_next s) (map_limit s)
          (page_size s) (trace s ++ [Sbrk total])) /\
    get_size m1 (brk s) = ALIGN size /\
    get_next m1 (brk s) = 0 /\
    get_status m1 (brk s) = STATUS_ALLOC /\
    framed (memory s) m1 [brk s].
Proof.
  intros Hos total Hthr H63 Hroom.
  rewrite (request_memory_sbrk_step s size Hos Hthr H63 Hroom). fold total.
  destruct (init_header (memory s) (brk s) (ALIGN size) 0 STATUS_ALLOC)
    as (E1 & E2 & E3 & E4); [unfold STATUS_ALLOC; lia |].
  match goal with |- ?c ?st = Fault \/ _ =>
    destruct (header_init_cases st (brk s) (ALIGN size) 0 STATUS_ALLOC
                (ret (brk s))) as [E | E]
  end; [left; exact E | right].
  rewrite E. run. eexists. split; [reflexivity |].
  rewrite E1, E2, E3. repeat split; trivial.
  apply w64_small, ALIGN_range.
Qed.

(** [request_memory] on the [sbrk] path, when the header fits the pages
    under the new break. *)
Lemma request_memory_sbrk s size :
  os_sane s ->
  let total := w64 (ALIGN size + ALIGN BLOCK_META_SIZE) in
  total < MAP_THRESHOLD s -> total < 2 ^ 63 ->
  brk s + total <= brk_limit s ->
  brk s + BLOCK_META_SIZE <= page_up s (brk s + total) ->
  exists m1,
    request_memory size s =
    Ok (brk s)
       (mkState m1 (head s) (heap_preallocated s) (MAP_THRESHOLD s)
          (brk s + total) (brk_limit s) (map_next s) (map_limit s)
          (page_size s) (trace s ++ [Sbrk total])) /\
    get_size m1 (brk s) = ALIGN size /\
    get_next m1 (brk s) = 0 /\
    get_status m1 (brk s) = STATUS_ALLOC /\
    framed (memory s) m1 [brk s].
Proof.
  intros Hos total Hthr H63 Hroom Hfit.
  destruct (os_sane_bounds s Hos) as (Hb & _ & _).
  rewrite (request_memory_sbrk_step s size Hos Hthr H63 Hroom). fold total.
  destruct (init_header (memory s) (brk s) (ALIGN size) 0 STATUS_ALLOC)
    as (E1 & E2 & E3 & E4); [unfold STATUS_ALLOC; lia |].
  rewrite header_init_ok;
    try (apply granted_at_break; trivial;
         unfold OFF_SIZE, OFF_NEXT, OFF_STATUS, BLOCK_META_SIZE; lia).
  run. eexists. split; [reflexivity |].
  rewrite E1, E2, E3. repeat split; trivial.
  apply w64_small, ALIGN_range.
Qed.

Lemma mapped_end_ge s n :
  0 < page_size s -> map_next s + n <= mapped_end s n.
Proof.
  intros Hp. unfold mapped_end.
  pose proof (Z.div_mod (n + page_size s - 1) (page_size s) ltac:(lia)) as E.
  pose proof (Z.mod_pos_bound (n + page_size s - 1) (page_size s) Hp).
  rewrite (Z.mul_comm (page_size s)) in E. lia.
Qed.

Lemma mapped_end_le s n :
  0 < page_size s -> mapped_end s n <= map_next s + n + page_size s - 1.
Proof.
  intros Hp. unfold mapped_end.
  pose proof (Z.div_mod (n + page_size s - 1) (page_size s) ltac:(lia)) as E.
  pose proof (Z.mod_pos_bound (n + page_size s - 1) (page_size s) Hp).
  rewrite (Z.mul_comm (page_size s)) in E. lia.
Qed.

Lemma mapped_end_aligned s n :
  0 < page_size s -> map_next s mod page_size s = 0 ->
  mapped_end s n mod page_size s = 0.
Proof.
  intros Hp Hm. unfold mapped_end. rewrite Z.mod_add by lia. exact Hm.
Qed.

(** [request_memory] on the [mmap] path. *)
Lemma request_memory_mmap s size :
  os_sane s ->
  let total := w64 (ALIGN size + ALIGN BLOCK_META_SIZE) in
  MAP_THRESHOLD s <= total -> BLOCK_META_SIZE <= total ->
  mapped_end s total <= map_limit s ->
  exists m1,
    request_memory size s =
    Ok (map_next s)
       (mkState m1 (head s) (heap_preallocated s) (MAP_THRESHOLD s) (brk s)
          (brk_limit s) (mapped_end s total)
          (map_limit s) (page_size s) (trace s ++ [Mmap (map_next s) total])) /\
    get_size m1 (map_next s) = ALIGN size /\
    get_next m1 (map_next s) = 0 /\
    get_status m1 (map_next s) = STATUS_MAPPED /\
    (forall x, x < map_next s -> m1 x = memory s x).
Proof.
  intros Hos total Hthr Htot Hend.
  destruct (os_sane_bounds s Hos) as (_ & Hm & Hm8).
  pose proof (mapped_end_ge s total (proj1 Hos)) as Hge.
  assert (Hnf : map_next s <> ALLOCATION_FAILED)
    by (intros E; rewrite E in Hm8; discriminate Hm8).
  unfold request_memory. fold total. unfold bind at 1.
  destruct (Z.ltb_spec total (MAP_THRESHOLD s)) as [| _]; [lia |].
  unfold bind at 1. unfold mmap.
  destruct (Z.eqb_spec total 0); [unfold BLOCK_META_SIZE in *; lia |].
  destruct (Z.ltb_spec (map_limit s) (mapped_end s total)); [lia |].
  cbn [orb].
  replace ((map_next s =? ALLOCATION_FAILED) || (map_next s =? 0)) with false
    by (symmetry; apply orb_false_iff; split; apply Z.eqb_neq;
        [intros E; rewrite E in Hm8; discriminate Hm8 | lia]).
  match goal with |- context [memset ?m ?p ?c ?n] => set (m0 := memset m p c n) end.
  destruct (init_header m0 (map_next s) (ALIGN size) 0 STATUS_MAPPED)
    as (E1 & E2 & E3 & E4); [unfold STATUS_MAPPED; lia |].
  rewrite header_init_ok;
    try (apply (granted_mapping _ (trace s) (map_next s) total);
         [reflexivity | exact Hnf | | | |];
         cbn [page_size]; unfold mapped_end in Hge;
         unfold OFF_SIZE, OFF_NEXT, OFF_STATUS, BLOCK_META_SIZE in *; lia).
  run. eexists. split; [reflexivity |].
  rewrite E1, E2, E3. repeat split; trivial.
  - apply w64_small, ALIGN_range.
  - intros x Hx. rewrite E4.
    + subst m0. unfold memset.
      destruct (Z.leb_spec (map_next s) x); [lia | reflexivity].
    + intros b [<- | []]. lia.
Qed.

Lemma get_block_ptr_inv b : get_block_ptr (get_ptr_block b) = b.
Proof. unfold get_block_ptr, get_ptr_block. lia. Qed.

Lemma set_next_next_same m p v :
  0 <= v < SIZE_MAX1 -> get_next (set_next m p v) p = v.
Proof. intros H. mem_simpl. apply w64_small. exact H. Qed.

(** [os_malloc] on the mapping path. *)
Lemma os_malloc_mmap fuel s size :
  os_sane s -> size <> 0 ->
  MAP_THRESHOLD s <= w64 (ALIGN size + ALIGN BLOCK_META_SIZE) ->
  BLOCK_META_SIZE <= w64 (ALIGN size + ALIGN BLOCK_META_SIZE) ->
  mapped_end s (w64 (ALIGN size + ALIGN BLOCK_META_SIZE)) <= map_limit s ->
  exists m2,
    os_malloc fuel size s
    = Ok (get_ptr_block (map_next s))
         (mkState m2 (map_next s) (heap_preallocated s) (MAP_THRESHOLD s)
            (brk s) (brk_limit s)
            (mapped_end s (w64 (ALIGN size + ALIGN BLOCK_META_SIZE)))
            (map_limit s) (page_size s)
            (trace s
             ++ [Mmap (map_next s)
                   (w64 (ALIGN size + ALIGN BLOCK_META_SIZE))])) /\
    get_size m2 (map_next s) = ALIGN size /\
    get_status m2 (map_next s) = STATUS_MAPPED /\
    (0 <= head s < SIZE_MAX1 -> get_next m2 (map_next s) = head s) /\
    (forall x, x < map_next s -> m2 x = memory s x).
Proof.
  intros Hos Hsz Hthr Htot Hend.
  destruct (os_sane_bounds s Hos) as (_ & Hm & Hm8).
  destruct (request_memory_mmap s size Hos Hthr Htot Hend)
    as (m1 & Ereq & Esz & Enx & Est & Hfr).
  set (total := w64 (ALIGN size + ALIGN BLOCK_META_SIZE)) in *.
  set (b := map_next s) in *.
  unfold os_malloc.
  destruct (Z.eqb_spec size 0); [contradiction |].
  fold total. unfold bind at 1.
  destruct (Z.ltb_spec total (MAP_THRESHOLD s)) as [| _]; [lia |].
  rewrite (bind_ok _ _ _ _ _ Ereq).
  destruct (Z.eqb_spec b 0); [lia |].
  unfold bind at 1. unfold add_memory_block. run. rewrite Est.
  change (STATUS_MAPPED =? STATUS_MAPPED) with true. cbv iota.
  destruct (Z.eqb_spec (head s) 0) as [E0 | _].
  - eexists. split; [reflexivity |]. rewrite E0. auto.
  - eexists. split; [reflexivity |].
    split; [| split; [| split]].
    + mem_simpl. assumption.
    + mem_simpl. assumption.
    + intros Hhead. apply set_next_next_same. exact Hhead.
    + intros x Hx. unfold set_next. rewrite store_outside by (unfold_fields; lia).
      apply Hfr. exact Hx.
Qed.

Lemma remove_loop_spec fuel : forall s cur prev l b,
  chain (memory s) cur l -> sep l -> In b l -> (length l < fuel)%nat ->
  cur = head s \/ (prev <> 0 /\ hdr_disjoint prev b) ->
  exists m' h',
    remove_loop fuel b cur prev s = Ok tt (with_head (with_memory s m') h') /\
    get_size m' b = get_size (memory s) b.
Proof.
  induction fuel as [| f IH]; intros s cur prev l b Hc Hs Hin Hf Hprev; [lia |].
  cbn [remove_loop].
  destruct (Z.eqb_spec cur 0) as [-> | Hcur].
  { apply chain_nil_inv in Hc. subst l. destruct Hin. }
  destruct (chain_cons_inv _ _ _ Hc Hcur) as (l0 & -> & Hc0).
  destruct Hs as [Hd Hs0].
  destruct (Z.eqb_spec cur b) as [-> | Hne].
  - destruct (Z.eqb_spec b (head s)) as [Hh | Hh].
    + run. eexists. eexists. split; [reflexivity |]. mem_simpl. reflexivity.
    + destruct Hprev as [? | [Hp Hdp]]; [contradiction |].
      destruct (Z.eqb_spec prev 0); [contradiction |].
      unfold hdr_disjoint in Hdp.
      exists (set_next (set_next (memory s) prev (get_next (memory s) b)) b 0),
        (head s).
      split; [destruct s; reflexivity |]. mem_simpl. reflexivity.
  - destruct Hin as [? | Hin]; [contradiction |].
    apply (IH s (get_next (memory s) cur) cur l0 b); trivial.
    + simpl in Hf. lia.
    + right. split; [exact Hcur |]. rewrite Forall_forall in Hd. auto.
Qed.

(** Freeing a block of the list whose status is [MAPPED]. *)
Lemma os_free_mapped fuel s l b :
  chain (memory s) (head s) l -> sep l -> In b l -> (length l < fuel)%nat ->
  get_status (memory s) b = STATUS_MAPPED ->
  0 < b -> b mod page_size s = 0 ->
  w64 (get_size (memory s) b + BLOCK_META_SIZE) <> 0 ->
  exists s2,
    os_free fuel (get_ptr_block b) s = Ok tt s2 /\
    trace s2
    = trace s
      ++ [Munmap b (w64 (get_size (memory s) b + BLOCK_META_SIZE))].
Proof.
  intros Hc Hs Hin Hf Hst Hb Hal Hlen.
  unfold os_free.
  destruct (Z.eqb_spec (get_ptr_block b) 0) as [E | _].
  { unfold get_ptr_block, BLOCK_META_SIZE in E. lia. }
  rewrite get_block_ptr_inv.
  unfold bind at 1. unfold is_block_in_memory, lift_opt.
  rewrite (member_loop_chain fuel _ _ l b Hc Hf).
  destruct (in_dec Z.eq_dec b l); [| contradiction].
  change (1 =? 0) with false. cbv iota.
  unfold bind at 1. unfold rd at 1. rewrite Hst.
  change (STATUS_MAPPED =? STATUS_ALLOC) with false.
  change (STATUS_MAPPED =? STATUS_MAPPED) with true. cbv iota.
  destruct (remove_loop_spec fuel s (head s) 0 l b Hc Hs Hin Hf (or_introl eq_refl))
    as (m' & h' & Erem & Esz).
  change (remove_memory_block fuel b s = Ok tt (with_head (with_memory s m') h'))
    in Erem.
  rewrite (bind_ok _ _ _ _ _ Erem).
  run. rewrite Esz. unfold munmap. run.
  destruct (Z.eqb_spec (w64 (get_size (memory s) b + BLOCK_META_SIZE)) 0);
    [contradiction |].
  rewrite Hal. change (0 =? 0) with true. cbn [negb orb].
  change (negb (0 =? 0)) with false. cbv iota.
  eexists. split; reflexivity.
Qed.

(** Freeing the block at the head of the list when its status is [MAPPED]. *)
Lemma os_free_mapped_head fuel s b :
  (1 <= fuel)%nat -> head s = b -> 0 < b ->
  get_status (memory s) b = STATUS_MAPPED ->
  b mod page_size s = 0 ->
  w64 (get_size (memory s) b + BLOCK_META_SIZE) <> 0 ->
  exists s2,
    os_free fuel (get_ptr_block b) s = Ok tt s2 /\
    trace s2
    = trace s
      ++ [Munmap b (w64 (get_size (memory s) b + BLOCK_META_SIZE))].
Proof.
  intros Hf Hh Hb Hst Hal Hlen.
  destruct fuel as [| f]; [lia |].
  unfold os_free.
  destruct (Z.eqb_spec (get_ptr_block b) 0) as [E | _].
  { unfold get_ptr_block, BLOCK_META_SIZE in E. lia. }
  rewrite get_block_ptr_inv.
  unfold bind at 1. unfold is_block_in_memory, lift_opt. cbn [member_loop].
  rewrite Hh. destruct (Z.eqb_spec b 0); [lia |]. rewrite Z.eqb_refl.
  change (1 =? 0) with false. cbv iota.
  unfold bind at 1. unfold rd at 1. rewrite Hst.
  change (STATUS_MAPPED =? STATUS_ALLOC) with false.
  change (STATUS_MAPPED =? STATUS_MAPPED) with true. cbv iota.
  unfold bind at 1. unfold remove_memory_block. cbn [remove_loop].
  rewrite Hh. destruct (Z.eqb_spec b 0); [lia |]. rewrite Z.eqb_refl.
  run. mem_simpl. unfold munmap. run.
  match goal with |- context [(?x =? 0) || _] =>
    destruct (Z.eqb_spec x 0) as [E0 | _] end.
  { exfalso. apply Hlen. unfold_fields. exact E0. }
  rewrite Hal. change (0 =? 0) with true. cbn [negb orb].
  change (negb (0 =? 0)) with false. cbv iota.
  eexists. split; reflexivity.
Qed.

(** ** The defects *)

Lemma chain3_inv m a b c :
  chain m a [a; b; c] ->
  a <> 0 /\ b <> 0 /\ c <> 0 /\
  get_next m a = b /\ get_next m b = c /\ get_next m c = 0.
Proof.
  intros H. inversion H as [| ? ? Ha Hb]; subst.
  pose proof (chain_head _ _ _ Hb) as Eb. simpl in Eb.
  rewrite Eb in Hb. inversion Hb as [| ? ? Hb0 Hc]; subst.
  pose proof (chain_head _ _ _ Hc) as Ec. simpl in Ec.
  rewrite Ec in Hc. inversion Hc as [| ? ? Hc0 Hn]; subst.
  pose proof (chain_head _ _ _ Hn) as En. simpl in En.
  repeat split; assumption.
Qed.

(** C1. The coalesce pass steps past the block it has just merged without
    comparing it with its new successor: on a list of three [FREE] blocks
    it merges the first two and stops, leaving two neighbouring [FREE]
    blocks.  So in a fresh process, after [p = os_malloc(200);
    q = os_malloc(300); os_free(p); os_free(q)] the list holds two
    neighbouring [FREE] blocks, of 528 and 130496 bytes, and not the single
    free block of the preallocation payload. *)
Theorem coalesce_pass_leaves_adjacent_free :
  (forall fuel m a b c,
     (3 <= fuel)%nat -> chain m a [a; b; c] -> sep [a; b; c] ->
     get_status m a = STATUS_FREE -> get_status m b = STATUS_FREE ->
     get_status m c = STATUS_FREE ->
     coalesce_loop fuel m a = Some (coalesce_blocks m a b) /\
     chain (coalesce_blocks m a b) a [a; c] /\
     get_status (coalesce_blocks m a b) a = STATUS_FREE /\
     get_status (coalesce_blocks m a b) c = STATUS_FREE) /\
  (let r := alloc_alloc_free_free fresh in
   is_ok r = true /\
   block_list 8 (memory (state_of r)) (head (state_of r))
   = [(4096000, STATUS_FREE, 528); (4096552, STATUS_FREE, 130496)] /\
   no_adjacent_free (block_list 8 (memory (state_of r)) (head (state_of r)))
   = false /\
   528 + ALIGN BLOCK_META_SIZE + 130496
   = PREALLOC_SIZE - ALIGN BLOCK_META_SIZE).
Proof.
  split; [| vm_compute; repeat split].
  intros fuel m a b c Hf Hc Hs Ha Hb Hcs.
  destruct (chain3_inv m a b c Hc) as (Ha0 & Hb0 & Hc0 & Eab & Ebc & Ec).
  destruct Hs as (Hda & (Hdb & _)).
  pose proof (Forall_inv Hda) as Hab.
  pose proof (Forall_inv (Forall_inv_tail Hda)) as Hac.
  pose proof (Forall_inv Hdb) as Hbc.
  destruct (coalesce_blocks_spec m a b Hab) as (En & Est & _ & Hfr).
  destruct (framed_fields m (coalesce_blocks m a b) [a] c Hfr)
    as (Enc & _ & Estc).
  { constructor; [apply hdr_disjoint_sym; exact Hac | constructor]. }
  assert (Hchain : chain (coalesce_blocks m a b) a [a; c]).
  { constructor; [exact Ha0 |]. rewrite En, Ebc.
    constructor; [exact Hc0 |]. rewrite Enc, Ec. constructor. }
  split; [| split; [exact Hchain | split; [exact Est | congruence]]].
  destruct fuel as [| [| f]]; try lia.
  cbn [coalesce_loop].
  destruct (Z.eqb_spec a 0); [contradiction |].
  rewrite Eab. destruct (Z.eqb_spec b 0); [contradiction |].
  rewrite Ha, Hb. change (STATUS_FREE =? STATUS_FREE) with true.
  cbn [andb]. rewrite En, Ebc.
  destruct (Z.eqb_spec c 0); [contradiction |].
  rewrite Enc, Ec. reflexivity.
Qed.

(** C2. In the heap [tail_allocated] the last block is allocated, holds
    131008 bytes of 0xAA and follows a free block.  Growing it with
    [os_realloc(p, 131016)] returns a non-null payload whose byte at offset
    130976 is 8 and not 0xAA: the block is freed and merged before its
    payload is copied, and the header that the following split writes lands
    inside the old payload. *)
Theorem realloc_tail_grow_loses_bytes :
  let p := 4096064 in
  let r := os_realloc 8 p 131016 tail_allocated in
  let q := value_of r in
  block_list 8 (memory tail_allocated) (head tail_allocated)
  = [(4096000, STATUS_FREE, 16); (get_block_ptr p, STATUS_ALLOC, 131008)] /\
  is_ok r = true /\ q <> 0 /\
  130976 < min 131008 (ALIGN 131016) /\
  memory tail_allocated (p + 130976) = 170 /\
  memory (state_of r) (q + 130976) = 8.
Proof. vm_compute. repeat split; discriminate. Qed.


(** ** [MAP_THRESHOLD] is only written by [os_calloc] *)

Lemma kt_bind {A B} (c : M A) (k : A -> M B) :
  keeps_threshold c -> (forall a, keeps_threshold (k a)) ->
  keeps_threshold (bind c k).
Proof.
  intros Hc Hk s b s' H. unfold bind in H.
  destruct (c s) as [a s1 | | |] eqn:E; try discriminate.
  rewrite (Hk a s1 b s' H). exact (Hc s a s1 E).
Qed.

Lemma kt_ret {A} (a : A) : keeps_threshold (ret a).
Proof. intros s b s' H. inversion H. reflexivity. Qed.

Lemma kt_die {A} : keeps_threshold (@die A).
Proof. intros s b s' H. discriminate H. Qed.

Lemma kt_read {A} (f : state -> A) : keeps_threshold (fun s => Ok (f s) s).
Proof. intros s b s' H. inversion H. reflexivity. Qed.

Lemma kt_wr f : keeps_threshold (wr f).
Proof. intros s b s' H. inversion H. reflexivity. Qed.

Lemma kt_store_to a n f : keeps_threshold (store_to a n f).
Proof.
  intros s b s' H. unfold store_to in H.
  destruct (granted s a n); [inversion H; reflexivity | discriminate H].
Qed.

Lemma kt_if {A} (b : bool) (c1 c2 : M A) :
  keeps_threshold c1 -> keeps_threshold c2 ->
  keeps_threshold (if b then c1 else c2).
Proof. destruct b; trivial. Qed.

Ltac kt_cases H :=
  repeat match type of H with
         | context [if ?c then _ else _] => destruct c
         | context [match ?x with _ => _ end] => destruct x
         end;
  try discriminate H; inversion H; reflexivity.

Lemma kt_sbrk n : keeps_threshold (sbrk n).
Proof. intros s b s' H. unfold sbrk in H. kt_cases H. Qed.

Lemma kt_mmap n : keeps_threshold (mmap n).
Proof. intros s b s' H. unfold mmap in H. kt_cases H. Qed.

Lemma kt_append_block fuel b : keeps_threshold (append_block fuel b).
Proof. intros s a s' H. unfold append_block in H. kt_cases H. Qed.

Lemma kt_add_memory_block fuel b : keeps_threshold (add_memory_block fuel b).
Proof.
  intros s a s' H. unfold add_memory_block in H.
  destruct (_ =? STATUS_MAPPED).
  - kt_cases H.
  - destruct (_ =? STATUS_ALLOC);
      [exact (kt_append_block fuel b s a s' H) |].
    destruct (_ && _); [exact (kt_append_block fuel b s a s' H) | discriminate H].
Qed.

Lemma kt_request_memory size : keeps_threshold (request_memory size).
Proof.
  unfold request_memory. apply kt_bind; [apply kt_read |]. intros thr.
  apply kt_bind; [apply kt_if; [apply kt_sbrk | apply kt_mmap] |].
  intros block. apply kt_if; [apply kt_ret |].
  repeat (apply kt_bind; [apply kt_store_to | intros _]). apply kt_ret.
Qed.

Lemma kt_preallocate_heap fuel : keeps_threshold (preallocate_heap fuel).
Proof.
  unfold preallocate_heap. apply kt_bind; [apply kt_sbrk |]. intros heap.
  apply kt_if; [apply kt_die |].
  repeat (apply kt_bind; [apply kt_store_to | intros _]).
  apply kt_add_memory_block.
Qed.

Lemma kt_coalesce_memory fuel : keeps_threshold (coalesce_memory fuel).
Proof. intros s a s' H. unfold coalesce_memory in H. kt_cases H. Qed.

Lemma kt_find_best_free_block fuel lst size :
  keeps_threshold (find_best_free_block fuel lst size).
Proof.
  intros s a s' H. unfold find_best_free_block in H.
  destruct (coalesce_memory fuel s) as [u s1 | | |] eqn:E; try discriminate H.
  rewrite <- (kt_coalesce_memory fuel s u s1 E).
  unfold lift_opt in H. kt_cases H.
Qed.

Lemma kt_find_last_free_block fuel :
  keeps_threshold (find_last_free_block fuel).
Proof. intros s a s' H. unfold find_last_free_block in H. kt_cases H. Qed.

Lemma kt_os_malloc_heap fuel size : keeps_threshold (os_malloc_heap fuel size).
Proof.
  unfold os_malloc_heap. apply kt_bind; [apply kt_read |]. intros last0.
  apply kt_bind; [apply kt_find_best_free_block |]. intros r.
  apply kt_if.
  - apply kt_bind; [apply kt_wr | intros _; apply kt_ret].
  - apply kt_bind; [apply kt_find_last_free_block |]. intros lst.
    apply kt_if.
    + apply kt_bind; [apply kt_request_memory |]. intros block.
      apply kt_if; [apply kt_die |].
      apply kt_bind; [apply kt_add_memory_block | intros _; apply kt_ret].
    + apply kt_bind; [apply (kt_read (fun s => get_size (memory s) lst)) |].
      intros lsz.
      apply kt_bind; [apply kt_request_memory |]. intros block.
      apply kt_if; [apply kt_die |].
      repeat (apply kt_bind; [apply kt_wr | intros _]). apply kt_ret.
Qed.

Lemma kt_os_malloc fuel size : keeps_threshold (os_malloc fuel size).
Proof.
  unfold os_malloc. apply kt_if; [apply kt_ret |].
  apply kt_bind; [apply kt_read |]. intros thr. apply kt_if.
  - apply kt_bind; [apply kt_read |]. intros pre.
    apply kt_bind; [| intros _; apply kt_os_malloc_heap].
    apply kt_if; [| apply kt_ret].
    apply kt_bind; [apply kt_preallocate_heap |]. intros _.
    intros s a s' H. inversion H. reflexivity.
  - apply kt_bind; [apply kt_request_memory |]. intros block.
    apply kt_if; [apply kt_die |].
    apply kt_bind; [apply kt_add_memory_block | intros _; apply kt_ret].
Qed.


(** ** Writes to a single field *)

Lemma set_next_keeps m p v b :
  b = p \/ hdr_disjoint b p ->
  get_size (set_next m p v) b = get_size m b /\
  get_status (set_next m p v) b = get_status m b.
Proof.
  unfold hdr_disjoint. intros H. split; mem_simpl; reflexivity.
Qed.

Lemma set_next_next_other m p v b :
  hdr_disjoint b p -> get_next (set_next m p v) b = get_next m b.
Proof. unfold hdr_disjoint. intros H. mem_simpl. reflexivity. Qed.

Lemma set_status_keeps m p v b :
  b = p \/ hdr_disjoint b p ->
  get_size (set_status m p v) b = get_size m b /\
  get_next (set_status m p v) b = get_next m b.
Proof.
  unfold hdr_disjoint. intros H. split; mem_simpl; reflexivity.
Qed.

Lemma set_status_status_other m p v b :
  hdr_disjoint b p -> get_status (set_status m p v) b = get_status m b.
Proof. unfold hdr_disjoint. intros H. mem_simpl. reflexivity. Qed.

Lemma last_in (l : list Z) d : l <> [] -> In (last l d) l.
Proof.
  induction l as [| x l IH]; [congruence |]. intros _.
  destruct l as [| y l]; [now left |].
  right. change (In (last (y :: l) d) (y :: l)). apply IH. discriminate.
Qed.

Lemma sep_app_one l b :
  sep l -> Forall (hdr_disjoint b) l -> sep (l ++ [b]).
Proof.
  induction l as [| x l IH]; intros Hs Hd; simpl.
  - split; [constructor | exact I].
  - destruct Hs as [Hx Hs]. split.
    + apply Forall_app. split; [exact Hx |].
      constructor; [| constructor]. apply hdr_disjoint_sym.
      exact (Forall_inv Hd).
    + apply IH; [exact Hs | exact (Forall_inv_tail Hd)].
Qed.

(** Linking a fresh block after the last block of the list. *)
Lemma chain_snoc m a l b :
  chain m a l -> l <> [] -> sep l -> Forall (hdr_disjoint b) l ->
  0 < b < SIZE_MAX1 -> get_next m b = 0 ->
  chain (set_next m (last l 0) b) a (l ++ [b]).
Proof.
  intros Hc. induction Hc as [| a l Ha Hc IH]; intros Hne Hs Hd Hb Hnb;
    [congruence |].
  destruct Hs as [Hda Hs].
  pose proof (Forall_inv Hd) as Hba. pose proof (Forall_inv_tail Hd) as Hbl.
  destruct l as [| y l].
  - simpl. constructor; trivial.
    rewrite set_next_next_same by lia.
    constructor; [lia |].
    rewrite set_next_next_other by exact Hba. rewrite Hnb. constructor.
  - change (last (a :: y :: l) 0) with (last (y :: l) 0).
    change ((a :: y :: l) ++ [b]) with (a :: (y :: l) ++ [b]).
    constructor; trivial.
    rewrite set_next_next_other.
    + apply IH; trivial. discriminate.
    + rewrite Forall_forall in Hda. apply Hda. apply last_in. discriminate.
Qed.

Lemma sep_in_in l x y :
  sep l -> In x l -> In y l -> x = y \/ hdr_disjoint x y.
Proof.
  induction l as [| a l IH]; intros Hs Hx Hy; [destruct Hx |].
  destruct Hs as [Hd Hs]. rewrite Forall_forall in Hd.
  destruct Hx as [<- | Hx]; destruct Hy as [<- | Hy]; auto.
  right. apply hdr_disjoint_sym. auto.
Qed.

Lemma append_block_spec fuel s l b :
  chain (memory s) (head s) l -> sep l -> Forall (hdr_disjoint b) l ->
  (length l < fuel)%nat -> 0 < b < SIZE_MAX1 -> get_next (memory s) b = 0 ->
  exists m' h',
    append_block fuel b s = Ok tt (with_head (with_memory s m') h') /\
    chain m' h' (l ++ [b]) /\
    (forall c, c = b \/ In c l ->
       get_size m' c = get_size (memory s) c /\
       get_status m' c = get_status (memory s) c) /\
    framed (memory s) m' l.
Proof.
  intros Hc Hs Hd Hf Hb Hnb. unfold append_block.
  destruct (Z.eqb_spec (head s) 0) as [Hh | Hh].
  - rewrite Hh in Hc. apply chain_nil_inv in Hc. subst l.
    exists (memory s), b. split; [destruct s; reflexivity |]. split.
    + simpl. constructor; [lia |]. rewrite Hnb. constructor.
    + split; [intros c _; split; reflexivity | intros x _; reflexivity].
  - destruct (chain_cons_inv _ _ _ Hc Hh) as (l0 & El & _).
    assert (Hne : l <> []) by (rewrite El; discriminate).
    rewrite (walk_to_end_chain fuel _ _ l 0 Hc Hf).
    pose proof (last_in l 0 Hne) as Hlast.
    destruct (Z.eqb_spec (last l 0) 0) as [E0 | _].
    { exfalso. rewrite E0 in Hlast. exact (chain_nonzero _ _ _ Hc Hlast). }
    exists (set_next (memory s) (last l 0) b), (head s).
    split; [destruct s; reflexivity |]. split; [| split].
    + apply chain_snoc; trivial.
    + intros c Hcin. apply set_next_keeps.
      destruct Hcin as [-> | Hcin].
      * right. rewrite Forall_forall in Hd. auto.
      * apply (sep_in_in l); trivial.
    + apply (framed_incl _ _ [last l 0]);
        [intros x [<- | []]; exact Hlast |].
      apply store_framed; unfold OFF_NEXT, BLOCK_META_SIZE; lia.
Qed.

(** ** Splitting and tail extension *)

Lemma split_block_size m b size :
  ALIGN size <= get_size m b ->
  ALIGN size <= get_size (split_block m b size) b.
Proof.
  intros H. unfold split_block.
  destruct (_ <=? get_size m b).
  - pose proof (ALIGN_range size) as Hr. mem_simpl.
    rewrite w64_small by exact Hr. lia.
  - mem_simpl. exact H.
Qed.

Lemma split_block_status m b size :
  get_status (split_block m b size) b = STATUS_ALLOC.
Proof.
  unfold split_block. destruct (_ <=? get_size m b); mem_simpl; reflexivity.
Qed.

Lemma set_status_status_same m b v :
  0 <= v < 2 ^ 32 -> get_status (set_status m b v) b = v.
Proof. intros H. mem_simpl. apply Z.mod_small. exact H. Qed.

(** The break grows by exactly the missing bytes when the last block is
    extended, also when [size - last->size - ALIGN(BLOCK_META_SIZE)] wraps
    around. *)
Lemma tail_extension_total size L :
  0 < size -> size + 31 < SIZE_MAX1 -> 0 <= L < ALIGN size -> L mod 8 = 0 ->
  w64 (ALIGN (w64 (w64 (size - L) - ALIGN BLOCK_META_SIZE))
       + ALIGN BLOCK_META_SIZE)
  = ALIGN size - L.
Proof.
  intros Hs Hmax HL H8.
  rewrite ALIGN_header. unfold BLOCK_META_SIZE.
  rewrite !ALIGN_div in *. unfold w64, SIZE_MAX1 in *.
  Z.div_mod_to_equations. lia.
Qed.

Lemma find_best_free_block_eq fuel s m' l' lst size :
  coalesce_memory fuel s = Ok tt (with_memory s m') ->
  chain m' (head s) l' -> (length l' < fuel)%nat ->
  find_best_free_block fuel lst size s
  = Ok (best_of m' size l' 0, last l' lst) (with_memory s m').
Proof.
  intros E Hc Hf. unfold find_best_free_block. rewrite E.
  unfold lift_opt. cbn [memory with_memory].
  rewrite (best_loop_chain fuel m' size (head s) l' 0 lst Hc Hf). reflexivity.
Qed.

Lemma mod8_add_24 b : b mod 8 = 0 -> (b + BLOCK_META_SIZE) mod 8 = 0.
Proof.
  intros H. unfold BLOCK_META_SIZE.
  rewrite <- Z.add_mod_idemp_l, H by lia. reflexivity.
Qed.


(** ** Lists made of a mapped part and a heap part *)

Lemma sep_app l1 l2 :
  sep l1 -> sep l2 ->
  (forall a b, In a l1 -> In b l2 -> hdr_disjoint a b) ->
  sep (l1 ++ l2).
Proof.
  induction l1 as [| x l1 IH]; intros H1 H2 Hx; [exact H2 |].
  destruct H1 as [Hd H1]. split.
  - apply Forall_app. split; [exact Hd |].
    apply Forall_forall. intros b Hb. apply Hx; [now left | exact Hb].
  - apply IH; trivial. intros a b Ha Hb. apply Hx; [now right | exact Hb].
Qed.

Lemma chain_app_r m a l1 l2 : chain m a (l1 ++ l2) -> chain m (hd 0 l2) l2.
Proof.
  revert a. induction l1 as [| x l1 IH]; intros a H; simpl in H.
  - rewrite <- (chain_head m a l2 H). exact H.
  - inversion H; subst. eauto.
Qed.

Lemma chain_replace_suffix m m' a l1 l2 l2' :
  chain m a (l1 ++ l2) ->
  (forall b, In b l1 -> get_next m' b = get_next m b) ->
  chain m' (hd 0 l2) l2' ->
  chain m' a (l1 ++ l2').
Proof.
  revert a. induction l1 as [| x l1 IH]; intros a H Hn H2; simpl in *.
  - rewrite (chain_head m a l2 H). exact H2.
  - inversion H; subst. constructor; trivial.
    rewrite Hn by (now left). apply IH; trivial.
    intros b Hb. apply Hn. now right.
Qed.

(** The pass does nothing on a leading run of blocks that are not free. *)
Lemma coalesce_loop_skip m : forall lm fuel a lh,
  chain m a (lm ++ lh) ->
  (forall b, In b lm -> get_status m b <> STATUS_FREE) ->
  coalesce_loop (length lm + S fuel) m a = coalesce_loop (S fuel) m (hd 0 lh).
Proof.
  induction lm as [| b lm IH]; intros fuel a lh Hc Hst.
  - simpl in Hc. rewrite (chain_head m a lh Hc). reflexivity.
  - simpl in Hc. inversion Hc as [| ? ? Ha Hc']; subst.
    change (length (b :: lm) + S fuel)%nat with (S (length lm + S fuel)).
    cbn [coalesce_loop].
    destruct (Z.eqb_spec b 0); [contradiction |].
    destruct (Z.eqb_spec (get_next m b) 0) as [E | _].
    + rewrite E in Hc'. apply chain_nil_inv in Hc'.
      apply app_eq_nil in Hc'. destruct Hc' as [_ ->]. reflexivity.
    + destruct (Z.eqb_spec (get_status m b) STATUS_FREE) as [E | _].
      { exfalso. exact (Hst b (or_introl eq_refl) E). }
      cbn [andb]. apply IH; trivial. intros c Hc0. apply Hst. now right.
Qed.

Lemma heap_inv_heap_block s lm lh b :
  heap_inv s lm lh -> In b lh ->
  0 < b /\ b + BLOCK_META_SIZE + get_size (memory s) b <= brk s.
Proof.
  intros (_ & _ & _ & _ & _ & Hct & _) Hb.
  exact (contig_top _ _ _ _ Hct Hb).
Qed.

Lemma heap_inv_cross s lm lh a b :
  heap_inv s lm lh -> In a lm -> In b lh -> hdr_disjoint a b.
Proof.
  intros Hinv Ha Hb.
  destruct (heap_inv_heap_block s lm lh b Hinv Hb) as [Hb0 Hbt].
  destruct Hinv as (Hos & _ & _ & _ & Hm & _).
  destruct (Hm a Ha) as (_ & _ & Hlo & _).
  pose proof (get_size_range (memory s) b).
  destruct Hos as (_ & _ & _ & _ & _ & Hbl & _).
  unfold hdr_disjoint, BLOCK_META_SIZE in *. lia.
Qed.

Lemma heap_inv_sep s lm lh : heap_inv s lm lh -> sep (lm ++ lh).
Proof.
  intros Hinv. pose proof Hinv as (_ & _ & _ & Hs & _ & Hct & _).
  apply sep_app; trivial.
  - exact (contig_sep _ _ _ Hct).
  - intros a b. apply (heap_inv_cross s lm lh a b Hinv).
Qed.

(** ** The coalesce pass keeps the invariant *)

Lemma coalesce_memory_inv fuel s lm lh :
  heap_inv s lm lh -> (length (lm ++ lh) < fuel)%nat ->
  exists m3 lh3,
    coalesce_memory fuel s = Ok tt (with_memory s m3) /\
    heap_inv (with_memory s m3) lm lh3 /\
    incl lh3 lh /\ (length lh3 <= length lh)%nat.
Proof.
  intros Hinv Hf.
  pose proof (heap_inv_sep s lm lh Hinv) as Hsep.
  pose proof Hinv as (Hos & Hthr & Hc & Hsm & Hm & Hct & Hh & Hpre & Hlog).
  rewrite length_app in Hf.
  set (f := (fuel - length lm - 1)%nat).
  assert (Ef : fuel = (length lm + S f)%nat) by (subst f; lia).
  assert (Hskip : coalesce_loop fuel (memory s) (head s)
                  = coalesce_loop (S f) (memory s) (hd 0 lh)).
  { rewrite Ef. apply coalesce_loop_skip; trivial.
    intros b Hb E. destruct (Hm b Hb) as (Hst & _). rewrite Hst in E.
    discriminate E. }
  pose proof (chain_app_r _ _ _ _ Hc) as Hch.
  destruct (coalesce_loop_chain (S f) _ _ _ Hch (contig_sep _ _ _ Hct))
    as (m3 & lh3 & E & Hc3 & Hi3 & Hs3 & Hne3 & Hfr3 & Hst3 & Hsz3 & Hlen3 & Hct3);
    [subst f; lia |].
  assert (Hlm : forall b, In b lm ->
                  get_next m3 b = get_next (memory s) b /\
                  get_size m3 b = get_size (memory s) b /\
                  get_status m3 b = get_status (memory s) b).
  { intros b Hb. apply (framed_fields (memory s) m3 lh b Hfr3).
    apply Forall_forall. intros c Hc0.
    exact (heap_inv_cross s lm lh b c Hinv Hb Hc0). }
  destruct (os_sane_bounds s Hos) as (Hbrk & _ & _).
  exists m3, lh3. split; [| split; [| split; [exact Hi3 | exact Hlen3]]].
  - unfold coalesce_memory. rewrite Hskip, E. reflexivity.
  - unfold heap_inv. cbn [memory head heap_preallocated MAP_THRESHOLD brk
                          brk_limit map_next map_limit page_size with_memory].
    split; [exact Hos |]. split; [exact Hthr |]. split.
    { apply (chain_replace_suffix (memory s) m3 _ lm lh lh3); trivial.
      intros b Hb. apply (Hlm b Hb). }
    split; [exact Hsm |]. split.
    { intros b Hb. destruct (Hlm b Hb) as (_ & -> & ->). exact (Hm b Hb). }
    split; [apply Hct3; [lia | exact Hct] |]. split.
    { intros b Hb. rewrite Hst3 by (apply Hi3; exact Hb).
      destruct (Hh b (Hi3 b Hb)) as (H1 & H2 & _).
      split; [exact H1 |]. split; [exact H2 |].
      apply Hsz3; trivial. intros c Hc0. apply (Hh c Hc0). }
    split; [| exact Hlog]. intros Hp. apply Hne3. exact (Hpre Hp).
Qed.

(** ** Changing a list of blocks laid out back to back *)

Lemma hd_app_one (l : list Z) x d : hd d (l ++ [x]) = hd x l.
Proof. destruct l; reflexivity. Qed.

Lemma hd_app_cons (l1 l2 l2' : list Z) b d :
  hd d (l1 ++ b :: l2) = hd d (l1 ++ b :: l2').
Proof. destruct l1; reflexivity. Qed.

Lemma contig_app_r m l1 l2 top : contig m (l1 ++ l2) top -> contig m l2 top.
Proof.
  induction l1 as [| a l1 IH]; intros H; [exact H |]. apply IH. apply H.
Qed.

Lemma contig_before m l1 b l2 top c :
  contig m (l1 ++ b :: l2) top -> In c l1 ->
  c + BLOCK_META_SIZE + get_size m c <= b.
Proof.
  induction l1 as [| a l1 IH]; intros H Hc; [destruct Hc |].
  destruct Hc as [<- | Hc].
  - apply (contig_after m (l1 ++ b :: l2) top a b H). apply in_elt.
  - apply IH; [apply H | exact Hc].
Qed.

Lemma contig_snoc m m' l top sz :
  contig m l top ->
  (forall b, In b l -> get_size m' b = get_size m b) ->
  0 < top -> get_size m' top = sz ->
  contig m' (l ++ [top]) (top + BLOCK_META_SIZE + sz).
Proof.
  induction l as [| a l IH]; intros Hc Hf Ht Hs.
  - simpl. rewrite Hs. auto.
  - destruct Hc as (Ha & Hn & Hc). simpl.
    rewrite (Hf a (or_introl eq_refl)), hd_app_one.
    repeat split; trivial. apply IH; trivial.
    intros b Hb. apply Hf. now right.
Qed.

Lemma contig_last_grow m m' l top d :
  contig m l top -> l <> [] ->
  (forall b, In b l -> b <> last l 0 -> get_size m' b = get_size m b) ->
  get_size m' (last l 0) = get_size m (last l 0) + d ->
  contig m' l (top + d).
Proof.
  induction l as [| a l IH]; intros Hc Hne Hf Hs; [congruence |].
  destruct l as [| c l].
  - destruct Hc as (Ha & Hn & _). simpl in *. rewrite Hs. repeat split; lia.
  - pose proof (contig_after m (c :: l) top a (last (c :: l) 0) Hc
                  (last_in (c :: l) 0 ltac:(discriminate))) as Hlt.
    destruct Hc as (Ha & Hn & Hc).
    change (last (a :: c :: l) 0) with (last (c :: l) 0) in *.
    pose proof (get_size_range m a).
    split; [exact Ha |]. split.
    + rewrite Hf; [exact Hn | now left |]. unfold BLOCK_META_SIZE in *. lia.
    + apply IH; trivial; [discriminate |].
      intros b Hb Hbn. apply Hf; [now right | exact Hbn].
Qed.

Lemma contig_insert m m' l1 b l2 top A nb :
  contig m (l1 ++ b :: l2) top ->
  (forall c, In c (l1 ++ l2) -> get_size m' c = get_size m c) ->
  nb = b + BLOCK_META_SIZE + A -> 0 <= A ->
  get_size m' b = A ->
  get_size m' nb = get_size m b - A - BLOCK_META_SIZE ->
  contig m' (l1 ++ b :: nb :: l2) top.
Proof.
  induction l1 as [| a l1 IH]; intros Hc Hf Hnb HA Hb Hn.
  - destruct Hc as (Hb0 & Hbn & Hc). simpl in *.
    rewrite Hb, Hn. unfold BLOCK_META_SIZE in *.
    repeat split; try lia. apply (contig_fields m); trivial.
  - destruct Hc as (Ha & Han & Hc).
    change ((a :: l1) ++ b :: nb :: l2) with (a :: (l1 ++ b :: nb :: l2)).
    split; [exact Ha |]. split.
    + rewrite (Hf a (or_introl eq_refl)). rewrite Han. apply hd_app_cons.
    + apply IH; trivial. intros c Hc0. apply Hf. now right.
Qed.

Lemma chain_insert m m' a l1 b l2 nb :
  chain m a (l1 ++ b :: l2) ->
  (forall c, In c (l1 ++ l2) -> get_next m' c = get_next m c) ->
  get_next m' b = nb -> nb <> 0 -> get_next m' nb = get_next m b ->
  chain m' a (l1 ++ b :: nb :: l2).
Proof.
  revert a. induction l1 as [| x l1 IH]; intros a Hc Hf Hb Hnb Hn.
  - simpl in *. inversion Hc as [| ? ? Hb0 Hc']; subst.
    constructor; trivial. constructor; trivial.
    rewrite Hn. apply (chain_frame m); trivial.
  - simpl in Hc. inversion Hc as [| ? ? Hx Hc']; subst.
    change ((x :: l1) ++ b :: get_next m' b :: l2)
      with (x :: (l1 ++ b :: get_next m' b :: l2)).
    constructor; trivial.
    rewrite (Hf x (or_introl eq_refl)). apply IH; trivial.
    intros c Hc0. apply Hf. now right.
Qed.

(** [split_block] when the block is large enough to be split. *)
Lemma split_block_split m b size :
  ALIGN size + 32 < SIZE_MAX1 ->
  ALIGN size + 32 <= get_size m b ->
  0 <= b + BLOCK_META_SIZE + ALIGN size < SIZE_MAX1 ->
  let nb := b + BLOCK_META_SIZE + ALIGN size in
  let m' := split_block m b size in
  get_size m' b = ALIGN size /\ get_next m' b = nb /\
  get_status m' b = STATUS_ALLOC /\
  get_size m' nb = get_size m b - ALIGN size - BLOCK_META_SIZE /\
  get_next m' nb = get_next m b /\ get_status m' nb = STATUS_FREE /\
  framed m m' [b; nb].
Proof.
  intros Hmax Hs Hrange nb m'. subst m'. unfold split_block.
  pose proof (ALIGN_range size) as HA.
  pose proof (get_size_range m b) as HS.
  pose proof (get_next_range m b) as HN.
  rewrite ALIGN_header. unfold BLOCK_META_SIZE, ALIGNMENT, SIZE_MAX1 in *.
  rewrite (w64_small (ALIGN size + 24)) by (unfold SIZE_MAX1; lia).
  rewrite (w64_small (ALIGN size + 24 + 8)) by (unfold SIZE_MAX1; lia).
  destruct (Z.leb_spec (ALIGN size + 24 + 8) (get_size m b)); [| lia].
  fold nb.
  assert (Hnb : nb = b + 24 + ALIGN size) by reflexivity.
  rewrite (w64_small (get_size m b - ALIGN size))
    by (unfold SIZE_MAX1; lia).
  rewrite (w64_small (get_size m b - ALIGN size - 24))
    by (unfold SIZE_MAX1; lia).
  assert (Hw : w64 (ALIGN size) = ALIGN size)
    by (apply w64_small; unfold SIZE_MAX1; lia).
  assert (Hwn : w64 (get_next m b) = get_next m b)
    by (apply w64_small; unfold SIZE_MAX1; lia).
  assert (Hws : w64 (get_size m b - ALIGN size - 24)
                = get_size m b - ALIGN size - 24)
    by (apply w64_small; unfold SIZE_MAX1; lia).
  assert (Hnr : w64 nb = nb)
    by (apply w64_small; unfold SIZE_MAX1; lia).
  repeat split.
  - mem_simpl. exact Hw.
  - mem_simpl. exact Hnr.
  - mem_simpl. reflexivity.
  - mem_simpl. exact Hws.
  - mem_simpl. exact Hwn.
  - mem_simpl. reflexivity.
  - repeat (eapply framed_trans;
            [| first [ apply (framed_incl _ _ [b]);
                       [intros x [<- | []]; now left
                       | apply store_framed; unfold_fields; lia]
                     | apply (framed_incl _ _ [nb]);
                       [intros x [<- | []]; right; now left
                       | apply store_framed; unfold_fields; lia] ]]).
    apply framed_refl.
Qed.

(** ** Steps of [os_malloc] and [os_free] that keep the invariant *)

Lemma chain_last_next m a l :
  chain m a l -> l <> [] -> get_next m (last l 0) = 0.
Proof.
  induction 1 as [| a l Ha Hc IH]; intros Hne; [congruence |].
  destruct l as [| c l].
  - simpl. remember (get_next m a) as n eqn:En.
    inversion Hc. reflexivity.
  - change (last (a :: c :: l) 0) with (last (c :: l) 0).
    apply IH. discriminate.
Qed.

Lemma in_app_mid (l1 l2 : list Z) b c :
  In c (l1 ++ b :: l2) -> c = b \/ In c (l1 ++ l2).
Proof.
  intros H. apply in_app_or in H. destruct H as [H | [H | H]].
  - right. apply in_or_app. now left.
  - left. congruence.
  - right. apply in_or_app. now right.
Qed.

(** Flipping the status of a heap block between [FREE] and [ALLOCATED]. *)
Lemma heap_inv_set_status s lm lh b v :
  heap_inv s lm lh -> In b lh -> v = STATUS_FREE \/ v = STATUS_ALLOC ->
  heap_inv (with_memory s (set_status (memory s) b v)) lm lh.
Proof.
  intros Hinv Hb Hv.
  pose proof (heap_inv_sep s lm lh Hinv) as Hsep.
  pose proof Hinv as (Hos & Hthr & Hc & Hsm & Hm & Hct & Hh & Hpre & Hlog).
  set (m' := set_status (memory s) b v).
  assert (Hin : In b (lm ++ lh)) by (apply in_or_app; now right).
  assert (Hk : forall c, In c (lm ++ lh) ->
                 get_size m' c = get_size (memory s) c /\
                 get_next m' c = get_next (memory s) c).
  { intros c Hc0. apply set_status_keeps.
    apply (sep_in_in (lm ++ lh)); trivial. }
  assert (Hst : forall c, In c (lm ++ lh) -> c <> b ->
                  get_status m' c = get_status (memory s) c).
  { intros c Hc0 Hne. apply set_status_status_other.
    destruct (sep_in_in (lm ++ lh) c b Hsep Hc0 Hin); [contradiction | trivial]. }
  assert (Hsb : get_status m' b = v).
  { apply set_status_status_same.
    destruct Hv as [-> | ->]; unfold STATUS_FREE, STATUS_ALLOC; lia. }
  unfold heap_inv. cbn [memory head heap_preallocated MAP_THRESHOLD brk
                        brk_limit map_next map_limit page_size with_memory].
  fold m'.
  split; [exact Hos |]. split; [exact Hthr |]. split.
  { apply (chain_frame (memory s)); trivial. intros c Hc0. apply (Hk c Hc0). }
  split; [exact Hsm |]. split.
  { intros c Hc0.
    assert (Hcl : In c (lm ++ lh)) by (apply in_or_app; now left).
    destruct (Hk c Hcl) as [-> _].
    rewrite Hst; [exact (Hm c Hc0) | exact Hcl |].
    intros ->. pose proof (heap_inv_cross s lm lh b b Hinv Hc0 Hb) as Hd.
    unfold hdr_disjoint, BLOCK_META_SIZE in Hd. lia. }
  split.
  { apply (contig_fields (memory s)); trivial. intros c Hc0.
    apply Hk. apply in_or_app. now right. }
  split; [| split; [exact Hpre | exact Hlog]].
  intros c Hc0.
  assert (Hcl : In c (lm ++ lh)) by (apply in_or_app; now right).
  destruct (Hk c Hcl) as [-> _]. destruct (Hh c Hc0) as (H1 & H2 & H3).
  split; [| split; trivial].
  destruct (Z.eq_dec c b) as [-> | Hne].
  - rewrite Hsb. exact Hv.
  - rewrite Hst; trivial.
Qed.

Lemma split_block_keep m b size :
  ALIGN size + 32 < SIZE_MAX1 -> get_size m b < ALIGN size + 32 ->
  split_block m b size = set_status m b STATUS_ALLOC.
Proof.
  intros Hmax Hs. unfold split_block.
  pose proof (ALIGN_range size) as HA.
  rewrite ALIGN_header. unfold BLOCK_META_SIZE, ALIGNMENT, SIZE_MAX1 in *.
  rewrite (w64_small (ALIGN size + 24)) by (unfold SIZE_MAX1; lia).
  rewrite (w64_small (ALIGN size + 24 + 8)) by (unfold SIZE_MAX1; lia).
  destruct (Z.leb_spec (ALIGN size + 24 + 8) (get_size m b)); [lia |].
  reflexivity.
Qed.

(** Taking a free block for a request, with or without a split. *)
Lemma heap_inv_split s lm lh best size :
  heap_inv s lm lh -> In best lh ->
  ALIGN size <= get_size (memory s) best -> ALIGN size + 32 < 2 ^ 63 ->
  exists lh',
    heap_inv (with_memory s (split_block (memory s) best size)) lm lh' /\
    In best lh' /\ (length lh' <= length lh + 1)%nat.
Proof.
  intros Hinv Hb HA Hmax.
  destruct (Z.lt_ge_cases (get_size (memory s) best) (ALIGN size + 32))
    as [Hsmall | Hbig].
  { exists lh. rewrite split_block_keep by (unfold SIZE_MAX1; lia).
    split; [| split; [exact Hb | lia]].
    apply heap_inv_set_status; auto. }
  pose proof (heap_inv_sep s lm lh Hinv) as Hsep.
  pose proof (heap_inv_heap_block s lm lh best Hinv Hb) as [Hb0 Hbt].
  pose proof Hinv as (Hos & Hthr & Hc & Hsm & Hm & Hct & Hh & Hpre & Hlog).
  destruct (os_sane_bounds s Hos) as (Hbrk & _ & _).
  pose proof (ALIGN_range size) as HAr. pose proof (ALIGN_mod8 size) as HA8.
  set (A := ALIGN size) in *. set (S := get_size (memory s) best) in *.
  destruct (split_block_split (memory s) best size) as
    (Esb & Enb & Etb & Esn & Enn & Etn & Hfr);
    try (fold A; fold S; unfold SIZE_MAX1, BLOCK_META_SIZE in *; lia).
  fold A in Esb, Enb, Esn, Enn, Etn, Hfr. fold S in Esn.
  set (nb := best + BLOCK_META_SIZE + A) in *.
  set (m' := split_block (memory s) best size) in *.
  destruct (in_split best lh Hb) as (l1 & l2 & El). subst lh.
  assert (Hdis : forall c, In c (lm ++ l1 ++ l2) ->
                   Forall (hdr_disjoint c) [best; nb]).
  { intros c Hc0. apply in_app_or in Hc0.
    assert (Hcn : c + BLOCK_META_SIZE <= best \/
                  best + BLOCK_META_SIZE + S <= c).
    { destruct Hc0 as [Hc0 | Hc0].
      - right. destruct (Hm c Hc0) as (_ & _ & Hlo & _).
        destruct Hos as (_ & _ & _ & _ & _ & Hbl & _).
        unfold BLOCK_META_SIZE in *. lia.
      - apply in_app_or in Hc0. destruct Hc0 as [Hc0 | Hc0].
        + left. pose proof (contig_before _ l1 best l2 _ c Hct Hc0).
          pose proof (get_size_range (memory s) c).
          unfold BLOCK_META_SIZE in *. lia.
        + right. apply (contig_after (memory s) l2 (brk s) best c); trivial.
          apply (contig_app_r _ l1). exact Hct. }
    subst nb. unfold hdr_disjoint, BLOCK_META_SIZE in *.
    constructor; [lia | constructor; [lia | constructor]]. }
  assert (Hk : forall c, In c (lm ++ l1 ++ l2) ->
                 get_next m' c = get_next (memory s) c /\
                 get_size m' c = get_size (memory s) c /\
                 get_status m' c = get_status (memory s) c).
  { intros c Hc0. apply (framed_fields _ _ [best; nb] c Hfr). auto. }
  assert (Hnb8 : nb mod 8 = 0).
  { subst nb. destruct (Hh best Hb) as (_ & H8 & _).
    rewrite <- Z.add_mod_idemp_l, (mod8_add_24 best H8) by lia.
    rewrite Z.add_0_l. exact HA8. }
  exists (l1 ++ best :: nb :: l2).
  split; [| split; [apply in_elt | rewrite !length_app; simpl; lia]].
  unfold heap_inv. cbn [memory head heap_preallocated MAP_THRESHOLD brk
                        brk_limit map_next map_limit page_size with_memory].
  fold m'.
  split; [exact Hos |]. split; [exact Hthr |]. split.
  { rewrite app_assoc. rewrite app_assoc in Hc.
    apply (chain_insert (memory s)); trivial.
    - intros c Hc0. apply Hk. rewrite <- app_assoc in Hc0. exact Hc0.
    - subst nb. unfold BLOCK_META_SIZE. lia. }
  split; [exact Hsm |]. split.
  { intros c Hc0.
    destruct (Hk c (in_or_app _ _ c (or_introl Hc0))) as (_ & -> & ->).
    exact (Hm c Hc0). }
  split.
  { apply (contig_insert (memory s) m' l1 best l2 (brk s) A nb); trivial;
      try lia.
    intros c Hc0. apply Hk. apply in_or_app. now right. }
  split; [| split; [intros _; destruct l1; discriminate | exact Hlog]].
  intros c Hc0.
  assert (Hcases : c = best \/ c = nb \/ In c (l1 ++ l2)).
  { apply in_app_or in Hc0. destruct Hc0 as [H | [H | [H | H]]]; auto.
    - right. right. apply in_or_app. now left.
    - right. right. apply in_or_app. now right. }
  destruct Hcases as [-> | [-> | Hc1]].
  - rewrite Etb, Esb. destruct (Hh best Hb) as (_ & H8 & _). auto.
  - rewrite Etn, Esn. split; [now left |]. split; [exact Hnb8 |].
    destruct (Hh best Hb) as (_ & _ & HS8). fold S in HS8.
    unfold BLOCK_META_SIZE.
    rewrite <- Z.add_opp_r, <- Z.add_mod_idemp_l by lia.
    rewrite Zminus_mod, HS8, HA8 by lia. reflexivity.
  - destruct (Hk c (in_or_app _ _ c (or_intror Hc1))) as (_ & -> & ->).
    apply Hh. apply in_app_or in Hc1. apply in_or_app.
    destruct Hc1; [now left | right; now right].
Qed.

Lemma last_app_r (l1 l2 : list Z) d : l2 <> [] -> last (l1 ++ l2) d = last l2 d.
Proof.
  intros Hne. induction l1 as [| a l1 IH]; [reflexivity |].
  rewrite <- IH. change ((a :: l1) ++ l2) with (a :: (l1 ++ l2)).
  rewrite last_cons. destruct (l1 ++ l2) as [| x l] eqn:E.
  - apply app_eq_nil in E. destruct E. contradiction.
  - apply last_default_irrelevant.
Qed.

(** No header of the list shares a byte with a header written at the
    break. *)
Lemma heap_inv_break_disjoint s lm lh c :
  heap_inv s lm lh -> In c (lm ++ lh) -> hdr_disjoint c (brk s).
Proof.
  intros Hinv Hc. apply in_app_or in Hc. destruct Hc as [Hc | Hc].
  - destruct Hinv as (Hos & _ & _ & _ & Hm & _).
    destruct (Hm c Hc) as (_ & _ & Hlo & _).
    destruct Hos as (_ & _ & _ & _ & _ & Hbl & _).
    unfold hdr_disjoint, BLOCK_META_SIZE in *. lia.
  - destruct (heap_inv_heap_block s lm lh c Hinv Hc) as [_ Hle].
    pose proof (get_size_range (memory s) c).
    unfold hdr_disjoint, BLOCK_META_SIZE in *. lia.
Qed.

(** ** The log of mappings *)

Lemma mapping_logged_snoc tr ev b len :
  (forall l, ev <> Mmap b l) ->
  mapping_logged tr b len -> mapping_logged (tr ++ [ev]) b len.
Proof.
  intros Hev Hl l. rewrite <- (Hl l). split.
  - intros Hin. apply in_app_or in Hin.
    destruct Hin as [Hin | [E | []]]; [exact Hin |].
    exfalso. exact (Hev l E).
  - intros Hin. apply in_or_app. now left.
Qed.

Lemma mappings_below_snoc tr ev top :
  mappings_below tr top ->
  (forall a l, ev = Mmap a l -> a < top \/ a = ALLOCATION_FAILED) ->
  mappings_below (tr ++ [ev]) top.
Proof.
  intros Hb Hev a l Hin. apply in_app_or in Hin.
  destruct Hin as [Hin | [E | []]]; [exact (Hb a l Hin) | exact (Hev a l E)].
Qed.

Lemma mappings_below_le tr top top' :
  top <= top' -> mappings_below tr top -> mappings_below tr top'.
Proof.
  intros Hle Hb a l Hin. destruct (Hb a l Hin) as [H | H]; [left; lia |].
  now right.
Qed.

(** Growing the last heap block up to a new break. *)
Lemma heap_inv_extend s lm lh m7 d n :
  heap_inv s lm lh -> lh <> [] ->
  framed (memory s) m7 [last lh 0; brk s] ->
  get_size m7 (last lh 0) = get_size (memory s) (last lh 0) + d ->
  get_next m7 (last lh 0) = 0 ->
  get_status m7 (last lh 0) = STATUS_ALLOC ->
  0 <= d -> d mod 8 = 0 -> brk s + d <= brk_limit s ->
  heap_inv (mkState m7 (head s) (heap_preallocated s) (MAP_THRESHOLD s)
              (brk s + d) (brk_limit s) (map_next s) (map_limit s)
              (page_size s) (trace s ++ [Sbrk n])) lm lh.
Proof.
  intros Hinv Hne Hfr Esz Enx Est Hd Hd8 Hroom.
  pose proof (heap_inv_sep s lm lh Hinv) as Hsep.
  pose proof Hinv as (Hos & Hthr & Hc & Hsm & Hm & Hct & Hh & Hpre & Hlog).
  set (t := last lh 0) in *.
  assert (Ht : In t lh) by (apply last_in; exact Hne).
  assert (Htl : In t (lm ++ lh)) by (apply in_or_app; now right).
  assert (Hk : forall c, In c (lm ++ lh) -> c <> t ->
                 get_next m7 c = get_next (memory s) c /\
                 get_size m7 c = get_size (memory s) c /\
                 get_status m7 c = get_status (memory s) c).
  { intros c Hc0 Hn. apply (framed_fields _ _ [t; brk s] c Hfr).
    constructor; [| constructor; [| constructor]].
    - destruct (sep_in_in _ c t Hsep Hc0 Htl); [contradiction | trivial].
    - exact (heap_inv_break_disjoint s lm lh c Hinv Hc0). }
  assert (Hmt : forall c, In c lm -> c <> t).
  { intros c Hc0 ->. pose proof (heap_inv_cross s lm lh t t Hinv Hc0 Ht) as Hx.
    unfold hdr_disjoint, BLOCK_META_SIZE in Hx. lia. }
  unfold heap_inv. cbn [memory head heap_preallocated MAP_THRESHOLD brk
                        brk_limit map_next map_limit page_size trace].
  split.
  { destruct Hos as (Hp & Hp8 & Hp63 & Hb0 & Hb8 & Hbl & Hrest).
    unfold os_sane. cbn. repeat split; trivial; try lia; try apply Hrest.
    rewrite Z.add_mod, Hb8, Hd8 by lia. reflexivity. }
  split; [exact Hthr |]. split.
  { apply (chain_frame (memory s)); trivial. intros c Hc0.
    destruct (Z.eq_dec c t) as [-> | Hn]; [| apply Hk; trivial].
    rewrite Enx. symmetry. subst t. rewrite <- (last_app_r lm lh 0 Hne).
    apply (chain_last_next _ _ _ Hc). destruct lm; [exact Hne | discriminate]. }
  split; [exact Hsm |]. split.
  { intros c Hc0.
    destruct (Hk c (in_or_app _ _ c (or_introl Hc0)) (Hmt c Hc0))
      as (_ & -> & ->).
    destruct (Hm c Hc0) as (H1 & H2 & H3 & H4 & H5 & H6 & H7).
    repeat (split; [assumption |]).
    apply mapping_logged_snoc; [intros l E; discriminate E | exact H7]. }
  split.
  { apply (contig_last_grow (memory s)); trivial.
    intros c Hc0 Hn. apply Hk; [apply in_or_app; now right | exact Hn]. }
  split;
    [| split; [exact Hpre |
               apply mappings_below_snoc;
               [exact Hlog | intros a l E; discriminate E]]].
  intros c Hc0. destruct (Hh c Hc0) as (H1 & H2 & H3).
  destruct (Z.eq_dec c t) as [-> | Hn].
  - rewrite Est, Esz. split; [now right |]. split; [exact H2 |].
    rewrite Z.add_mod, H3, Hd8 by lia. reflexivity.
  - destruct (Hk c (in_or_app _ _ c (or_intror Hc0)) Hn) as (_ & -> & ->).
    auto.
Qed.

(** A new block of [sz] payload bytes linked in at the break. *)
Lemma heap_inv_append s lm lh m5 h5 hp n sz st :
  heap_inv s lm lh ->
  chain m5 h5 ((lm ++ lh) ++ [brk s]) ->
  (forall c, In c (lm ++ lh) ->
     get_size m5 c = get_size (memory s) c /\
     get_status m5 c = get_status (memory s) c) ->
  get_size m5 (brk s) = sz -> get_status m5 (brk s) = st ->
  st = STATUS_FREE \/ st = STATUS_ALLOC ->
  0 <= sz -> sz mod 8 = 0 -> brk s + BLOCK_META_SIZE + sz <= brk_limit s ->
  heap_inv (mkState m5 h5 hp (MAP_THRESHOLD s) (brk s + BLOCK_META_SIZE + sz)
              (brk_limit s) (map_next s) (map_limit s) (page_size s)
              (trace s ++ [Sbrk n]))
           lm (lh ++ [brk s]).
Proof.
  intros Hinv Hc5 Hk Esz Est Hst Hsz Hsz8 Hroom.
  pose proof Hinv as (Hos & Hthr & Hc & Hsm & Hm & Hct & Hh & Hpre & Hlog).
  pose proof (os_sane_bounds s Hos) as (Hb & _).
  assert (Hb8 : brk s mod 8 = 0) by apply Hos.
  unfold heap_inv. cbn [memory head heap_preallocated MAP_THRESHOLD brk
                        brk_limit map_next map_limit page_size].
  split.
  { destruct Hos as (Hp & Hp8 & Hp63 & Hb0 & _ & Hbl & Hrest).
    unfold os_sane. cbn. unfold BLOCK_META_SIZE in *.
    repeat split; trivial; try lia; try apply Hrest.
    clear - Hsz8 Hb8. Z.div_mod_to_equations. lia. }
  split; [exact Hthr |]. split; [rewrite app_assoc; exact Hc5 |].
  split; [exact Hsm |]. split.
  { intros c Hc0.
    destruct (Hk c (in_or_app _ _ c (or_introl Hc0))) as (-> & ->).
    destruct (Hm c Hc0) as (H1 & H2 & H3 & H4 & H5 & H6 & H7).
    repeat (split; [assumption |]).
    apply mapping_logged_snoc; [intros l E; discriminate E | exact H7]. }
  split.
  { apply (contig_snoc (memory s)); trivial; try lia.
    intros c Hc0. apply Hk. apply in_or_app. now right. }
  split.
  { intros c Hc0. apply in_app_or in Hc0. destruct Hc0 as [Hc0 | [<- | []]].
    - destruct (Hk c (in_or_app _ _ c (or_intror Hc0))) as (-> & ->).
      exact (Hh c Hc0).
    - rewrite Est, Esz. auto. }
  split.
  { intros _ E. apply app_eq_nil in E. destruct E as [_ E]. discriminate E. }
  apply mappings_below_snoc; [exact Hlog | intros a l E; discriminate E].
Qed.

Lemma fields_below m m' top c :
  (forall x, x < top -> m' x = m x) -> c + BLOCK_META_SIZE <= top ->
  get_next m' c = get_next m c /\
  get_size m' c = get_size m c /\
  get_status m' c = get_status m c.
Proof.
  intros Hfr Hc.
  repeat split; unfold get_next, get_size, get_status;
    apply load_ext; intros x Hx; apply Hfr;
    unfold OFF_NEXT, OFF_SIZE, OFF_STATUS, BLOCK_META_SIZE in *;
    simpl Z.of_nat in Hx; lia.
Qed.

(** Every header of the list lies below the next mapping address. *)
Lemma heap_inv_below s lm lh c :
  heap_inv s lm lh -> In c (lm ++ lh) -> c + BLOCK_META_SIZE <= map_next s.
Proof.
  intros Hinv Hc. apply in_app_or in Hc. destruct Hc as [Hc | Hc].
  - destruct Hinv as (_ & _ & _ & _ & Hm & _). apply (Hm c Hc).
  - destruct (heap_inv_heap_block s lm lh c Hinv Hc) as [_ Hle].
    destruct Hinv as (Hos & _).
    destruct Hos as (_ & _ & _ & _ & _ & Hbl & Hgap & _).
    pose proof (get_size_range (memory s) c).
    unfold BLOCK_META_SIZE in *. lia.
Qed.

(** A new mapping linked in at the head. *)
Lemma heap_inv_mapped s lm lh m2 sz total :
  heap_inv s lm lh ->
  (forall x, x < map_next s -> m2 x = memory s x) ->
  get_size m2 (map_next s) = sz -> get_status m2 (map_next s) = STATUS_MAPPED ->
  get_next m2 (map_next s) = head s ->
  sz mod 8 = 0 -> sz + BLOCK_META_SIZE < SIZE_MAX1 ->
  total = sz + BLOCK_META_SIZE -> mapped_end s total <= map_limit s ->
  heap_inv (mkState m2 (map_next s) (heap_preallocated s) (MAP_THRESHOLD s)
              (brk s) (brk_limit s)
              (mapped_end s total) (map_limit s) (page_size s)
              (trace s ++ [Mmap (map_next s) total]))
           (map_next s :: lm) lh.
Proof.
  intros Hinv Hfr Esz Est Enx Hsz8 Hszr Htot Hlim.
  pose proof Hinv as (Hos & Hthr & Hc & Hsm & Hm & Hct & Hh & Hpre & Hlog).
  pose proof (os_sane_bounds s Hos) as (Hb & Hmn & _).
  pose proof Hos as (Hp & Hp8 & Hp63 & Hb0 & Hb8 & Hbl & Hgap & Hmp & Hml & Hl63).
  pose proof (mapped_end_ge s total Hp) as Hge.
  assert (Hsz0 : 0 <= sz)
    by (rewrite <- Esz; apply (get_size_range m2 (map_next s))).
  assert (Hk : forall c, In c (lm ++ lh) ->
                 get_next m2 c = get_next (memory s) c /\
                 get_size m2 c = get_size (memory s) c /\
                 get_status m2 c = get_status (memory s) c).
  { intros c Hc0. apply (fields_below _ _ (map_next s)); trivial.
    exact (heap_inv_below s lm lh c Hinv Hc0). }
  unfold heap_inv. cbn [memory head heap_preallocated MAP_THRESHOLD brk
                        brk_limit map_next map_limit page_size trace].
  split.
  { unfold os_sane. cbn.
    split; [exact Hp |]. split; [exact Hp8 |]. split; [exact Hp63 |].
    split; [exact Hb0 |]. split; [exact Hb8 |]. split; [exact Hbl |].
    split; [unfold BLOCK_META_SIZE in *; lia |].
    split; [apply mapped_end_aligned; trivial |].
    split; [exact Hlim | exact Hl63]. }
  split; [exact Hthr |]. split.
  { change ((map_next s :: lm) ++ lh) with (map_next s :: (lm ++ lh)).
    constructor; [lia |]. rewrite Enx.
    apply (chain_frame (memory s)); trivial. intros c Hc0. apply Hk, Hc0. }
  split.
  { split; [| exact Hsm]. apply Forall_forall. intros c Hc0.
    destruct (Hm c Hc0) as (_ & _ & _ & Hle & _). right. exact Hle. }
  split.
  { intros c [<- | Hc0].
    - rewrite Est, Esz. rewrite <- Htot.
      split; [reflexivity |]. split; [exact Hmp |].
      split; [exact Hgap |]. split; [unfold BLOCK_META_SIZE in *; lia |].
      split; [exact Hsz8 |]. split; [rewrite Htot; exact Hszr |].
      intros l. split.
      + intros Hin. apply in_app_or in Hin.
        destruct Hin as [Hin | [E | []]]; [| now injection E].
        exfalso. destruct (Hlog _ _ Hin) as [H | H];
          unfold ALLOCATION_FAILED, SIZE_MAX1 in H; lia.
      + intros ->. apply in_or_app. right. now left.
    - destruct (Hk c (in_or_app _ _ c (or_introl Hc0))) as (_ & -> & ->).
      destruct (Hm c Hc0) as (H1 & H2 & H3 & H4 & H5 & H6 & H7).
      split; [exact H1 |]. split; [exact H2 |]. split; [exact H3 |].
      split; [unfold BLOCK_META_SIZE in *; lia |].
      split; [exact H5 |]. split; [exact H6 |].
      apply mapping_logged_snoc; [| exact H7].
      intros l E. injection E as E _.
      unfold BLOCK_META_SIZE in *. lia. }
  split.
  { assert (Hgen : forall l top, (forall c, In c l -> In c lh) ->
               contig (memory s) l top -> contig m2 l top).
    { induction l as [| a l IH]; intros top Hin Hc0; [exact I |].
      destruct Hc0 as (H1 & H2 & H3).
      destruct (Hk a (in_or_app _ _ a (or_intror (Hin a (or_introl eq_refl)))))
        as (_ & E & _).
      split; [exact H1 |]. split; [rewrite E; exact H2 |].
      apply IH; trivial. intros c Hc1. apply Hin. now right. }
    apply Hgen; trivial. }
  split.
  { intros c Hc0.
    destruct (Hk c (in_or_app _ _ c (or_intror Hc0))) as (_ & -> & ->).
    exact (Hh c Hc0). }
  split; [exact Hpre |].
  apply mappings_below_snoc.
  - apply (mappings_below_le _ (map_next s)); [| exact Hlog].
    unfold BLOCK_META_SIZE in *. lia.
  - intros a l E. injection E as <- _. left.
    unfold BLOCK_META_SIZE in *. lia.
Qed.

Lemma heap_inv_break_free s lm lh :
  heap_inv s lm lh -> Forall (hdr_disjoint (brk s)) (lm ++ lh).
Proof.
  intros Hinv. apply Forall_forall. intros c Hc. apply hdr_disjoint_sym.
  exact (heap_inv_break_disjoint s lm lh c Hinv Hc).
Qed.

(** ** The preallocation *)

Lemma prealloc_inv fuel s lm lh :
  heap_inv s lm lh -> heap_preallocated s = 0 ->
  brk s + PREALLOC_SIZE <= brk_limit s -> (length (lm ++ lh) < fuel)%nat ->
  exists s2,
    (preallocate_heap fuel ;;; (fun s => Ok tt (with_prealloc s 1))) s
    = Ok tt s2 /\
    heap_inv s2 lm (lh ++ [brk s]) /\ heap_preallocated s2 = 1 /\
    brk s2 = brk s + PREALLOC_SIZE /\ brk_limit s2 = brk_limit s /\
    MAP_THRESHOLD s2 = MAP_THRESHOLD s /\ map_next s2 = map_next s /\
    map_limit s2 = map_limit s /\ page_size s2 = page_size s /\
    trace s2 = trace s ++ [Sbrk PREALLOC_SIZE] /\
    get_size (memory s2) (brk s) = PREALLOC_SIZE - BLOCK_META_SIZE /\
    get_status (memory s2) (brk s) = STATUS_FREE /\
    (forall c, In c (lm ++ lh) ->
       get_size (memory s2) c = get_size (memory s) c /\
       get_status (memory s2) c = get_status (memory s) c) /\
    (forall x, outside (lm ++ lh) x -> x < brk s ->
       memory s2 x = memory s x).
Proof.
  intros Hinv Hpre Hroom Hf.
  pose proof (heap_inv_break_free s lm lh Hinv) as Hdisj.
  pose proof (heap_inv_sep s lm lh Hinv) as Hs.
  pose proof Hinv as (Hos & Hthr & Hc & _).
  destruct (os_sane_bounds s Hos) as (Hbrk & Hmap & Hmap8).
  assert (Hlim : brk_limit s < 2 ^ 63)
    by (destruct Hos as (_ & _ & _ & _ & _ & _ & H1 & _ & H2 & H3);
        unfold BLOCK_META_SIZE in *; lia).
  destruct (init_header (memory s) (brk s)
              (w64 (PREALLOC_SIZE - ALIGN BLOCK_META_SIZE)) 0 STATUS_FREE)
    as (E1 & E2 & E3 & E4); [unfold STATUS_FREE; lia |].
  match type of E4 with framed _ ?m _ => set (m1 := m) in * end.
  unfold preallocate_heap. unfold bind at 1. unfold bind at 1. unfold sbrk.
  change (PREALLOC_SIZE <? 2 ^ 63) with true. cbv iota.
  replace ((0 <=? brk s + PREALLOC_SIZE)
           && (brk s + PREALLOC_SIZE <=? brk_limit s)) with true
    by (symmetry; apply andb_true_iff; split; apply Z.leb_le;
        unfold PREALLOC_SIZE in *; lia).
  destruct (Z.eqb_spec (brk s) 0); [lia |].
  assert (Hfit : brk s + BLOCK_META_SIZE <= page_up s (brk s + PREALLOC_SIZE)).
  { pose proof (page_up_ge s (brk s + PREALLOC_SIZE) (proj1 Hos)).
    unfold BLOCK_META_SIZE, PREALLOC_SIZE in *. lia. }
  rewrite header_init_ok;
    try (apply granted_at_break; trivial;
         unfold OFF_SIZE, OFF_NEXT, OFF_STATUS, BLOCK_META_SIZE; lia).
  run. fold m1.
  match goal with |- context [add_memory_block fuel (brk s) ?st] =>
    set (s1 := st) end.
  assert (Hk1 : forall c, In c (lm ++ lh) ->
                  get_next m1 c = get_next (memory s) c /\
                  get_size m1 c = get_size (memory s) c /\
                  get_status m1 c = get_status (memory s) c).
  { intros c Hc0. apply (framed_fields _ _ [brk s] c E4).
    constructor; [| constructor].
    exact (heap_inv_break_disjoint s lm lh c Hinv Hc0). }
  assert (Hc1 : chain (memory s1) (head s1) (lm ++ lh)).
  { apply (chain_frame (memory s)); trivial. intros c Hc0. apply Hk1, Hc0. }
  destruct (append_block_spec fuel s1 (lm ++ lh) (brk s) Hc1 Hs Hdisj Hf)
    as (m2 & h2 & Eapp & Hc2 & Hkeep & Hfr2).
  { unfold SIZE_MAX1. lia. }
  { cbn [memory s1]. rewrite E2. reflexivity. }
  unfold add_memory_block. cbn [memory s1] in *. rewrite E3.
  change (STATUS_FREE =? STATUS_MAPPED) with false.
  change (STATUS_FREE =? STATUS_ALLOC) with false.
  change (STATUS_FREE =? STATUS_FREE) with true.
  cbn [heap_preallocated s1]. rewrite Hpre. change (0 =? 0) with true.
  cbn [andb]. cbv iota. rewrite Eapp. run.
  eexists. split; [reflexivity |].
  subst s1. cbn [memory head heap_preallocated MAP_THRESHOLD brk brk_limit
                 map_next map_limit page_size trace].
  destruct (Hkeep (brk s) (or_introl eq_refl)) as [Esz2 Est2].
  rewrite E1 in Esz2. rewrite E3 in Est2.
  split; [| repeat (split; [reflexivity |]);
            split; [rewrite Esz2; reflexivity |];
            split; [exact Est2 |];
            split;
            [intros c Hc0; destruct (Hkeep c (or_intror Hc0)) as [-> ->];
             destruct (Hk1 c Hc0) as (_ & -> & ->); split; reflexivity
            | intros x Hx Hlt; rewrite (Hfr2 x Hx); apply E4;
              intros c [<- | []]; left; exact Hlt]].
  replace (brk s + PREALLOC_SIZE)
    with (brk s + BLOCK_META_SIZE
          + w64 (w64 (PREALLOC_SIZE - ALIGN BLOCK_META_SIZE)))
    by (vm_compute (w64 _); unfold BLOCK_META_SIZE, PREALLOC_SIZE; lia).
  apply (heap_inv_append s lm lh m2 h2 1 _ _ STATUS_FREE); trivial.
  - intros c Hc0. destruct (Hkeep c (or_intror Hc0)) as [-> ->].
    destruct (Hk1 c Hc0) as (_ & -> & ->). split; reflexivity.
  - now left.
  - vm_compute. intros X; discriminate X.
  - vm_compute (w64 _). unfold BLOCK_META_SIZE, PREALLOC_SIZE in *. lia.
Qed.

Lemma set_status_framed m b v : framed m (set_status m b v) [b].
Proof.
  unfold set_status. apply store_framed;
    unfold OFF_STATUS, BLOCK_META_SIZE; lia.
Qed.

(** The memory after the tail extension: the new block at [b] is marked
    free, merged into the last block [t], and [t] is marked allocated. *)
Lemma tail_extension_fields m4 t b :
  hdr_disjoint t b ->
  let m7 := set_status (coalesce_blocks (set_status m4 b STATUS_FREE) t b)
              t STATUS_ALLOC in
  get_size m7 t
  = w64 (get_size m4 t + w64 (get_size m4 b + ALIGN BLOCK_META_SIZE)) /\
  get_next m7 t = get_next m4 b /\ get_status m7 t = STATUS_ALLOC /\
  framed m4 m7 [t; b].
Proof.
  intros Hd m7. subst m7.
  set (m5 := set_status m4 b STATUS_FREE).
  destruct (coalesce_blocks_spec m5 t b Hd) as (Enx & _ & Esz & Hfr).
  destruct (set_status_keeps (coalesce_blocks m5 t b) t STATUS_ALLOC t
              (or_introl eq_refl)) as [-> ->].
  rewrite Esz, Enx. subst m5.
  destruct (set_status_keeps m4 b STATUS_FREE t (or_intror Hd)) as [-> _].
  destruct (set_status_keeps m4 b STATUS_FREE b (or_introl eq_refl))
    as [-> ->].
  split; [reflexivity |]. split; [reflexivity |].
  split; [apply set_status_status_same; unfold STATUS_ALLOC; lia |].
  apply (framed_trans _ (set_status m4 b STATUS_FREE)).
  - apply (framed_incl _ _ [b]); [| apply set_status_framed].
    intros x [<- | []]. right. now left.
  - apply (framed_trans _ (coalesce_blocks (set_status m4 b STATUS_FREE) t b)).
    + apply (framed_incl _ _ [t]); [| exact Hfr].
      intros x [<- | []]. now left.
    + apply (framed_incl _ _ [t]); [| apply set_status_framed].
      intros x [<- | []]. now left.
Qed.

(** ** The heap branch of [os_malloc] *)

(** The three ways in which the heap branch serves a request, told apart
    on the memory [m3] that the coalesce pass leaves: the best fit is split
    in place; else a free last block [t] is extended by the missing bytes;
    else a new block is placed at the break.  The extension stores the
    header of the piece it asked for at the old break: the process faults
    there unless the header ends in the pages under the new break. *)
Lemma os_malloc_heap_after fuel s lm lh size m3 lh3 :
  heap_inv s lm lh -> heap_preallocated s <> 0 ->
  (length (lm ++ lh) < fuel)%nat -> 0 < size ->
  w64 (ALIGN size + ALIGN BLOCK_META_SIZE) < MAP_THRESHOLD s ->
  brk s + size + 31 <= brk_limit s ->
  coalesce_memory fuel s = Ok tt (with_memory s m3) ->
  heap_inv (with_memory s m3) lm lh3 -> (length lh3 <= length lh)%nat ->
  let best := best_of m3 (ALIGN size) (lm ++ lh3) 0 in
  let t := last lh3 0 in
  (os_malloc_heap fuel size s = Fault /\ best = 0 /\
   get_status m3 t = STATUS_FREE /\
   page_up s (brk s + (ALIGN size - get_size m3 t))
   < brk s + BLOCK_META_SIZE /\
   page_up s (brk s + 8) < brk s + BLOCK_META_SIZE) \/
  exists b s' lh',
    os_malloc_heap fuel size s = Ok (get_ptr_block b) s' /\
    heap_inv s' lm lh' /\ In b lh' /\
    ALIGN size <= get_size (memory s') b /\
    get_status (memory s') b = STATUS_ALLOC /\
    (length lh' <= length lh + 1)%nat /\
    (best <> 0 ->
     b = best /\ s' = with_memory s (split_block m3 best size) /\
     In best lh3 /\ fits m3 (ALIGN size) best) /\
    (best = 0 -> get_status m3 t = STATUS_FREE ->
     b = t /\ lh' = lh3 /\
     brk s' = brk s + (ALIGN size - get_size m3 t) /\
     trace s' = trace s ++ [Sbrk (ALIGN size - get_size m3 t)] /\
     get_size (memory s') t = ALIGN size /\
     framed m3 (memory s') [t; brk s]) /\
    (best = 0 -> get_status m3 t <> STATUS_FREE ->
     b = brk s /\ lh' = lh3 ++ [brk s] /\
     brk s' = brk s + (ALIGN size + 24) /\
     trace s' = trace s ++ [Sbrk (ALIGN size + 24)] /\
     get_size (memory s') (brk s) = ALIGN size /\
     (forall x, outside (lm ++ lh3) x -> x < brk s ->
        memory s' x = m3 x) /\
     (forall c, In c (lm ++ lh3) ->
        get_size (memory s') c = get_size m3 c /\
        get_status (memory s') c = get_status m3 c)).
Proof.
  intros Hinv Hpre Hf Hsz Hthr Hroom Eco Hinv3 Hlen3.
  pose proof Hinv3 as (Hos3 & Hthr3 & Hc3 & Hsm3 & Hm3 & Hct3 & Hh3 & Hpre3 & Hlog3).
  cbn [memory head heap_preallocated MAP_THRESHOLD brk brk_limit map_next
       map_limit page_size with_memory] in Hthr3, Hc3, Hm3, Hct3, Hh3, Hpre3.
  specialize (Hpre3 Hpre).
  destruct (os_sane_bounds s (proj1 Hinv)) as (Hbrk & Hmap & Hmap8).
  assert (Hlim : brk_limit s + 24 <= 2 ^ 63)
    by (destruct (proj1 Hinv) as (_ & _ & _ & _ & _ & _ & H1 & _ & H2 & H3);
        unfold BLOCK_META_SIZE in *; lia).
  assert (Hmax : size + 31 < SIZE_MAX1) by (unfold SIZE_MAX1; lia).
  pose proof (ALIGN_small size ltac:(lia) ltac:(lia)) as HA.
  assert (Hf3 : (length (lm ++ lh3) < fuel)%nat)
    by (rewrite length_app in *; lia).
  intros best t.
  pose proof (best_of_best_fit m3 (ALIGN size) (head s) (lm ++ lh3) Hc3)
    as Hbest.
  fold best in Hbest.
  pattern (os_malloc_heap fuel size s).
  match goal with |- ?P _ => set (Q := P) end.
  unfold os_malloc_heap. unfold bind at 1.
  rewrite (bind_ok _ _ _ _ _
             (find_best_free_block_eq fuel s m3 (lm ++ lh3) (head s)
                (ALIGN size) Eco Hc3 Hf3)).
  cbn [fst]. fold best.
  destruct Hbest as [[E0 Hnone] | (Hbn & l1 & l2 & El & [Hbf Hbs] & _)].
  - (* no block fits *)
    rewrite E0. change (negb (0 =? 0)) with false. cbv iota.
    pose proof (last_in lh3 0 Hpre3) as Hlast.
    fold t in Hlast.
    destruct (heap_inv_heap_block _ lm lh3 t Hinv3 Hlast) as [Htpos Htb].
    cbn [memory brk with_memory] in Htb.
    destruct (Hh3 t Hlast) as (_ & Ht8 & HL8).
    unfold bind at 1. unfold find_last_free_block.
    cbn [memory head with_memory].
    rewrite (walk_to_end_chain fuel m3 (head s) (lm ++ lh3) 0 Hc3 Hf3).
    rewrite (last_app_r lm lh3 0 Hpre3). fold t.
    destruct (Z.eqb_spec t 0); [lia |].
    destruct (Z.eqb_spec (get_status m3 t) STATUS_FREE) as [Hfr | Hnf].
    + (* the last block is free: it is extended *)
      destruct (Z.eqb_spec t 0); [lia |].
      unfold bind at 1. unfold rd at 1. cbn [memory with_memory].
      set (L := get_size m3 t) in *.
      assert (HL : 0 <= L < ALIGN size).
      { pose proof (get_size_range m3 t). subst L. split; [lia |].
        destruct (Z.lt_ge_cases (get_size m3 t) (ALIGN size)); trivial.
        exfalso. apply (Hnone t); [apply in_or_app; now right |].
        split; [exact Hfr | lia]. }
      pose proof (tail_extension_total size L Hsz Hmax HL HL8) as Etot.
      set (arg := w64 (w64 (size - L) - ALIGN BLOCK_META_SIZE)) in *.
      assert (Hthr' : ALIGN size - L < MAP_THRESHOLD s).
      { rewrite ALIGN_header in Hthr. unfold BLOCK_META_SIZE in Hthr.
        rewrite w64_small in Hthr by (unfold SIZE_MAX1 in *; lia). lia. }
      assert (Hreq :
        (request_memory arg (with_memory s m3) = Fault /\
         page_up s (brk s + (ALIGN size - L)) < brk s + BLOCK_META_SIZE) \/
        exists m4,
          request_memory arg (with_memory s m3) =
          Ok (brk s)
             (mkState m4 (head s) (heap_preallocated s) (MAP_THRESHOLD s)
                (brk s + (ALIGN size - L)) (brk_limit s) (map_next s)
                (map_limit s) (page_size s)
                (trace s ++ [Sbrk (ALIGN size - L)])) /\
          get_size m4 (brk s) = ALIGN arg /\
          get_next m4 (brk s) = 0 /\
          get_status m4 (brk s) = STATUS_ALLOC /\
          framed m3 m4 [brk s]).
      { destruct (Z_le_gt_dec (brk s + BLOCK_META_SIZE)
                    (page_up s (brk s + (ALIGN size - L)))) as [Hfit | Hno].
        - right.
          destruct (request_memory_sbrk (with_memory s m3) arg Hos3)
            as (m4 & Ereq & Hrest);
            cbn [MAP_THRESHOLD brk brk_limit with_memory];
            try (rewrite Etot; lia).
          { rewrite Etot. exact Hfit. }
          cbn [MAP_THRESHOLD brk brk_limit with_memory memory head
               heap_preallocated map_next map_limit page_size trace]
            in Ereq, Hrest.
          rewrite Etot in Ereq. exists m4. split; [exact Ereq | exact Hrest].
        - destruct (request_memory_sbrk_cases (with_memory s m3) arg Hos3)
            as [EF | (m4 & Ereq & Hrest)];
            cbn [MAP_THRESHOLD brk brk_limit with_memory];
            try (rewrite Etot; lia).
          + left. split; [exact EF | lia].
          + right.
            cbn [MAP_THRESHOLD brk brk_limit with_memory memory head
                 heap_preallocated map_next map_limit page_size trace]
              in Ereq, Hrest.
            rewrite Etot in Ereq. exists m4.
            split; [exact Ereq | exact Hrest]. }
      destruct Hreq as [[EF Hno] | (m4 & Ereq & Esz4 & Enx4 & Est4 & Hfr4)].
      { unfold bind at 1. rewrite EF. unfold Q. left.
        split; [reflexivity |]. split; [exact E0 |].
        split; [exact Hfr |]. split; [exact Hno |].
        assert (H8 : 8 <= ALIGN size - L).
        { pose proof (ALIGN_mod8 size) as Ha8.
          destruct HL as [_ HL]. revert HL HL8 Ha8.
          generalize (ALIGN size). intros a HL HL8 Ha8.
          Z.div_mod_to_equations. lia. }
        pose proof (page_up_mono s (brk s + 8) (brk s + (ALIGN size - L))
                      (proj1 Hos3) ltac:(lia)).
        lia. }
      rewrite (bind_ok _ _ _ _ _ Ereq).
      destruct (Z.eqb_spec (brk s) 0); [lia |].
      run.
      assert (Hd : hdr_disjoint t (brk s)).
      { pose proof (get_size_range m3 t). fold L in H.
        unfold hdr_disjoint, BLOCK_META_SIZE in *. lia. }
      destruct (tail_extension_fields m4 t (brk s) Hd)
        as (Esz7 & Enx7 & Est7 & Hfr7).
      match type of Hfr7 with framed _ ?m _ => set (m7 := m) in * end.
      destruct (framed_fields m3 m4 [brk s] t Hfr4) as (_ & Esz4t & _).
      { constructor; [exact Hd | constructor]. }
      rewrite Esz4, Esz4t in Esz7. fold L in Esz7. rewrite Etot in Esz7.
      replace (L + (ALIGN size - L)) with (ALIGN size) in Esz7 by lia.
      rewrite w64_small in Esz7 by apply ALIGN_range.
      assert (Hfrm : framed m3 m7 [t; brk s]).
      { apply (framed_trans _ m4); [| exact Hfr7].
        apply (framed_incl _ _ [brk s]); [| exact Hfr4].
        intros x [<- | []]. right. now left. }
      unfold Q. right.
      exists t. eexists. exists lh3. split; [reflexivity |].
      cbn [memory]. split; [| split; [exact Hlast |
        split; [rewrite Esz7; lia | split; [exact Est7 | split; [lia |]]]]].
      2:{ cbn zeta. split; [intros X; exfalso; congruence |].
          split; [| intros _ X; contradiction].
          intros _ _. cbn [brk trace memory with_memory].
          repeat (split; [solve [trivial] |]). exact Hfrm. }
      assert (Hd8 : (ALIGN size - L) mod 8 = 0).
      { pose proof (ALIGN_mod8 size) as HA8. clear - HA8 HL8.
        Z.div_mod_to_equations. lia. }
      apply (heap_inv_extend (with_memory s m3) lm lh3 m7 (ALIGN size - L)
               _ Hinv3 Hpre3 Hfrm).
      * cbn [memory with_memory]. fold t. fold L. rewrite Esz7. lia.
      * fold t. rewrite Enx7. exact Enx4.
      * exact Est7.
      * lia.
      * exact Hd8.
      * cbn [brk brk_limit with_memory]. lia.
    + (* the last block is in use: a new block at the break *)
      change (0 =? 0) with true. cbv iota.
      assert (Etot : w64 (ALIGN size + ALIGN BLOCK_META_SIZE) = ALIGN size + 24).
      { rewrite ALIGN_header. unfold BLOCK_META_SIZE.
        apply w64_small. unfold SIZE_MAX1 in *. lia. }
      destruct (request_memory_sbrk (with_memory s m3) size Hos3)
        as (m4 & Ereq & Esz4 & Enx4 & Est4 & Hfr4);
        cbn [MAP_THRESHOLD brk brk_limit with_memory];
        try (rewrite Etot in *; lia).
      { rewrite Etot.
        pose proof (page_up_ge (with_memory s m3) (brk s + (ALIGN size + 24))
                      (proj1 Hos3)).
        unfold BLOCK_META_SIZE. lia. }
      cbn [MAP_THRESHOLD brk brk_limit with_memory memory head
           heap_preallocated map_next map_limit page_size trace]
        in Ereq, Hfr4, Esz4, Enx4, Est4.
      rewrite Etot in Ereq.
      rewrite (bind_ok _ _ _ _ _ Ereq).
      destruct (Z.eqb_spec (brk s) 0); [lia |].
      match goal with |- context [add_memory_block fuel (brk s)] =>
        match type of Ereq with _ = Ok _ ?st => set (s4 := st) in * end end.
      assert (Hk4 : forall c, In c (lm ++ lh3) ->
                      get_next m4 c = get_next m3 c /\
                      get_size m4 c = get_size m3 c /\
                      get_status m4 c = get_status m3 c).
      { intros c Hc0. apply (framed_fields _ _ [brk s] c Hfr4).
        constructor; [| constructor].
        exact (heap_inv_break_disjoint _ lm lh3 c Hinv3 Hc0). }
      assert (Hc4 : chain (memory s4) (head s4) (lm ++ lh3)).
      { apply (chain_frame m3); trivial. intros c Hc0. apply Hk4, Hc0. }
      destruct (append_block_spec fuel s4 (lm ++ lh3) (brk s) Hc4
                  (heap_inv_sep _ lm lh3 Hinv3)
                  (heap_inv_break_free _ lm lh3 Hinv3) Hf3)
        as (m5 & h5 & Eapp & Hc5 & Hkeep & Hfr5).
      { unfold SIZE_MAX1. lia. }
      { exact Enx4. }
      unfold bind at 1. unfold add_memory_block. cbn [memory s4]. rewrite Est4.
      change (STATUS_ALLOC =? STATUS_MAPPED) with false.
      change (STATUS_ALLOC =? STATUS_ALLOC) with true. cbv iota.
      rewrite Eapp. run.
      destruct (Hkeep (brk s) (or_introl eq_refl)) as [Esz5 Est5].
      cbn [memory s4] in Esz5, Est5. rewrite Esz4 in Esz5. rewrite Est4 in Est5.
      unfold Q. right.
      exists (brk s). eexists. exists (lh3 ++ [brk s]).
      split; [reflexivity |]. cbn [memory].
      split; [| split; [apply in_or_app; right; now left |
        split; [rewrite Esz5; lia | split; [exact Est5 |
          split; [rewrite length_app; simpl; lia |]]]]].
      2:{ cbn zeta. split; [intros X; exfalso; congruence |].
          split; [intros _ X; contradiction |].
          intros _ _. subst s4.
          cbn [brk trace memory with_memory with_head].
          repeat (split; [solve [trivial] |]). split.
          - intros x Hx Hlt. cbn [memory] in Hfr5. rewrite (Hfr5 x Hx).
            apply Hfr4. intros c [<- | []]. left. exact Hlt.
          - intros c Hc0. destruct (Hkeep c (or_intror Hc0)) as [-> ->].
            cbn [memory]. destruct (Hk4 c Hc0) as (_ & -> & ->).
            split; reflexivity. }
      subst s4. cbn [memory head heap_preallocated MAP_THRESHOLD brk brk_limit
                     map_next map_limit page_size trace].
      replace (brk s + (ALIGN size + 24))
        with (brk s + BLOCK_META_SIZE + ALIGN size)
        by (unfold BLOCK_META_SIZE; lia).
      apply (heap_inv_append (with_memory s m3) lm lh3 m5 h5 _ _
               (ALIGN size) STATUS_ALLOC); trivial;
        cbn [memory brk brk_limit with_memory].
      * intros c Hc0. destruct (Hkeep c (or_intror Hc0)) as [-> ->].
        cbn [memory]. destruct (Hk4 c Hc0) as (_ & -> & ->).
        split; reflexivity.
      * now right.
      * lia.
      * apply ALIGN_mod8.
      * unfold BLOCK_META_SIZE. lia.
  - (* best fit *)
    destruct (Z.eqb_spec best 0); [contradiction |].
    cbn [negb]. run.
    assert (Hin : In best lh3).
    { assert (Hin : In best (lm ++ lh3)) by (rewrite El; apply in_elt).
      apply in_app_or in Hin. destruct Hin as [Hin | Hin]; [| exact Hin].
      destruct (Hm3 best Hin) as (Est & _). rewrite Hbf in Est.
      discriminate Est. }
    destruct (heap_inv_split (with_memory s m3) lm lh3 best size Hinv3 Hin)
      as (lh' & Hinv' & Hin' & Hlen'); try exact Hbs; try lia.
    unfold Q. right.
    exists best. eexists. exists lh'. split; [reflexivity |]. cbn [memory].
    split; [exact Hinv' |]. split; [exact Hin' |].
    split; [apply split_block_size; exact Hbs |].
    split; [apply split_block_status |]. split; [lia |].
    cbn zeta. split; [| split; intros X; contradiction].
    intros _. split; [reflexivity |]. split; [reflexivity |].
    split; [exact Hin | split; [exact Hbf | exact Hbs]].
Qed.

Lemma os_malloc_heap_inv fuel s lm lh size :
  heap_inv s lm lh -> heap_preallocated s <> 0 ->
  (length (lm ++ lh) < fuel)%nat -> 0 < size ->
  w64 (ALIGN size + ALIGN BLOCK_META_SIZE) < MAP_THRESHOLD s ->
  brk s + size + 31 <= brk_limit s ->
  (os_malloc_heap fuel size s = Fault /\
   page_up s (brk s + 8) < brk s + BLOCK_META_SIZE) \/
  exists b s' lh',
    os_malloc_heap fuel size s = Ok (get_ptr_block b) s' /\
    heap_inv s' lm lh' /\ In b lh' /\
    ALIGN size <= get_size (memory s') b /\
    get_status (memory s') b = STATUS_ALLOC /\
    (length lh' <= length lh + 1)%nat.
Proof.
  intros Hinv Hpre Hf Hsz Hthr Hroom.
  destruct (coalesce_memory_inv fuel s lm lh Hinv Hf)
    as (m3 & lh3 & Eco & Hinv3 & _ & Hlen3).
  destruct (os_malloc_heap_after fuel s lm lh size m3 lh3 Hinv Hpre Hf Hsz
              Hthr Hroom Eco Hinv3 Hlen3)
    as [(EF & _ & _ & _ & Hno)
       | (b & s' & lh' & E & Hinv' & Hin & Hs & Hst & Hlen & _)].
  - left. split; [exact EF | exact Hno].
  - right. exists b, s', lh'. repeat (split; [assumption |]). exact Hlen.
Qed.

(** ** [os_malloc] as a whole *)

Lemma heap_inv_block_aligned s lm lh b :
  heap_inv s lm lh -> In b (lm ++ lh) -> 0 < b /\ b mod 8 = 0.
Proof.
  intros Hinv Hb. apply in_app_or in Hb. destruct Hb as [Hb | Hb].
  - destruct Hinv as (Hos & _ & _ & _ & Hm & _).
    destruct (Hm b Hb) as (_ & Hpg & Hlo & _).
    destruct Hos as (Hp & Hp8 & _ & Hb0 & _ & Hbl & _).
    split; [unfold BLOCK_META_SIZE in *; lia |].
    apply Z.mod_divide; [lia |].
    apply (Z.divide_trans _ (page_size s)); apply Z.mod_divide; trivial; lia.
  - pose proof (heap_inv_heap_block s lm lh b Hinv Hb) as [Hpos _].
    destruct Hinv as (_ & _ & _ & _ & _ & _ & Hh & _).
    split; [exact Hpos | apply (Hh b Hb)].
Qed.

Lemma heap_block_granted s lm lh b n :
  heap_inv s lm lh -> In b lh -> 0 <= n <= get_size (memory s) b ->
  granted s (get_ptr_block b) n = true.
Proof.
  intros Hinv Hb Hn.
  destruct (heap_inv_heap_block s lm lh b Hinv Hb) as [Hpos Htop].
  pose proof (page_up_ge s (brk s) (proj1 (proj1 Hinv))).
  apply granted_heap; unfold get_ptr_block, BLOCK_META_SIZE in *; lia.
Qed.

Lemma heap_inv_payload_clear s lm lh b :
  heap_inv s lm lh -> In b lh -> payload_clear (memory s) (lm ++ lh) b.
Proof.
  intros Hinv Hb c Hc.
  destruct (heap_inv_heap_block s lm lh b Hinv Hb) as [Hpos Htop].
  apply in_app_or in Hc. destruct Hc as [Hc | Hc].
  - destruct Hinv as (Hos & _ & _ & _ & Hm & _).
    destruct (Hm c Hc) as (_ & _ & Hlo & _).
    destruct Hos as (_ & _ & _ & _ & _ & Hbl & _).
    right. unfold BLOCK_META_SIZE in *. lia.
  - destruct Hinv as (_ & _ & _ & _ & _ & Hct & _).
    destruct (in_split b lh Hb) as (l1 & l2 & ->).
    apply in_app_or in Hc. destruct Hc as [Hc | [<- | Hc]].
    + left. pose proof (contig_before _ _ _ _ _ c Hct Hc).
      pose proof (get_size_range (memory s) c).
      unfold BLOCK_META_SIZE in *. lia.
    + left. lia.
    + right. apply (contig_after _ l2 (brk s)); trivial.
      exact (contig_app_r _ l1 _ _ Hct).
Qed.

Lemma heap_inv_head_range s lm lh :
  heap_inv s lm lh -> 0 <= head s < SIZE_MAX1.
Proof.
  intros Hinv. pose proof Hinv as (Hos & _ & Hc & _).
  rewrite (chain_head _ _ _ Hc).
  destruct (lm ++ lh) as [| a l] eqn:E; [simpl; unfold SIZE_MAX1; lia |].
  assert (Ha : In a (lm ++ lh)) by (rewrite E; now left).
  pose proof (heap_inv_block_aligned s lm lh a Hinv Ha) as [Hpos _].
  pose proof (heap_inv_below s lm lh a Hinv Ha) as Hle.
  destruct Hos as (_ & _ & _ & _ & _ & _ & _ & _ & H1 & H2).
  simpl. unfold SIZE_MAX1, BLOCK_META_SIZE in *. lia.
Qed.

(** The mapping branch of [os_malloc]: the new block is linked in at the
    head and the call of [mmap] is logged with the address of the block. *)
Lemma os_malloc_mmap_inv fuel s lm lh size :
  heap_inv s lm lh -> 0 < size ->
  MAP_THRESHOLD s <= w64 (ALIGN size + ALIGN BLOCK_META_SIZE) ->
  room s size ->
  exists s',
    os_malloc fuel size s = Ok (get_ptr_block (map_next s)) s' /\
    heap_inv s' (map_next s :: lm) lh /\
    get_size (memory s') (map_next s) = ALIGN size /\
    get_status (memory s') (map_next s) = STATUS_MAPPED /\
    trace s'
    = trace s
      ++ [Mmap (map_next s) (w64 (ALIGN size + ALIGN BLOCK_META_SIZE))].
Proof.
  intros Hinv Hsz Hge [Hroom Hmroom].
  pose proof Hinv as (Hos & _).
  destruct (os_sane_bounds s Hos) as (Hbrk & Hmap & Hmap8).
  assert (Hlim : brk_limit s + 24 <= 2 ^ 63)
    by (destruct Hos as (_ & _ & _ & _ & _ & _ & H1 & _ & H2 & H3);
        unfold BLOCK_META_SIZE in *; lia).
  assert (Hmax : size + 31 < SIZE_MAX1)
    by (unfold SIZE_MAX1, PREALLOC_SIZE in *; lia).
  pose proof (ALIGN_small size ltac:(lia) ltac:(lia)) as HA.
  assert (Etot : w64 (ALIGN size + ALIGN BLOCK_META_SIZE) = ALIGN size + 24).
  { rewrite ALIGN_header. unfold BLOCK_META_SIZE.
    apply w64_small. unfold SIZE_MAX1 in *. lia. }
  pose proof (mapped_end_le s (w64 (ALIGN size + ALIGN BLOCK_META_SIZE))
                (proj1 Hos)) as Hme.
  destruct (os_malloc_mmap fuel s size Hos)
    as (m2 & E & Esz & Est & Enx & Hfr); trivial; try lia;
    try (rewrite Etot; unfold BLOCK_META_SIZE; lia).
  specialize (Enx (heap_inv_head_range s lm lh Hinv)).
  eexists. split; [exact E |]. cbn [memory trace].
  split; [| split; [exact Esz | split; [exact Est | reflexivity]]].
  apply (heap_inv_mapped s lm lh m2 (ALIGN size) _ Hinv Hfr Esz Est Enx).
  - apply ALIGN_mod8.
  - unfold BLOCK_META_SIZE, SIZE_MAX1 in *. lia.
  - rewrite Etot. unfold BLOCK_META_SIZE. lia.
  - rewrite Etot in *. lia.
Qed.

(** The payload of a block that [os_malloc] has mapped is granted. *)
Lemma os_malloc_mmap_granted fuel s lm lh size p s' :
  heap_inv s lm lh -> 0 < size ->
  MAP_THRESHOLD s <= w64 (ALIGN size + ALIGN BLOCK_META_SIZE) ->
  room s size ->
  os_malloc fuel size s = Ok p s' ->
  granted s' (get_ptr_block (map_next s)) (ALIGN size) = true.
Proof.
  intros Hinv Hsz Hge [Hroom Hmroom] E.
  pose proof Hinv as (Hos & _).
  destruct (os_sane_bounds s Hos) as (Hbrk & Hmap & Hmap8).
  assert (Hlim : brk_limit s + 24 <= 2 ^ 63)
    by (destruct Hos as (_ & _ & _ & _ & _ & _ & H1 & _ & H2 & H3);
        unfold BLOCK_META_SIZE in *; lia).
  assert (Hmax : size + 31 < SIZE_MAX1)
    by (unfold SIZE_MAX1, PREALLOC_SIZE in *; lia).
  pose proof (ALIGN_small size ltac:(lia) ltac:(lia)) as HA.
  assert (Etot : w64 (ALIGN size + ALIGN BLOCK_META_SIZE) = ALIGN size + 24).
  { rewrite ALIGN_header. unfold BLOCK_META_SIZE.
    apply w64_small. unfold SIZE_MAX1 in *. lia. }
  pose proof (mapped_end_le s (w64 (ALIGN size + ALIGN BLOCK_META_SIZE))
                (proj1 Hos)) as Hme.
  destruct (os_malloc_mmap fuel s size Hos)
    as (m2 & E2 & _); trivial; try lia;
    try (rewrite Etot; unfold BLOCK_META_SIZE; lia).
  clear Hme. rewrite E2 in E. injection E as _ <-.
  pose proof (page_up_ge s (w64 (ALIGN size + ALIGN BLOCK_META_SIZE))
                (proj1 Hos)) as Hpu.
  unfold page_up in Hpu. rewrite Etot in *.
  apply (granted_mapping _ (trace s) (map_next s) (ALIGN size + 24));
    cbn [trace page_size]; trivial;
    unfold ALLOCATION_FAILED, SIZE_MAX1, get_ptr_block,
      BLOCK_META_SIZE in *; try lia.
  destruct Hos as (_ & _ & _ & _ & _ & _ & _ & _ & H2 & H3). lia.
Qed.

Lemma os_malloc_inv fuel s lm lh size :
  heap_inv s lm lh -> (length (lm ++ lh) + 1 < fuel)%nat -> 0 < size ->
  room s size ->
  (os_malloc fuel size s = Fault /\
   (heap_preallocated s <> 0 ->
    page_up s (brk s + 8) < brk s + BLOCK_META_SIZE)) \/
  exists b s' lm' lh',
    os_malloc fuel size s = Ok (get_ptr_block b) s' /\
    heap_inv s' lm' lh' /\ In b (lm' ++ lh') /\
    payload_clear (memory s') (lm' ++ lh') b /\
    ALIGN size <= get_size (memory s') b /\
    (get_status (memory s') b = STATUS_ALLOC \/
     get_status (memory s') b = STATUS_MAPPED) /\
    (length (lm' ++ lh') <= length (lm ++ lh) + 2)%nat /\
    granted s' (get_ptr_block b) (ALIGN size) = true.
Proof.
  intros Hinv Hf Hsz [Hroom Hmroom].
  pose proof Hinv as (Hos & Hthr & Hc & Hsm & Hm & Hct & Hh & Hne & Hlog).
  destruct (os_sane_bounds s Hos) as (Hbrk & Hmap & Hmap8).
  assert (Hlim : brk_limit s + 24 <= 2 ^ 63)
    by (destruct Hos as (_ & _ & _ & _ & _ & _ & H1 & _ & H2 & H3);
        unfold BLOCK_META_SIZE in *; lia).
  assert (Hmax : size + 31 < SIZE_MAX1)
    by (unfold SIZE_MAX1, PREALLOC_SIZE in *; lia).
  pose proof (ALIGN_small size ltac:(lia) ltac:(lia)) as HA.
  assert (Etot : w64 (ALIGN size + ALIGN BLOCK_META_SIZE) = ALIGN size + 24).
  { rewrite ALIGN_header. unfold BLOCK_META_SIZE.
    apply w64_small. unfold SIZE_MAX1 in *. lia. }
  destruct (Z.lt_ge_cases (w64 (ALIGN size + ALIGN BLOCK_META_SIZE))
              (MAP_THRESHOLD s)) as [Hlt | Hge].
  - assert (Hheap : forall s2 lh2,
              heap_inv s2 lm lh2 -> heap_preallocated s2 <> 0 ->
              (length lh2 <= length lh + 1)%nat ->
              MAP_THRESHOLD s2 = MAP_THRESHOLD s ->
              brk s2 + size + 31 <= brk_limit s2 ->
              (heap_preallocated s <> 0 -> s2 = s) ->
              (os_malloc_heap fuel size s2 = Fault /\
               (heap_preallocated s <> 0 ->
                page_up s (brk s + 8) < brk s + BLOCK_META_SIZE)) \/
              exists b s' lm' lh',
                os_malloc_heap fuel size s2 = Ok (get_ptr_block b) s' /\
                heap_inv s' lm' lh' /\ In b (lm' ++ lh') /\
                payload_clear (memory s') (lm' ++ lh') b /\
                ALIGN size <= get_size (memory s') b /\
                (get_status (memory s') b = STATUS_ALLOC \/
                 get_status (memory s') b = STATUS_MAPPED) /\
                (length (lm' ++ lh') <= length (lm ++ lh) + 2)%nat /\
                granted s' (get_ptr_block b) (ALIGN size) = true).
    { intros s2 lh2 Hinv2 Hpre2 Hlen2 Ethr2 Hroom2 Hsame.
      destruct (os_malloc_heap_inv fuel s2 lm lh2 size Hinv2 Hpre2)
        as [[EF Hno]
           | (b & s' & lh' & E & Hinv' & Hin' & Hsz' & Hst' & Hlen')];
        trivial.
      - rewrite length_app in *. lia.
      - rewrite Ethr2. exact Hlt.
      - left. split; [exact EF |]. intros Hp. rewrite (Hsame Hp) in Hno.
        exact Hno.
      - right.
        exists b, s', lm, lh'. split; [exact E |]. split; [exact Hinv' |].
        split; [apply in_or_app; now right |].
        split; [exact (heap_inv_payload_clear s' lm lh' b Hinv' Hin') |].
        split; [exact Hsz' |]. split; [now left |].
        split; [rewrite !length_app; lia |].
        apply (heap_block_granted s' lm lh' b (ALIGN size) Hinv' Hin').
        pose proof (ALIGN_range size). lia. }
    pattern (os_malloc fuel size s).
    match goal with |- ?P _ => set (Q := P) end.
    unfold os_malloc.
    destruct (Z.eqb_spec size 0); [lia |].
    unfold bind at 1.
    destruct (Z.ltb_spec (w64 (ALIGN size + ALIGN BLOCK_META_SIZE))
                (MAP_THRESHOLD s)) as [_ |]; [| lia].
    unfold bind at 1.
    destruct (Z.eqb_spec (heap_preallocated s) 0) as [Hpre | Hpre].
    + destruct (prealloc_inv fuel s lm lh Hinv Hpre) as
        (s2 & E2 & Hinv2 & Ep & Eb & Ebl & Ethr & _);
        [unfold PREALLOC_SIZE in *; lia | lia |].
      rewrite (bind_ok _ _ _ _ _ E2). unfold Q.
      apply (Hheap s2 (lh ++ [brk s])); trivial.
      * rewrite Ep. discriminate.
      * rewrite length_app. simpl. lia.
      * rewrite Eb, Ebl. lia.
      * intros Hp. contradiction.
    + unfold bind at 1. unfold ret at 1. unfold Q.
      apply (Hheap s lh); trivial; try lia.
      unfold PREALLOC_SIZE in *. lia.
  - right.
    destruct (os_malloc_mmap_inv fuel s lm lh size Hinv Hsz Hge
                (conj Hroom Hmroom)) as (s' & E & Hinv' & Esz & Est & Etr).
    exists (map_next s), s', (map_next s :: lm), lh.
    split; [exact E |]. split; [exact Hinv' |]. split; [now left |].
    split; [| split; [rewrite Esz; lia
                     | split; [now right | split; [simpl; lia |]]]].
    + intros c [<- | Hc0]; [left; lia |].
      left. pose proof (heap_inv_below s lm lh c Hinv Hc0).
      unfold BLOCK_META_SIZE in *. lia.
    + exact (os_malloc_mmap_granted fuel s lm lh size _ _ Hinv Hsz Hge
               (conj Hroom Hmroom) E).
Qed.

(** ** The invariant in the states of the scenarios *)

(** One link of a concrete list, read off the evaluated memory. *)
Ltac chain_step :=
  match goal with
  | |- chain _ ?a (?b :: _) =>
      lazymatch a with
      | b => idtac
      | _ => replace a with b by (vm_compute; reflexivity)
      end;
      apply chain_cons; [vm_compute; intros X; discriminate X |]
  | |- chain _ ?a [] =>
      lazymatch a with
      | 0 => idtac
      | _ => replace a with 0 by (vm_compute; reflexivity)
      end;
      apply chain_nil
  end.

Ltac each_block tac :=
  let b := fresh "b" in
  let Hb := fresh "Hb" in
  intros b Hb; simpl in Hb;
  repeat (destruct Hb as [<- | Hb]);
  first [exfalso; exact Hb | tac].

Ltac log_entry H :=
  first [ contradiction | discriminate H
        | injection H as <-; reflexivity
        | injection H as <- <-;
          first [left; vm_compute; reflexivity
                | right; vm_compute; reflexivity] ].

Ltac log_cases H :=
  repeat (destruct H as [H | H]; [log_entry H |]); log_entry H.

(** The log of a concrete state holds the mapping of a block. *)
Ltac check_logged :=
  let l := fresh "l" in
  let H := fresh "H" in
  intros l; split;
  [ intros H; log_cases H
  | intros ->; repeat first [left; reflexivity | right] ].

(** The mappings of the log of a concrete state lie below [map_next]. *)
Ltac check_below :=
  let a := fresh "a" in
  let l := fresh "l" in
  let H := fresh "H" in
  unfold mappings_below; intros a l H;
  match type of H with
  | In _ ?tr =>
      let v := eval vm_compute in tr in
      replace tr with v in H by (vm_compute; reflexivity)
  end;
  simpl In in H; log_cases H.

Ltac by_evaluation :=
  vm_compute;
  repeat match goal with |- _ /\ _ => split end;
  first [ reflexivity | exact I | left; reflexivity | right; reflexivity
        | let X := fresh in intros X; discriminate X
        | check_logged ].

(** Each conjunct of the invariant is decided by evaluating the state. *)
Ltac check_heap_inv :=
  unfold heap_inv;
  split; [| split; [| split; [| split; [| split; [| split; [| split;
    [| split]]]]]]];
  [ unfold os_sane; by_evaluation
  | by_evaluation
  | simpl app; repeat chain_step
  | simpl; unfold hdr_disjoint, BLOCK_META_SIZE;
    repeat split; repeat constructor; lia
  | each_block by_evaluation
  | by_evaluation
  | each_block by_evaluation
  | first [ intros _; discriminate
          | let H := fresh in
            intros H; exfalso; apply H; vm_compute; reflexivity ]
  | check_below ].

Lemma heap_inv_fresh : heap_inv fresh [] [].
Proof. check_heap_inv. Qed.

Lemma heap_inv_after_malloc_1000 :
  heap_inv after_malloc_1000 [] [4096000; 4097024].
Proof. check_heap_inv. Qed.

Lemma heap_inv_after_one_free :
  heap_inv after_one_free [] [4096000; 4096224; 4096552].
Proof. check_heap_inv. Qed.

Lemma heap_inv_tail_allocated :
  heap_inv tail_allocated [] [4096000; 4096040].
Proof. check_heap_inv. Qed.

Lemma heap_inv_after_frees :
  heap_inv (state_of (alloc_alloc_free_free fresh)) [] [4096000; 4096552].
Proof. check_heap_inv. Qed.

Lemma heap_inv_tail_before_page_end :
  heap_inv tail_before_page_end [] [4096000; 4227072].
Proof. check_heap_inv. Qed.

Lemma heap_inv_mapped_and_heap :
  heap_inv mapped_and_heap [2 ^ 40] [4096000; 4096128].
Proof. check_heap_inv. Qed.

(** ** Writes that leave the headers alone *)

Lemma heap_inv_same_fields s lm lh m' :
  heap_inv s lm lh ->
  (forall c, In c (lm ++ lh) ->
     get_next m' c = get_next (memory s) c /\
     get_size m' c = get_size (memory s) c /\
     get_status m' c = get_status (memory s) c) ->
  heap_inv (with_memory s m') lm lh.
Proof.
  intros (Hos & Hthr & Hc & Hsm & Hm & Hct & Hh & Hpre & Hlog) Hk.
  unfold heap_inv. cbn [memory head heap_preallocated MAP_THRESHOLD brk
                        brk_limit map_next map_limit page_size with_memory].
  split; [exact Hos |]. split; [exact Hthr |]. split.
  { apply (chain_frame (memory s)); trivial. intros c Hc0. apply Hk, Hc0. }
  split; [exact Hsm |]. split.
  { intros c Hc0.
    destruct (Hk c (in_or_app _ _ c (or_introl Hc0))) as (_ & -> & ->).
    exact (Hm c Hc0). }
  split.
  { apply (contig_fields (memory s)); trivial. intros c Hc0.
    apply (Hk c (in_or_app _ _ c (or_intror Hc0))). }
  split; [| split; [exact Hpre | exact Hlog]].
  intros c Hc0.
  destruct (Hk c (in_or_app _ _ c (or_intror Hc0))) as (_ & -> & ->).
  exact (Hh c Hc0).
Qed.

(** Filling the payload of a block whose payload holds no header. *)
Lemma heap_inv_memset s lm lh b v n :
  heap_inv s lm lh -> payload_clear (memory s) (lm ++ lh) b ->
  n <= get_size (memory s) b ->
  heap_inv (with_memory s (memset (memory s) (get_ptr_block b) v n)) lm lh.
Proof.
  intros Hinv Hclear Hn. apply heap_inv_same_fields; trivial.
  intros c Hc. specialize (Hclear c Hc).
  unfold get_next, get_size, get_status, get_ptr_block,
    OFF_NEXT, OFF_SIZE, OFF_STATUS, BLOCK_META_SIZE in *.
  repeat split; apply load_memset_disj; simpl Z.of_nat; lia.
Qed.

(** The application stores into the payload of a heap block. *)
Lemma heap_inv_store_payload s lm lh b x v n :
  heap_inv s lm lh -> In b lh -> get_ptr_block b <= x ->
  x + n <= get_ptr_block b + get_size (memory s) b ->
  heap_inv (with_memory s (memset (memory s) x v n)) lm lh.
Proof.
  intros Hinv Hb Hlo Hhi. apply heap_inv_same_fields; trivial.
  intros c Hc.
  pose proof (heap_inv_payload_clear s lm lh b Hinv Hb c Hc) as Hclear.
  unfold get_next, get_size, get_status, get_ptr_block,
    OFF_NEXT, OFF_SIZE, OFF_STATUS, BLOCK_META_SIZE in *.
  repeat split; apply load_memset_disj; simpl Z.of_nat; lia.
Qed.

Lemma heap_inv_with_threshold s lm lh v :
  heap_inv s lm lh -> 0 <= v < 2 ^ 63 -> heap_inv (with_threshold s v) lm lh.
Proof.
  intros (Hos & Hthr & Hrest) Hv.
  unfold heap_inv. split; [exact Hos |]. split; [exact Hv | exact Hrest].
Qed.

(** ** Unlinking a block *)

Lemma sep_mid l1 x l2 c :
  sep (l1 ++ x :: l2) -> In c (l1 ++ l2) -> hdr_disjoint c x.
Proof.
  induction l1 as [| a l1 IH]; intros Hs Hc.
  - destruct Hs as [Hd _]. rewrite Forall_forall in Hd.
    apply hdr_disjoint_sym. apply Hd. exact Hc.
  - change ((a :: l1) ++ x :: l2) with (a :: (l1 ++ x :: l2)) in Hs.
    destruct Hs as [Hd Hs]. rewrite Forall_forall in Hd.
    destruct Hc as [<- | Hc].
    + apply Hd. apply in_elt.
    + apply IH; trivial.
Qed.

Lemma sep_remove l1 x l2 : sep (l1 ++ x :: l2) -> sep (l1 ++ l2).
Proof.
  induction l1 as [| a l1 IH]; intros Hs.
  - apply Hs.
  - change ((a :: l1) ++ x :: l2) with (a :: (l1 ++ x :: l2)) in Hs.
    destruct Hs as [Hd Hs]. split; [| apply IH; exact Hs].
    rewrite Forall_forall in *. intros c Hc. apply Hd.
    apply in_app_or in Hc. apply in_or_app.
    destruct Hc as [Hc | Hc]; [now left | right; now right].
Qed.

Lemma remove_loop_walk b s l2 : forall l1 fuel cur prev,
  chain (memory s) cur (l1 ++ b :: l2) -> ~ In b l1 -> b <> head s ->
  (l1 = [] -> prev <> 0) -> (length (l1 ++ b :: l2) < fuel)%nat ->
  remove_loop fuel b cur prev s
  = Ok tt (with_memory s
             (set_next (set_next (memory s) (last l1 prev)
                          (get_next (memory s) b)) b 0)).
Proof.
  induction l1 as [| a l1 IH]; intros fuel cur prev Hc Hn Hh Hp Hf;
    (destruct fuel as [| f]; [simpl in Hf; lia |]); cbn [remove_loop].
  - inversion Hc as [| ? ? Hb0 Hc0]; subst.
    destruct (Z.eqb_spec b 0); [contradiction |].
    rewrite Z.eqb_refl.
    destruct (Z.eqb_spec b (head s)); [contradiction |].
    destruct (Z.eqb_spec prev 0) as [E |]; [exfalso; exact (Hp eq_refl E) |].
    reflexivity.
  - change ((a :: l1) ++ b :: l2) with (a :: (l1 ++ b :: l2)) in Hc, Hf.
    inversion Hc as [| ? ? Ha0 Hc0]; subst.
    destruct (Z.eqb_spec a 0); [contradiction |].
    destruct (Z.eqb_spec a b) as [-> | Hab]; [exfalso; apply Hn; now left |].
    rewrite (IH f (get_next (memory s) a) a); trivial.
    + rewrite last_cons. reflexivity.
    + intros Hin. apply Hn. now right.
    + simpl in Hf. lia.
Qed.

Lemma chain_remove m m' a l1 b l2 :
  chain m a (l1 ++ b :: l2) -> l1 <> [] ->
  (forall c, In c (removelast l1 ++ l2) -> get_next m' c = get_next m c) ->
  get_next m' (last l1 0) = get_next m b ->
  chain m' a (l1 ++ l2).
Proof.
  intros Hc Hne Hk Hp.
  rewrite (app_removelast_last 0 Hne) in Hc |- *.
  set (l0 := removelast l1) in *. set (p := last l1 0) in *.
  rewrite <- app_assoc in Hc |- *. simpl in Hc |- *.
  apply (chain_replace_suffix m m' a l0 (p :: b :: l2) (p :: l2) Hc).
  - intros c Hc0. apply Hk. apply in_or_app. now left.
  - pose proof (chain_app_r _ _ _ _ Hc) as Hcp. simpl in Hcp.
    inversion Hcp as [| ? ? Hp0 Hcb]; subst.
    simpl. constructor; [exact Hp0 |]. rewrite Hp.
    inversion Hcb as [| ? ? Hb0 Hc2]; subst.
    apply (chain_frame m); trivial.
    intros c Hc0. apply Hk. apply in_or_app. now right.
Qed.

(** The list without one of its mapped blocks. *)
Lemma heap_inv_relink s l1 b l2 lh m' h' :
  heap_inv s (l1 ++ b :: l2) lh ->
  chain m' h' ((l1 ++ l2) ++ lh) ->
  (forall c, In c ((l1 ++ b :: l2) ++ lh) ->
     get_size m' c = get_size (memory s) c /\
     get_status m' c = get_status (memory s) c) ->
  heap_inv (with_head (with_memory s m') h') (l1 ++ l2) lh.
Proof.
  intros (Hos & Hthr & Hc & Hsm & Hm & Hct & Hh & Hpre & Hlog) Hc' Hk.
  assert (Hsub : forall c, In c (l1 ++ l2) -> In c (l1 ++ b :: l2)).
  { intros c Hc0. apply in_app_or in Hc0. apply in_or_app.
    destruct Hc0 as [Hc0 | Hc0]; [now left | right; now right]. }
  unfold heap_inv.
  cbn [memory head heap_preallocated MAP_THRESHOLD brk brk_limit map_next
       map_limit page_size with_memory with_head].
  split; [exact Hos |]. split; [exact Hthr |]. split; [exact Hc' |].
  split; [exact (sep_remove _ _ _ Hsm) |]. split.
  { intros c Hc0.
    destruct (Hk c (in_or_app _ _ c (or_introl (Hsub c Hc0)))) as (-> & ->).
    exact (Hm c (Hsub c Hc0)). }
  split.
  { apply (contig_fields (memory s)); trivial. intros c Hc0.
    apply (Hk c (in_or_app _ _ c (or_intror Hc0))). }
  split; [| split; [exact Hpre | exact Hlog]].
  intros c Hc0.
  destruct (Hk c (in_or_app _ _ c (or_intror Hc0))) as (-> & ->).
  exact (Hh c Hc0).
Qed.

Lemma remove_memory_block_inv fuel s lm lh b :
  heap_inv s lm lh -> In b lm -> (length (lm ++ lh) < fuel)%nat ->
  exists m' h' lm',
    remove_memory_block fuel b s = Ok tt (with_head (with_memory s m') h') /\
    heap_inv (with_head (with_memory s m') h') lm' lh /\
    get_size m' b = get_size (memory s) b /\
    (length lm' < length lm)%nat.
Proof.
  intros Hinv Hb Hf.
  pose proof (heap_inv_sep s lm lh Hinv) as Hsep.
  pose proof Hinv as (_ & _ & Hc & _).
  destruct (in_split b lm Hb) as (l1 & l2 & ->).
  rewrite <- app_assoc in Hc, Hsep, Hf. simpl in Hc, Hsep, Hf.
  set (m := memory s) in *.
  assert (Hbd : forall c, In c (l1 ++ l2 ++ lh) -> hdr_disjoint c b)
    by (intros c Hc0; exact (sep_mid _ _ _ c Hsep Hc0)).
  assert (Hall : forall c, In c ((l1 ++ b :: l2) ++ lh) ->
                   c = b \/ hdr_disjoint c b).
  { intros c Hc0. rewrite <- app_assoc in Hc0. simpl in Hc0.
    destruct (in_app_mid _ _ _ _ Hc0) as [-> | Hc1]; [now left |].
    right. exact (Hbd c Hc1). }
  unfold remove_memory_block.
  destruct l1 as [| a l1].
  - (* the block is the head *)
    simpl in Hc, Hbd, Hf.
    pose proof (chain_head _ _ _ Hc) as Eh. simpl in Eh.
    assert (Hb0 : b <> 0).
    { intros ->. apply (chain_nonzero _ _ _ Hc). now left. }
    rewrite Eh in Hc.
    destruct (chain_cons_inv _ _ _ Hc Hb0) as (l0 & El & Hc0).
    injection El as <-.
    destruct fuel as [| f]; [lia |]. cbn [remove_loop].
    rewrite Eh. destruct (Z.eqb_spec b 0); [contradiction |].
    rewrite Z.eqb_refl.
    exists (set_next m b 0), (get_next m b), l2.
    split; [reflexivity |].
    split; [| split; [apply (set_next_keeps m b 0 b); now left |
                      simpl; lia]].
    apply (heap_inv_relink s [] b l2 lh); trivial.
    + simpl. apply (chain_frame m); trivial. intros c Hc1.
      apply set_next_next_other. exact (Hbd c Hc1).
    + intros c Hc1. apply set_next_keeps. exact (Hall c Hc1).
  - (* the block has a predecessor *)
    set (l0 := a :: l1) in *.
    assert (Hne : l0 <> []) by discriminate.
    assert (Hnb : ~ In b l0).
    { intros Hin. pose proof (Hbd b (in_or_app _ _ b (or_introl Hin))) as Hd.
      unfold hdr_disjoint, BLOCK_META_SIZE in Hd. lia. }
    assert (Hbh : b <> head s).
    { rewrite (chain_head _ _ _ Hc). simpl. intros ->. apply Hnb. now left. }
    rewrite (remove_loop_walk b s (l2 ++ lh) l0 fuel (head s) 0); trivial;
      [| intros E; discriminate E].
    fold m. set (p := last l0 0).
    assert (Hp : In p l0) by (apply last_in; exact Hne).
    assert (Hpb : hdr_disjoint p b)
      by (apply Hbd; apply in_or_app; now left).
    pose proof (get_next_range m b) as Hnr.
    assert (Hpp : forall c, In c ((l0 ++ b :: l2) ++ lh) ->
                    c = p \/ hdr_disjoint c p).
    { intros c Hc0. rewrite <- app_assoc in Hc0. simpl in Hc0.
      apply (sep_in_in _ c p Hsep Hc0). apply in_or_app. now left. }
    exists (set_next (set_next m p (get_next m b)) b 0), (head s), (l0 ++ l2).
    split; [destruct s; reflexivity |].
    split; [| split].
    + apply (heap_inv_relink s l0 b l2 lh); trivial.
      * rewrite <- app_assoc.
        apply (chain_remove m _ _ l0 b (l2 ++ lh) Hc Hne).
        -- intros c Hc0.
           rewrite set_next_next_other.
           ++ apply set_next_next_other.
              rewrite (app_removelast_last 0 Hne) in Hsep.
              rewrite <- app_assoc in Hsep. simpl in Hsep.
              apply (sep_mid _ _ _ c Hsep).
              apply in_app_or in Hc0. apply in_or_app.
              destruct Hc0 as [Hc0 | Hc0]; [now left |].
              right. right. exact Hc0.
           ++ apply Hbd. apply in_app_or in Hc0. apply in_or_app.
              destruct Hc0 as [Hc0 | Hc0]; [| now right].
              left. rewrite (app_removelast_last 0 Hne).
              apply in_or_app. now left.
        -- fold p. rewrite set_next_next_other by exact Hpb.
           apply set_next_next_same. exact Hnr.
      * intros c Hc0.
        destruct (set_next_keeps (set_next m p (get_next m b)) b 0 c
                    (Hall c Hc0)) as [-> ->].
        apply set_next_keeps. exact (Hpp c Hc0).
    + destruct (set_next_keeps (set_next m p (get_next m b)) b 0 b
                  (or_introl eq_refl)) as [-> _].
      apply set_next_keeps. right. apply hdr_disjoint_sym. exact Hpb.
    + rewrite !length_app. simpl. lia.
Qed.

(** ** [os_free] keeps the invariant *)

(** A call that is not a mapping, added to the log. *)
Lemma heap_inv_logged s lm lh ev :
  heap_inv s lm lh -> (forall a l, ev <> Mmap a l) ->
  heap_inv (mkState (memory s) (head s) (heap_preallocated s)
              (MAP_THRESHOLD s) (brk s) (brk_limit s) (map_next s)
              (map_limit s) (page_size s) (trace s ++ [ev])) lm lh.
Proof.
  intros (Hos & Hthr & Hc & Hsm & Hm & Hct & Hh & Hpre & Hlog) Hev.
  unfold heap_inv. cbn [memory head heap_preallocated MAP_THRESHOLD brk
                        brk_limit map_next map_limit page_size trace].
  split; [exact Hos |]. split; [exact Hthr |]. split; [exact Hc |].
  split; [exact Hsm |]. split.
  { intros c Hc0. destruct (Hm c Hc0) as (H1 & H2 & H3 & H4 & H5 & H6 & H7).
    repeat (split; [assumption |]).
    apply mapping_logged_snoc; [intros l; apply Hev | exact H7]. }
  split; [exact Hct |]. split; [exact Hh |]. split; [exact Hpre |].
  apply mappings_below_snoc; [exact Hlog |].
  intros a l E. exfalso. exact (Hev a l E).
Qed.

Lemma os_free_inv fuel s lm lh ptr :
  heap_inv s lm lh -> (length (lm ++ lh) < fuel)%nat ->
  exists s' lm' lh',
    os_free fuel ptr s = Ok tt s' /\ heap_inv s' lm' lh' /\
    (length (lm' ++ lh') <= length (lm ++ lh))%nat /\
    (forall x, room s x -> room s' x).
Proof.
  intros Hinv Hf.
  pose proof Hinv as (Hos & Hthr & Hc & Hsm & Hm & Hct & Hh & Hpre & Hlog).
  unfold os_free.
  destruct (Z.eqb_spec ptr 0);
    [exists s, lm, lh; split; [reflexivity | split; [exact Hinv | split; [lia | auto]]] |].
  set (b := get_block_ptr ptr).
  unfold bind at 1. unfold is_block_in_memory, lift_opt.
  rewrite (member_loop_chain fuel (memory s) (head s) (lm ++ lh) b Hc Hf).
  destruct (in_dec Z.eq_dec b (lm ++ lh)) as [Hin | Hout];
    [| exists s, lm, lh; split; [reflexivity | split; [exact Hinv | split; [lia | auto]]]].
  change (1 =? 0) with false. cbv iota.
  unfold bind at 1. unfold rd at 1.
  apply in_app_or in Hin. destruct Hin as [Hin | Hin].
  - (* a mapped block *)
    destruct (Hm b Hin) as (Est & Hpg & Hlo & Hhi & Hsz8 & Hszr & _).
    rewrite Est. change (STATUS_MAPPED =? STATUS_ALLOC) with false.
    change (STATUS_MAPPED =? STATUS_MAPPED) with true. cbv iota.
    destruct (remove_memory_block_inv fuel s lm lh b Hinv Hin Hf)
      as (m' & h' & lm' & E & Hinv' & Esz & Hlen).
    unfold bind at 1. rewrite E.
    unfold bind at 1. unfold rd at 1. cbn [memory with_memory with_head].
    rewrite Esz.
    pose proof (get_size_range (memory s) b) as Hr.
    rewrite w64_small by (unfold BLOCK_META_SIZE in *; lia).
    unfold bind at 1. unfold munmap.
    cbn [page_size with_memory with_head].
    destruct (Z.eqb_spec (get_size (memory s) b + BLOCK_META_SIZE) 0);
      [unfold BLOCK_META_SIZE in *; lia |].
    rewrite Hpg. change (0 =? 0) with true. cbn [negb orb]. cbv iota.
    eexists. exists lm', lh. split; [reflexivity |].
    split; [| split; [rewrite !length_app; lia | intros x Hx; exact Hx]].
    apply (heap_inv_logged _ lm' lh _ Hinv'). intros a l X. discriminate X.
  - (* a heap block *)
    destruct (Hh b Hin) as ([Est | Est] & _); rewrite Est.
    + change (STATUS_FREE =? STATUS_ALLOC) with false.
      change (STATUS_FREE =? STATUS_MAPPED) with false. cbv iota.
      exists s, lm, lh. split; [reflexivity | split; [exact Hinv | split; [lia | auto]]].
    + change (STATUS_ALLOC =? STATUS_ALLOC) with true. cbv iota.
      pose proof (heap_inv_set_status s lm lh b STATUS_FREE Hinv Hin
                    (or_introl eq_refl)) as Hinv1.
      destruct (coalesce_memory_inv fuel _ lm lh Hinv1 Hf)
        as (m3 & lh3 & E & Hinv3 & _ & Hlen).
      unfold bind at 1. unfold wr at 1. rewrite E.
      eexists. exists lm, lh3. split; [reflexivity |].
      split; [exact Hinv3 |].
      split; [rewrite !length_app; lia | intros x Hx; exact Hx].
Qed.

(** ** [os_calloc] *)

Lemma os_calloc_inv fuel s lm lh nmemb size :
  heap_inv s lm lh -> (length (lm ++ lh) + 1 < fuel)%nat ->
  0 < w64 (nmemb * size) -> room s (w64 (nmemb * size)) ->
  (os_calloc fuel nmemb size s = Fault /\
   os_malloc fuel (w64 (nmemb * size)) (with_threshold s (page_size s))
   = Fault /\
   (heap_preallocated s <> 0 ->
    page_up s (brk s + 8) < brk s + BLOCK_META_SIZE)) \/
  exists b s1 s' lm' lh',
    os_malloc fuel (w64 (nmemb * size)) (with_threshold s (page_size s))
    = Ok (get_ptr_block b) s1 /\
    MAP_THRESHOLD s1 = page_size s /\
    os_calloc fuel nmemb size s = Ok (get_ptr_block b) s' /\
    heap_inv s' lm' lh' /\ In b (lm' ++ lh') /\
    ALIGN (w64 (nmemb * size)) <= get_size (memory s') b /\
    (forall i, 0 <= i < w64 (nmemb * size) ->
       memory s' (get_ptr_block b + i) = 0) /\
    MAP_THRESHOLD s' = 128 * 1024 /\
    (length (lm' ++ lh') <= length (lm ++ lh) + 2)%nat /\
    memory s'
    = memset (memory s1) (get_ptr_block b) 0 (w64 (nmemb * size)).
Proof.
  intros Hinv Hf Hn Hroom.
  set (n := w64 (nmemb * size)) in *.
  assert (Hpg : 0 <= page_size s < 2 ^ 63).
  { destruct Hinv as ((Hp & _ & Hp63 & _) & _). lia. }
  assert (Hmax : n + 7 < SIZE_MAX1).
  { destruct Hroom as [Hr _]. destruct Hinv as (Hos & _).
    destruct (os_sane_bounds s Hos) as (Hbrk & _).
    destruct Hos as (_ & _ & _ & _ & _ & _ & H1 & _ & H2 & H3).
    unfold SIZE_MAX1, PREALLOC_SIZE, BLOCK_META_SIZE in *. lia. }
  pose proof (ALIGN_small n ltac:(lia) Hmax) as HA.
  pose proof (heap_inv_with_threshold s lm lh (page_size s) Hinv Hpg) as Hinv0.
  destruct (os_malloc_inv fuel (with_threshold s (page_size s)) lm lh n
              Hinv0 Hf Hn Hroom)
    as [[EF Hno]
       | (b & s1 & lm' & lh' & E & Hinv1 & Hin & Hclear & Hsz & _ & Hlen
          & Hgr)].
  { left. split; [| split; [exact EF | exact Hno]].
    unfold os_calloc. fold n. unfold bind at 1. unfold getpagesize at 1.
    unfold bind at 1. unfold bind at 1. rewrite EF. reflexivity. }
  right.
  destruct (heap_inv_block_aligned s1 lm' lh' b Hinv1 Hin) as [Hpos _].
  pose proof (heap_inv_with_threshold s1 lm' lh' (128 * 1024) Hinv1
                ltac:(lia)) as Hinv2.
  pose proof (heap_inv_memset _ lm' lh' b 0 n Hinv2 Hclear ltac:(
                cbn [memory with_threshold]; lia)) as Hinv3.
  unfold os_calloc. fold n. unfold bind at 1. unfold getpagesize at 1.
  unfold bind at 1. unfold bind at 1. rewrite E.
  unfold bind at 1.
  destruct (Z.eqb_spec (get_ptr_block b) 0);
    [unfold get_ptr_block, BLOCK_META_SIZE in *; lia |].
  unfold bind at 1.
  rewrite (store_to_ok (with_threshold s1 (128 * 1024)) (get_ptr_block b) n)
    by (apply (granted_shrink s1 _ (ALIGN n)); [lia | exact Hgr]).
  run. exists b, s1. eexists. exists lm', lh'.
  split; [reflexivity |].
  split; [exact (kt_os_malloc fuel n _ _ s1 E) |].
  split; [reflexivity |].
  split; [exact Hinv3 |]. split; [exact Hin |].
  cbn [memory MAP_THRESHOLD]. split; [| split; [| split]].
  - unfold get_size, get_ptr_block, OFF_SIZE, BLOCK_META_SIZE in *.
    rewrite load_memset_disj by (simpl Z.of_nat; lia). exact Hsz.
  - intros i Hi. unfold memset.
    replace ((get_ptr_block b <=? get_ptr_block b + i)
             && (get_ptr_block b + i <? get_ptr_block b + n)) with true
      by (symmetry; apply andb_true_iff; split;
          [apply Z.leb_le | apply Z.ltb_lt]; lia).
    reflexivity.
  - reflexivity.
  - split; [exact Hlen | reflexivity].
Qed.

(** ** Blocks in use survive the coalesce pass *)

Lemma coalesce_loop_keeps fuel : forall m a l m' l',
  chain m a l -> sep l -> (length l < fuel)%nat ->
  coalesce_loop fuel m a = Some m' -> chain m' a l' ->
  forall b, In b l -> get_status m b <> STATUS_FREE ->
    In b l' /\ get_size m' b = get_size m b /\
    get_status m' b = get_status m b /\
    get_next m' b = get_next m b.
Proof.
  induction fuel as [| f IH]; intros m a l m' l' Hc Hs Hf E Hc' b Hb Hst;
    [lia |].
  cbn [coalesce_loop] in E.
  destruct (Z.eqb_spec a 0) as [-> | Ha].
  { apply chain_nil_inv in Hc. subst l. destruct Hb. }
  destruct (chain_cons_inv _ _ _ Hc Ha) as (l0 & -> & Hc0).
  destruct (chain_cons_inv _ _ _ Hc' Ha) as (l0' & -> & Hc0').
  destruct Hs as [Hda Hs0].
  destruct (Z.eqb_spec (get_next m a) 0) as [Hn | Hn].
  { injection E as <-. rewrite Hn in Hc0. apply chain_nil_inv in Hc0.
    subst l0. destruct Hb as [<- | []]. split; [now left | auto]. }
  destruct (chain_cons_inv _ _ _ Hc0 Hn) as (rest & -> & Hc1).
  set (nx := get_next m a) in *.
  destruct Hs0 as [Hdn Hs1].
  pose proof (Forall_inv Hda) as Hanx.
  pose proof (Forall_inv_tail Hda) as Harest.
  destruct ((get_status m a =? STATUS_FREE) && (get_status m nx =? STATUS_FREE))
    eqn:Hfree.
  - apply andb_true_iff in Hfree. destruct Hfree as [Hfa Hfn].
    apply Z.eqb_eq in Hfa. apply Z.eqb_eq in Hfn.
    destruct (coalesce_blocks_spec m a nx Hanx) as (Enext & Est & Esz & Hfr).
    set (m1 := coalesce_blocks m a nx) in *. rewrite Enext in E.
    assert (Hk1 : forall c, In c rest ->
                    get_next m1 c = get_next m c /\
                    get_size m1 c = get_size m c /\
                    get_status m1 c = get_status m c).
    { intros c Hc2. apply (framed_fields m m1 [a] c Hfr).
      constructor; [| constructor]. apply hdr_disjoint_sym.
      rewrite Forall_forall in Harest. auto. }
    assert (Hc1' : chain m1 (get_next m nx) rest).
    { apply (chain_frame m); trivial. intros c Hc2. apply Hk1, Hc2. }
    destruct (coalesce_loop_chain f m1 (get_next m nx) rest Hc1' Hs1)
      as (m2 & l2 & E2 & Hc2 & _ & _ & _ & Hfr2 & _);
      [simpl in Hf; lia |].
    rewrite E in E2. injection E2 as <-.
    destruct (framed_fields m1 m' rest a Hfr2 Harest) as (En2 & _ & _).
    rewrite En2, Enext in Hc0'.
    destruct Hb as [<- | [<- | Hb]]; [contradiction | contradiction |].
    destruct (Hk1 b Hb) as (En1 & Es1 & Et1).
    destruct (IH m1 (get_next m nx) rest m' l0' Hc1' Hs1
                ltac:(simpl in Hf; lia) E Hc0' b Hb
                ltac:(rewrite Et1; exact Hst)) as (Hin & Es & Et & En).
    split; [now right |]. rewrite Es, Et, En. auto.
  - fold nx in E.
    destruct (coalesce_loop_chain f m nx (nx :: rest) Hc0 (conj Hdn Hs1))
      as (m2 & l2 & E2 & Hc2 & _ & _ & _ & Hfr2 & _);
      [simpl in Hf |- *; lia |].
    rewrite E in E2. injection E2 as <-.
    destruct (framed_fields m m' (nx :: rest) a Hfr2 Hda) as (En2 & Es2 & Et2).
    rewrite En2 in Hc0'. fold nx in Hc0'.
    destruct Hb as [<- | Hb]; [split; [now left | auto] |].
    destruct (IH m nx (nx :: rest) m' l0' Hc0 (conj Hdn Hs1)
                ltac:(simpl in Hf |- *; lia) E Hc0' b Hb Hst)
      as (Hin & Es & Et & En).
    split; [now right | auto].
Qed.

Lemma coalesce_memory_keeps fuel s lm lh m3 lh3 b :
  heap_inv s lm lh -> (length (lm ++ lh) < fuel)%nat ->
  coalesce_memory fuel s = Ok tt (with_memory s m3) ->
  heap_inv (with_memory s m3) lm lh3 ->
  In b lh -> get_status (memory s) b <> STATUS_FREE ->
  In b lh3 /\ get_size m3 b = get_size (memory s) b /\
  get_status m3 b = get_status (memory s) b /\
  get_next m3 b = get_next (memory s) b.
Proof.
  intros Hinv Hf E Hinv3 Hb Hst.
  pose proof (heap_inv_sep s lm lh Hinv) as Hsep.
  pose proof Hinv as (_ & _ & Hc & _).
  pose proof Hinv3 as (_ & _ & Hc3 & _).
  cbn [memory head with_memory] in Hc3.
  unfold coalesce_memory in E.
  destruct (coalesce_loop fuel (memory s) (head s)) as [m |] eqn:El;
    [| discriminate E].
  assert (Em : m = m3) by (unfold with_memory in E; now injection E).
  subst m.
  destruct (coalesce_loop_keeps fuel _ _ _ _ _ Hc Hsep Hf El Hc3 b
              (in_or_app _ _ b (or_intror Hb)) Hst) as (Hin & Es & Et & En).
  split; [| auto].
  apply in_app_or in Hin. destruct Hin as [Hin | Hin]; [| exact Hin].
  pose proof (heap_inv_cross s lm lh b b Hinv Hin Hb) as Hd.
  unfold hdr_disjoint, BLOCK_META_SIZE in Hd. lia.
Qed.

(** ** Growing a block over its free successor *)

Lemma contig_absorb m m' l1 b nx l2 top :
  contig m (l1 ++ b :: nx :: l2) top ->
  (forall c, In c (l1 ++ l2) -> get_size m' c = get_size m c) ->
  get_size m' b = get_size m b + BLOCK_META_SIZE + get_size m nx ->
  contig m' (l1 ++ b :: l2) top.
Proof.
  induction l1 as [| a l1 IH]; intros Hc Hf Hb.
  - destruct Hc as (Hb0 & Hbn & Hn0 & Hnn & Hc). simpl in *.
    split; [exact Hb0 |]. split; [rewrite Hb; lia |].
    apply (contig_fields m); trivial.
  - destruct Hc as (Ha & Han & Hc).
    change ((a :: l1) ++ b :: l2) with (a :: (l1 ++ b :: l2)).
    split; [exact Ha |]. split.
    + rewrite (Hf a (or_introl eq_refl)). rewrite Han. apply hd_app_cons.
    + apply IH; trivial. intros c Hc0. apply Hf. now right.
Qed.

Lemma chain_absorb m m' a l1 b nx l2 :
  chain m a (l1 ++ b :: nx :: l2) ->
  (forall c, In c (l1 ++ l2) -> get_next m' c = get_next m c) ->
  get_next m' b = get_next m nx ->
  chain m' a (l1 ++ b :: l2).
Proof.
  revert a. induction l1 as [| x l1 IH]; intros a Hc Hf Hb.
  - simpl in *. inversion Hc as [| ? ? Hb0 Hc']; subst.
    constructor; trivial. rewrite Hb.
    inversion Hc' as [| ? ? Hn0 Hc'']; subst.
    apply (chain_frame m); trivial.
  - simpl in Hc. inversion Hc as [| ? ? Hx Hc']; subst.
    change ((x :: l1) ++ b :: l2) with (x :: (l1 ++ b :: l2)).
    constructor; trivial.
    rewrite (Hf x (or_introl eq_refl)). apply IH; trivial.
    intros c Hc0. apply Hf. now right.
Qed.

(** Copying into the payload of a block whose payload holds no header. *)
Lemma heap_inv_memmove s lm lh b src n :
  heap_inv s lm lh -> payload_clear (memory s) (lm ++ lh) b ->
  n <= get_size (memory s) b ->
  heap_inv (with_memory s (memmove (memory s) (get_ptr_block b) src n)) lm lh.
Proof.
  intros Hinv Hclear Hn. apply heap_inv_same_fields; trivial.
  intros c Hc. specialize (Hclear c Hc).
  unfold get_next, get_size, get_status, get_ptr_block,
    OFF_NEXT, OFF_SIZE, OFF_STATUS, BLOCK_META_SIZE in *.
  repeat split; apply load_memmove_disj; simpl Z.of_nat; lia.
Qed.

(** The in-place growth of [os_realloc]: the block takes over the payload
    and the header of its free successor. *)
Lemma heap_inv_absorb s lm l1 b nx l2 :
  heap_inv s lm (l1 ++ b :: nx :: l2) ->
  let m := memory s in
  let m1 := set_size m b
              (w64 (get_size m b
                    + w64 (get_size m (get_next m b)
                           + ALIGN BLOCK_META_SIZE))) in
  let m2 := set_next m1 b (get_next m1 (get_next m1 b)) in
  let m3 := set_status m2 b STATUS_ALLOC in
  get_next m b = nx /\
  heap_inv (with_memory s m3) lm (l1 ++ b :: l2) /\
  get_size m3 b = get_size m b + BLOCK_META_SIZE + get_size m nx.
Proof.
  intros Hinv m m1 m2 m3.
  pose proof (heap_inv_sep s lm _ Hinv) as Hsep.
  pose proof Hinv as (Hos & Hthr & Hc & Hsm & Hm & Hct & Hh & Hpre & Hlog).
  fold m in Hc, Hm, Hct, Hh.
  destruct (os_sane_bounds s Hos) as (Hbrk & _ & _).
  assert (Hb : In b (l1 ++ b :: nx :: l2)) by apply in_elt.
  assert (Hnx : In nx (l1 ++ b :: nx :: l2))
    by (apply in_or_app; right; right; now left).
  destruct (heap_inv_heap_block s lm _ b Hinv Hb) as [Hb0 _].
  destruct (heap_inv_heap_block s lm _ nx Hinv Hnx) as [Hn0 Hntop].
  fold m in Hntop.
  assert (Enx : get_next m b = nx).
  { rewrite app_assoc in Hc. pose proof (chain_app_r _ _ _ _ Hc) as Hcb.
    simpl in Hcb. inversion Hcb as [| ? ? _ Hcn]; subst.
    exact (chain_head _ _ _ Hcn). }
  assert (Hbn : b + BLOCK_META_SIZE + get_size m b = nx).
  { pose proof (contig_app_r _ l1 _ _ Hct) as Hcb.
    destruct Hcb as (_ & Hbn & _). exact Hbn. }
  pose proof (get_size_range m b) as Hrb.
  pose proof (get_size_range m nx) as Hrn.
  assert (Ew : w64 (get_size m b + w64 (get_size m nx + ALIGN BLOCK_META_SIZE))
               = get_size m b + BLOCK_META_SIZE + get_size m nx).
  { rewrite ALIGN_header. unfold BLOCK_META_SIZE in *.
    rewrite (w64_small (get_size m nx + 24)) by (unfold SIZE_MAX1; lia).
    rewrite w64_small by (unfold SIZE_MAX1; lia). lia. }
  assert (Hd : hdr_disjoint nx b)
    by (unfold hdr_disjoint, BLOCK_META_SIZE in *; lia).
  assert (E1n : get_next m1 b = nx).
  { subst m1. unfold_fields. rewrite load_store_disj by (simpl Z.of_nat; lia).
    exact Enx. }
  assert (E1nn : get_next m1 nx = get_next m nx).
  { subst m1. unfold hdr_disjoint in Hd. unfold_fields.
    rewrite load_store_disj by (simpl Z.of_nat; lia). reflexivity. }
  assert (Hfr : framed m m3 [b]).
  { apply (framed_trans _ m1);
      [apply store_framed; unfold OFF_SIZE, BLOCK_META_SIZE; lia |].
    apply (framed_trans _ m2);
      [apply store_framed; unfold OFF_NEXT, BLOCK_META_SIZE; lia |].
    apply set_status_framed. }
  assert (Es3 : get_size m3 b = get_size m b + BLOCK_META_SIZE + get_size m nx).
  { subst m3 m2.
    rewrite (proj1 (set_status_keeps _ b STATUS_ALLOC b (or_introl eq_refl))).
    rewrite (proj1 (set_next_keeps m1 b _ b (or_introl eq_refl))).
    subst m1. rewrite Enx. unfold_fields. rewrite load8_store8.
    unfold_fields. rewrite w64_idem. unfold_fields. exact Ew. }
  assert (En3 : get_next m3 b = get_next m nx).
  { subst m3.
    rewrite (proj2 (set_status_keeps m2 b STATUS_ALLOC b (or_introl eq_refl))).
    subst m2. rewrite E1n, E1nn. apply set_next_next_same.
    apply get_next_range. }
  assert (Et3 : get_status m3 b = STATUS_ALLOC)
    by (apply set_status_status_same; unfold STATUS_ALLOC; lia).
  assert (Hk : forall c, In c (lm ++ l1 ++ l2) ->
                 get_next m3 c = get_next m c /\
                 get_size m3 c = get_size m c /\
                 get_status m3 c = get_status m c).
  { intros c Hc0. apply (framed_fields m m3 [b] c Hfr).
    constructor; [| constructor].
    rewrite app_assoc in Hsep, Hc0.
    apply (sep_mid (lm ++ l1) b (nx :: l2) c Hsep).
    apply in_app_or in Hc0. apply in_or_app.
    destruct Hc0 as [Hc0 | Hc0]; [now left | right; now right]. }
  split; [exact Enx |]. split; [| exact Es3].
  unfold heap_inv. cbn [memory head heap_preallocated MAP_THRESHOLD brk
                        brk_limit map_next map_limit page_size with_memory
                        trace].
  split; [exact Hos |]. split; [exact Hthr |]. split.
  { rewrite app_assoc. rewrite app_assoc in Hc.
    apply (chain_absorb m m3 _ (lm ++ l1) b nx l2 Hc); [| exact En3].
    intros c Hc0. apply Hk. rewrite <- app_assoc in Hc0. exact Hc0. }
  split; [exact Hsm |]. split.
  { intros c Hc0.
    destruct (Hk c (in_or_app _ _ c (or_introl Hc0))) as (_ & -> & ->).
    exact (Hm c Hc0). }
  split.
  { apply (contig_absorb m m3 l1 b nx l2 (brk s) Hct); [| exact Es3].
    intros c Hc0. apply Hk. apply in_or_app. now right. }
  split; [| split; [intros _; destruct l1; discriminate | exact Hlog]].
  intros c Hc0. destruct (in_app_mid _ _ _ _ Hc0) as [-> | Hc1].
  - rewrite Et3, Es3. destruct (Hh b Hb) as (_ & H8 & Hs8).
    destruct (Hh nx Hnx) as (_ & _ & Hn8).
    split; [now right |]. split; [exact H8 |].
    unfold BLOCK_META_SIZE. clear - Hs8 Hn8. Z.div_mod_to_equations. lia.
  - destruct (Hk c (in_or_app _ _ c (or_intror Hc1))) as (_ & -> & ->).
    apply Hh. apply in_app_or in Hc1. apply in_or_app.
    destruct Hc1 as [Hc1 | Hc1]; [now left | right; right; now right].
Qed.

(** ** [os_realloc] keeps the invariant *)

Lemma min_le_r a b : min a b <= b.
Proof. unfold min. destruct (Z.ltb_spec a b); lia. Qed.

Lemma min_ge_0 a b : 0 <= a -> 0 <= b -> 0 <= min a b.
Proof. unfold min. destruct (Z.ltb_spec a b); lia. Qed.

(** The copy of a moved payload, when the destination is granted. *)
Lemma copy_payload_ok {A} s new_ptr block size (k : M A) :
  granted s new_ptr (min (get_size (memory s) block) size) = true ->
  (copy_payload new_ptr block size ;;; k) s
  = k (with_memory s
         (memmove (memory s) new_ptr (get_ptr_block block)
            (min (get_size (memory s) block) size))).
Proof.
  intros G. unfold bind at 1. unfold copy_payload.
  unfold bind at 1. unfold rd at 1.
  rewrite (store_to_ok _ _ _ _ G). reflexivity.
Qed.

Lemma os_malloc_zero_ret fuel s : os_malloc fuel 0 s = Ok 0 s.
Proof. reflexivity. Qed.

Lemma heap_inv_ALIGN_small s lm lh A :
  heap_inv s lm lh -> 0 <= A -> room s A -> A <= ALIGN A.
Proof.
  intros (Hos & _) HA [Hr _].
  destruct (os_sane_bounds s Hos) as (Hbrk & _).
  destruct Hos as (_ & _ & _ & _ & _ & _ & H1 & _ & H2 & H3).
  apply ALIGN_small; [exact HA |].
  unfold SIZE_MAX1, PREALLOC_SIZE, BLOCK_META_SIZE in *. lia.
Qed.

(** The block moves: allocate, copy, free the old block. *)
Lemma realloc_move_inv fuel s lm lh block A :
  heap_inv s lm lh -> (length (lm ++ lh) + 2 < fuel)%nat ->
  0 <= A -> room s A ->
  (new_ptr <- os_malloc fuel A ;;
   if new_ptr =? 0 then ret 0
   else
     copy_payload new_ptr block A ;;;
     os_free fuel (get_ptr_block block) ;;;
     ret new_ptr) s
  = Fault \/
  exists p s' lm' lh',
    (new_ptr <- os_malloc fuel A ;;
     if new_ptr =? 0 then ret 0
     else
       copy_payload new_ptr block A ;;;
       os_free fuel (get_ptr_block block) ;;;
       ret new_ptr) s
    = Ok p s' /\
    heap_inv s' lm' lh' /\
    (length (lm' ++ lh') <= length (lm ++ lh) + 2)%nat.
Proof.
  intros Hinv Hf HA Hroom.
  destruct (Z.eq_dec A 0) as [-> | Hnz].
  { right. exists 0, s, lm, lh.
    split; [reflexivity | split; [exact Hinv | lia]]. }
  pose proof (heap_inv_ALIGN_small s lm lh A Hinv HA Hroom) as HAA.
  destruct (os_malloc_inv fuel s lm lh A Hinv ltac:(lia) ltac:(lia) Hroom)
    as [[EF _]
       | (b & s1 & lm1 & lh1 & E & Hinv1 & Hin & Hclear & Hsz & _ & Hlen
          & Hgr)].
  { left. unfold bind at 1. rewrite EF. reflexivity. }
  right.
  destruct (heap_inv_block_aligned s1 lm1 lh1 b Hinv1 Hin) as [Hpos _].
  rewrite (bind_ok _ _ _ _ _ E).
  destruct (Z.eqb_spec (get_ptr_block b) 0);
    [unfold get_ptr_block, BLOCK_META_SIZE in *; lia |].
  set (k := min (get_size (memory s1) block) A).
  pose proof (min_le_r (get_size (memory s1) block) A) as Hn. fold k in Hn.
  pose proof (min_ge_0 (get_size (memory s1) block) A
                (proj1 (get_size_range _ _)) HA) as Hk0.
  fold k in Hk0.
  rewrite (copy_payload_ok s1 _ block A)
    by (apply (granted_shrink s1 _ (ALIGN A)); [fold k; lia | exact Hgr]).
  fold k.
  pose proof (heap_inv_memmove s1 lm1 lh1 b (get_ptr_block block) k Hinv1
                Hclear ltac:(lia)) as Hinv2.
  destruct (os_free_inv fuel _ lm1 lh1 (get_ptr_block block) Hinv2
              ltac:(lia)) as (s3 & lm3 & lh3 & Ef & Hinv3 & Hlen3 & _).
  unfold bind at 1. rewrite Ef.
  exists (get_ptr_block b), s3, lm3, lh3.
  split; [reflexivity | split; [exact Hinv3 | lia]].
Qed.

(** The last block moves: free the old block, allocate, copy. *)
Lemma realloc_free_move_inv fuel s lm lh block A :
  heap_inv s lm lh -> (length (lm ++ lh) + 1 < fuel)%nat ->
  0 <= A -> room s A ->
  (os_free fuel (get_ptr_block block) ;;;
   new_ptr <- os_malloc fuel A ;;
   if new_ptr =? 0 then ret 0
   else copy_payload new_ptr block A ;;; ret new_ptr) s
  = Fault \/
  exists p s' lm' lh',
    (os_free fuel (get_ptr_block block) ;;;
     new_ptr <- os_malloc fuel A ;;
     if new_ptr =? 0 then ret 0
     else copy_payload new_ptr block A ;;; ret new_ptr) s
    = Ok p s' /\
    heap_inv s' lm' lh' /\
    (length (lm' ++ lh') <= length (lm ++ lh) + 2)%nat.
Proof.
  intros Hinv Hf HA Hroom.
  destruct (os_free_inv fuel s lm lh (get_ptr_block block) Hinv ltac:(lia))
    as (s1 & lm1 & lh1 & Ef & Hinv1 & Hlen1 & Hroom1).
  specialize (Hroom1 A Hroom).
  match goal with |- ?c s = Fault \/ _ => pattern (c s) end.
  match goal with |- ?P _ => set (Q := P) end.
  unfold bind at 1. rewrite Ef.
  destruct (Z.eq_dec A 0) as [-> | Hnz].
  { unfold Q. right. exists 0, s1, lm1, lh1.
    split; [reflexivity | split; [exact Hinv1 | lia]]. }
  pose proof (heap_inv_ALIGN_small s1 lm1 lh1 A Hinv1 HA Hroom1) as HAA.
  destruct (os_malloc_inv fuel s1 lm1 lh1 A Hinv1 ltac:(lia) ltac:(lia)
              Hroom1)
    as [[EF _]
       | (b & s2 & lm2 & lh2 & E & Hinv2 & Hin & Hclear & Hsz & _ & Hlen
          & Hgr)].
  { unfold bind at 1. rewrite EF. unfold Q. left. reflexivity. }
  destruct (heap_inv_block_aligned s2 lm2 lh2 b Hinv2 Hin) as [Hpos _].
  rewrite (bind_ok _ _ _ _ _ E).
  destruct (Z.eqb_spec (get_ptr_block b) 0);
    [unfold get_ptr_block, BLOCK_META_SIZE in *; lia |].
  set (k := min (get_size (memory s2) block) A).
  pose proof (min_le_r (get_size (memory s2) block) A) as Hn. fold k in Hn.
  pose proof (min_ge_0 (get_size (memory s2) block) A
                (proj1 (get_size_range _ _)) HA) as Hk0.
  fold k in Hk0.
  rewrite (copy_payload_ok s2 _ block A)
    by (apply (granted_shrink s2 _ (ALIGN A)); [fold k; lia | exact Hgr]).
  fold k.
  pose proof (heap_inv_memmove s2 lm2 lh2 b (get_ptr_block block) k Hinv2
                Hclear ltac:(lia)) as Hinv3.
  unfold Q. right.
  exists (get_ptr_block b). eexists. exists lm2, lh2.
  split; [reflexivity | split; [exact Hinv3 | lia]].
Qed.

Lemma room_le s x y : x <= y -> room s y -> room s x.
Proof. intros Hle [H1 H2]. split; lia. Qed.

Lemma os_realloc_inv fuel s lm lh ptr size :
  heap_inv s lm lh -> (length (lm ++ lh) + 2 < fuel)%nat ->
  0 <= size -> room s (size + 7) ->
  ptr = 0 \/ In (get_block_ptr ptr) (lm ++ lh) ->
  os_realloc fuel ptr size s = Fault \/
  exists p s' lm' lh',
    os_realloc fuel ptr size s = Ok p s' /\ heap_inv s' lm' lh' /\
    (length (lm' ++ lh') <= length (lm ++ lh) + 2)%nat.
Proof.
  intros Hinv Hf Hsz Hroom7 Hptr.
  assert (Hroom : room s size) by (apply (room_le s size (size + 7)); [lia | trivial]).
  pose proof (heap_inv_ALIGN_small s lm lh (size + 7) Hinv ltac:(lia) Hroom7)
    as H7.
  assert (Hmax : size + 7 < SIZE_MAX1).
  { pose proof (ALIGN_range (size + 7)). lia. }
  pose proof (ALIGN_small size Hsz Hmax) as HA.
  pose proof (ALIGN_mod8 size) as HA8.
  assert (HroomA : room s (ALIGN size))
    by (apply (room_le s _ (size + 7)); [lia | trivial]).
  pose proof Hinv as (Hos & Hthr & Hc & Hsm & Hm & Hct & Hh & Hpre & Hlog).
  destruct (os_sane_bounds s Hos) as (Hbrk & _).
  assert (Hlim : brk_limit s + 24 <= 2 ^ 63)
    by (destruct Hos as (_ & _ & _ & _ & _ & _ & H1 & _ & H2 & H3);
        unfold BLOCK_META_SIZE in *; lia).
  assert (Hbl : brk s <= brk_limit s) by apply Hos.
  pattern (os_realloc fuel ptr size s).
  match goal with |- ?P _ => set (Q := P) end.
  unfold os_realloc.
  destruct (Z.eqb_spec ptr 0) as [Ep | Hp].
  { unfold Q. destruct (Z.eq_dec size 0) as [-> | Hnz].
    - right.
      exists 0, s, lm, lh. split; [reflexivity | split; [exact Hinv | lia]].
    - destruct (os_malloc_inv fuel s lm lh size Hinv ltac:(lia) ltac:(lia)
                  Hroom)
        as [[EF _]
           | (b & s1 & lm1 & lh1 & E & Hinv1 & _ & _ & _ & _ & Hlen & _)].
      + left. exact EF.
      + right. exists (get_ptr_block b), s1, lm1, lh1. auto. }
  destruct Hptr as [Hptr | Hin]; [contradiction |].
  destruct (Z.eqb_spec size 0) as [Es0 | Hs0].
  { destruct (os_free_inv fuel s lm lh ptr Hinv ltac:(lia))
      as (s1 & lm1 & lh1 & Ef & Hinv1 & Hlen1 & _).
    unfold bind at 1. rewrite Ef. unfold Q. right.
    exists 0, s1, lm1, lh1.
    split; [reflexivity | split; [exact Hinv1 | lia]]. }
  set (block := get_block_ptr ptr) in *.
  assert (Eptr : get_ptr_block block = ptr)
    by (subst block; unfold get_ptr_block, get_block_ptr; lia).
  set (A := ALIGN size) in *.
  assert (HAA : ALIGN A = A) by (subst A; apply ALIGN_idem).
  unfold bind at 1. unfold rd at 1.
  apply in_app_or in Hin. destruct Hin as [Hin | Hin].
  - (* a mapped block *)
    destruct (Hm block Hin) as (Est & _).
    rewrite Est. change (STATUS_MAPPED =? STATUS_FREE) with false. cbv iota.
    unfold bind at 1. unfold rd at 1.
    destruct (Z.eqb_spec (get_size (memory s) block) A) as [_ | _].
    { unfold Q. right. exists ptr, s, lm, lh.
      split; [reflexivity | split; [exact Hinv | lia]]. }
    change (STATUS_MAPPED =? STATUS_ALLOC) with false.
    change (STATUS_MAPPED =? STATUS_MAPPED) with true. cbv iota.
    unfold Q.
    apply (realloc_move_inv fuel s lm lh block A Hinv Hf);
      [lia | exact HroomA].
  - (* a heap block *)
    destruct (heap_inv_heap_block s lm lh block Hinv Hin) as [Hb0 Hbtop].
    destruct (Hh block Hin) as ([Est | Est] & Hb8 & Hs8); rewrite Est.
    { change (STATUS_FREE =? STATUS_FREE) with true. cbv iota.
      unfold Q. right. exists 0, s, lm, lh.
      split; [reflexivity | split; [exact Hinv | lia]]. }
    change (STATUS_ALLOC =? STATUS_FREE) with false. cbv iota.
    unfold bind at 1. unfold rd at 1.
    set (bsz := get_size (memory s) block) in *.
    pose proof (get_size_range (memory s) block) as Hrb. fold bsz in Hrb.
    destruct (Z.eqb_spec bsz A) as [_ | Hne].
    { unfold Q. right. exists ptr, s, lm, lh.
      split; [reflexivity | split; [exact Hinv | lia]]. }
    change (STATUS_ALLOC =? STATUS_ALLOC) with true. cbv iota.
    destruct (Z.ltb_spec A bsz) as [Hlt | Hge].
    + (* the block shrinks *)
      destruct (heap_inv_split s lm lh block A Hinv Hin) as
        (lh' & Hinv' & _ & Hlen').
      * rewrite HAA. fold bsz. lia.
      * rewrite HAA. unfold BLOCK_META_SIZE in *. lia.
      * unfold bind at 1. unfold wr at 1.
        unfold Q. right.
        exists (get_ptr_block block). eexists. exists lm, lh'.
        split; [reflexivity |]. split; [exact Hinv' |].
        rewrite !length_app. lia.
    + (* the block grows *)
      destruct (coalesce_memory_inv fuel s lm lh Hinv ltac:(lia))
        as (m3 & lh3 & Eco & Hinv3 & _ & Hlen3).
      destruct (coalesce_memory_keeps fuel s lm lh m3 lh3 block Hinv
                  ltac:(lia) Eco Hinv3 Hin)
        as (Hin3 & Es3 & Et3 & _);
        [rewrite Est; discriminate |].
      fold bsz in Es3.
      assert (Hlen3' : (length (lm ++ lh3) <= length (lm ++ lh))%nat)
        by (rewrite !length_app; lia).
      unfold bind at 1. rewrite Eco.
      unfold bind at 1. unfold get_mem at 1. cbn [memory with_memory].
      destruct (negb (get_next m3 block =? 0)
                && (get_status m3 (get_next m3 block) =? STATUS_FREE)
                && (A <=? w64 (w64 (get_size m3 block
                                     + get_size m3 (get_next m3 block))
                                + ALIGN BLOCK_META_SIZE))) eqn:Hcond.
      * (* over the free successor *)
        apply andb_true_iff in Hcond. destruct Hcond as [Hcond Hfit].
        apply andb_true_iff in Hcond. destruct Hcond as [Hnz Hnf].
        apply negb_true_iff in Hnz. apply Z.eqb_neq in Hnz.
        apply Z.leb_le in Hfit.
        destruct (in_split block lh3 Hin3) as (l1 & l2' & El). subst lh3.
        destruct l2' as [| nx l2].
        { exfalso. apply Hnz.
          pose proof Hinv3 as (_ & _ & Hc3 & _).
          cbn [memory head with_memory] in Hc3.
          rewrite app_assoc in Hc3.
          rewrite <- (chain_last_next _ _ _ Hc3);
            [| intros X; apply app_eq_nil in X; destruct X as [_ X];
               discriminate X].
          rewrite last_app_r by discriminate. reflexivity. }
        destruct (heap_inv_absorb (with_memory s m3) lm l1 block nx l2 Hinv3)
          as (Enx & Hinv4 & Es4).
        cbn [memory with_memory] in Enx, Hinv4, Es4.
        match type of Hinv4 with heap_inv (with_memory _ ?mm) _ _ =>
          set (m4 := mm) in * end.
        assert (Hnx : In nx (l1 ++ block :: nx :: l2))
          by (apply in_or_app; right; right; now left).
        destruct (heap_inv_heap_block _ lm _ nx Hinv3 Hnx) as [Hn0 Hntop].
        destruct (heap_inv_heap_block _ lm _ block Hinv3 Hin3) as [_ Hbt3].
        cbn [memory brk with_memory] in Hntop, Hbt3.
        pose proof Hinv3 as (_ & _ & _ & _ & _ & Hct3 & _).
        cbn [memory brk with_memory] in Hct3.
        assert (Hbn : block + BLOCK_META_SIZE + get_size m3 block = nx).
        { pose proof (contig_app_r _ l1 _ _ Hct3) as Hcb.
          destruct Hcb as (_ & Hbn & _). exact Hbn. }
        pose proof (get_size_range m3 nx) as Hrn.
        rewrite Enx in Hfit. rewrite Es3 in Hfit, Hbn, Es4.
        rewrite ALIGN_header in Hfit. unfold BLOCK_META_SIZE in *.
        rewrite (w64_small (bsz + get_size m3 nx)) in Hfit
          by (unfold SIZE_MAX1; lia).
        rewrite w64_small in Hfit by (unfold SIZE_MAX1; lia).
        destruct (heap_inv_split (with_memory (with_memory s m3) m4) lm
                    (l1 ++ block :: l2) block A Hinv4 (in_elt _ _ _))
          as (lh' & Hinv' & _ & Hlen').
        { rewrite HAA. cbn [memory with_memory]. rewrite Es4. lia. }
        { rewrite HAA. lia. }
        unfold bind at 1. unfold wr at 1.
        unfold bind at 1. unfold wr at 1.
        unfold bind at 1. unfold wr at 1.
        unfold bind at 1. unfold wr at 1.
        unfold Q. right.
        exists (get_ptr_block block). eexists. exists lm, lh'.
        split; [reflexivity |]. split; [exact Hinv' |].
        rewrite !length_app in *. simpl in *. lia.
      * destruct (Z.eqb_spec (get_next m3 block) 0) as [_ | _].
        -- unfold Q.
           destruct (realloc_free_move_inv fuel (with_memory s m3) lm lh3
                       block A Hinv3 ltac:(lia) ltac:(lia) HroomA)
             as [EF | (p & s' & lm' & lh' & E & Hinv' & Hlen')].
           ++ left. exact EF.
           ++ right. exists p, s', lm', lh'.
              split; [exact E | split; [exact Hinv' | lia]].
        -- unfold Q.
           destruct (realloc_move_inv fuel (with_memory s m3) lm lh3
                       block A Hinv3 ltac:(lia) ltac:(lia) HroomA)
             as [EF | (p & s' & lm' & lh' & E & Hinv' & Hlen')].
           ++ left. exact EF.
           ++ right. exists p, s', lm', lh'.
              split; [exact E | split; [exact Hinv' | lia]].
Qed.

(** ** The invariant holds in every reachable state *)

Lemma ok_state_of (r : result Z) :
  is_ok r = true -> r = Ok (value_of r) (state_of r).
Proof. destruct r; simpl; intros H; [reflexivity | | |]; discriminate H. Qed.

Lemma ok_state_of_unit (r : result unit) :
  is_ok r = true -> r = Ok tt (state_of r).
Proof.
  destruct r as [[] ? | | |]; simpl; intros H; [reflexivity | | |];
    discriminate H.
Qed.

Lemma reachable_inv n s :
  reachable n s ->
  exists lm lh, heap_inv s lm lh /\ (length (lm ++ lh) <= n)%nat.
Proof.
  induction 1 as [s Hos Hh Hp Ht Htr
                 | n s fuel size p s' _ IH Hf Hsz Hroom E
                 | n s fuel nmemb size p s' _ IH Hf Hroom E
                 | n s fuel ptr s' _ IH Hf E
                 | n s fuel ptr size p s' _ IH Hf Hsz Hroom Hptr E
                 | n s fuel b x c k _ IH Hf Hmem Hst Hlo Hhi].
  - exists [], []. split; [| simpl; lia].
    unfold heap_inv. rewrite Hh, Ht.
    split; [exact Hos |]. split; [lia |]. split; [constructor |].
    split; [exact I |]. split; [intros b [] |]. split; [exact I |].
    split; [intros b [] |]. split; [intros X; contradiction |].
    rewrite Htr. intros a l [].
  - destruct IH as (lm & lh & Hinv & Hlen).
    destruct (Z.eq_dec size 0) as [-> | Hnz].
    + unfold os_malloc in E. change (0 =? 0) with true in E. cbv iota in E.
      unfold ret in E. injection E as _ <-.
      exists lm, lh. split; [exact Hinv | lia].
    + destruct (os_malloc_inv fuel s lm lh size Hinv ltac:(lia) ltac:(lia)
                  Hroom)
        as [[EF _]
           | (b & s2 & lm' & lh' & E2 & Hinv2 & _ & _ & _ & _ & Hlen2 & _)];
        [rewrite EF in E; discriminate E |].
      rewrite E2 in E. injection E as _ <-.
      exists lm', lh'. split; [exact Hinv2 | lia].
  - destruct IH as (lm & lh & Hinv & Hlen).
    destruct (Z.eq_dec (w64 (nmemb * size)) 0) as [E0 | Hnz].
    + unfold os_calloc in E. rewrite E0 in E.
      unfold bind at 1 in E. unfold getpagesize at 1 in E.
      unfold bind at 1 in E. unfold bind at 1 in E.
      unfold os_malloc in E. change (0 =? 0) with true in E. cbv iota in E.
      unfold ret at 1 in E. unfold bind at 1 in E.
      change (0 =? 0) with true in E. cbv iota in E.
      unfold ret in E. injection E as _ <-.
      exists lm, lh. split; [| lia].
      assert (Hpg : 0 <= page_size s < 2 ^ 63).
      { destruct Hinv as ((Hp & _ & Hp63 & _) & _). lia. }
      apply heap_inv_with_threshold; [| lia].
      apply heap_inv_with_threshold; trivial.
    + pose proof (w64_range (nmemb * size)) as Hr.
      destruct (os_calloc_inv fuel s lm lh nmemb size Hinv ltac:(lia)
                  ltac:(lia) Hroom)
        as [[EF _]
           | (b & s1 & s2 & lm' & lh' & _ & _ & E2 & Hinv2 & _ & _ & _ & _
              & Hlen2 & _)];
        [rewrite EF in E; discriminate E |].
      rewrite E2 in E. injection E as _ <-.
      exists lm', lh'. split; [exact Hinv2 | lia].
  - destruct IH as (lm & lh & Hinv & Hlen).
    destruct (os_free_inv fuel s lm lh ptr Hinv ltac:(lia))
      as (s2 & lm' & lh' & E2 & Hinv2 & Hlen2 & _).
    rewrite E2 in E. injection E as <-.
    exists lm', lh'. split; [exact Hinv2 | lia].
  - destruct IH as (lm & lh & Hinv & Hlen).
    assert (Hin : ptr = 0 \/ In (get_block_ptr ptr) (lm ++ lh)).
    { destruct Hptr as [Hptr | Hptr]; [now left | right].
      pose proof Hinv as (_ & _ & Hc & _).
      unfold is_block_in_memory, lift_opt in Hptr.
      rewrite (member_loop_chain fuel _ _ _ (get_block_ptr ptr) Hc
                 ltac:(lia)) in Hptr.
      destruct (in_dec Z.eq_dec (get_block_ptr ptr) (lm ++ lh)) as [Hin | _];
        [exact Hin | discriminate Hptr]. }
    destruct (os_realloc_inv fuel s lm lh ptr size Hinv ltac:(lia) Hsz Hroom
                Hin) as [EF | (p2 & s2 & lm' & lh' & E2 & Hinv2 & Hlen2)];
      [rewrite EF in E; discriminate E |].
    rewrite E2 in E. injection E as _ <-.
    exists lm', lh'. split; [exact Hinv2 | lia].
  - destruct IH as (lm & lh & Hinv & Hlen).
    assert (Hin : In b lh).
    { pose proof Hinv as (_ & _ & Hc & _ & Hm & _).
      unfold is_block_in_memory, lift_opt in Hmem.
      rewrite (member_loop_chain fuel _ _ _ b Hc ltac:(lia)) in Hmem.
      destruct (in_dec Z.eq_dec b (lm ++ lh)) as [Hin | _];
        [| discriminate Hmem].
      apply in_app_or in Hin. destruct Hin as [Hin | Hin]; [| exact Hin].
      destruct (Hm b Hin) as (Hmp & _). rewrite Hmp in Hst.
      discriminate Hst. }
    exists lm, lh. split; [| exact Hlen].
    apply (heap_inv_store_payload s lm lh b x c k Hinv Hin);
      unfold get_ptr_block; lia.
Qed.

(** X1. Every state of [reachable] satisfies the invariant of the block
    list, for a list of at most as many blocks as the index of the state
    says.  These are the states that the allocator reaches from an initial
    state, with an empty list and an empty log, through calls of
    [os_malloc], [os_calloc], [os_free] and [os_realloc] that return, the
    allocating calls being made while the system has [room] for the
    request, and through stores of the application into the payload of an
    [ALLOCATED] block of the list.  A call that ends in [DIE] or in a fault
    has no state after it, and a request for which the system has no
    [room] is not a step of [reachable]. *)
Theorem reachable_heap_inv n s :
  reachable n s ->
  exists lm lh, heap_inv s lm lh /\ (length (lm ++ lh) <= n)%nat.
Proof. exact (reachable_inv n s). Qed.

Lemma reachable_heap_inv_witness :
  exists lm lh,
    heap_inv after_malloc_1000 lm lh /\ (length (lm ++ lh) <= 0 + 2)%nat.
Proof.
  apply (reachable_heap_inv (0 + 2) after_malloc_1000).
  apply (reach_malloc 0 fresh 8 1000 (value_of (os_malloc 8 1000 fresh))).
  - apply reach_init; try reflexivity.
    unfold os_sane. vm_compute.
    repeat split; try reflexivity; intros X; discriminate X.
  - lia.
  - lia.
  - unfold room. vm_compute. split; intros X; discriminate X.
  - apply ok_state_of. vm_compute. reflexivity.
Defined.

(** ** The claims about [os_malloc], [os_calloc] and mapped blocks *)

(** C3. [os_malloc] does not return a payload for every non-zero size.
    After [os_malloc(131040); b = os_malloc(4064); os_free(b)] in a fresh
    process, a state of [reachable] that satisfies the invariant of the
    block list and in which the system has [room] for 4072 more bytes, the
    last block is free, holds 4064 bytes and ends at the break, 8 bytes
    below a page boundary.  [os_malloc(4072)] finds no fit and extends
    this block: [request_memory] calls [sbrk(8)], which returns the old
    break and moves the break onto the page boundary, and then stores the
    24-byte header of the piece at the old break; the [size] field is
    granted, the store of the [next] field is not, and the call ends in a
    fault instead of returning.  Apart from that, [os_malloc(SIZE_MAX)] in
    a fresh process returns a pointer whose block records a payload of 0
    bytes, since [ALIGN] wraps around. *)
Theorem os_malloc_tail_extension_faults :
  reachable 4 tail_before_page_end /\
  heap_inv tail_before_page_end [] [4096000; 4227072] /\
  room tail_before_page_end 4072 /\
  block_list 8 (memory tail_before_page_end) (head tail_before_page_end)
  = [(4096000, STATUS_ALLOC, 131048); (4227072, STATUS_FREE, 4064)] /\
  brk tail_before_page_end = 4231160 /\
  (let r := sbrk (w64 (ALIGN (w64 (w64 (4072 - 4064)
                                   - ALIGN BLOCK_META_SIZE))
                       + ALIGN BLOCK_META_SIZE)) tail_before_page_end in
   value_of r = 4231160 /\ trace (state_of r) = trace tail_before_page_end
                                                ++ [Sbrk 8] /\
   brk (state_of r) = 4231168 /\
   page_up (state_of r) (brk (state_of r)) = 4231168 /\
   granted (state_of r) (4231160 + OFF_SIZE) 8 = true /\
   granted (state_of r) (4231160 + OFF_NEXT) 8 = false) /\
  request_memory (w64 (w64 (4072 - 4064) - ALIGN BLOCK_META_SIZE))
    tail_before_page_end = Fault /\
  os_malloc 8 4072 tail_before_page_end = Fault /\
  (let r := os_malloc 8 (SIZE_MAX1 - 1) fresh in
   is_ok r = true /\ value_of r = get_ptr_block 4096000 /\
   get_status (memory (state_of r)) 4096000 = STATUS_ALLOC /\
   get_size (memory (state_of r)) 4096000 = 0).
Proof.
  split.
  { unfold tail_before_page_end, second_block.
    apply (reach_free 4 (state_of (os_malloc 8 4064
                                     (state_of (os_malloc 8 131040 fresh))))
             8 (value_of (os_malloc 8 4064
                            (state_of (os_malloc 8 131040 fresh)))));
      [| lia | apply ok_state_of_unit; vm_compute; reflexivity].
    apply (reach_malloc 2 (state_of (os_malloc 8 131040 fresh)) 8 4064
             (value_of (os_malloc 8 4064
                          (state_of (os_malloc 8 131040 fresh)))));
      [| lia | lia
       | unfold room; vm_compute; split; intros X; discriminate X
       | apply ok_state_of; vm_compute; reflexivity].
    apply (reach_malloc 0 fresh 8 131040
             (value_of (os_malloc 8 131040 fresh)));
      [| lia | lia
       | unfold room; vm_compute; split; intros X; discriminate X
       | apply ok_state_of; vm_compute; reflexivity].
    apply reach_init; try reflexivity.
    unfold os_sane. vm_compute.
    repeat split; try reflexivity; intros X; discriminate X. }
  split; [exact heap_inv_tail_before_page_end |].
  split; [unfold room; vm_compute; split; intros X; discriminate X |].
  vm_compute. repeat split.
Qed.

(** X28. Where the fault is excluded, [os_malloc] returns a block.  In a
    state that satisfies the invariant of the block list, with the heap
    preallocated, [room] in the system for the request, and a break that
    is not 8 or 16 bytes below a page boundary (so that a header stored at
    the break ends in the pages under the break once it has moved by 8
    bytes or more), [os_malloc] of a non-zero size returns a pointer that
    is not null and is a multiple of 8; the header in front of it is a
    block of the list, records a payload size of at least [ALIGN(size)] and
    the status [ALLOCATED] or [MAPPED]; the [ALIGN(size)] bytes at the
    pointer are granted memory, and the invariant holds again in the state
    after the call.  This covers best fit with or without a split, a new
    block at the break, a mapping, and the extension of a free last
    block. *)
Theorem os_malloc_returns_when_header_fits fuel s lm lh size :
  heap_inv s lm lh -> (length (lm ++ lh) + 1 < fuel)%nat -> 0 < size ->
  room s size -> heap_preallocated s <> 0 ->
  brk s + BLOCK_META_SIZE <= page_up s (brk s + 8) ->
  exists p s' lm' lh',
    os_malloc fuel size s = Ok p s' /\
    p <> 0 /\ p mod 8 = 0 /\
    In (get_block_ptr p) (lm' ++ lh') /\
    ALIGN size <= get_size (memory s') (get_block_ptr p) /\
    (get_status (memory s') (get_block_ptr p) = STATUS_ALLOC \/
     get_status (memory s') (get_block_ptr p) = STATUS_MAPPED) /\
    granted s' p (ALIGN size) = true /\
    heap_inv s' lm' lh'.
Proof.
  intros Hinv Hf Hsz Hroom Hpre Hfit.
  destruct (os_malloc_inv fuel s lm lh size Hinv Hf Hsz Hroom)
    as [[_ Hno]
       | (b & s' & lm' & lh' & E & Hinv' & Hin & _ & Hsize & Hst & _ & Hgr)].
  { specialize (Hno Hpre). lia. }
  destruct (heap_inv_block_aligned s' lm' lh' b Hinv' Hin) as [Hpos H8].
  exists (get_ptr_block b), s', lm', lh'.
  rewrite get_block_ptr_inv.
  split; [exact E |].
  split; [unfold get_ptr_block, BLOCK_META_SIZE; lia |].
  split; [apply mod8_add_24; exact H8 |]. auto 10.
Qed.

Lemma os_malloc_returns_when_header_fits_witness :
  exists p s' lm' lh',
    os_malloc 8 130040 after_malloc_1000 = Ok p s' /\
    p <> 0 /\ p mod 8 = 0 /\
    In (get_block_ptr p) (lm' ++ lh') /\
    ALIGN 130040 <= get_size (memory s') (get_block_ptr p) /\
    (get_status (memory s') (get_block_ptr p) = STATUS_ALLOC \/
     get_status (memory s') (get_block_ptr p) = STATUS_MAPPED) /\
    granted s' p (ALIGN 130040) = true /\
    heap_inv s' lm' lh'.
Proof.
  refine (os_malloc_returns_when_header_fits 8 after_malloc_1000
            [] [4096000; 4097024] 130040 heap_inv_after_malloc_1000
            _ _ _ _ _).
  - simpl. lia.
  - lia.
  - unfold room. vm_compute. split; intros X; discriminate X.
  - vm_compute. intros X; discriminate X.
  - vm_compute. intros X; discriminate X.
Defined.



(** C9, as stated for every [n], fails for [n = 0].  [os_malloc(SIZE_MAX)]
    in a fresh process returns a pointer whose block is [ALLOCATED] with a
    payload of 0 bytes, so that [ALIGN(0)] equals the payload size; but
    [os_realloc(p, 0)] is the free path: it returns the null pointer and
    leaves the block [FREE]. *)
Lemma resize_identity_law_fails :
  os_malloc 8 (SIZE_MAX1 - 1) fresh
  = Ok (get_ptr_block 4096000) zero_payload_block /\
  get_status (memory zero_payload_block) 4096000 = STATUS_ALLOC /\
  get_size (memory zero_payload_block) 4096000 = 0 /\
  ~ resize_identity_law 8 zero_payload_block (get_ptr_block 4096000) 0 /\
  (let r := os_realloc 8 (get_ptr_block 4096000) 0 zero_payload_block in
   is_ok r = true /\ value_of r = 0 /\
   get_status (memory (state_of r)) 4096000 = STATUS_FREE).
Proof.
  split.
  { unfold zero_payload_block.
    rewrite (ok_state_of (os_malloc 8 (SIZE_MAX1 - 1) fresh)) at 1
      by (vm_compute; reflexivity).
    f_equal. }
  split; [vm_compute; reflexivity |].
  split; [vm_compute; reflexivity |].
  split; [| vm_compute; repeat split].
  intros H. unfold resize_identity_law in H.
  assert (E : value_of (os_realloc 8 (get_ptr_block 4096000) 0
                          zero_payload_block)
              = get_ptr_block 4096000).
  { rewrite H; [reflexivity | left; vm_compute; reflexivity
                | vm_compute; reflexivity]. }
  vm_compute in E. discriminate E.
Qed.

(** ** Freeing a mapped block *)

Lemma os_free_mapped_inv fuel s lm lh b :
  heap_inv s lm lh -> In b lm -> (length (lm ++ lh) < fuel)%nat ->
  exists s2,
    os_free fuel (get_ptr_block b) s = Ok tt s2 /\
    trace s2
    = trace s ++ [Munmap b (get_size (memory s) b + BLOCK_META_SIZE)].
Proof.
  intros Hinv Hb Hf.
  pose proof (heap_inv_sep s lm lh Hinv) as Hsep.
  pose proof Hinv as (_ & _ & Hc & _ & Hm & _).
  destruct (Hm b Hb) as (Est & Hpg & _ & _ & _ & Hszr & _).
  assert (Hin : In b (lm ++ lh)) by (apply in_or_app; now left).
  destruct (heap_inv_block_aligned s lm lh b Hinv Hin) as [Hpos _].
  pose proof (get_size_range (memory s) b) as Hr.
  assert (Ew : w64 (get_size (memory s) b + BLOCK_META_SIZE)
               = get_size (memory s) b + BLOCK_META_SIZE)
    by (apply w64_small; unfold BLOCK_META_SIZE in *; lia).
  destruct (os_free_mapped fuel s (lm ++ lh) b Hc Hsep Hin Hf Est Hpos Hpg)
    as (s2 & E & Et).
  - rewrite Ew. unfold BLOCK_META_SIZE. lia.
  - exists s2. rewrite Ew in Et. split; [exact E | exact Et].
Qed.

(** C6. In a state that satisfies the invariant of the block list, the
    log holds, for every [MAPPED] block of the list, the call of [mmap]
    that returned the block, and every logged call that returned this
    address asked for the same length; freeing the block passes the address
    of its header and this length to [munmap].  A request that [os_malloc]
    serves by mapping logs the call of [mmap] for
    [ALIGN(size) + ALIGN(BLOCK_META_SIZE)] bytes, and freeing the payload it
    returned unmaps the same length at the address [mmap] returned. *)
Theorem mapped_block_unmap_length fuel s lm lh :
  heap_inv s lm lh -> (length (lm ++ lh) + 1 < fuel)%nat ->
  (forall b, In b lm ->
     exists len s2,
       mapping_logged (trace s) b len /\
       os_free fuel (get_ptr_block b) s = Ok tt s2 /\
       trace s2 = trace s ++ [Munmap b len]) /\
  (forall size,
     0 < size -> MAP_THRESHOLD s <= w64 (ALIGN size + ALIGN BLOCK_META_SIZE) ->
     room s size ->
     exists p s1 s2,
       os_malloc fuel size s = Ok p s1 /\
       get_status (memory s1) (get_block_ptr p) = STATUS_MAPPED /\
       trace s1
       = trace s
         ++ [Mmap (get_block_ptr p)
               (w64 (ALIGN size + ALIGN BLOCK_META_SIZE))] /\
       os_free fuel p s1 = Ok tt s2 /\
       trace s2
       = trace s1
         ++ [Munmap (get_block_ptr p)
               (w64 (ALIGN size + ALIGN BLOCK_META_SIZE))]).
Proof.
  intros Hinv Hf. split.
  - intros b Hb.
    destruct (os_free_mapped_inv fuel s lm lh b Hinv Hb ltac:(lia))
      as (s2 & E & Et).
    destruct Hinv as (_ & _ & _ & _ & Hm & _).
    destruct (Hm b Hb) as (_ & _ & _ & _ & _ & _ & Hlg).
    exists (get_size (memory s) b + BLOCK_META_SIZE), s2. auto.
  - intros size Hsz Hge Hroom.
    destruct (os_malloc_mmap_inv fuel s lm lh size Hinv Hsz Hge Hroom)
      as (s1 & E & Hinv1 & Esz & Est & Et).
    destruct (os_free_mapped_inv fuel s1 (map_next s :: lm) lh (map_next s)
                Hinv1 (or_introl eq_refl)) as (s2 & Ef & Etf).
    { simpl. simpl in Hf. lia. }
    exists (get_ptr_block (map_next s)), s1, s2.
    rewrite get_block_ptr_inv.
    split; [exact E |]. split; [exact Est |]. split; [exact Et |].
    split; [exact Ef |].
    rewrite Etf, Esz. do 2 f_equal. f_equal.
    destruct Hroom as [Hroom _]. destruct Hinv as (Hos & _).
    destruct (os_sane_bounds s Hos) as (Hbrk & _).
    assert (Hlim : brk_limit s + 24 <= 2 ^ 63)
      by (destruct Hos as (_ & _ & _ & _ & _ & _ & H1 & _ & H2 & H3);
          unfold BLOCK_META_SIZE in *; lia).
    pose proof (ALIGN_range size) as HAr.
    assert (HA : ALIGN size < size + 8)
      by (apply ALIGN_small; unfold SIZE_MAX1, PREALLOC_SIZE in *; lia).
    rewrite ALIGN_header. symmetry. apply w64_small.
    unfold BLOCK_META_SIZE, SIZE_MAX1, PREALLOC_SIZE in *. lia.
Qed.

Lemma mapped_block_unmap_length_witness :
  (forall b, In b [2 ^ 40] ->
     exists len s2,
       mapping_logged (trace mapped_and_heap) b len /\
       os_free 8 (get_ptr_block b) mapped_and_heap = Ok tt s2 /\
       trace s2 = trace mapped_and_heap ++ [Munmap b len]) /\
  (forall size,
     0 < size ->
     MAP_THRESHOLD mapped_and_heap
     <= w64 (ALIGN size + ALIGN BLOCK_META_SIZE) ->
     room mapped_and_heap size ->
     exists p s1 s2,
       os_malloc 8 size mapped_and_heap = Ok p s1 /\
       get_status (memory s1) (get_block_ptr p) = STATUS_MAPPED /\
       trace s1
       = trace mapped_and_heap
         ++ [Mmap (get_block_ptr p)
               (w64 (ALIGN size + ALIGN BLOCK_META_SIZE))] /\
       os_free 8 p s1 = Ok tt s2 /\
       trace s2
       = trace s1
         ++ [Munmap (get_block_ptr p)
               (w64 (ALIGN size + ALIGN BLOCK_META_SIZE))]).
Proof.
  refine (mapped_block_unmap_length 8 mapped_and_heap [2 ^ 40]
            [4096000; 4096128] heap_inv_mapped_and_heap _).
  simpl. lia.
Defined.

(** ** Further properties of the helper functions *)

(** X2. [ALIGN] rounds a size up to the next multiple of 8: the result is a
    multiple of 8 below 2^64, it lies in [x, x + 8) as long as [x + 7] does
    not overflow, and the seven largest sizes wrap around to 0. *)
Theorem ALIGN_rounds_up x :
  0 <= x < SIZE_MAX1 ->
  ALIGN x mod 8 = 0 /\ 0 <= ALIGN x < SIZE_MAX1 /\
  (x + 7 < SIZE_MAX1 -> x <= ALIGN x < x + 8) /\
  (SIZE_MAX1 <= x + 7 -> ALIGN x = 0).
Proof.
  intros Hx. split; [apply ALIGN_mod8 |]. split; [apply ALIGN_range |].
  split; [intros H; apply ALIGN_small; lia |].
  intros Hw. rewrite ALIGN_div.
  replace (w64 (x + 7)) with (x + 7 - SIZE_MAX1).
  - unfold SIZE_MAX1 in *. rewrite Z.div_small by lia. reflexivity.
  - unfold w64, SIZE_MAX1 in *. Z.div_mod_to_equations. lia.
Qed.

Lemma ALIGN_rounds_up_witness :
  ALIGN 13 mod 8 = 0 /\ 0 <= ALIGN 13 < SIZE_MAX1 /\
  (13 + 7 < SIZE_MAX1 -> 13 <= ALIGN 13 < 13 + 8) /\
  (SIZE_MAX1 <= 13 + 7 -> ALIGN 13 = 0).
Proof. apply (ALIGN_rounds_up 13). unfold SIZE_MAX1. lia. Defined.

(** X3. On a well-formed list [is_block_in_memory] decides membership: it
    returns 1 for each header of the list and 0 for any other address, and
    leaves the state as it is. *)
Theorem is_block_in_memory_decides fuel s l b :
  chain (memory s) (head s) l -> (length l < fuel)%nat ->
  (In b l -> is_block_in_memory fuel b s = Ok 1 s) /\
  (~ In b l -> is_block_in_memory fuel b s = Ok 0 s).
Proof.
  intros Hc Hf. unfold is_block_in_memory, lift_opt.
  rewrite (member_loop_chain fuel (memory s) (head s) l b Hc Hf).
  destruct (in_dec Z.eq_dec b l) as [Hin | Hout]; split; intros H;
    try reflexivity; contradiction.
Qed.

Lemma is_block_in_memory_decides_witness :
  (In 4097024 [4096000; 4097024] ->
   is_block_in_memory 8 4097024 after_malloc_1000 = Ok 1 after_malloc_1000) /\
  (~ In 4097024 [4096000; 4097024] ->
   is_block_in_memory 8 4097024 after_malloc_1000 = Ok 0 after_malloc_1000).
Proof.
  apply (is_block_in_memory_decides 8 after_malloc_1000 [4096000; 4097024]).
  - exact (proj1 (proj2 (proj2 heap_inv_after_malloc_1000))).
  - simpl. lia.
Defined.

(** X4. [find_last_free_block] walks to the end of the list and returns the
    last block when its status is [FREE] and the null pointer otherwise,
    leaving the state as it is; on an empty list it reads the status
    through the null pointer. *)
Theorem find_last_free_block_last fuel s l :
  chain (memory s) (head s) l -> (length l < fuel)%nat ->
  (l = [] -> find_last_free_block fuel s = Fault) /\
  (l <> [] ->
   find_last_free_block fuel s
   = Ok (if get_status (memory s) (last l 0) =? STATUS_FREE
         then last l 0 else 0) s).
Proof.
  intros Hc Hf. unfold find_last_free_block.
  rewrite (walk_to_end_chain fuel (memory s) (head s) l 0 Hc Hf).
  split.
  - intros ->. reflexivity.
  - intros Hne. pose proof (last_in l 0 Hne) as Hin.
    destruct (Z.eqb_spec (last l 0) 0) as [E | _].
    + exfalso. rewrite E in Hin. exact (chain_nonzero _ _ _ Hc Hin).
    + destruct (get_status (memory s) (last l 0) =? STATUS_FREE); reflexivity.
Qed.

Lemma find_last_free_block_last_witness :
  ([4096000; 4097024] = [] ->
   find_last_free_block 8 after_malloc_1000 = Fault) /\
  ([4096000; 4097024] <> [] ->
   find_last_free_block 8 after_malloc_1000
   = Ok (if get_status (memory after_malloc_1000)
              (last [4096000; 4097024] 0) =? STATUS_FREE
         then last [4096000; 4097024] 0 else 0) after_malloc_1000).
Proof.
  refine (find_last_free_block_last 8 after_malloc_1000 [4096000; 4097024]
            (proj1 (proj2 (proj2 heap_inv_after_malloc_1000))) _).
  simpl. lia.
Defined.

(** X5. [split_block] conserves the bytes of the block.  When the payload
    has room for the aligned request, a header and 8 more bytes, the block
    keeps [ALIGN(size)] payload bytes and becomes [ALLOCATED], and a [FREE]
    block that takes over the old successor starts right behind them with
    the rest of the payload less its header; no byte outside the two
    headers changes.  Otherwise only the status of the block is written. *)
Theorem split_block_conserves m b size :
  0 <= b -> b + get_size m b + 32 < SIZE_MAX1 ->
  ALIGN size <= get_size m b ->
  let nb := b + BLOCK_META_SIZE + ALIGN size in
  let m' := split_block m b size in
  (ALIGN size + 32 <= get_size m b ->
   get_size m' b = ALIGN size /\ get_status m' b = STATUS_ALLOC /\
   get_next m' b = nb /\
   get_size m' nb + BLOCK_META_SIZE + get_size m' b = get_size m b /\
   get_status m' nb = STATUS_FREE /\ get_next m' nb = get_next m b /\
   framed m m' [b; nb]) /\
  (get_size m b < ALIGN size + 32 ->
   m' = set_status m b STATUS_ALLOC /\
   get_size m' b = get_size m b /\ get_next m' b = get_next m b /\
   get_status m' b = STATUS_ALLOC).
Proof.
  intros Hb Htop HA nb m'.
  pose proof (ALIGN_range size) as HAr.
  pose proof (get_size_range m b) as Hr.
  split.
  - intros Hbig.
    destruct (split_block_split m b size) as (E1 & E2 & E3 & E4 & E5 & E6 & Hfr);
      try (unfold BLOCK_META_SIZE, SIZE_MAX1 in *; lia).
    fold nb in E2, E4, E5, E6, Hfr. fold m' in E1, E2, E3, E4, E5, E6, Hfr.
    rewrite E1, E4. unfold BLOCK_META_SIZE.
    repeat split; trivial. lia.
  - intros Hsmall.
    assert (E : m' = set_status m b STATUS_ALLOC).
    { subst m'. unfold split_block.
      destruct (Z.leb_spec
                  (w64 (w64 (ALIGN size + ALIGN BLOCK_META_SIZE) + ALIGNMENT))
                  (get_size m b)) as [Hle | _]; [| reflexivity].
      exfalso. rewrite ALIGN_header in Hle.
      unfold BLOCK_META_SIZE, ALIGNMENT, SIZE_MAX1 in *.
      rewrite (w64_small (ALIGN size + 24)) in Hle
        by (unfold SIZE_MAX1; lia).
      rewrite w64_small in Hle by (unfold SIZE_MAX1; lia). lia. }
    split; [exact E |]. rewrite E.
    destruct (set_status_keeps m b STATUS_ALLOC b (or_introl eq_refl))
      as [-> ->].
    split; [reflexivity |]. split; [reflexivity |].
    apply set_status_status_same. unfold STATUS_ALLOC. lia.
Qed.

Lemma split_block_conserves_witness :
  let m := memory after_malloc_1000 in
  let nb := 4097024 + BLOCK_META_SIZE + ALIGN 100 in
  let m' := split_block m 4097024 100 in
  (ALIGN 100 + 32 <= get_size m 4097024 ->
   get_size m' 4097024 = ALIGN 100 /\
   get_status m' 4097024 = STATUS_ALLOC /\
   get_next m' 4097024 = nb /\
   get_size m' nb + BLOCK_META_SIZE + get_size m' 4097024
   = get_size m 4097024 /\
   get_status m' nb = STATUS_FREE /\
   get_next m' nb = get_next m 4097024 /\
   framed m m' [4097024; nb]) /\
  (get_size m 4097024 < ALIGN 100 + 32 ->
   m' = set_status m 4097024 STATUS_ALLOC /\
   get_size m' 4097024 = get_size m 4097024 /\
   get_next m' 4097024 = get_next m 4097024 /\
   get_status m' 4097024 = STATUS_ALLOC).
Proof.
  refine (split_block_conserves (memory after_malloc_1000) 4097024 100
            _ _ _).
  - lia.
  - vm_compute. reflexivity.
  - vm_compute. intros X. discriminate X.
Defined.

(** ** Edge cases of the public operations *)

(** X6. When the product [nmemb * size] is zero in [size_t], because a
    factor is zero or because the product is a multiple of 2^64,
    [os_calloc] returns the null pointer; the heap, the list and the log of
    system calls are as before the call, and [MAP_THRESHOLD] is 128 KiB. *)
Theorem os_calloc_zero_product fuel nmemb size s :
  w64 (nmemb * size) = 0 ->
  os_calloc fuel nmemb size s = Ok 0 (with_threshold s (128 * 1024)).
Proof.
  intros E. unfold os_calloc. rewrite E. reflexivity.
Qed.

Lemma os_calloc_zero_product_witness :
  os_calloc 8 (2 ^ 32) (2 ^ 32) after_malloc_1000
  = Ok 0 (with_threshold after_malloc_1000 (128 * 1024)).
Proof.
  refine (os_calloc_zero_product 8 (2 ^ 32) (2 ^ 32) after_malloc_1000 _).
  vm_compute. reflexivity.
Defined.

(** X7. [request_memory] returns the null pointer and writes no header
    when the system call it makes fails: [sbrk] because the break would
    pass its limit, [mmap] because the mapping does not fit.  A request
    that [os_malloc] must serve by a mapping then ends in [DIE]. *)
Theorem request_memory_refused size s :
  let total := w64 (ALIGN size + ALIGN BLOCK_META_SIZE) in
  (total < MAP_THRESHOLD s -> total < 2 ^ 63 ->
   brk_limit s < brk s + total ->
   exists s',
     request_memory size s = Ok 0 s' /\ memory s' = memory s /\
     brk s' = brk s /\ trace s' = trace s ++ [Sbrk total]) /\
  (MAP_THRESHOLD s <= total -> map_limit s < mapped_end s total ->
   (exists s',
      request_memory size s = Ok 0 s' /\ memory s' = memory s /\
      map_next s' = map_next s /\
      trace s' = trace s ++ [Mmap ALLOCATION_FAILED total]) /\
   forall fuel, size <> 0 -> os_malloc fuel size s = Fatal).
Proof.
  intros total. split.
  - intros Hthr H63 Hlim. unfold request_memory. fold total.
    unfold bind at 1.
    destruct (Z.ltb_spec total (MAP_THRESHOLD s)) as [_ |]; [| lia].
    unfold bind at 1. unfold sbrk.
    destruct (Z.ltb_spec total (2 ^ 63)) as [_ |]; [| lia].
    replace ((0 <=? brk s + total) && (brk s + total <=? brk_limit s))
      with false
      by (symmetry; apply andb_false_iff; right; apply Z.leb_gt; lia).
    eexists. split; [reflexivity |]. repeat split.
  - intros Hthr Hlim.
    assert (Ereq : request_memory size s
                   = Ok 0 (mkState (memory s) (head s) (heap_preallocated s)
                             (MAP_THRESHOLD s) (brk s) (brk_limit s)
                             (map_next s) (map_limit s) (page_size s)
                             (trace s ++ [Mmap ALLOCATION_FAILED total]))).
    { unfold request_memory. fold total. unfold bind at 1.
      destruct (Z.ltb_spec total (MAP_THRESHOLD s)) as [| _]; [lia |].
      unfold bind at 1. unfold mmap.
      replace ((total =? 0) || (map_limit s <? mapped_end s total)) with true
        by (symmetry; apply orb_true_iff; right; apply Z.ltb_lt; lia).
      reflexivity. }
    split.
    + eexists. split; [exact Ereq |]. repeat split.
    + intros fuel Hsz. unfold os_malloc.
      destruct (Z.eqb_spec size 0); [contradiction |].
      fold total. unfold bind at 1.
      destruct (Z.ltb_spec total (MAP_THRESHOLD s)) as [| _]; [lia |].
      unfold bind at 1. rewrite Ereq. reflexivity.
Qed.

(** ** The coalesce pass *)

(** X8. The coalesce pass spares the blocks in use.  It makes no system
    call and writes into headers of the list only; every block keeps its
    status; a block that is not [FREE] stays in the list with its payload
    size; and the list the pass leaves satisfies the invariant again, its
    heap part made of blocks of the old one. *)
Theorem coalesce_memory_spares_in_use fuel s lm lh :
  heap_inv s lm lh -> (length (lm ++ lh) < fuel)%nat ->
  exists m3 lh3,
    coalesce_memory fuel s = Ok tt (with_memory s m3) /\
    heap_inv (with_memory s m3) lm lh3 /\ incl lh3 lh /\
    framed (memory s) m3 (lm ++ lh) /\
    (forall b, In b (lm ++ lh) ->
       get_status m3 b = get_status (memory s) b) /\
    (forall b, In b lh -> get_status (memory s) b <> STATUS_FREE ->
       In b lh3 /\ get_size m3 b = get_size (memory s) b).
Proof.
  intros Hinv Hf.
  destruct (coalesce_memory_inv fuel s lm lh Hinv Hf)
    as (m3 & lh3 & E & Hinv3 & Hincl & _).
  pose proof Hinv as (_ & _ & Hc & _).
  destruct (coalesce_memory_chain fuel s (lm ++ lh) Hc
              (heap_inv_sep s lm lh Hinv) Hf)
    as (m' & l' & E' & _ & _ & _ & _ & Hfr & Hst & _).
  rewrite E in E'. injection E' as E'. subst m'.
  exists m3, lh3.
  split; [exact E |]. split; [exact Hinv3 |]. split; [exact Hincl |].
  split; [exact Hfr |]. split; [exact Hst |].
  intros b Hb Hnf.
  destruct (coalesce_memory_keeps fuel s lm lh m3 lh3 b Hinv Hf E Hinv3 Hb
              Hnf) as (H1 & H2 & _).
  split; [exact H1 | exact H2].
Qed.

Lemma coalesce_memory_spares_in_use_witness :
  exists m3 lh3,
    coalesce_memory 8 after_one_free = Ok tt (with_memory after_one_free m3) /\
    heap_inv (with_memory after_one_free m3) [] lh3 /\
    incl lh3 [4096000; 4096224; 4096552] /\
    framed (memory after_one_free) m3 ([] ++ [4096000; 4096224; 4096552]) /\
    (forall b, In b ([] ++ [4096000; 4096224; 4096552]) ->
       get_status m3 b = get_status (memory after_one_free) b) /\
    (forall b, In b [4096000; 4096224; 4096552] ->
       get_status (memory after_one_free) b <> STATUS_FREE ->
       In b lh3 /\ get_size m3 b = get_size (memory after_one_free) b).
Proof.
  refine (coalesce_memory_spares_in_use 8 after_one_free []
            [4096000; 4096224; 4096552] heap_inv_after_one_free _).
  simpl. lia.
Defined.

Lemma no_free_triple_ext m m' l :
  (forall b, In b l -> get_status m' b = get_status m b) ->
  no_free_triple m' l = no_free_triple m l.
Proof.
  induction l as [| a l IH]; intros Hk; [reflexivity |].
  cbn [no_free_triple]. rewrite IH by (intros b Hb; apply Hk; now right).
  f_equal. destruct l as [| b [| c l]]; trivial.
  unfold is_free. rewrite !Hk; simpl; auto.
Qed.

Lemma no_free_triple_tail m a l :
  no_free_triple m (a :: l) = true -> no_free_triple m l = true.
Proof. cbn [no_free_triple]. intros H. apply andb_true_iff in H. apply H. Qed.

Lemma coalesce_loop_no_pair fuel : forall m a l m' l',
  chain m a l -> sep l -> (length l < fuel)%nat ->
  no_free_triple m l = true ->
  coalesce_loop fuel m a = Some m' -> chain m' a l' ->
  no_free_pair m' l' = true.
Proof.
  induction fuel as [| f IH]; intros m a l m' l' Hc Hs Hf Ht E Hc'; [lia |].
  cbn [coalesce_loop] in E.
  destruct (Z.eqb_spec a 0) as [-> | Ha].
  { apply chain_nil_inv in Hc'. subst l'. reflexivity. }
  destruct (chain_cons_inv _ _ _ Hc Ha) as (l0 & -> & Hc0).
  destruct (chain_cons_inv _ _ _ Hc' Ha) as (l0' & -> & Hc0').
  destruct Hs as [Hda Hs0].
  destruct (Z.eqb_spec (get_next m a) 0) as [Hn | Hn].
  { injection E as <-. rewrite Hn in Hc0'. apply chain_nil_inv in Hc0'.
    subst l0'. reflexivity. }
  destruct (chain_cons_inv _ _ _ Hc0 Hn) as (rest & -> & Hc1).
  set (nx := get_next m a) in *.
  destruct Hs0 as [Hdn Hs1].
  pose proof (Forall_inv Hda) as Hanx.
  pose proof (Forall_inv_tail Hda) as Harest.
  destruct ((get_status m a =? STATUS_FREE) && (get_status m nx =? STATUS_FREE))
    eqn:Hfree.
  - destruct (coalesce_blocks_spec m a nx Hanx) as (Enext & Est & Esz & Hfr).
    set (m1 := coalesce_blocks m a nx) in *. rewrite Enext in E.
    assert (Hk1 : forall c, In c rest ->
                    get_next m1 c = get_next m c /\
                    get_size m1 c = get_size m c /\
                    get_status m1 c = get_status m c).
    { intros c Hc2. apply (framed_fields m m1 [a] c Hfr).
      constructor; [| constructor]. apply hdr_disjoint_sym.
      rewrite Forall_forall in Harest. auto. }
    assert (Hc1' : chain m1 (get_next m nx) rest).
    { apply (chain_frame m); trivial. intros c Hc2. apply Hk1, Hc2. }
    destruct (coalesce_loop_chain f m1 (get_next m nx) rest Hc1' Hs1)
      as (m2 & l2 & E2 & Hc2 & _ & _ & _ & Hfr2 & Hst2 & _);
      [simpl in Hf; lia |].
    rewrite E in E2. injection E2 as <-.
    destruct (framed_fields m1 m' rest a Hfr2 Harest) as (En2 & _ & _).
    rewrite En2, Enext in Hc0'.
    assert (Ht1 : no_free_triple m1 rest = true).
    { rewrite (no_free_triple_ext m m1 rest)
        by (intros c Hcr; apply Hk1, Hcr).
      apply (no_free_triple_tail m nx). apply (no_free_triple_tail m a).
      exact Ht. }
    pose proof (IH m1 (get_next m nx) rest m' l0' Hc1' Hs1
                  ltac:(simpl in Hf; lia) Ht1 E Hc0') as Hp.
    cbn [no_free_pair]. rewrite Hp, andb_true_r.
    destruct l0' as [| c l0'']; [reflexivity |].
    pose proof (chain_head _ _ _ Hc0') as Ec. simpl in Ec.
    pose proof (chain_head _ _ _ Hc1) as Ec1.
    destruct rest as [| c1 rest'].
    { simpl in Ec1. rewrite Ec1 in Hc0'. inversion Hc0'. congruence. }
    simpl in Ec1. assert (Ecc : c = c1) by congruence.
    clear Ec Ec1. subst c.
    cbn [no_free_triple] in Ht. apply andb_true_iff in Ht.
    destruct Ht as [Ht _]. unfold is_free in Ht |- *.
    rewrite Hfree in Ht. simpl in Ht.
    rewrite (Hst2 c1 (or_introl eq_refl)).
    destruct (Hk1 c1 (or_introl eq_refl)) as (_ & _ & ->).
    apply negb_true_iff in Ht. rewrite Ht. apply negb_true_iff.
    apply andb_false_r.
  - fold nx in E.
    destruct (coalesce_loop_chain f m nx (nx :: rest) Hc0 (conj Hdn Hs1))
      as (m2 & l2 & E2 & Hc2 & _ & _ & _ & Hfr2 & Hst2 & _);
      [simpl in Hf |- *; lia |].
    rewrite E in E2. injection E2 as <-.
    destruct (framed_fields m m' (nx :: rest) a Hfr2 Hda) as (En2 & _ & Et2).
    rewrite En2 in Hc0'. fold nx in Hc0'.
    pose proof (IH m nx (nx :: rest) m' l0' Hc0 (conj Hdn Hs1)
                  ltac:(simpl in Hf |- *; lia)
                  (no_free_triple_tail m a _ Ht) E Hc0') as Hp.
    cbn [no_free_pair]. rewrite Hp, andb_true_r.
    destruct (chain_cons_inv _ _ _ Hc0' Hn) as (l0'' & -> & _).
    unfold is_free. rewrite Et2, (Hst2 nx (or_introl eq_refl)).
    rewrite Hfree. reflexivity.
Qed.

(** X9. When marking an [ALLOCATED] heap block [FREE] creates no run of
    three [FREE] blocks, [os_free] leaves no two neighbours of the list
    both [FREE]: one pass of [coalesce_memory] merges every pair.  (A run
    of three is the case the pass does not finish.) *)
Theorem os_free_merges_pairs fuel s lm lh b :
  heap_inv s lm lh -> In b lh -> get_status (memory s) b = STATUS_ALLOC ->
  (length (lm ++ lh) < fuel)%nat ->
  no_free_triple (set_status (memory s) b STATUS_FREE) (lm ++ lh) = true ->
  exists m' lh',
    os_free fuel (get_ptr_block b) s = Ok tt (with_memory s m') /\
    heap_inv (with_memory s m') lm lh' /\
    no_free_pair m' (lm ++ lh') = true.
Proof.
  intros Hinv Hb Est Hf Ht.
  pose proof Hinv as (_ & _ & Hc & _).
  assert (Hin : In b (lm ++ lh)) by (apply in_or_app; now right).
  destruct (heap_inv_block_aligned s lm lh b Hinv Hin) as [Hpos _].
  pose proof (heap_inv_set_status s lm lh b STATUS_FREE Hinv Hb
                (or_introl eq_refl)) as Hinv1.
  destruct (coalesce_memory_inv fuel _ lm lh Hinv1 Hf)
    as (m3 & lh3 & E & Hinv3 & _ & _).
  exists m3, lh3. split; [| split; [exact Hinv3 |]].
  - unfold os_free.
    destruct (Z.eqb_spec (get_ptr_block b) 0);
      [unfold get_ptr_block, BLOCK_META_SIZE in *; lia |].
    rewrite get_block_ptr_inv.
    unfold bind at 1. unfold is_block_in_memory, lift_opt.
    rewrite (member_loop_chain fuel (memory s) (head s) (lm ++ lh) b Hc Hf).
    destruct (in_dec Z.eq_dec b (lm ++ lh)) as [_ | Hout];
      [| contradiction].
    change (1 =? 0) with false. cbv iota.
    unfold bind at 1. unfold rd at 1. rewrite Est.
    change (STATUS_ALLOC =? STATUS_ALLOC) with true. cbv iota.
    unfold bind at 1. unfold wr at 1. rewrite E. reflexivity.
  - pose proof Hinv1 as (_ & _ & Hc1 & _).
    pose proof Hinv3 as (_ & _ & Hc3 & _).
    cbn [memory head with_memory] in Hc1, Hc3.
    unfold coalesce_memory in E. cbn [memory head with_memory] in E.
    destruct (coalesce_loop fuel (set_status (memory s) b STATUS_FREE)
                (head s)) as [m |] eqn:El; [| discriminate E].
    injection E as E. subst m.
    exact (coalesce_loop_no_pair fuel _ _ _ _ _ Hc1
             (heap_inv_sep _ lm lh Hinv1) Hf Ht El Hc3).
Qed.

Lemma os_free_merges_pairs_witness :
  exists m' lh',
    os_free 8 (get_ptr_block 4096000) after_malloc_1000
    = Ok tt (with_memory after_malloc_1000 m') /\
    heap_inv (with_memory after_malloc_1000 m') [] lh' /\
    no_free_pair m' ([] ++ lh') = true.
Proof.
  refine (os_free_merges_pairs 8 after_malloc_1000 [] [4096000; 4097024]
            4096000 heap_inv_after_malloc_1000 _ _ _ _).
  - now left.
  - vm_compute. reflexivity.
  - simpl. lia.
  - vm_compute. reflexivity.
Defined.

(** ** [os_free] *)

Lemma same_system_refl s : same_system s s.
Proof. unfold same_system. repeat split. Qed.

Lemma remove_loop_frame fuel : forall b cur prev s s',
  remove_loop fuel b cur prev s = Ok tt s' ->
  same_system s s' /\ trace s' = trace s.
Proof.
  induction fuel as [| f IH]; intros b cur prev s s' E; [discriminate E |].
  cbn [remove_loop] in E.
  destruct (cur =? 0); [injection E as <-; split; [apply same_system_refl | reflexivity] |].
  destruct (cur =? b); [| exact (IH _ _ _ _ _ E)].
  destruct (cur =? head s).
  - injection E as <-. split; [unfold same_system; repeat split | reflexivity].
  - destruct (prev =? 0); [discriminate E |].
    injection E as <-. split; [unfold same_system; repeat split | reflexivity].
Qed.

(** X10. [os_free] gives no heap memory back and asks for none: whenever
    it returns, the break, the mapping area, [heap_preallocated] and
    [MAP_THRESHOLD] are as before, and the log of system calls is unchanged
    or longer by one call of [munmap] at the header of the block freed. *)
Theorem os_free_only_unmaps fuel ptr s s' :
  os_free fuel ptr s = Ok tt s' ->
  same_system s s' /\
  (trace s' = trace s \/
   exists len, trace s' = trace s ++ [Munmap (get_block_ptr ptr) len]).
Proof.
  unfold os_free. intros E.
  destruct (ptr =? 0).
  { injection E as <-. split; [apply same_system_refl | now left]. }
  unfold bind at 1 in E. unfold is_block_in_memory, lift_opt in E.
  destruct (member_loop fuel (memory s) (get_block_ptr ptr) (head s))
    as [found |]; [| discriminate E].
  destruct (found =? 0).
  { injection E as <-. split; [apply same_system_refl | now left]. }
  unfold bind at 1 in E. unfold rd at 1 in E.
  destruct (get_status (memory s) (get_block_ptr ptr) =? STATUS_ALLOC).
  { unfold bind at 1 in E. unfold wr at 1 in E.
    unfold coalesce_memory in E.
    destruct (coalesce_loop fuel _ _); [| discriminate E].
    injection E as <-. split; [unfold same_system; repeat split | now left]. }
  destruct (get_status (memory s) (get_block_ptr ptr) =? STATUS_MAPPED).
  - unfold bind at 1 in E. unfold remove_memory_block in E.
    destruct (remove_loop fuel (get_block_ptr ptr) (head s) 0 s)
      as [[] s1 | | |] eqn:Er; try discriminate E.
    destruct (remove_loop_frame _ _ _ _ _ _ Er) as [Hsys Htr].
    unfold bind at 1 in E. unfold rd at 1 in E.
    unfold bind at 1 in E. unfold munmap in E.
    destruct ((w64 (get_size (memory s1) (get_block_ptr ptr) + BLOCK_META_SIZE)
               =? 0)
              || negb (get_block_ptr ptr mod page_size s1 =? 0)).
    + discriminate E.
    + change (negb (0 =? 0)) with false in E. cbv iota in E.
      injection E as <-. cbn [trace]. rewrite Htr.
      split; [exact Hsys | right; eexists; reflexivity].
  - injection E as <-. split; [apply same_system_refl | now left].
Qed.

Lemma ok_unit_state_of (r : result unit) :
  is_ok r = true -> r = Ok tt (state_of r).
Proof.
  destruct r as [[] s | | |]; simpl; intros H;
    [reflexivity | | |]; discriminate H.
Qed.

Lemma os_free_only_unmaps_witness :
  same_system mapped_and_heap after_unmap /\
  (trace after_unmap = trace mapped_and_heap \/
   exists len,
     trace after_unmap
     = trace mapped_and_heap
       ++ [Munmap (get_block_ptr (get_ptr_block (2 ^ 40))) len]).
Proof.
  refine (os_free_only_unmaps 8 (get_ptr_block (2 ^ 40)) mapped_and_heap
            after_unmap _).
  apply ok_unit_state_of. vm_compute. reflexivity.
Defined.

(** ** Unlinking and linking blocks *)

Lemma remove_loop_absent b s : forall l fuel cur prev,
  chain (memory s) cur l -> ~ In b l -> (length l < fuel)%nat ->
  remove_loop fuel b cur prev s = Ok tt s.
Proof.
  induction l as [| a l IH]; intros fuel cur prev Hc Hn Hf;
    (destruct fuel as [| f]; [simpl in Hf; lia |]); cbn [remove_loop].
  - inversion Hc; subst. reflexivity.
  - inversion Hc as [| ? ? Ha0 Hc0]; subst.
    destruct (Z.eqb_spec a 0); [contradiction |].
    destruct (Z.eqb_spec a b) as [-> | _]; [exfalso; apply Hn; now left |].
    apply IH; trivial.
    + intros Hin. apply Hn. now right.
    + simpl in Hf. lia.
Qed.

Lemma remove_memory_block_chain fuel s l1 b l2 :
  chain (memory s) (head s) (l1 ++ b :: l2) -> sep (l1 ++ b :: l2) ->
  (length (l1 ++ b :: l2) < fuel)%nat ->
  exists m' h',
    remove_memory_block fuel b s = Ok tt (with_head (with_memory s m') h') /\
    chain m' h' (l1 ++ l2) /\ ~ In b (l1 ++ l2) /\ get_next m' b = 0 /\
    (forall c, In c (l1 ++ b :: l2) ->
       get_size m' c = get_size (memory s) c /\
       get_status m' c = get_status (memory s) c).
Proof.
  intros Hc Hsep Hf.
  set (m := memory s) in *.
  assert (Hbd : forall c, In c (l1 ++ l2) -> hdr_disjoint c b)
    by (intros c Hc0; exact (sep_mid _ _ _ c Hsep Hc0)).
  assert (Hnb : ~ In b (l1 ++ l2)).
  { intros Hin. pose proof (Hbd b Hin) as Hd.
    unfold hdr_disjoint, BLOCK_META_SIZE in Hd. lia. }
  assert (Hall : forall c, In c (l1 ++ b :: l2) -> c = b \/ hdr_disjoint c b).
  { intros c Hc0.
    destruct (in_app_mid _ _ _ _ Hc0) as [-> | Hc1]; [now left |].
    right. exact (Hbd c Hc1). }
  unfold remove_memory_block.
  destruct l1 as [| a l1].
  - simpl in Hc, Hbd, Hf, Hnb.
    pose proof (chain_head _ _ _ Hc) as Eh. simpl in Eh.
    assert (Hb0 : b <> 0).
    { intros ->. apply (chain_nonzero _ _ _ Hc). now left. }
    rewrite Eh in Hc.
    destruct (chain_cons_inv _ _ _ Hc Hb0) as (l0 & El & Hc0).
    injection El as <-.
    destruct fuel as [| f]; [lia |]. cbn [remove_loop].
    rewrite Eh. destruct (Z.eqb_spec b 0); [contradiction |].
    rewrite Z.eqb_refl.
    exists (set_next m b 0), (get_next m b).
    split; [reflexivity |]. split; [| split; [exact Hnb | split]].
    + simpl. apply (chain_frame m); trivial. intros c Hc1.
      apply set_next_next_other. exact (Hbd c Hc1).
    + apply set_next_next_same. unfold SIZE_MAX1. lia.
    + intros c Hc1. apply set_next_keeps. exact (Hall c Hc1).
  - set (l0 := a :: l1) in *.
    assert (Hne : l0 <> []) by discriminate.
    assert (Hnb0 : ~ In b l0)
      by (intros Hin; apply Hnb; apply in_or_app; now left).
    assert (Hbh : b <> head s).
    { rewrite (chain_head _ _ _ Hc). simpl. intros ->. apply Hnb0. now left. }
    rewrite (remove_loop_walk b s l2 l0 fuel (head s) 0); trivial;
      [| intros E; discriminate E].
    fold m. set (p := last l0 0).
    assert (Hp : In p l0) by (apply last_in; exact Hne).
    assert (Hpb : hdr_disjoint p b)
      by (apply Hbd; apply in_or_app; now left).
    pose proof (get_next_range m b) as Hnr.
    assert (Hpp : forall c, In c (l0 ++ b :: l2) -> c = p \/ hdr_disjoint c p).
    { intros c Hc0. apply (sep_in_in _ c p Hsep Hc0).
      apply in_or_app. now left. }
    exists (set_next (set_next m p (get_next m b)) b 0), (head s).
    split; [destruct s; reflexivity |].
    split; [| split; [exact Hnb | split]].
    + apply (chain_remove m _ _ l0 b l2 Hc Hne).
      * intros c Hc0.
        rewrite set_next_next_other.
        -- apply set_next_next_other.
           rewrite (app_removelast_last 0 Hne) in Hsep.
           rewrite <- app_assoc in Hsep. simpl in Hsep.
           apply (sep_mid _ _ _ c Hsep).
           apply in_app_or in Hc0. apply in_or_app.
           destruct Hc0 as [Hc0 | Hc0]; [now left |].
           right. right. exact Hc0.
        -- apply Hbd. apply in_app_or in Hc0. apply in_or_app.
           destruct Hc0 as [Hc0 | Hc0]; [| now right].
           left. rewrite (app_removelast_last 0 Hne).
           apply in_or_app. now left.
      * fold p. rewrite set_next_next_other by exact Hpb.
        apply set_next_next_same. exact Hnr.
    + apply set_next_next_same. unfold SIZE_MAX1. lia.
    + intros c Hc0.
      destruct (set_next_keeps (set_next m p (get_next m b)) b 0 c
                  (Hall c Hc0)) as [-> ->].
      apply set_next_keeps. exact (Hpp c Hc0).
Qed.

(** X11. [remove_memory_block] unlinks a block of a well-formed list: the
    other blocks keep their order, the next pointer of the block removed is
    null, and no size or status changes.  For an address that is not in
    the list the call changes nothing. *)
Theorem remove_memory_block_unlinks fuel s l b :
  chain (memory s) (head s) l -> sep l -> (length l < fuel)%nat ->
  (forall l1 l2, l = l1 ++ b :: l2 ->
     exists s',
       remove_memory_block fuel b s = Ok tt s' /\
       chain (memory s') (head s') (l1 ++ l2) /\ ~ In b (l1 ++ l2) /\
       get_next (memory s') b = 0 /\
       (forall c, In c l ->
          get_size (memory s') c = get_size (memory s) c /\
          get_status (memory s') c = get_status (memory s) c) /\
       same_system s s' /\ trace s' = trace s) /\
  (~ In b l -> remove_memory_block fuel b s = Ok tt s).
Proof.
  intros Hc Hsep Hf. split.
  - intros l1 l2 ->.
    destruct (remove_memory_block_chain fuel s l1 b l2 Hc Hsep Hf)
      as (m' & h' & E & Hc' & Hn & Hnx & Hk).
    eexists. split; [exact E |].
    cbn [memory head with_memory with_head trace].
    repeat split; trivial; apply Hk; trivial.
  - intros Hn. unfold remove_memory_block.
    exact (remove_loop_absent b s l fuel (head s) 0 Hc Hn Hf).
Qed.

Lemma remove_memory_block_unlinks_witness :
  (forall l1 l2, [2 ^ 40; 4096000; 4096128] = l1 ++ 2 ^ 40 :: l2 ->
     exists s',
       remove_memory_block 8 (2 ^ 40) mapped_and_heap = Ok tt s' /\
       chain (memory s') (head s') (l1 ++ l2) /\ ~ In (2 ^ 40) (l1 ++ l2) /\
       get_next (memory s') (2 ^ 40) = 0 /\
       (forall c, In c [2 ^ 40; 4096000; 4096128] ->
          get_size (memory s') c = get_size (memory mapped_and_heap) c /\
          get_status (memory s') c = get_status (memory mapped_and_heap) c) /\
       same_system mapped_and_heap s' /\ trace s' = trace mapped_and_heap) /\
  (~ In (2 ^ 40) [2 ^ 40; 4096000; 4096128] ->
   remove_memory_block 8 (2 ^ 40) mapped_and_heap = Ok tt mapped_and_heap).
Proof.
  refine (remove_memory_block_unlinks 8 mapped_and_heap
            [2 ^ 40; 4096000; 4096128] (2 ^ 40)
            (proj1 (proj2 (proj2 heap_inv_mapped_and_heap)))
            (heap_inv_sep _ _ _ heap_inv_mapped_and_heap) _).
  simpl. lia.
Defined.

(** ** Freeing twice *)

Lemma os_free_absent fuel s l ptr :
  chain (memory s) (head s) l -> (length l < fuel)%nat ->
  ~ In (get_block_ptr ptr) l -> os_free fuel ptr s = Ok tt s.
Proof.
  intros Hc Hf Hn. unfold os_free.
  destruct (ptr =? 0); [reflexivity |].
  unfold bind at 1. unfold is_block_in_memory, lift_opt.
  rewrite (member_loop_chain fuel (memory s) (head s) l _ Hc Hf).
  destruct (in_dec Z.eq_dec (get_block_ptr ptr) l); [contradiction |].
  reflexivity.
Qed.

Lemma os_free_free_block fuel s l ptr :
  chain (memory s) (head s) l -> (length l < fuel)%nat ->
  get_status (memory s) (get_block_ptr ptr) = STATUS_FREE ->
  os_free fuel ptr s = Ok tt s.
Proof.
  intros Hc Hf Est. unfold os_free.
  destruct (ptr =? 0); [reflexivity |].
  unfold bind at 1. unfold is_block_in_memory, lift_opt.
  rewrite (member_loop_chain fuel (memory s) (head s) l _ Hc Hf).
  destruct (in_dec Z.eq_dec (get_block_ptr ptr) l); [| reflexivity].
  change (1 =? 0) with false. cbv iota.
  unfold bind at 1. unfold rd at 1. rewrite Est. reflexivity.
Qed.

(** X12. A second [os_free] of the same pointer does nothing.  In a state
    that satisfies the invariant of the block list, [os_free] returns, and
    calling it again with the same pointer returns in the very state the
    first call left: the block is then [FREE], or no longer in the list. *)
Theorem os_free_twice fuel s lm lh ptr :
  heap_inv s lm lh -> (length (lm ++ lh) < fuel)%nat ->
  exists s1,
    os_free fuel ptr s = Ok tt s1 /\ os_free fuel ptr s1 = Ok tt s1.
Proof.
  intros Hinv Hf.
  pose proof (heap_inv_sep s lm lh Hinv) as Hsep.
  pose proof Hinv as (Hos & Hthr & Hc & Hsm & Hm & Hct & Hh & Hpre & Hlog).
  destruct (Z.eq_dec ptr 0) as [-> | Hp].
  { exists s. split; reflexivity. }
  set (b := get_block_ptr ptr).
  destruct (in_dec Z.eq_dec b (lm ++ lh)) as [Hin | Hout].
  2:{ exists s. split; exact (os_free_absent fuel s _ ptr Hc Hf Hout). }
  assert (Hstart : forall k : Z -> M unit,
            os_free fuel ptr s
            = (st <- rd (fun m => get_status m b) ;;
               if st =? STATUS_ALLOC then
                 wr (fun m => set_status m b STATUS_FREE) ;;;
                 coalesce_memory fuel
               else if st =? STATUS_MAPPED then
                 remove_memory_block fuel b ;;;
                 sz <- rd (fun m => get_size m b) ;;
                 r <- munmap b (w64 (sz + BLOCK_META_SIZE)) ;;
                 if negb (r =? 0) then die else ret tt
               else ret tt) s).
  { intros _. unfold os_free.
    destruct (Z.eqb_spec ptr 0); [contradiction |]. fold b.
    unfold bind at 1. unfold is_block_in_memory, lift_opt.
    rewrite (member_loop_chain fuel (memory s) (head s) (lm ++ lh) b Hc Hf).
    destruct (in_dec Z.eq_dec b (lm ++ lh)); [| contradiction].
    reflexivity. }
  rewrite (Hstart (fun _ => ret tt)). clear Hstart.
  unfold bind at 1. unfold rd at 1.
  apply in_app_or in Hin. destruct Hin as [Hin | Hin].
  - (* a mapped block is unlinked: the second call does not find it *)
    destruct (Hm b Hin) as (Est & Hpg & _ & _ & _ & Hszr & _).
    rewrite Est. change (STATUS_MAPPED =? STATUS_ALLOC) with false.
    change (STATUS_MAPPED =? STATUS_MAPPED) with true. cbv iota.
    destruct (in_split b lm Hin) as (l1 & l2 & ->).
    rewrite <- app_assoc in Hc, Hsep, Hf. simpl in Hc, Hsep, Hf.
    destruct (remove_memory_block_chain fuel s l1 b (l2 ++ lh) Hc Hsep Hf)
      as (m' & h' & E & Hc' & Hn & _ & Hk).
    unfold bind at 1. rewrite E.
    unfold bind at 1. unfold rd at 1. cbn [memory with_memory with_head].
    rewrite (proj1 (Hk b (in_elt _ _ _))).
    pose proof (get_size_range (memory s) b) as Hr.
    rewrite w64_small by (unfold BLOCK_META_SIZE in *; lia).
    unfold bind at 1. unfold munmap.
    cbn [page_size with_memory with_head].
    destruct (Z.eqb_spec (get_size (memory s) b + BLOCK_META_SIZE) 0);
      [unfold BLOCK_META_SIZE in *; lia |].
    rewrite Hpg. change (0 =? 0) with true. cbn [negb orb]. cbv iota.
    eexists. split; [reflexivity |].
    apply (os_free_absent fuel _ (l1 ++ l2 ++ lh) ptr); trivial.
    rewrite length_app in Hf |- *. simpl in Hf. lia.
  - destruct (Hh b Hin) as ([Est | Est] & _); rewrite Est.
    + (* a free block: both calls return at once *)
      change (STATUS_FREE =? STATUS_ALLOC) with false.
      change (STATUS_FREE =? STATUS_MAPPED) with false. cbv iota.
      exists s. split; [reflexivity |].
      exact (os_free_free_block fuel s _ ptr Hc Hf Est).
    + (* an allocated block: it is free, or merged away, afterwards *)
      change (STATUS_ALLOC =? STATUS_ALLOC) with true. cbv iota.
      pose proof (heap_inv_set_status s lm lh b STATUS_FREE Hinv Hin
                    (or_introl eq_refl)) as Hinv1.
      pose proof Hinv1 as (_ & _ & Hc1 & _).
      destruct (coalesce_memory_chain fuel _ (lm ++ lh) Hc1
                  (heap_inv_sep _ lm lh Hinv1) Hf)
        as (m3 & l3 & E & Hc3 & _ & _ & _ & _ & Hst & _ & Hlen & _).
      unfold bind at 1. unfold wr at 1. rewrite E.
      eexists. split; [reflexivity |].
      apply (os_free_free_block fuel _ l3 ptr); trivial; [lia |].
      cbn [memory with_memory]. fold b.
      rewrite (Hst b (in_or_app _ _ b (or_intror Hin))).
      cbn [memory with_memory].
      apply set_status_status_same. unfold STATUS_FREE. lia.
Qed.

Lemma os_free_twice_witness :
  exists s1,
    os_free 8 (get_ptr_block (2 ^ 40)) mapped_and_heap = Ok tt s1 /\
    os_free 8 (get_ptr_block (2 ^ 40)) s1 = Ok tt s1.
Proof.
  refine (os_free_twice 8 mapped_and_heap [2 ^ 40] [4096000; 4096128]
            (get_ptr_block (2 ^ 40)) heap_inv_mapped_and_heap _).
  simpl. lia.
Defined.

(** X13. [add_memory_block] links a block whose header is written and
    whose next pointer is null into a well-formed list: a [MAPPED] block
    becomes the head, an [ALLOCATED] block the last block, and a [FREE]
    block the last block as long as the heap is not preallocated; no size
    or status changes.  A [FREE] block once the heap is preallocated, or a
    block of any other status, ends the process in [DIE]. *)
Theorem add_memory_block_places fuel s l block :
  chain (memory s) (head s) l -> sep l -> Forall (hdr_disjoint block) l ->
  (length l < fuel)%nat -> 0 < block < SIZE_MAX1 ->
  get_next (memory s) block = 0 -> 0 <= head s < SIZE_MAX1 ->
  let st := get_status (memory s) block in
  let kept s' :=
    forall c, c = block \/ In c l ->
      get_size (memory s') c = get_size (memory s) c /\
      get_status (memory s') c = get_status (memory s) c in
  (st = STATUS_MAPPED ->
   exists s', add_memory_block fuel block s = Ok tt s' /\
     chain (memory s') (head s') (block :: l) /\ kept s') /\
  (st = STATUS_ALLOC \/ (st = STATUS_FREE /\ heap_preallocated s = 0) ->
   exists s', add_memory_block fuel block s = Ok tt s' /\
     chain (memory s') (head s') (l ++ [block]) /\ kept s') /\
  (st = STATUS_FREE /\ heap_preallocated s <> 0 \/
   (st <> STATUS_FREE /\ st <> STATUS_ALLOC /\ st <> STATUS_MAPPED) ->
   add_memory_block fuel block s = Fatal).
Proof.
  intros Hc Hsep Hd Hf Hb Hnx Hh st kept.
  assert (Hb0 : block <> 0) by lia.
  split; [| split].
  - intros Est. unfold add_memory_block. fold st. rewrite Est.
    change (STATUS_MAPPED =? STATUS_MAPPED) with true. cbv iota.
    destruct (Z.eqb_spec (head s) 0) as [E0 | Hne].
    + eexists. split; [reflexivity |].
      cbn [memory head with_head]. split; [| intros c _; split; reflexivity].
      rewrite E0 in Hc. apply chain_nil_inv in Hc. subst l.
      constructor; [exact Hb0 |]. rewrite Hnx. constructor.
    + eexists. split; [reflexivity |].
      cbn [memory head with_head with_memory]. split.
      * constructor; [exact Hb0 |].
        rewrite set_next_next_same by exact Hh.
        apply (chain_frame (memory s)); trivial. intros c Hc0.
        apply set_next_next_other. apply hdr_disjoint_sym.
        rewrite Forall_forall in Hd. auto.
      * intros c Hc0. apply set_next_keeps.
        destruct Hc0 as [-> | Hc0]; [now left | right].
        apply hdr_disjoint_sym. rewrite Forall_forall in Hd. auto.
  - intros Est.
    destruct (append_block_spec fuel s l block Hc Hsep Hd Hf Hb Hnx)
      as (m' & h' & E & Hc' & Hk & _).
    exists (with_head (with_memory s m') h').
    split; [| split; [exact Hc' | exact Hk]].
    unfold add_memory_block. fold st.
    destruct Est as [Est | [Est Hpre]]; rewrite Est.
    + change (STATUS_ALLOC =? STATUS_MAPPED) with false.
      change (STATUS_ALLOC =? STATUS_ALLOC) with true. cbv iota. exact E.
    + change (STATUS_FREE =? STATUS_MAPPED) with false.
      change (STATUS_FREE =? STATUS_ALLOC) with false.
      change (STATUS_FREE =? STATUS_FREE) with true.
      rewrite Hpre. change (0 =? 0) with true. cbn [andb]. cbv iota. exact E.
  - intros Est. unfold add_memory_block. fold st.
    destruct Est as [[Est Hpre] | (H0 & H1 & H2)].
    + rewrite Est.
      change (STATUS_FREE =? STATUS_MAPPED) with false.
      change (STATUS_FREE =? STATUS_ALLOC) with false.
      destruct (Z.eqb_spec (heap_preallocated s) 0); [contradiction |].
      rewrite andb_false_r. reflexivity.
    + destruct (Z.eqb_spec st STATUS_MAPPED); [contradiction |].
      destruct (Z.eqb_spec st STATUS_ALLOC); [contradiction |].
      destruct (Z.eqb_spec st STATUS_FREE); [contradiction |].
      reflexivity.
Qed.

Lemma add_memory_block_places_witness :
  let s := after_malloc_1000 in
  let l := [4096000; 4097024] in
  let block := 4227072 in
  let st := get_status (memory s) block in
  let kept s' :=
    forall c, c = block \/ In c l ->
      get_size (memory s') c = get_size (memory s) c /\
      get_status (memory s') c = get_status (memory s) c in
  (st = STATUS_MAPPED ->
   exists s', add_memory_block 8 block s = Ok tt s' /\
     chain (memory s') (head s') (block :: l) /\ kept s') /\
  (st = STATUS_ALLOC \/ (st = STATUS_FREE /\ heap_preallocated s = 0) ->
   exists s', add_memory_block 8 block s = Ok tt s' /\
     chain (memory s') (head s') (l ++ [block]) /\ kept s') /\
  (st = STATUS_FREE /\ heap_preallocated s <> 0 \/
   (st <> STATUS_FREE /\ st <> STATUS_ALLOC /\ st <> STATUS_MAPPED) ->
   add_memory_block 8 block s = Fatal).
Proof.
  refine (add_memory_block_places 8 after_malloc_1000 [4096000; 4097024]
            4227072
            (proj1 (proj2 (proj2 heap_inv_after_malloc_1000)))
            (heap_inv_sep _ _ _ heap_inv_after_malloc_1000) _ _ _ _ _).
  - repeat constructor; unfold hdr_disjoint, BLOCK_META_SIZE; lia.
  - simpl. lia.
  - unfold SIZE_MAX1. lia.
  - vm_compute. reflexivity.
  - vm_compute. split; [intros X; discriminate X | reflexivity].
Defined.

(** ** [os_realloc] in place *)

Lemma split_block_payload m b size x :
  0 <= b -> b + get_size m b + 32 < SIZE_MAX1 ->
  ALIGN size <= get_size m b ->
  b + BLOCK_META_SIZE <= x < b + BLOCK_META_SIZE + ALIGN size ->
  split_block m b size x = m x.
Proof.
  intros Hb Htop HA Hx.
  pose proof (ALIGN_range size) as HAr.
  destruct (Z.lt_ge_cases (get_size m b) (ALIGN size + 32)) as [Hs | Hbig].
  - rewrite split_block_keep by (unfold SIZE_MAX1 in *; lia).
    apply set_status_framed. intros c [<- | []].
    unfold BLOCK_META_SIZE in *. lia.
  - destruct (split_block_split m b size) as (_ & _ & _ & _ & _ & _ & Hfr);
      try (unfold BLOCK_META_SIZE, SIZE_MAX1 in *; lia).
    apply Hfr. intros c [<- | [<- | []]]; unfold BLOCK_META_SIZE in *; lia.
Qed.

(** X14. [os_realloc] to a smaller size works in place.  For an
    [ALLOCATED] heap block whose payload is larger than the aligned new
    size, the call returns the pointer it was given, makes no system call,
    leaves the first [ALIGN(size)] payload bytes as they are and keeps the
    block [ALLOCATED] with at least [ALIGN(size)] and at most the old
    number of payload bytes; the invariant of the list holds again.  This
    includes the sizes that [ALIGN] wraps to 0. *)
Theorem os_realloc_shrinks_in_place fuel s lm lh ptr size :
  heap_inv s lm lh -> In (get_block_ptr ptr) lh ->
  get_status (memory s) (get_block_ptr ptr) = STATUS_ALLOC ->
  size <> 0 -> ALIGN size < get_size (memory s) (get_block_ptr ptr) ->
  exists m' lh',
    os_realloc fuel ptr size s = Ok ptr (with_memory s m') /\
    (forall i, 0 <= i < ALIGN size -> m' (ptr + i) = memory s (ptr + i)) /\
    get_status m' (get_block_ptr ptr) = STATUS_ALLOC /\
    ALIGN size <= get_size m' (get_block_ptr ptr)
               <= get_size (memory s) (get_block_ptr ptr) /\
    heap_inv (with_memory s m') lm lh'.
Proof.
  intros Hinv Hin Est Hsz Hlt.
  set (block := get_block_ptr ptr) in *.
  assert (Eptr : get_ptr_block block = ptr)
    by (subst block; unfold get_ptr_block, get_block_ptr; lia).
  set (A := ALIGN size) in *.
  assert (HAA : ALIGN A = A) by (subst A; apply ALIGN_idem).
  pose proof (ALIGN_range size) as HAr. fold A in HAr.
  pose proof (ALIGN_mod8 size) as HA8. fold A in HA8.
  destruct (heap_inv_heap_block s lm lh block Hinv Hin) as [Hb0 Hbtop].
  pose proof Hinv as (Hos & _ & _ & _ & _ & _ & Hh & _).
  destruct (Hh block Hin) as (_ & _ & Hs8).
  destruct (os_sane_bounds s Hos) as (Hbrk & _).
  assert (Hlim : brk_limit s + 24 <= 2 ^ 63)
    by (destruct Hos as (_ & _ & _ & _ & _ & _ & H1 & _ & H2 & H3);
        unfold BLOCK_META_SIZE in *; lia).
  assert (Hbl : brk s <= brk_limit s) by apply Hos.
  set (bsz := get_size (memory s) block) in *.
  destruct (heap_inv_split s lm lh block A Hinv Hin)
    as (lh' & Hinv' & _ & _).
  { rewrite HAA. fold bsz. lia. }
  { rewrite HAA. unfold BLOCK_META_SIZE in *. lia. }
  exists (split_block (memory s) block A), lh'.
  split; [| split; [| split; [| split; [| exact Hinv']]]].
  - unfold os_realloc.
    destruct (Z.eqb_spec ptr 0) as [E0 |];
      [subst block; unfold get_block_ptr, BLOCK_META_SIZE in *; lia |].
    destruct (Z.eqb_spec size 0); [contradiction |].
    fold block. fold A.
    unfold bind at 1. unfold rd at 1. rewrite Est.
    change (STATUS_ALLOC =? STATUS_FREE) with false. cbv iota.
    unfold bind at 1. unfold rd at 1. fold bsz.
    destruct (Z.eqb_spec bsz A); [lia |].
    change (STATUS_ALLOC =? STATUS_ALLOC) with true. cbv iota.
    destruct (Z.ltb_spec A bsz); [| lia].
    unfold bind at 1. unfold wr at 1. unfold ret. rewrite Eptr.
    reflexivity.
  - intros i Hi. apply split_block_payload; fold bsz; rewrite ?HAA;
      subst block; unfold get_block_ptr, BLOCK_META_SIZE, SIZE_MAX1 in *;
      lia.
  - apply split_block_status.
  - split; [rewrite <- HAA at 1; apply split_block_size; rewrite HAA;
            fold bsz; lia |].
    destruct (Z.lt_ge_cases bsz (ALIGN A + 32)) as [Hs | Hbig].
    + rewrite split_block_keep
        by (fold bsz; rewrite ?HAA;
            unfold BLOCK_META_SIZE, SIZE_MAX1 in *; lia).
      rewrite (proj1 (set_status_keeps _ block _ block (or_introl eq_refl))).
      fold bsz. lia.
    + destruct (split_block_split (memory s) block A) as (E1 & _);
        try (fold bsz; rewrite ?HAA;
             unfold BLOCK_META_SIZE, SIZE_MAX1 in *; lia).
Qed.

Lemma os_realloc_shrinks_in_place_witness :
  exists m' lh',
    os_realloc 8 4096024 100 after_malloc_1000
    = Ok 4096024 (with_memory after_malloc_1000 m') /\
    (forall i, 0 <= i < ALIGN 100 ->
               m' (4096024 + i) = memory after_malloc_1000 (4096024 + i)) /\
    get_status m' (get_block_ptr 4096024) = STATUS_ALLOC /\
    ALIGN 100 <= get_size m' (get_block_ptr 4096024)
              <= get_size (memory after_malloc_1000) (get_block_ptr 4096024) /\
    heap_inv (with_memory after_malloc_1000 m') [] lh'.
Proof.
  refine (os_realloc_shrinks_in_place 8 after_malloc_1000 []
            [4096000; 4097024] 4096024 100 heap_inv_after_malloc_1000
            _ _ _ _).
  - left. reflexivity.
  - vm_compute. reflexivity.
  - discriminate.
  - vm_compute. reflexivity.
Defined.

(** ** The layout of the heap *)

Lemma contig_adjacent m l1 a b l2 top :
  contig m (l1 ++ a :: b :: l2) top ->
  a + BLOCK_META_SIZE + get_size m a = b.
Proof. intros H. apply contig_app_r in H. apply H. Qed.

Lemma contig_last_top m l1 a top :
  contig m (l1 ++ [a]) top -> a + BLOCK_META_SIZE + get_size m a = top.
Proof. intros H. apply contig_app_r in H. apply H. Qed.

(** X15. In every state of [reachable] (the states reached through calls
    that return, the allocating calls being made while the system has
    [room] for the request, and through stores of the application into
    payloads of [ALLOCATED] blocks), the list consists of the [MAPPED]
    blocks, all above the limit of the break, followed by the heap blocks,
    each [FREE] or [ALLOCATED]; the heap blocks are in address order and
    lie back to back: the payload of each one ends where the header of the
    next one starts, and the payload of the last one ends at the program
    break. *)
Theorem reachable_heap_layout n s :
  reachable n s ->
  exists lm lh,
    chain (memory s) (head s) (lm ++ lh) /\
    (forall b, In b lm ->
       get_status (memory s) b = STATUS_MAPPED /\ brk_limit s < b) /\
    (forall b, In b lh ->
       get_status (memory s) b = STATUS_FREE \/
       get_status (memory s) b = STATUS_ALLOC) /\
    (forall l1 a b l2, lh = l1 ++ a :: b :: l2 ->
       a + BLOCK_META_SIZE + get_size (memory s) a = b) /\
    (forall l1 a, lh = l1 ++ [a] ->
       a + BLOCK_META_SIZE + get_size (memory s) a = brk s).
Proof.
  intros Hr. destruct (reachable_inv n s Hr) as (lm & lh & Hinv & _).
  exists lm, lh.
  destruct Hinv as (_ & _ & Hc & _ & Hm & Hct & Hh & _).
  split; [exact Hc |]. split; [| split; [| split]].
  - intros b Hb. destruct (Hm b Hb) as (Est & _ & Hlo & _).
    split; [exact Est | unfold BLOCK_META_SIZE in *; lia].
  - intros b Hb. apply (Hh b Hb).
  - intros l1 a b l2 ->. exact (contig_adjacent _ _ _ _ _ _ Hct).
  - intros l1 a ->. exact (contig_last_top _ _ _ _ Hct).
Qed.

Lemma reachable_heap_layout_witness :
  exists lm lh,
    chain (memory after_malloc_1000) (head after_malloc_1000) (lm ++ lh) /\
    (forall b, In b lm ->
       get_status (memory after_malloc_1000) b = STATUS_MAPPED /\
       brk_limit after_malloc_1000 < b) /\
    (forall b, In b lh ->
       get_status (memory after_malloc_1000) b = STATUS_FREE \/
       get_status (memory after_malloc_1000) b = STATUS_ALLOC) /\
    (forall l1 a b l2, lh = l1 ++ a :: b :: l2 ->
       a + BLOCK_META_SIZE + get_size (memory after_malloc_1000) a = b) /\
    (forall l1 a, lh = l1 ++ [a] ->
       a + BLOCK_META_SIZE + get_size (memory after_malloc_1000) a
       = brk after_malloc_1000).
Proof.
  apply (reachable_heap_layout (0 + 2) after_malloc_1000).
  apply (reach_malloc 0 fresh 8 1000 (value_of (os_malloc 8 1000 fresh))).
  - apply reach_init; try reflexivity.
    unfold os_sane. vm_compute.
    repeat split; try reflexivity; intros X; discriminate X.
  - lia.
  - lia.
  - unfold room. vm_compute. split; intros X; discriminate X.
  - apply ok_state_of. vm_compute. reflexivity.
Defined.

(** ** Requests served by a mapping *)

Lemma total_size_small size :
  0 <= size -> size + 31 < SIZE_MAX1 ->
  w64 (ALIGN size + ALIGN BLOCK_META_SIZE) = ALIGN size + 24.
Proof.
  intros H0 H1. pose proof (ALIGN_small size H0 ltac:(lia)) as HA.
  rewrite ALIGN_header. unfold BLOCK_META_SIZE.
  apply w64_small. unfold SIZE_MAX1 in *. lia.
Qed.

Lemma room_size_max s size :
  os_sane s -> 0 <= size -> room s size -> size + 31 < SIZE_MAX1.
Proof.
  intros Hos H0 [_ Hr]. destruct (os_sane_bounds s Hos) as (_ & Hm & _).
  destruct Hos as (Hp & _ & _ & _ & _ & _ & _ & _ & _ & H63).
  unfold SIZE_MAX1. lia.
Qed.

(** X16. A request whose aligned size with the header reaches
    [MAP_THRESHOLD] is served by one call of [mmap] for exactly
    [ALIGN(size) + 24] bytes, whatever the heap holds: the pointer returned
    is 24 bytes into the new mapping, the new block is [MAPPED], records
    [ALIGN(size)] bytes and becomes the head of the list in front of all
    earlier blocks; the break, the preallocation flag and every byte below
    the mapping stay as they were, and no loop runs (any fuel will do). *)
Theorem os_malloc_large_request fuel s lm lh size :
  heap_inv s lm lh -> 0 < size -> MAP_THRESHOLD s <= ALIGN size + 24 ->
  room s size ->
  exists s',
    os_malloc fuel size s = Ok (map_next s + 24) s' /\
    head s' = map_next s /\
    chain (memory s') (head s') (map_next s :: lm ++ lh) /\
    get_status (memory s') (map_next s) = STATUS_MAPPED /\
    get_size (memory s') (map_next s) = ALIGN size /\
    trace s' = trace s ++ [Mmap (map_next s) (ALIGN size + 24)] /\
    brk s' = brk s /\ heap_preallocated s' = heap_preallocated s /\
    (forall x, x < map_next s -> memory s' x = memory s x).
Proof.
  intros Hinv Hsz Hthr Hroom.
  pose proof Hinv as (Hos & _).
  pose proof (room_size_max s size Hos ltac:(lia) Hroom) as Hmax.
  pose proof (total_size_small size ltac:(lia) Hmax) as Etot.
  pose proof (ALIGN_small size ltac:(lia) ltac:(lia)) as HA.
  destruct (os_malloc_mmap_inv fuel s lm lh size Hinv Hsz
              ltac:(rewrite Etot; exact Hthr) Hroom)
    as (s' & E & Hinv' & Esz & Est & Etr).
  pose proof (mapped_end_le s (w64 (ALIGN size + ALIGN BLOCK_META_SIZE))
                (proj1 Hos)) as Hme.
  destruct (os_malloc_mmap fuel s size Hos ltac:(lia)
              ltac:(rewrite Etot; exact Hthr) ltac:(rewrite Etot; unfold BLOCK_META_SIZE; lia))
    as (m2 & E2 & _ & _ & _ & Hfr).
  { destruct Hroom as [_ Hr]. rewrite Etot in *. lia. }
  exists s'. rewrite E in E2. injection E2 as Es.
  split; [exact E |].
  split; [rewrite Es; reflexivity |].
  split; [exact (proj1 (proj2 (proj2 Hinv'))) |].
  split; [exact Est |]. split; [exact Esz |].
  split; [rewrite Etr, Etot; reflexivity |].
  split; [rewrite Es; reflexivity |].
  split; [rewrite Es; reflexivity |].
  rewrite Es. exact Hfr.
Qed.

Lemma os_malloc_large_request_witness :
  exists s',
    os_malloc 0 200000 after_malloc_1000
    = Ok (map_next after_malloc_1000 + 24) s' /\
    head s' = map_next after_malloc_1000 /\
    chain (memory s') (head s')
      (map_next after_malloc_1000 :: [] ++ [4096000; 4097024]) /\
    get_status (memory s') (map_next after_malloc_1000) = STATUS_MAPPED /\
    get_size (memory s') (map_next after_malloc_1000) = ALIGN 200000 /\
    trace s'
    = trace after_malloc_1000
      ++ [Mmap (map_next after_malloc_1000) (ALIGN 200000 + 24)] /\
    brk s' = brk after_malloc_1000 /\
    heap_preallocated s' = heap_preallocated after_malloc_1000 /\
    (forall x, x < map_next after_malloc_1000 ->
               memory s' x = memory after_malloc_1000 x).
Proof.
  refine (os_malloc_large_request 0 after_malloc_1000 [] [4096000; 4097024]
            200000 heap_inv_after_malloc_1000 _ _ _).
  - lia.
  - vm_compute. intros X; discriminate X.
  - unfold room. vm_compute. split; intros X; discriminate X.
Defined.

(** X17. [os_calloc] maps from the page size on.  When the reduced product
    [nmemb * size], aligned and with the header, reaches the page size,
    the request is served by one call of [mmap], also when it is far below
    the 128 KiB at which [os_malloc] starts to map: the block is [MAPPED]
    with [ALIGN] of the product as its size, the break does not move, and
    [MAP_THRESHOLD] is back at 128 KiB when the call returns. *)
Theorem os_calloc_maps_from_page_size fuel s lm lh nmemb size :
  heap_inv s lm lh -> 0 < w64 (nmemb * size) ->
  page_size s <= ALIGN (w64 (nmemb * size)) + 24 ->
  room s (w64 (nmemb * size)) ->
  exists s',
    os_calloc fuel nmemb size s = Ok (map_next s + 24) s' /\
    get_status (memory s') (map_next s) = STATUS_MAPPED /\
    get_size (memory s') (map_next s) = ALIGN (w64 (nmemb * size)) /\
    trace s'
    = trace s ++ [Mmap (map_next s) (ALIGN (w64 (nmemb * size)) + 24)] /\
    brk s' = brk s /\ MAP_THRESHOLD s' = 128 * 1024.
Proof.
  intros Hinv Hn Hpg Hroom.
  set (n := w64 (nmemb * size)) in *.
  pose proof Hinv as (Hos & _).
  destruct (os_sane_bounds s Hos) as (_ & Hmap & _).
  assert (Hp : 0 <= page_size s < 2 ^ 63)
    by (destruct Hos as (Hp & _ & Hp63 & _); lia).
  pose proof (room_size_max s n Hos ltac:(lia) Hroom) as Hmax.
  pose proof (total_size_small n ltac:(lia) Hmax) as Etot.
  pose proof (heap_inv_with_threshold s lm lh (page_size s) Hinv Hp) as Hinv0.
  destruct (os_malloc_mmap_inv fuel (with_threshold s (page_size s)) lm lh n
              Hinv0 Hn)
    as (s1 & E & _ & Esz & Est & Etr).
  { cbn [MAP_THRESHOLD with_threshold]. rewrite Etot. exact Hpg. }
  { exact Hroom. }
  pose proof (mapped_end_le s (w64 (ALIGN n + ALIGN BLOCK_META_SIZE))
                (proj1 Hos)) as Hme.
  destruct (os_malloc_mmap fuel (with_threshold s (page_size s)) n
              (proj1 Hinv0) ltac:(lia))
    as (m2 & E2 & _).
  { cbn [MAP_THRESHOLD with_threshold]. rewrite Etot. exact Hpg. }
  { rewrite Etot. pose proof (ALIGN_range n). unfold BLOCK_META_SIZE. lia. }
  { destruct Hroom as [_ Hr].
    pose proof (ALIGN_small n ltac:(lia) ltac:(lia)) as HA.
    unfold mapped_end in *. cbn [map_next map_limit page_size with_threshold].
    rewrite Etot in *. lia. }
  cbn [map_next trace with_threshold] in E, Esz, Est, Etr.
  rewrite E in E2. injection E2 as Es.
  unfold os_calloc. fold n. unfold bind at 1. unfold getpagesize at 1.
  unfold bind at 1. unfold bind at 1. rewrite E.
  unfold bind at 1.
  destruct (Z.eqb_spec (get_ptr_block (map_next s)) 0);
    [unfold get_ptr_block, BLOCK_META_SIZE in *; lia |].
  pose proof (os_malloc_mmap_granted fuel _ lm lh n _ _ Hinv0 Hn
                ltac:(cbn [MAP_THRESHOLD with_threshold]; rewrite Etot;
                      exact Hpg) Hroom E) as Hgr.
  cbn [map_next with_threshold] in Hgr.
  unfold bind at 1.
  rewrite (store_to_ok (with_threshold s1 (128 * 1024)) _ n)
    by (apply (granted_shrink s1 _ (ALIGN n));
        [pose proof (ALIGN_small n ltac:(lia) ltac:(lia)); lia | exact Hgr]).
  run. eexists. split; [reflexivity |].
  cbn [memory trace brk MAP_THRESHOLD with_threshold with_memory].
  split; [| split; [| split; [| split]]].
  - rewrite <- Est.
    unfold get_status, get_ptr_block, OFF_STATUS, BLOCK_META_SIZE.
    apply load_memset_disj. simpl Z.of_nat. lia.
  - rewrite <- Esz.
    unfold get_size, get_ptr_block, OFF_SIZE, BLOCK_META_SIZE.
    apply load_memset_disj. simpl Z.of_nat. lia.
  - rewrite Etr, Etot. reflexivity.
  - rewrite Es. reflexivity.
  - reflexivity.
Qed.

Lemma os_calloc_maps_from_page_size_witness :
  exists s',
    os_calloc 0 100 50 after_malloc_1000
    = Ok (map_next after_malloc_1000 + 24) s' /\
    get_status (memory s') (map_next after_malloc_1000) = STATUS_MAPPED /\
    get_size (memory s') (map_next after_malloc_1000)
    = ALIGN (w64 (100 * 50)) /\
    trace s'
    = trace after_malloc_1000
      ++ [Mmap (map_next after_malloc_1000) (ALIGN (w64 (100 * 50)) + 24)] /\
    brk s' = brk after_malloc_1000 /\ MAP_THRESHOLD s' = 128 * 1024.
Proof.
  refine (os_calloc_maps_from_page_size 0 after_malloc_1000 []
            [4096000; 4097024] 100 50 heap_inv_after_malloc_1000 _ _ _).
  - vm_compute. reflexivity.
  - vm_compute. intros X; discriminate X.
  - unfold room. vm_compute. split; intros X; discriminate X.
Defined.

(** ** The heap branch of [os_malloc] *)

Lemma coalesce_loop_id fuel : forall m a l,
  chain m a l -> (length l < fuel)%nat -> no_free_pair m l = true ->
  coalesce_loop fuel m a = Some m.
Proof.
  induction fuel as [| f IH]; intros m a l Hc Hf Hp; [lia |].
  cbn [coalesce_loop].
  destruct (Z.eqb_spec a 0) as [-> | Ha]; [reflexivity |].
  destruct (chain_cons_inv _ _ _ Hc Ha) as (l0 & -> & Hc0).
  destruct (Z.eqb_spec (get_next m a) 0) as [Hn | Hn]; [reflexivity |].
  destruct (chain_cons_inv _ _ _ Hc0 Hn) as (l1 & -> & Hc1).
  cbn [no_free_pair] in Hp. apply andb_true_iff in Hp.
  destruct Hp as [Hab Hp]. unfold is_free in Hab.
  apply negb_true_iff in Hab. rewrite Hab. cbv zeta.
  apply (IH m (get_next m a) (get_next m a :: l1)); trivial.
  simpl in Hf |- *. lia.
Qed.

Lemma coalesce_memory_id fuel s l :
  chain (memory s) (head s) l -> (length l < fuel)%nat ->
  no_free_pair (memory s) l = true ->
  coalesce_memory fuel s = Ok tt s.
Proof.
  intros Hc Hf Hp. unfold coalesce_memory.
  rewrite (coalesce_loop_id fuel _ _ l Hc Hf Hp).
  destruct s. reflexivity.
Qed.

(** X18. The coalesce pass changes nothing when there is nothing to merge:
    on a list in which no two neighbours are both [FREE],
    [coalesce_memory] returns with the memory and every other part of the
    state exactly as it found them. *)
Theorem coalesce_memory_nothing_to_merge fuel s l :
  chain (memory s) (head s) l -> (length l < fuel)%nat ->
  no_free_pair (memory s) l = true ->
  coalesce_memory fuel s = Ok tt s.
Proof. exact (coalesce_memory_id fuel s l). Qed.

Lemma coalesce_memory_nothing_to_merge_witness :
  coalesce_memory 8 after_malloc_1000 = Ok tt after_malloc_1000.
Proof.
  refine (coalesce_memory_nothing_to_merge 8 after_malloc_1000
            ([] ++ [4096000; 4097024]) _ _ _).
  - exact (proj1 (proj2 (proj2 heap_inv_after_malloc_1000))).
  - simpl. lia.
  - vm_compute. reflexivity.
Defined.

Lemma os_malloc_preallocated fuel size s :
  size <> 0 -> heap_preallocated s <> 0 ->
  w64 (ALIGN size + ALIGN BLOCK_META_SIZE) < MAP_THRESHOLD s ->
  os_malloc fuel size s = os_malloc_heap fuel size s.
Proof.
  intros Hsz Hpre Hthr. unfold os_malloc.
  destruct (Z.eqb_spec size 0); [contradiction |].
  unfold bind at 1.
  destruct (Z.ltb_spec (w64 (ALIGN size + ALIGN BLOCK_META_SIZE))
              (MAP_THRESHOLD s)) as [_ |]; [| lia].
  unfold bind at 1.
  destruct (Z.eqb_spec (heap_preallocated s) 0); [contradiction |].
  reflexivity.
Qed.

(** X19. With the heap preallocated, a request below [MAP_THRESHOLD] makes
    at most one system call, and which one is decided on the list that the
    coalesce pass leaves.  If a [FREE] block fits, the best fit is split in
    place and nothing else in the state changes: no system call.
    Otherwise, if the last block is [FREE], [sbrk] is called for exactly
    the bytes that block is short of [ALIGN(size)]; the call then returns
    the payload of that block, or it ends in a fault, which happens only
    when the 24-byte header stored at the old break does not end in the
    pages under the new break.  Otherwise [sbrk] is called for
    [ALIGN(size) + 24] bytes and the new block starts at the old break. *)
Theorem os_malloc_small_request fuel s lm lh size :
  heap_inv s lm lh -> heap_preallocated s <> 0 ->
  (length (lm ++ lh) < fuel)%nat -> 0 < size ->
  ALIGN size + 24 < MAP_THRESHOLD s ->
  brk s + size + 31 <= brk_limit s ->
  exists m3 l3,
    coalesce_memory fuel s = Ok tt (with_memory s m3) /\
    chain m3 (head s) l3 /\
    let best := best_of m3 (ALIGN size) l3 0 in
    let t := last l3 0 in
    (os_malloc fuel size s = Fault /\ best = 0 /\
     get_status m3 t = STATUS_FREE /\
     page_up s (brk s + (ALIGN size - get_size m3 t))
     < brk s + BLOCK_META_SIZE) \/
    exists p s',
      os_malloc fuel size s = Ok p s' /\
      (best <> 0 ->
       p = best + 24 /\ s' = with_memory s (split_block m3 best size)) /\
      (best = 0 -> get_status m3 t = STATUS_FREE ->
       p = t + 24 /\
       brk s' = brk s + (ALIGN size - get_size m3 t) /\
       trace s' = trace s ++ [Sbrk (ALIGN size - get_size m3 t)] /\
       get_size (memory s') t = ALIGN size) /\
      (best = 0 -> get_status m3 t <> STATUS_FREE ->
       p = brk s + 24 /\
       brk s' = brk s + (ALIGN size + 24) /\
       trace s' = trace s ++ [Sbrk (ALIGN size + 24)] /\
       get_size (memory s') (brk s) = ALIGN size).
Proof.
  intros Hinv Hpre Hf Hsz Hthr Hroom.
  pose proof Hinv as (Hos & _).
  assert (Hmax : size + 31 < SIZE_MAX1).
  { destruct (os_sane_bounds s Hos) as (Hbrk & _).
    destruct Hos as (_ & _ & _ & _ & _ & _ & H1 & _ & H2 & H3).
    unfold SIZE_MAX1, BLOCK_META_SIZE in *. lia. }
  pose proof (total_size_small size ltac:(lia) Hmax) as Etot.
  destruct (coalesce_memory_inv fuel s lm lh Hinv Hf)
    as (m3 & lh3 & Eco & Hinv3 & _ & Hlen3).
  pose proof Hinv3 as (_ & _ & Hc3 & _ & _ & _ & _ & Hne3 & _).
  cbn [memory head heap_preallocated with_memory] in Hc3, Hne3.
  specialize (Hne3 Hpre).
  assert (Eheap : os_malloc fuel size s = os_malloc_heap fuel size s).
  { rewrite os_malloc_preallocated; trivial; [lia |].
    rewrite Etot. exact Hthr. }
  exists m3, (lm ++ lh3).
  split; [exact Eco |]. split; [exact Hc3 |].
  cbv zeta. rewrite (last_app_r lm lh3 0 Hne3). rewrite Eheap.
  destruct (os_malloc_heap_after fuel s lm lh size m3 lh3 Hinv Hpre Hf Hsz
              ltac:(rewrite Etot; exact Hthr) Hroom Eco Hinv3 Hlen3)
    as [(EF & E0 & Hfr & Hno & _)
       | (b & s' & lh' & E & _ & _ & _ & _ & _ & Hbest & Htail & Hnew)].
  { left. split; [exact EF |]. split; [exact E0 |].
    split; [exact Hfr | exact Hno]. }
  right. exists (get_ptr_block b), s'.
  split; [exact E |].
  split; [| split].
  - intros X. destruct (Hbest X) as (-> & -> & _). split; reflexivity.
  - intros X Y. destruct (Htail X Y) as (-> & _ & Eb & Et & Es & _).
    repeat split; assumption.
  - intros X Y. destruct (Hnew X Y) as (-> & _ & Eb & Et & Es & _).
    repeat split; assumption.
Qed.

Lemma os_malloc_small_request_witness :
  exists m3 l3,
    coalesce_memory 8 after_malloc_1000
    = Ok tt (with_memory after_malloc_1000 m3) /\
    chain m3 (head after_malloc_1000) l3 /\
    let best := best_of m3 (ALIGN 130040) l3 0 in
    let t := last l3 0 in
    (os_malloc 8 130040 after_malloc_1000 = Fault /\ best = 0 /\
     get_status m3 t = STATUS_FREE /\
     page_up after_malloc_1000
       (brk after_malloc_1000 + (ALIGN 130040 - get_size m3 t))
     < brk after_malloc_1000 + BLOCK_META_SIZE) \/
    exists p s',
      os_malloc 8 130040 after_malloc_1000 = Ok p s' /\
      (best <> 0 ->
       p = best + 24 /\
       s' = with_memory after_malloc_1000 (split_block m3 best 130040)) /\
      (best = 0 -> get_status m3 t = STATUS_FREE ->
       p = t + 24 /\
       brk s' = brk after_malloc_1000 + (ALIGN 130040 - get_size m3 t) /\
       trace s'
       = trace after_malloc_1000 ++ [Sbrk (ALIGN 130040 - get_size m3 t)] /\
       get_size (memory s') t = ALIGN 130040) /\
      (best = 0 -> get_status m3 t <> STATUS_FREE ->
       p = brk after_malloc_1000 + 24 /\
       brk s' = brk after_malloc_1000 + (ALIGN 130040 + 24) /\
       trace s' = trace after_malloc_1000 ++ [Sbrk (ALIGN 130040 + 24)] /\
       get_size (memory s') (brk after_malloc_1000) = ALIGN 130040).
Proof.
  refine (os_malloc_small_request 8 after_malloc_1000 [] [4096000; 4097024]
            130040 heap_inv_after_malloc_1000 _ _ _ _ _).
  - vm_compute. intros X; discriminate X.
  - simpl. lia.
  - lia.
  - vm_compute. reflexivity.
  - vm_compute. intros X; discriminate X.
Defined.

Lemma with_memory_same s : with_memory s (memory s) = s.
Proof. destruct s. reflexivity. Qed.

Lemma no_free_pair_prefix m l x :
  (forall c, In c l -> get_status m c <> STATUS_FREE) ->
  no_free_pair m (l ++ [x]) = true.
Proof.
  induction l as [| a l IH]; intros H; [reflexivity |].
  change ((a :: l) ++ [x]) with (a :: (l ++ [x])).
  cbn [no_free_pair]. rewrite IH by (intros c Hc; apply H; now right).
  assert (Ea : is_free m a = false)
    by (apply Z.eqb_neq, H; now left).
  rewrite Ea. destruct (l ++ [x]); reflexivity.
Qed.

Lemma best_of_skip m size l1 : forall l2 best,
  (forall c, In c l1 -> get_status m c <> STATUS_FREE) ->
  best_of m size (l1 ++ l2) best = best_of m size l2 best.
Proof.
  induction l1 as [| a l1 IH]; intros l2 best H; [reflexivity |].
  change ((a :: l1) ++ l2) with (a :: (l1 ++ l2)). cbn [best_of].
  replace (get_status m a =? STATUS_FREE) with false
    by (symmetry; apply Z.eqb_neq, H; now left).
  cbn [andb]. apply IH. intros c Hc. apply H. now right.
Qed.

(** X20. The first request below [MAP_THRESHOLD] preallocates the heap
    with a single [sbrk] of 128 KiB, whatever its size, and is served from
    the start of that region: the pointer returned is 24 bytes above the
    old break, its block is [ALLOCATED] with at least [ALIGN(size)] bytes,
    the break has moved by exactly 128 KiB and the preallocation flag is
    set. *)
Theorem os_malloc_first_small_request fuel s lm size :
  heap_inv s lm [] -> heap_preallocated s = 0 ->
  (length lm + 1 < fuel)%nat -> 0 < size ->
  ALIGN size + 24 < MAP_THRESHOLD s ->
  ALIGN size <= PREALLOC_SIZE - BLOCK_META_SIZE -> room s size ->
  exists s',
    os_malloc fuel size s = Ok (brk s + 24) s' /\
    trace s' = trace s ++ [Sbrk PREALLOC_SIZE] /\
    brk s' = brk s + PREALLOC_SIZE /\ heap_preallocated s' = 1 /\
    get_status (memory s') (brk s) = STATUS_ALLOC /\
    ALIGN size <= get_size (memory s') (brk s).
Proof.
  intros Hinv Hpre Hf Hsz Hthr Hfit [Hroom Hmroom].
  pose proof Hinv as (Hos & _ & _ & _ & Hm & _).
  destruct (os_sane_bounds s Hos) as (Hbrk & _).
  assert (Hmax : size + 31 < SIZE_MAX1).
  { destruct Hos as (_ & _ & _ & _ & _ & _ & H1 & _ & H2 & H3).
    unfold SIZE_MAX1, PREALLOC_SIZE, BLOCK_META_SIZE in *. lia. }
  pose proof (total_size_small size ltac:(lia) Hmax) as Etot.
  destruct (prealloc_inv fuel s lm [] Hinv Hpre)
    as (s2 & E2 & Hinv2 & Ep & Eb & Ebl & Ethr & _ & _ & _ & Etr & Esz2
        & Est2 & Hk2 & _);
    [unfold PREALLOC_SIZE in *; lia | rewrite app_nil_r; lia |].
  cbn [app] in Hinv2. rewrite app_nil_r in Hk2.
  assert (Hmap2 : forall c, In c lm ->
                    get_status (memory s2) c <> STATUS_FREE).
  { intros c Hc. destruct (Hk2 c Hc) as [_ ->].
    destruct (Hm c Hc) as (-> & _). discriminate. }
  assert (Hf2 : (length (lm ++ [brk s]) < fuel)%nat)
    by (rewrite length_app; simpl; lia).
  pose proof Hinv2 as (_ & _ & Hc2 & _).
  pose proof (coalesce_memory_id fuel s2 (lm ++ [brk s])
                Hc2 Hf2 (no_free_pair_prefix _ lm (brk s) Hmap2)) as Eco.
  rewrite <- (with_memory_same s2) in Eco at 2.
  pose proof Hinv2 as Hinv3. rewrite <- (with_memory_same s2) in Hinv3.
  assert (Ebest : best_of (memory s2) (ALIGN size) (lm ++ [brk s]) 0
                  = brk s).
  { rewrite best_of_skip by exact Hmap2.
    cbn [best_of]. rewrite Est2, Esz2.
    change (STATUS_FREE =? STATUS_FREE) with true.
    replace (ALIGN size <=? PREALLOC_SIZE - BLOCK_META_SIZE) with true
      by (symmetry; apply Z.leb_le; exact Hfit).
    cbn [andb]. change (0 =? 0) with true. cbv iota. reflexivity. }
  destruct (os_malloc_heap_after fuel s2 lm [brk s] size (memory s2) [brk s]
              Hinv2 ltac:(rewrite Ep; discriminate) Hf2 Hsz
              ltac:(rewrite Ethr, Etot; exact Hthr)
              ltac:(rewrite Eb, Ebl; lia) Eco Hinv3 ltac:(lia))
    as [(_ & E0 & _)
       | (b & s' & lh' & E & _ & _ & Hs' & Hst' & _ & Hbest & _)].
  { cbv zeta in E0. rewrite Ebest in E0. lia. }
  cbv zeta in Hbest. rewrite Ebest in Hbest.
  destruct (Hbest ltac:(lia)) as (Ebk & Es' & _).
  subst b.
  exists s'. split.
  { unfold os_malloc.
    destruct (Z.eqb_spec size 0); [lia |].
    unfold bind at 1.
    destruct (Z.ltb_spec (w64 (ALIGN size + ALIGN BLOCK_META_SIZE))
                (MAP_THRESHOLD s)) as [_ |]; [| lia].
    unfold bind at 1.
    destruct (Z.eqb_spec (heap_preallocated s) 0) as [_ |]; [| contradiction].
    rewrite (bind_ok _ _ _ _ _ E2). exact E. }
  split; [rewrite Es'; cbn [trace with_memory]; exact Etr |].
  split; [rewrite Es'; cbn [brk with_memory]; exact Eb |].
  split; [rewrite Es'; cbn [heap_preallocated with_memory]; exact Ep |].
  split; [exact Hst' | exact Hs'].
Qed.

Lemma os_malloc_first_small_request_witness :
  exists s',
    os_malloc 8 1000 fresh = Ok (brk fresh + 24) s' /\
    trace s' = trace fresh ++ [Sbrk PREALLOC_SIZE] /\
    brk s' = brk fresh + PREALLOC_SIZE /\ heap_preallocated s' = 1 /\
    get_status (memory s') (brk fresh) = STATUS_ALLOC /\
    ALIGN 1000 <= get_size (memory s') (brk fresh).
Proof.
  refine (os_malloc_first_small_request 8 fresh [] 1000 heap_inv_fresh
            _ _ _ _ _ _).
  - reflexivity.
  - simpl. lia.
  - lia.
  - vm_compute. reflexivity.
  - vm_compute. intros X; discriminate X.
  - unfold room. vm_compute. split; intros X; discriminate X.
Defined.

Lemma header_writes_framed m b v1 v2 v3 :
  framed m (set_status (set_next (set_size m b v1) b v2) b v3) [b].
Proof.
  apply (framed_trans _ (set_size m b v1));
    [apply store_framed; unfold OFF_SIZE, BLOCK_META_SIZE; lia |].
  apply (framed_trans _ (set_next (set_size m b v1) b v2));
    [apply store_framed; unfold OFF_NEXT, BLOCK_META_SIZE; lia |].
  apply set_status_framed.
Qed.

(** X21. [os_realloc] to a larger size grows the block in place over a
    [FREE] successor.  On a list in which no two neighbours are both
    [FREE], for an [ALLOCATED] heap block that is followed by a [FREE]
    block and, together with it and its header, reaches the aligned new
    size, the call returns the pointer it was given, makes no system call,
    leaves every byte of the old payload as it is and keeps the block
    [ALLOCATED] with at least [ALIGN(size)] bytes; the invariant of the
    list holds again. *)
Theorem os_realloc_grows_in_place fuel s lm l1 nx l2 ptr size :
  heap_inv s lm (l1 ++ get_block_ptr ptr :: nx :: l2) ->
  (length (lm ++ l1 ++ get_block_ptr ptr :: nx :: l2) < fuel)%nat ->
  no_free_pair (memory s) (lm ++ l1 ++ get_block_ptr ptr :: nx :: l2)
  = true ->
  get_status (memory s) (get_block_ptr ptr) = STATUS_ALLOC ->
  get_status (memory s) nx = STATUS_FREE ->
  size <> 0 ->
  get_size (memory s) (get_block_ptr ptr) < ALIGN size ->
  ALIGN size <= get_size (memory s) (get_block_ptr ptr) + BLOCK_META_SIZE
                + get_size (memory s) nx ->
  exists m' lh',
    os_realloc fuel ptr size s = Ok ptr (with_memory s m') /\
    (forall i, 0 <= i < get_size (memory s) (get_block_ptr ptr) ->
               m' (ptr + i) = memory s (ptr + i)) /\
    get_status m' (get_block_ptr ptr) = STATUS_ALLOC /\
    ALIGN size <= get_size m' (get_block_ptr ptr) /\
    heap_inv (with_memory s m') lm lh'.
Proof.
  intros Hinv Hf Hp Est Hnst Hsz Hlt Hfit.
  set (block := get_block_ptr ptr) in *.
  assert (Eptr : get_ptr_block block = ptr)
    by (subst block; unfold get_ptr_block, get_block_ptr; lia).
  set (A := ALIGN size) in *.
  assert (HAA : ALIGN A = A) by (subst A; apply ALIGN_idem).
  pose proof (ALIGN_range size) as HAr. fold A in HAr.
  assert (Hin : In block (l1 ++ block :: nx :: l2)) by apply in_elt.
  assert (Hnx : In nx (l1 ++ block :: nx :: l2))
    by (apply in_or_app; right; right; now left).
  destruct (heap_inv_heap_block s lm _ block Hinv Hin) as [Hb0 Hbtop].
  destruct (heap_inv_heap_block s lm _ nx Hinv Hnx) as [Hn0 Hntop].
  pose proof Hinv as (Hos & _ & Hc & _ & _ & Hct & _).
  destruct (os_sane_bounds s Hos) as (Hbrk & _).
  assert (Hlim : brk_limit s + 24 <= 2 ^ 63)
    by (destruct Hos as (_ & _ & _ & _ & _ & _ & H1 & _ & H2 & H3);
        unfold BLOCK_META_SIZE in *; lia).
  assert (Hbl : brk s <= brk_limit s) by apply Hos.
  assert (Hbn : block + BLOCK_META_SIZE + get_size (memory s) block = nx).
  { pose proof (contig_app_r _ l1 _ _ Hct) as Hcb.
    destruct Hcb as (_ & Hbn & _). exact Hbn. }
  pose proof (get_size_range (memory s) block) as Hrb.
  pose proof (get_size_range (memory s) nx) as Hrn.
  destruct (heap_inv_absorb s lm l1 block nx l2 Hinv) as (Enx & Hinv4 & Es4).
  match type of Hinv4 with heap_inv (with_memory _ ?mm) _ _ =>
    set (m4 := mm) in * end.
  set (bsz := get_size (memory s) block) in *.
  set (nsz := get_size (memory s) nx) in *.
  destruct (heap_inv_split (with_memory s m4) lm (l1 ++ block :: l2) block A
              Hinv4 (in_elt _ _ _))
    as (lh' & Hinv' & _ & _).
  { rewrite HAA. cbn [memory with_memory]. rewrite Es4. lia. }
  { rewrite HAA. unfold BLOCK_META_SIZE in *. lia. }
  cbn [memory with_memory] in Hinv'.
  exists (split_block m4 block A), lh'.
  split; [| split; [| split; [| split]]].
  - unfold os_realloc.
    destruct (Z.eqb_spec ptr 0) as [E0 |];
      [subst block; unfold get_block_ptr, BLOCK_META_SIZE in *; lia |].
    destruct (Z.eqb_spec size 0); [contradiction |].
    fold block. fold A.
    unfold bind at 1. unfold rd at 1. rewrite Est.
    change (STATUS_ALLOC =? STATUS_FREE) with false. cbv iota.
    unfold bind at 1. unfold rd at 1. fold bsz.
    destruct (Z.eqb_spec bsz A); [lia |].
    change (STATUS_ALLOC =? STATUS_ALLOC) with true. cbv iota.
    destruct (Z.ltb_spec A bsz); [lia |].
    unfold bind at 1.
    rewrite (coalesce_memory_id fuel s _ Hc Hf Hp).
    unfold bind at 1. unfold get_mem at 1.
    rewrite Enx. fold nsz. fold bsz.
    destruct (Z.eqb_spec nx 0); [lia |].
    rewrite Hnst. change (STATUS_FREE =? STATUS_FREE) with true.
    cbn [negb andb].
    destruct (Z.leb_spec A (w64 (w64 (bsz + nsz) + ALIGN BLOCK_META_SIZE)))
      as [_ | Hbad].
    2:{ exfalso. rewrite ALIGN_header in Hbad. unfold BLOCK_META_SIZE in *.
        rewrite (w64_small (bsz + nsz)) in Hbad by (unfold SIZE_MAX1; lia).
        rewrite w64_small in Hbad by (unfold SIZE_MAX1; lia). lia. }
    unfold bind at 1. unfold wr at 1.
    unfold bind at 1. unfold wr at 1.
    unfold bind at 1. unfold wr at 1.
    unfold bind at 1. unfold wr at 1.
    unfold ret. rewrite Eptr. reflexivity.
  - intros i Hi.
    rewrite split_block_payload.
    + apply (header_writes_framed (memory s) block). intros c [<- | []].
      subst block. unfold get_block_ptr, BLOCK_META_SIZE in *. lia.
    + lia.
    + rewrite Es4. unfold BLOCK_META_SIZE, SIZE_MAX1 in *. lia.
    + rewrite HAA, Es4. lia.
    + rewrite HAA. subst block.
      unfold get_block_ptr, BLOCK_META_SIZE in *. lia.
  - apply split_block_status.
  - rewrite <- HAA at 1. apply split_block_size. rewrite HAA, Es4. lia.
  - exact Hinv'.
Qed.

Lemma os_realloc_grows_in_place_witness :
  exists m' lh',
    os_realloc 8 4096024 2000 after_malloc_1000
    = Ok 4096024 (with_memory after_malloc_1000 m') /\
    (forall i,
       0 <= i < get_size (memory after_malloc_1000) (get_block_ptr 4096024) ->
       m' (4096024 + i) = memory after_malloc_1000 (4096024 + i)) /\
    get_status m' (get_block_ptr 4096024) = STATUS_ALLOC /\
    ALIGN 2000 <= get_size m' (get_block_ptr 4096024) /\
    heap_inv (with_memory after_malloc_1000 m') [] lh'.
Proof.
  refine (os_realloc_grows_in_place 8 after_malloc_1000 [] [] 4097024 []
            4096024 2000 heap_inv_after_malloc_1000 _ _ _ _ _ _ _).
  - simpl. lia.
  - vm_compute. reflexivity.
  - vm_compute. reflexivity.
  - vm_compute. reflexivity.
  - discriminate.
  - vm_compute. reflexivity.
  - vm_compute. intros X; discriminate X.
Defined.

(** ** Allocated payloads are safe from [os_malloc] *)

Lemma contig_disjoint m l top a b :
  contig m l top -> In a l -> In b l -> a <> b ->
  a + BLOCK_META_SIZE + get_size m a <= b \/
  b + BLOCK_META_SIZE + get_size m b <= a.
Proof.
  intros Hc Ha Hb Hne.
  destruct (in_split a l Ha) as (l1 & l2 & ->).
  apply in_app_or in Hb. destruct Hb as [Hb | [Hb | Hb]].
  - right. exact (contig_before m l1 a l2 top b Hc Hb).
  - contradiction.
  - left. apply contig_app_r in Hc. exact (contig_after m l2 top a b Hc Hb).
Qed.

Lemma contig_last_after m l top a :
  contig m l top -> In a l -> a <> last l 0 ->
  a + BLOCK_META_SIZE + get_size m a <= last l 0.
Proof.
  intros Hc Ha Hne.
  assert (Hnil : l <> []) by (intros ->; destruct Ha).
  pose proof (app_removelast_last 0 Hnil) as El.
  rewrite El in Hc, Ha. apply in_app_or in Ha.
  destruct Ha as [Ha | [Ha | []]]; [| congruence].
  exact (contig_before m (removelast l) (last l 0) [] top a Hc Ha).
Qed.

Lemma payload_outside s lm lh a x :
  heap_inv s lm lh -> In a lh ->
  a + BLOCK_META_SIZE <= x < a + BLOCK_META_SIZE + get_size (memory s) a ->
  outside (lm ++ lh) x /\ x < brk s.
Proof.
  intros Hinv Ha Hx.
  destruct (heap_inv_heap_block s lm lh a Hinv Ha) as [_ Htop].
  split; [| lia]. intros c Hc.
  destruct (heap_inv_payload_clear s lm lh a Hinv Ha c Hc) as [Hle | Hge];
    [| lia].
  destruct (sep_in_in _ c a (heap_inv_sep s lm lh Hinv) Hc
              (in_or_app _ _ _ (or_intror Ha))) as [-> | Hd];
    [lia | unfold hdr_disjoint in Hd; lia].
Qed.

Lemma split_block_outside m b size x :
  0 <= b -> b + get_size m b + 32 < SIZE_MAX1 ->
  ALIGN size <= get_size m b ->
  x < b \/ b + BLOCK_META_SIZE + get_size m b <= x ->
  split_block m b size x = m x.
Proof.
  intros Hb Htop HA Hx.
  pose proof (ALIGN_range size) as HAr.
  pose proof (get_size_range m b) as Hr.
  destruct (Z.lt_ge_cases (get_size m b) (ALIGN size + 32)) as [Hs | Hbig].
  - rewrite split_block_keep by (unfold SIZE_MAX1 in *; lia).
    apply set_status_framed. intros c [<- | []].
    unfold BLOCK_META_SIZE in *. lia.
  - destruct (split_block_split m b size) as (_ & _ & _ & _ & _ & _ & Hfr);
      try (unfold BLOCK_META_SIZE, SIZE_MAX1 in *; lia).
    apply Hfr. intros c [<- | [<- | []]]; unfold BLOCK_META_SIZE in *; lia.
Qed.

Lemma os_malloc_heap_spares fuel s lm lh size a :
  heap_inv s lm lh -> heap_preallocated s <> 0 ->
  (length (lm ++ lh) < fuel)%nat -> 0 < size ->
  w64 (ALIGN size + ALIGN BLOCK_META_SIZE) < MAP_THRESHOLD s ->
  brk s + size + 31 <= brk_limit s ->
  In a lh -> get_status (memory s) a = STATUS_ALLOC ->
  os_malloc_heap fuel size s = Fault \/
  exists b s',
    os_malloc_heap fuel size s = Ok (get_ptr_block b) s' /\
    get_status (memory s') a = STATUS_ALLOC /\
    get_size (memory s') a = get_size (memory s) a /\
    (forall x, a + BLOCK_META_SIZE <= x
               < a + BLOCK_META_SIZE + get_size (memory s) a ->
               memory s' x = memory s x) /\
    (get_ptr_block b + ALIGN size <= a \/
     a + BLOCK_META_SIZE + get_size (memory s) a <= get_ptr_block b).
Proof.
  intros Hinv Hpre Hf Hsz Hthr Hroom Ha Hst.
  pose proof (heap_inv_sep s lm lh Hinv) as Hsep.
  pose proof Hinv as (Hos & _ & Hc & _).
  destruct (os_sane_bounds s Hos) as (Hbrk & _).
  destruct (coalesce_memory_inv fuel s lm lh Hinv Hf)
    as (m3 & lh3 & Eco & Hinv3 & _ & Hlen3).
  destruct (coalesce_memory_keeps fuel s lm lh m3 lh3 a Hinv Hf Eco Hinv3 Ha
              ltac:(rewrite Hst; discriminate)) as (Ha3 & Es3 & Et3 & _).
  destruct (coalesce_memory_chain fuel s (lm ++ lh) Hc Hsep Hf)
    as (m' & l' & Eco' & _ & _ & _ & _ & Hfr3 & _).
  rewrite Eco in Eco'. unfold with_memory in Eco'. injection Eco' as Em.
  subst m'.
  destruct (os_malloc_heap_after fuel s lm lh size m3 lh3 Hinv Hpre Hf Hsz
              Hthr Hroom Eco Hinv3 Hlen3)
    as [(EF & _)
       | (b & s' & lh' & E & _ & _ & _ & _ & _ & Hbest & Htail & Hnew)];
    [left; exact EF | right].
  cbv zeta in Hbest, Htail, Hnew.
  pose proof Hinv3 as (_ & _ & _ & _ & _ & Hct3 & _).
  cbn [memory brk with_memory] in Hct3.
  destruct (heap_inv_heap_block _ lm lh3 a Hinv3 Ha3) as [Ha0 Hatop].
  cbn [memory brk with_memory] in Hatop. rewrite Es3 in Hatop.
  pose proof (get_size_range (memory s) a) as Hra.
  assert (Hpay3 : forall x,
            a + BLOCK_META_SIZE <= x
            < a + BLOCK_META_SIZE + get_size (memory s) a ->
            m3 x = memory s x).
  { intros x Hx. apply Hfr3. exact (proj1 (payload_outside s lm lh a x Hinv Ha Hx)). }
  rewrite Hst in Et3.
  exists b, s'. split; [exact E |].
  destruct (Z.eq_dec (best_of m3 (ALIGN size) (lm ++ lh3) 0) 0) as [E0 | Hn0].
  - destruct (Z.eq_dec (get_status m3 (last lh3 0)) STATUS_FREE)
      as [Hfr | Hnf].
    + destruct (Htail E0 Hfr) as (-> & _ & _ & _ & _ & Hfrm).
      set (t := last lh3 0) in *.
      assert (Hne : a <> t) by (intros ->; rewrite Hfr in Et3; discriminate).
      pose proof (contig_last_after m3 lh3 (brk s) a Hct3 Ha3 Hne) as Hlt.
      fold t in Hlt. rewrite Es3 in Hlt.
      destruct (framed_fields m3 (memory s') [t; brk s] a Hfrm)
        as (_ & Esz & Est).
      { constructor; [unfold hdr_disjoint, BLOCK_META_SIZE in *; lia |].
        constructor; [| constructor].
        exact (heap_inv_break_disjoint _ lm lh3 a Hinv3
                 (in_or_app _ _ _ (or_intror Ha3))). }
      split; [rewrite Est; exact Et3 |].
      split; [rewrite Esz; exact Es3 |].
      split.
      * intros x Hx. rewrite <- (Hpay3 x Hx). apply Hfrm.
        intros c [<- | [<- | []]]; left; lia.
      * right. unfold get_ptr_block, BLOCK_META_SIZE in *. lia.
    + destruct (Hnew E0 Hnf) as (-> & _ & _ & _ & _ & Hfx & Hk).
      destruct (Hk a (in_or_app _ _ _ (or_intror Ha3))) as [Esz Est].
      split; [rewrite Est; exact Et3 |].
      split; [rewrite Esz; exact Es3 |].
      split.
      * intros x Hx. rewrite <- (Hpay3 x Hx). apply Hfx; [| lia].
        apply (payload_outside (with_memory s m3) lm lh3 a x Hinv3 Ha3).
        cbn [memory with_memory]. rewrite Es3. exact Hx.
      * right. unfold get_ptr_block, BLOCK_META_SIZE in *. lia.
  - destruct (Hbest Hn0) as (-> & -> & Hbin & [Hbf Hbs]).
    set (best := best_of m3 (ALIGN size) (lm ++ lh3) 0) in *.
    assert (Hne : a <> best)
      by (intros ->; rewrite Hbf in Et3; discriminate).
    destruct (heap_inv_heap_block _ lm lh3 best Hinv3 Hbin) as [Hb0 Hbtop].
    cbn [memory brk with_memory] in Hbtop.
    pose proof (get_size_range m3 best) as Hrb.
    destruct (contig_disjoint m3 lh3 (brk s) a best Hct3 Ha3 Hbin Hne)
      as [Hd | Hd]; rewrite ?Es3 in Hd.
    + assert (Hout : forall x,
                a <= x < a + BLOCK_META_SIZE + get_size (memory s) a ->
                split_block m3 best size x = m3 x).
      { intros x Hx. apply split_block_outside; trivial;
          unfold BLOCK_META_SIZE, SIZE_MAX1 in *; lia. }
      cbn [memory with_memory].
      split; [| split; [| split]].
      * rewrite <- Et3. unfold get_status. apply load_ext. intros x Hx.
        apply Hout. unfold OFF_STATUS, BLOCK_META_SIZE in *.
        simpl Z.of_nat in Hx. lia.
      * rewrite <- Es3. unfold get_size. apply load_ext. intros x Hx.
        apply Hout. unfold OFF_SIZE, BLOCK_META_SIZE in *.
        simpl Z.of_nat in Hx. lia.
      * intros x Hx. rewrite <- (Hpay3 x Hx). apply Hout.
        unfold BLOCK_META_SIZE in *. lia.
      * right. unfold get_ptr_block, BLOCK_META_SIZE in *. lia.
    + assert (Hout : forall x,
                a <= x < a + BLOCK_META_SIZE + get_size (memory s) a ->
                split_block m3 best size x = m3 x).
      { intros x Hx. apply split_block_outside; trivial;
          unfold BLOCK_META_SIZE, SIZE_MAX1 in *; lia. }
      cbn [memory with_memory].
      split; [| split; [| split]].
      * rewrite <- Et3. unfold get_status. apply load_ext. intros x Hx.
        apply Hout. unfold OFF_STATUS, BLOCK_META_SIZE in *.
        simpl Z.of_nat in Hx. lia.
      * rewrite <- Es3. unfold get_size. apply load_ext. intros x Hx.
        apply Hout. unfold OFF_SIZE, BLOCK_META_SIZE in *.
        simpl Z.of_nat in Hx. lia.
      * intros x Hx. rewrite <- (Hpay3 x Hx). apply Hout.
        unfold BLOCK_META_SIZE in *. lia.
      * left. unfold get_ptr_block, BLOCK_META_SIZE in *. lia.
Qed.

Lemma os_malloc_spares fuel s lm lh size a :
  heap_inv s lm lh -> (length (lm ++ lh) + 1 < fuel)%nat -> 0 < size ->
  room s size -> In a lh -> get_status (memory s) a = STATUS_ALLOC ->
  os_malloc fuel size s = Fault \/
  exists p s',
    os_malloc fuel size s = Ok p s' /\
    get_status (memory s') a = STATUS_ALLOC /\
    get_size (memory s') a = get_size (memory s) a /\
    (forall x, a + BLOCK_META_SIZE <= x
               < a + BLOCK_META_SIZE + get_size (memory s) a ->
               memory s' x = memory s x) /\
    (p + ALIGN size <= a \/
     a + BLOCK_META_SIZE + get_size (memory s) a <= p).
Proof.
  intros Hinv Hf Hsz Hroom Ha Hst.
  pose proof Hinv as (Hos & _).
  destruct (os_sane_bounds s Hos) as (Hbrk & Hmap & _).
  pose proof (room_size_max s size Hos ltac:(lia) Hroom) as Hmax.
  pose proof (total_size_small size ltac:(lia) Hmax) as Etot.
  pose proof (ALIGN_small size ltac:(lia) ltac:(lia)) as HA.
  destruct (heap_inv_heap_block s lm lh a Hinv Ha) as [Ha0 Hatop].
  pose proof (get_size_range (memory s) a) as Hra.
  assert (Hbl : brk s <= brk_limit s) by apply Hos.
  assert (Hlm : brk_limit s + BLOCK_META_SIZE <= map_next s) by apply Hos.
  destruct (Z.lt_ge_cases (w64 (ALIGN size + ALIGN BLOCK_META_SIZE))
              (MAP_THRESHOLD s)) as [Hlt | Hge].
  - destruct (Z.eq_dec (heap_preallocated s) 0) as [Hpre | Hpre].
    + destruct Hroom as [Hroom Hmroom].
      destruct (prealloc_inv fuel s lm lh Hinv Hpre)
        as (s2 & E2 & Hinv2 & Ep & Eb & Ebl & Ethr & _ & _ & _ & _ & _ & _
            & Hk2 & Hfr2);
        [unfold PREALLOC_SIZE in *; lia | lia |].
      destruct (Hk2 a (in_or_app _ _ _ (or_intror Ha))) as [Es2 Et2].
      assert (Eq : os_malloc fuel size s = os_malloc_heap fuel size s2).
      { unfold os_malloc.
        destruct (Z.eqb_spec size 0); [lia |].
        unfold bind at 1.
        destruct (Z.ltb_spec (w64 (ALIGN size + ALIGN BLOCK_META_SIZE))
                    (MAP_THRESHOLD s)) as [_ |]; [| lia].
        unfold bind at 1.
        destruct (Z.eqb_spec (heap_preallocated s) 0) as [_ |];
          [| contradiction].
        rewrite (bind_ok _ _ _ _ _ E2). reflexivity. }
      rewrite Eq.
      destruct (os_malloc_heap_spares fuel s2 lm (lh ++ [brk s]) size a Hinv2)
        as [EF | (b & s' & E & Est & Esz & Hpay & Hdis)].
      { rewrite Ep. discriminate. }
      { rewrite !length_app in *. simpl. lia. }
      { exact Hsz. }
      { rewrite Ethr. exact Hlt. }
      { rewrite Eb, Ebl. unfold PREALLOC_SIZE in *. lia. }
      { apply in_or_app. now left. }
      { rewrite Et2. exact Hst. }
      { left. exact EF. }
      right.
      rewrite Es2 in Esz, Hpay, Hdis.
      exists (get_ptr_block b), s'. split; [exact E |].
      split; [exact Est |]. split; [exact Esz |].
      split; [| exact Hdis].
      intros x Hx. rewrite (Hpay x Hx).
      destruct (payload_outside s lm lh a x Hinv Ha Hx) as [Ho Hb].
      exact (Hfr2 x Ho Hb).
    + destruct Hroom as [Hroom Hmroom].
      rewrite os_malloc_preallocated; trivial; [| lia].
      destruct (os_malloc_heap_spares fuel s lm lh size a Hinv Hpre)
        as [EF | (b & s' & E & Hrest)]; trivial;
        [lia | unfold PREALLOC_SIZE in *; lia | left; exact EF |].
      right. exists (get_ptr_block b), s'. split; [exact E | exact Hrest].
  - right.
    pose proof (mapped_end_le s (w64 (ALIGN size + ALIGN BLOCK_META_SIZE))
                  (proj1 Hos)) as Hme.
    destruct (os_malloc_mmap fuel s size Hos ltac:(lia) Hge
                ltac:(rewrite Etot; unfold BLOCK_META_SIZE; lia))
      as (m2 & E2 & _ & _ & _ & Hfr).
    { destruct Hroom as [_ Hr]. rewrite Etot in *. lia. }
    eexists. eexists. split; [exact E2 |]. cbn [memory].
    split; [| split; [| split]].
    + rewrite <- Hst. unfold get_status. apply load_ext. intros x Hx.
      apply Hfr. unfold OFF_STATUS, BLOCK_META_SIZE in *.
      simpl Z.of_nat in Hx. lia.
    + unfold get_size. apply load_ext. intros x Hx.
      apply Hfr. unfold OFF_SIZE, BLOCK_META_SIZE in *.
      simpl Z.of_nat in Hx. lia.
    + intros x Hx. apply Hfr. unfold BLOCK_META_SIZE in *. lia.
    + right. unfold get_ptr_block, BLOCK_META_SIZE in *. lia.
Qed.

(** X22. [os_malloc] never touches memory that is in use.  In a state
    that satisfies the invariant of the block list, with [room] in the
    system for a non-zero request, the call ends in a fault or returns,
    and whenever it returns, every [ALLOCATED] heap block of the list is
    still [ALLOCATED] with the size it had and every byte of its payload as
    it was, and the [ALIGN(size)] bytes at the pointer returned do not
    overlap that block: they end at or below its header or start at or
    above the end of its payload.  This holds on every branch that
    returns: preallocation, best fit with a split, extension of the last
    block, a new block at the break, and a mapping. *)
Theorem os_malloc_spares_allocated fuel s lm lh size a :
  heap_inv s lm lh -> (length (lm ++ lh) + 1 < fuel)%nat -> 0 < size ->
  room s size -> In a lh -> get_status (memory s) a = STATUS_ALLOC ->
  (os_malloc fuel size s = Fault \/
   exists p s', os_malloc fuel size s = Ok p s') /\
  (forall p s',
     os_malloc fuel size s = Ok p s' ->
     get_status (memory s') a = STATUS_ALLOC /\
     get_size (memory s') a = get_size (memory s) a /\
     (forall x, a + BLOCK_META_SIZE <= x
                < a + BLOCK_META_SIZE + get_size (memory s) a ->
                memory s' x = memory s x) /\
     (p + ALIGN size <= a \/
      a + BLOCK_META_SIZE + get_size (memory s) a <= p)).
Proof.
  intros Hinv Hf Hsz Hroom Ha Hst.
  destruct (os_malloc_spares fuel s lm lh size a Hinv Hf Hsz Hroom Ha Hst)
    as [EF | (p2 & s2 & E2 & Hrest)].
  - split; [left; exact EF |].
    intros p s' E. rewrite EF in E. discriminate E.
  - split; [right; exists p2, s2; exact E2 |].
    intros p s' E. rewrite E2 in E. injection E as <- <-. exact Hrest.
Qed.

Lemma os_malloc_spares_allocated_witness :
  (os_malloc 8 100 after_malloc_1000 = Fault \/
   exists p s', os_malloc 8 100 after_malloc_1000 = Ok p s') /\
  (forall p s',
     os_malloc 8 100 after_malloc_1000 = Ok p s' ->
     get_status (memory s') 4096000 = STATUS_ALLOC /\
     get_size (memory s') 4096000
     = get_size (memory after_malloc_1000) 4096000 /\
     (forall x, 4096000 + BLOCK_META_SIZE <= x
                < 4096000 + BLOCK_META_SIZE
                  + get_size (memory after_malloc_1000) 4096000 ->
                memory s' x = memory after_malloc_1000 x) /\
     (p + ALIGN 100 <= 4096000 \/
      4096000 + BLOCK_META_SIZE
      + get_size (memory after_malloc_1000) 4096000 <= p)).
Proof.
  refine (os_malloc_spares_allocated 8 after_malloc_1000 []
            [4096000; 4097024] 100 4096000 heap_inv_after_malloc_1000
            _ _ _ _ _).
  - simpl. lia.
  - lia.
  - unfold room. vm_compute. split; intros X; discriminate X.
  - left. reflexivity.
  - vm_compute. reflexivity.
Defined.

(** ** Allocated payloads are safe from [os_free] and [os_calloc] *)

Lemma remove_loop_framed (L : list Z) fuel : forall b cur prev s s' l,
  remove_loop fuel b cur prev s = Ok tt s' ->
  chain (memory s) cur l -> incl l L -> (prev = 0 \/ In prev L) ->
  framed (memory s) (memory s') L.
Proof.
  induction fuel as [| f IH]; intros b cur prev s s' l E Hc Hi Hp;
    [discriminate E |].
  cbn [remove_loop] in E.
  destruct (Z.eqb_spec cur 0) as [-> | Hcur];
    [injection E as <-; intros x _; reflexivity |].
  destruct (chain_cons_inv _ _ _ Hc Hcur) as (l0 & -> & Hc0).
  assert (HcL : In cur L) by (apply Hi; now left).
  destruct (Z.eqb_spec cur b) as [-> | Hne].
  - destruct (Z.eqb_spec b (head s)).
    + injection E as <-. cbn [memory with_memory with_head].
      apply (framed_incl _ _ [b]); [intros x [<- | []]; exact HcL |].
      apply store_framed; unfold OFF_NEXT, BLOCK_META_SIZE; lia.
    + destruct (Z.eqb_spec prev 0) as [| Hp0]; [discriminate E |].
      destruct Hp as [Hp | Hp]; [contradiction |].
      injection E as <-. cbn [memory with_memory].
      apply (framed_trans _ (set_next (memory s) prev
                               (get_next (memory s) b))).
      * apply (framed_incl _ _ [prev]); [intros x [<- | []]; exact Hp |].
        apply store_framed; unfold OFF_NEXT, BLOCK_META_SIZE; lia.
      * apply (framed_incl _ _ [b]); [intros x [<- | []]; exact HcL |].
        apply store_framed; unfold OFF_NEXT, BLOCK_META_SIZE; lia.
  - apply (IH b (get_next (memory s) cur) cur s s' l0 E Hc0).
    + intros x Hx. apply Hi. now right.
    + now right.
Qed.

Lemma os_free_spares fuel s lm lh ptr a :
  heap_inv s lm lh -> (length (lm ++ lh) < fuel)%nat ->
  In a lh -> get_status (memory s) a = STATUS_ALLOC ->
  a <> get_block_ptr ptr ->
  exists s',
    os_free fuel ptr s = Ok tt s' /\
    get_status (memory s') a = STATUS_ALLOC /\
    get_size (memory s') a = get_size (memory s) a /\
    (forall x, a + BLOCK_META_SIZE <= x
               < a + BLOCK_META_SIZE + get_size (memory s) a ->
               memory s' x = memory s x).
Proof.
  intros Hinv Hf Ha Hst Hne.
  pose proof (heap_inv_sep s lm lh Hinv) as Hsep.
  pose proof Hinv as (Hos & Hthr & Hc & Hsm & Hm & Hct & Hh & Hpre & Hlog).
  assert (HaL : In a (lm ++ lh)) by (apply in_or_app; now right).
  assert (Hsame : exists s',
            Ok tt s = Ok tt s' /\
            get_status (memory s') a = STATUS_ALLOC /\
            get_size (memory s') a = get_size (memory s) a /\
            (forall x, a + BLOCK_META_SIZE <= x
                       < a + BLOCK_META_SIZE + get_size (memory s) a ->
                       memory s' x = memory s x))
    by (exists s; repeat split; trivial).
  unfold os_free.
  destruct (Z.eqb_spec ptr 0); [exact Hsame |].
  set (b := get_block_ptr ptr) in *.
  unfold bind at 1. unfold is_block_in_memory, lift_opt.
  rewrite (member_loop_chain fuel (memory s) (head s) (lm ++ lh) b Hc Hf).
  destruct (in_dec Z.eq_dec b (lm ++ lh)) as [Hin | Hout]; [| exact Hsame].
  change (1 =? 0) with false. cbv iota.
  unfold bind at 1. unfold rd at 1.
  assert (Hab : hdr_disjoint a b).
  { destruct (sep_in_in _ a b Hsep HaL Hin) as [-> | Hd];
      [contradiction | exact Hd]. }
  assert (Hpo : forall x,
            a + BLOCK_META_SIZE <= x
            < a + BLOCK_META_SIZE + get_size (memory s) a ->
            outside (lm ++ lh) x)
    by (intros x Hx; exact (proj1 (payload_outside s lm lh a x Hinv Ha Hx))).
  destruct (Z.eqb_spec (get_status (memory s) b) STATUS_ALLOC) as [Est | Enst].
  - (* an allocated heap block *)
    assert (Hbh : In b lh).
    { apply in_app_or in Hin. destruct Hin as [Hin | Hin]; [| exact Hin].
      destruct (Hm b Hin) as (X & _). rewrite X in Est. discriminate Est. }
    pose proof (heap_inv_set_status s lm lh b STATUS_FREE Hinv Hbh
                  (or_introl eq_refl)) as Hinv1.
    set (m1 := set_status (memory s) b STATUS_FREE) in *.
    assert (Est1 : get_status m1 a = STATUS_ALLOC)
      by (subst m1; rewrite set_status_status_other; trivial).
    assert (Esz1 : get_size m1 a = get_size (memory s) a)
      by (subst m1; apply set_status_keeps; now right).
    destruct (coalesce_memory_inv fuel _ lm lh Hinv1 Hf)
      as (m3 & lh3 & E & Hinv3 & _ & _).
    destruct (coalesce_memory_keeps fuel _ lm lh m3 lh3 a Hinv1 Hf E Hinv3 Ha)
      as (_ & Es3 & Et3 & _).
    { cbn [memory with_memory]. rewrite Est1. discriminate. }
    pose proof Hinv1 as (_ & _ & Hc1 & _).
    destruct (coalesce_memory_chain fuel _ (lm ++ lh) Hc1 Hsep Hf)
      as (m' & l' & E' & _ & _ & _ & _ & Hfr3 & _).
    rewrite E in E'. unfold with_memory in E'. injection E' as Em.
    subst m'. cbn [memory with_memory] in Hfr3, Es3, Et3.
    unfold bind at 1. unfold wr at 1. fold m1.
    cbn [memory with_memory] in E. rewrite E.
    eexists. split; [reflexivity |]. cbn [memory with_memory].
    split; [rewrite Et3; exact Est1 |].
    split; [rewrite Es3; exact Esz1 |].
    intros x Hx. rewrite (Hfr3 x (Hpo x Hx)).
    subst m1. apply set_status_framed. intros c [<- | []].
    exact (Hpo x Hx b Hin).
  - destruct (Z.eqb_spec (get_status (memory s) b) STATUS_MAPPED)
      as [Est | _]; [| exact Hsame].
    (* a mapped block *)
    destruct (in_split b (lm ++ lh) Hin) as (l1 & l2 & El).
    rewrite El in Hc, Hsep, Hf.
    destruct (remove_memory_block_chain fuel s l1 b l2 Hc Hsep Hf)
      as (m' & h' & E & _ & _ & _ & Hk).
    pose proof (remove_loop_framed (lm ++ lh) fuel b (head s) 0 s _
                  (l1 ++ b :: l2) E Hc) as Hfr.
    rewrite El in Hfr at 1. specialize (Hfr (incl_refl _) (or_introl eq_refl)).
    cbn [memory with_memory with_head] in Hfr.
    destruct (Hk a ltac:(rewrite <- El; exact HaL)) as [Esz Est'].
    assert (Hbm : In b lm).
    { apply in_app_or in Hin. destruct Hin as [Hin | Hin]; [exact Hin |].
      destruct (Hh b Hin) as ([X | X] & _); rewrite X in Est;
        discriminate Est. }
    destruct (Hm b Hbm) as (_ & Hpg & _ & _ & _ & Hszr & _).
    destruct (Hk b (in_elt _ _ _)) as [Eszb _].
    unfold bind at 1. rewrite E.
    unfold bind at 1. unfold rd at 1. cbn [memory with_memory with_head].
    rewrite Eszb.
    pose proof (get_size_range (memory s) b) as Hr.
    rewrite w64_small by (unfold BLOCK_META_SIZE in *; lia).
    unfold bind at 1. unfold munmap.
    cbn [page_size with_memory with_head].
    destruct (Z.eqb_spec (get_size (memory s) b + BLOCK_META_SIZE) 0);
      [unfold BLOCK_META_SIZE in *; lia |].
    rewrite Hpg. change (0 =? 0) with true. cbn [negb orb]. cbv iota.
    eexists. split; [reflexivity |]. cbn [memory with_memory with_head].
    split; [rewrite Est'; exact Hst |]. split; [exact Esz |].
    intros x Hx. exact (Hfr x (Hpo x Hx)).
Qed.

(** X23. [os_free] never touches memory that is in use.  Whatever pointer
    it is given, every [ALLOCATED] heap block other than the one the
    pointer names stays [ALLOCATED] with the size it had, and every byte
    of its payload stays as it was: marking the block, the coalesce pass
    and the unlinking of a mapped block write into headers of the list
    only. *)
Theorem os_free_spares_allocated fuel s lm lh ptr a :
  heap_inv s lm lh -> (length (lm ++ lh) < fuel)%nat ->
  In a lh -> get_status (memory s) a = STATUS_ALLOC ->
  a <> get_block_ptr ptr ->
  exists s',
    os_free fuel ptr s = Ok tt s' /\
    get_status (memory s') a = STATUS_ALLOC /\
    get_size (memory s') a = get_size (memory s) a /\
    (forall x, a + BLOCK_META_SIZE <= x
               < a + BLOCK_META_SIZE + get_size (memory s) a ->
               memory s' x = memory s x).
Proof. exact (os_free_spares fuel s lm lh ptr a). Qed.

Lemma os_free_spares_allocated_witness :
  exists s',
    os_free 8 (get_ptr_block (2 ^ 40)) mapped_and_heap = Ok tt s' /\
    get_status (memory s') 4096000 = STATUS_ALLOC /\
    get_size (memory s') 4096000 = get_size (memory mapped_and_heap) 4096000 /\
    (forall x, 4096000 + BLOCK_META_SIZE <= x
               < 4096000 + BLOCK_META_SIZE
                 + get_size (memory mapped_and_heap) 4096000 ->
               memory s' x = memory mapped_and_heap x).
Proof.
  refine (os_free_spares_allocated 8 mapped_and_heap [2 ^ 40]
            [4096000; 4096128] (get_ptr_block (2 ^ 40)) 4096000
            heap_inv_mapped_and_heap _ _ _ _).
  - simpl. lia.
  - left. reflexivity.
  - vm_compute. reflexivity.
  - vm_compute. intros X; discriminate X.
Defined.

(** X24. [os_calloc] never touches memory that is in use.  In a state
    that satisfies the invariant of the block list, with [room] in the
    system for the non-zero reduced product, the call ends in a fault or
    returns, and whenever it returns, every [ALLOCATED] heap block of the
    list is still [ALLOCATED] with the size it had and every byte of its
    payload as it was, the zeroing included: the bytes that are set to
    zero at the pointer returned do not overlap that block. *)
Theorem os_calloc_spares_allocated fuel s lm lh nmemb size a :
  heap_inv s lm lh -> (length (lm ++ lh) + 1 < fuel)%nat ->
  0 < w64 (nmemb * size) -> room s (w64 (nmemb * size)) ->
  In a lh -> get_status (memory s) a = STATUS_ALLOC ->
  (os_calloc fuel nmemb size s = Fault \/
   exists p s', os_calloc fuel nmemb size s = Ok p s') /\
  (forall p s',
     os_calloc fuel nmemb size s = Ok p s' ->
     get_status (memory s') a = STATUS_ALLOC /\
     get_size (memory s') a = get_size (memory s) a /\
     (forall x, a + BLOCK_META_SIZE <= x
                < a + BLOCK_META_SIZE + get_size (memory s) a ->
                memory s' x = memory s x) /\
     (p + w64 (nmemb * size) <= a \/
      a + BLOCK_META_SIZE + get_size (memory s) a <= p)).
Proof.
  intros Hinv Hf Hn Hroom Ha Hst.
  destruct (os_calloc_inv fuel s lm lh nmemb size Hinv Hf Hn Hroom)
    as [(EF & _)
       | (b & s1 & s2 & lm' & lh' & E1 & _ & E & _ & _ & _ & _ & _ & _
          & Em)].
  { split; [left; exact EF |].
    intros p s' Ec. rewrite EF in Ec. discriminate Ec. }
  split; [right; exists (get_ptr_block b), s2; exact E |].
  intros p0 s' Ec.
  rewrite E in Ec. injection Ec as <- <-.
  set (n := w64 (nmemb * size)) in *.
  pose proof Hinv as (Hos & _).
  assert (Hpg : 0 <= page_size s < 2 ^ 63)
    by (destruct Hos as (Hp & _ & Hp63 & _); lia).
  pose proof (room_size_max s n Hos ltac:(lia) Hroom) as Hmax.
  pose proof (ALIGN_small n ltac:(lia) ltac:(lia)) as HA.
  pose proof (get_size_range (memory s) a) as Hra.
  pose proof (heap_inv_with_threshold s lm lh (page_size s) Hinv Hpg) as Hinv0.
  destruct (os_malloc_spares fuel (with_threshold s (page_size s)) lm lh n a
              Hinv0 Hf Hn Hroom Ha Hst)
    as [EF | (p & s1' & E' & Est & Esz & Hpay & Hdis)];
    [rewrite EF in E1; discriminate E1 |].
  rewrite E' in E1. injection E1 as -> ->.
  cbn [memory with_threshold] in Esz, Hpay, Hdis.
  set (p := get_ptr_block b) in *.
  assert (Hdis' : p + n <= a \/
                  a + BLOCK_META_SIZE + get_size (memory s) a <= p)
    by (destruct Hdis; [left | right]; lia).
  assert (Hms : forall x,
            a <= x < a + BLOCK_META_SIZE + get_size (memory s) a ->
            memset (memory s1) p 0 n x = memory s1 x).
  { intros x Hx. unfold memset.
    destruct (Z.leb_spec p x); destruct (Z.ltb_spec x (p + n)); simpl;
      try reflexivity. unfold BLOCK_META_SIZE in *. lia. }
  rewrite Em.
  split; [| split; [| split; [| exact Hdis']]].
  - rewrite <- Est. unfold get_status. apply load_ext. intros x Hx.
    apply Hms. unfold OFF_STATUS, BLOCK_META_SIZE in *.
    simpl Z.of_nat in Hx. lia.
  - rewrite <- Esz. unfold get_size. apply load_ext. intros x Hx.
    apply Hms. unfold OFF_SIZE, BLOCK_META_SIZE in *.
    simpl Z.of_nat in Hx. lia.
  - intros x Hx. rewrite <- (Hpay x Hx). apply Hms.
    unfold BLOCK_META_SIZE in *. lia.
Qed.

Lemma os_calloc_spares_allocated_witness :
  (os_calloc 8 3 5 after_malloc_1000 = Fault \/
   exists p s', os_calloc 8 3 5 after_malloc_1000 = Ok p s') /\
  (forall p s',
     os_calloc 8 3 5 after_malloc_1000 = Ok p s' ->
     get_status (memory s') 4096000 = STATUS_ALLOC /\
     get_size (memory s') 4096000
     = get_size (memory after_malloc_1000) 4096000 /\
     (forall x, 4096000 + BLOCK_META_SIZE <= x
                < 4096000 + BLOCK_META_SIZE
                  + get_size (memory after_malloc_1000) 4096000 ->
                memory s' x = memory after_malloc_1000 x) /\
     (p + w64 (3 * 5) <= 4096000 \/
      4096000 + BLOCK_META_SIZE
      + get_size (memory after_malloc_1000) 4096000 <= p)).
Proof.
  refine (os_calloc_spares_allocated 8 after_malloc_1000 []
            [4096000; 4097024] 3 5 4096000 heap_inv_after_malloc_1000
            _ _ _ _ _).
  - simpl. lia.
  - vm_compute. reflexivity.
  - unfold room. vm_compute. split; intros X; discriminate X.
  - left. reflexivity.
  - vm_compute. reflexivity.
Defined.

(** ** [os_realloc] keeps the bytes of a block that is not the last one *)

Lemma os_free_framed fuel s lm lh ptr :
  heap_inv s lm lh -> (length (lm ++ lh) < fuel)%nat ->
  exists s',
    os_free fuel ptr s = Ok tt s' /\
    framed (memory s) (memory s') (lm ++ lh).
Proof.
  intros Hinv Hf.
  pose proof (heap_inv_sep s lm lh Hinv) as Hsep.
  pose proof Hinv as (Hos & Hthr & Hc & Hsm & Hm & Hct & Hh & Hpre & Hlog).
  assert (Hsame : exists s',
            Ok tt s = Ok tt s' /\ framed (memory s) (memory s') (lm ++ lh))
    by (exists s; split; [reflexivity | intros x _; reflexivity]).
  unfold os_free.
  destruct (Z.eqb_spec ptr 0); [exact Hsame |].
  set (b := get_block_ptr ptr) in *.
  unfold bind at 1. unfold is_block_in_memory, lift_opt.
  rewrite (member_loop_chain fuel (memory s) (head s) (lm ++ lh) b Hc Hf).
  destruct (in_dec Z.eq_dec b (lm ++ lh)) as [Hin | Hout]; [| exact Hsame].
  change (1 =? 0) with false. cbv iota.
  unfold bind at 1. unfold rd at 1.
  destruct (Z.eqb_spec (get_status (memory s) b) STATUS_ALLOC) as [Est | Enst].
  - assert (Hbh : In b lh).
    { apply in_app_or in Hin. destruct Hin as [Hin | Hin]; [| exact Hin].
      destruct (Hm b Hin) as (X & _). rewrite X in Est. discriminate Est. }
    pose proof (heap_inv_set_status s lm lh b STATUS_FREE Hinv Hbh
                  (or_introl eq_refl)) as Hinv1.
    set (m1 := set_status (memory s) b STATUS_FREE) in *.
    pose proof Hinv1 as (_ & _ & Hc1 & _).
    destruct (coalesce_memory_chain fuel _ (lm ++ lh) Hc1 Hsep Hf)
      as (m' & l' & E & _ & _ & _ & _ & Hfr3 & _).
    cbn [memory with_memory] in Hfr3, E.
    unfold bind at 1. unfold wr at 1. fold m1. rewrite E.
    eexists. split; [reflexivity |]. cbn [memory with_memory].
    apply (framed_trans _ m1); [| exact Hfr3].
    apply (framed_incl _ _ [b]); [intros x [<- | []]; exact Hin |].
    apply set_status_framed.
  - destruct (Z.eqb_spec (get_status (memory s) b) STATUS_MAPPED)
      as [Est | _]; [| exact Hsame].
    destruct (in_split b (lm ++ lh) Hin) as (l1 & l2 & El).
    rewrite El in Hc, Hsep, Hf.
    destruct (remove_memory_block_chain fuel s l1 b l2 Hc Hsep Hf)
      as (m' & h' & E & _ & _ & _ & Hk).
    pose proof (remove_loop_framed (lm ++ lh) fuel b (head s) 0 s _
                  (l1 ++ b :: l2) E Hc) as Hfr.
    rewrite El in Hfr at 1. specialize (Hfr (incl_refl _) (or_introl eq_refl)).
    cbn [memory with_memory with_head] in Hfr.
    assert (Hbm : In b lm).
    { apply in_app_or in Hin. destruct Hin as [Hin | Hin]; [exact Hin |].
      destruct (Hh b Hin) as ([X | X] & _); rewrite X in Est;
        discriminate Est. }
    destruct (Hm b Hbm) as (_ & Hpg & _ & _ & _ & Hszr & _).
    destruct (Hk b (in_elt _ _ _)) as [Eszb _].
    unfold bind at 1. rewrite E.
    unfold bind at 1. unfold rd at 1. cbn [memory with_memory with_head].
    rewrite Eszb.
    pose proof (get_size_range (memory s) b) as Hr.
    rewrite w64_small by (unfold BLOCK_META_SIZE in *; lia).
    unfold bind at 1. unfold munmap.
    cbn [page_size with_memory with_head].
    destruct (Z.eqb_spec (get_size (memory s) b + BLOCK_META_SIZE) 0);
      [unfold BLOCK_META_SIZE in *; lia |].
    rewrite Hpg. change (0 =? 0) with true. cbn [negb orb]. cbv iota.
    eexists. split; [reflexivity |]. cbn [memory with_memory with_head].
    exact Hfr.
Qed.

Lemma payload_clear_outside m l b x :
  sep l -> In b l -> payload_clear m l b ->
  b + BLOCK_META_SIZE <= x < b + BLOCK_META_SIZE + get_size m b ->
  outside l x.
Proof.
  intros Hsep Hb Hcl Hx c Hc.
  destruct (Hcl c Hc) as [Hle | Hge]; [| lia].
  destruct (sep_in_in _ c b Hsep Hc Hb) as [-> | Hd];
    [lia | unfold hdr_disjoint in Hd; lia].
Qed.

(** The branch of [os_realloc] that moves a heap block: allocate, copy,
    free.  The new payload starts with the bytes of the old one. *)
Lemma realloc_move_bytes fuel s lm lh block A :
  heap_inv s lm lh -> (length (lm ++ lh) + 2 < fuel)%nat ->
  In block lh -> get_status (memory s) block = STATUS_ALLOC ->
  0 < A -> A mod 8 = 0 -> room s A ->
  (new_ptr <- os_malloc fuel A ;;
   if new_ptr =? 0 then ret 0
   else
     copy_payload new_ptr block A ;;;
     os_free fuel (get_ptr_block block) ;;;
     ret new_ptr) s
  = Fault \/
  exists p s',
    (new_ptr <- os_malloc fuel A ;;
     if new_ptr =? 0 then ret 0
     else
       copy_payload new_ptr block A ;;;
       os_free fuel (get_ptr_block block) ;;;
       ret new_ptr) s
    = Ok p s' /\ p <> 0 /\
    forall i, 0 <= i < min (get_size (memory s) block) A ->
      memory s' (p + i) = memory s (get_ptr_block block + i).
Proof.
  intros Hinv Hf Hb Hst HA HA8 Hroom.
  pose proof Hinv as (Hos & _).
  pose proof (room_size_max s A Hos ltac:(lia) Hroom) as Hmax.
  assert (HAA : ALIGN A = A)
    by (apply ALIGN_fixed; [unfold SIZE_MAX1 in *; lia | exact HA8]).
  destruct (os_malloc_inv fuel s lm lh A Hinv ltac:(lia) HA Hroom)
    as [[EF _]
       | (b' & s1 & lm1 & lh1 & E & Hinv1 & Hin1 & Hclear1 & Hsz1 & _
          & Hlen1 & Hgr)].
  { left. unfold bind at 1. rewrite EF. reflexivity. }
  right.
  destruct (os_malloc_spares fuel s lm lh A block Hinv ltac:(lia) HA Hroom
              Hb Hst)
    as [EF | (p & s1' & E' & Est & Esz & Hpay & _)];
    [rewrite EF in E; discriminate E |].
  rewrite E in E'. injection E' as <- <-.
  rewrite HAA in Hsz1.
  destruct (heap_inv_block_aligned s1 lm1 lh1 b' Hinv1 Hin1) as [Hpos _].
  pose proof (min_le_r (get_size (memory s) block) A) as Hmin.
  assert (Hmin0 : min (get_size (memory s) block) A
                  <= get_size (memory s) block)
    by (unfold min; destruct (Z.ltb_spec (get_size (memory s) block) A); lia).
  set (n := min (get_size (memory s) block) A) in *.
  pose proof (heap_inv_memmove s1 lm1 lh1 b' (get_ptr_block block) n Hinv1
                Hclear1 ltac:(lia)) as Hinv2.
  destruct (os_free_framed fuel _ lm1 lh1 (get_ptr_block block) Hinv2
              ltac:(lia)) as (s' & Ef & Hfr).
  cbn [memory with_memory] in Hfr.
  rewrite (bind_ok _ _ _ _ _ E).
  destruct (Z.eqb_spec (get_ptr_block b') 0);
    [unfold get_ptr_block, BLOCK_META_SIZE in *; lia |].
  pose proof (min_ge_0 (get_size (memory s) block) A
                (proj1 (get_size_range _ _)) ltac:(lia)) as Hn0.
  fold n in Hn0.
  rewrite (copy_payload_ok s1 _ block A)
    by (rewrite Esz; fold n; apply (granted_shrink s1 _ (ALIGN A));
        [lia | exact Hgr]).
  rewrite Esz. fold n.
  unfold bind at 1. rewrite Ef. unfold ret.
  exists (get_ptr_block b'), s'. split; [reflexivity |].
  split; [assumption |].
  intros i Hi.
  rewrite Hfr.
  - unfold memmove.
    destruct (Z.leb_spec (get_ptr_block b') (get_ptr_block b' + i)); [| lia].
    destruct (Z.ltb_spec (get_ptr_block b' + i) (get_ptr_block b' + n));
      [| lia].
    cbn [andb].
    replace (get_ptr_block b' + i - get_ptr_block b') with i by lia.
    apply Hpay. unfold get_ptr_block. lia.
  - apply (payload_clear_outside (memory s1) (lm1 ++ lh1) b');
      [exact (heap_inv_sep s1 lm1 lh1 Hinv1) | exact Hin1 | exact Hclear1 |].
    unfold get_ptr_block. lia.
Qed.

Lemma os_realloc_bytes fuel s lm lh ptr size :
  heap_inv s lm lh -> (length (lm ++ lh) + 2 < fuel)%nat ->
  In (get_block_ptr ptr) lh ->
  get_status (memory s) (get_block_ptr ptr) = STATUS_ALLOC ->
  get_next (memory s) (get_block_ptr ptr) <> 0 ->
  0 < size -> room s (size + 7) ->
  os_realloc fuel ptr size s = Fault \/
  exists p s',
    os_realloc fuel ptr size s = Ok p s' /\ p <> 0 /\
    forall i,
      0 <= i < min (get_size (memory s) (get_block_ptr ptr)) (ALIGN size) ->
      memory s' (p + i) = memory s (ptr + i).
Proof.
  intros Hinv Hf Hin Est Hnx Hsz Hroom7.
  assert (Hroom : room s size)
    by (apply (room_le s size (size + 7)); [lia | trivial]).
  pose proof (heap_inv_ALIGN_small s lm lh (size + 7) Hinv ltac:(lia) Hroom7)
    as H7.
  assert (Hmax : size + 7 < SIZE_MAX1).
  { pose proof (ALIGN_range (size + 7)). lia. }
  pose proof (ALIGN_small size ltac:(lia) Hmax) as HA.
  pose proof (ALIGN_mod8 size) as HA8.
  assert (HroomA : room s (ALIGN size))
    by (apply (room_le s _ (size + 7)); [lia | trivial]).
  pose proof (heap_inv_sep s lm lh Hinv) as Hsep.
  pose proof Hinv as (Hos & Hthr & Hc & Hsm & Hm & Hct & Hh & Hpre & Hlog).
  destruct (os_sane_bounds s Hos) as (Hbrk & _).
  assert (Hlim : brk_limit s + 24 <= 2 ^ 63)
    by (destruct Hos as (_ & _ & _ & _ & _ & _ & H1 & _ & H2 & H3);
        unfold BLOCK_META_SIZE in *; lia).
  assert (Hbl : brk s <= brk_limit s) by apply Hos.
  set (block := get_block_ptr ptr) in *.
  assert (Eptr : get_ptr_block block = ptr)
    by (subst block; unfold get_ptr_block, get_block_ptr; lia).
  set (A := ALIGN size) in *.
  assert (HAA : ALIGN A = A) by (subst A; apply ALIGN_idem).
  destruct (heap_inv_heap_block s lm lh block Hinv Hin) as [Hb0 Hbtop].
  assert (Hp0 : ptr <> 0)
    by (rewrite <- Eptr; unfold get_ptr_block, BLOCK_META_SIZE; lia).
  set (bsz := get_size (memory s) block) in *.
  pose proof (get_size_range (memory s) block) as Hrb. fold bsz in Hrb.
  pattern (os_realloc fuel ptr size s).
  match goal with |- ?P _ => set (Q := P) end.
  unfold os_realloc.
  destruct (Z.eqb_spec ptr 0); [contradiction |].
  destruct (Z.eqb_spec size 0); [lia |].
  fold block. fold A.
  unfold bind at 1. unfold rd at 1. rewrite Est.
  change (STATUS_ALLOC =? STATUS_FREE) with false. cbv iota.
  unfold bind at 1. unfold rd at 1. fold bsz.
  destruct (Z.eqb_spec bsz A) as [_ | Hne].
  { unfold Q. right.
    exists ptr, s. split; [reflexivity |]. split; [exact Hp0 |].
    intros i _. reflexivity. }
  change (STATUS_ALLOC =? STATUS_ALLOC) with true. cbv iota.
  destruct (Z.ltb_spec A bsz) as [Hlt | Hge].
  - (* the block shrinks *)
    unfold bind at 1. unfold wr at 1. unfold ret. rewrite Eptr.
    unfold Q. right.
    eexists. eexists. split; [reflexivity |]. split; [exact Hp0 |].
    cbn [memory with_memory].
    intros i Hi. unfold min in Hi.
    destruct (Z.ltb_spec bsz A); [lia |].
    apply split_block_payload; fold bsz; rewrite ?HAA;
      subst block; unfold get_block_ptr, BLOCK_META_SIZE, SIZE_MAX1 in *;
      lia.
  - (* the block grows *)
    assert (Hmin : min bsz A = bsz)
      by (unfold min; destruct (Z.ltb_spec bsz A); lia).
    destruct (coalesce_memory_inv fuel s lm lh Hinv ltac:(lia))
      as (m3 & lh3 & Eco & Hinv3 & _ & Hlen3).
    destruct (coalesce_memory_keeps fuel s lm lh m3 lh3 block Hinv
                ltac:(lia) Eco Hinv3 Hin)
      as (Hin3 & Es3 & Et3 & En3);
      [rewrite Est; discriminate |].
    fold bsz in Es3.
    destruct (coalesce_memory_chain fuel s (lm ++ lh) Hc Hsep ltac:(lia))
      as (m' & l' & Eco' & _ & _ & _ & _ & Hfr3 & _).
    rewrite Eco in Eco'. unfold with_memory in Eco'. injection Eco' as Em.
    subst m'.
    assert (Hpay3 : forall i, 0 <= i < bsz -> m3 (ptr + i) = memory s (ptr + i)).
    { intros i Hi. apply Hfr3.
      apply (payload_outside s lm lh block (ptr + i) Hinv Hin).
      fold bsz. rewrite <- Eptr. unfold get_ptr_block. lia. }
    assert (Hlen3' : (length (lm ++ lh3) <= length (lm ++ lh))%nat)
      by (rewrite !length_app; lia).
    unfold bind at 1. rewrite Eco.
    unfold bind at 1. unfold get_mem at 1. cbn [memory with_memory].
    destruct (negb (get_next m3 block =? 0)
              && (get_status m3 (get_next m3 block) =? STATUS_FREE)
              && (A <=? w64 (w64 (get_size m3 block
                                   + get_size m3 (get_next m3 block))
                              + ALIGN BLOCK_META_SIZE))) eqn:Hcond.
    + (* over the free successor *)
      apply andb_true_iff in Hcond. destruct Hcond as [Hcond Hfit].
      apply andb_true_iff in Hcond. destruct Hcond as [Hnz Hnf].
      apply negb_true_iff in Hnz. apply Z.eqb_neq in Hnz.
      apply Z.leb_le in Hfit.
      destruct (in_split block lh3 Hin3) as (l1 & l2' & El). subst lh3.
      destruct l2' as [| nx l2].
      { exfalso. apply Hnz.
        pose proof Hinv3 as (_ & _ & Hc3 & _).
        cbn [memory head with_memory] in Hc3.
        rewrite app_assoc in Hc3.
        rewrite <- (chain_last_next _ _ _ Hc3);
          [| intros X; apply app_eq_nil in X; destruct X as [_ X];
             discriminate X].
        rewrite last_app_r by discriminate. reflexivity. }
      destruct (heap_inv_absorb (with_memory s m3) lm l1 block nx l2 Hinv3)
        as (Enx & Hinv4 & Es4).
      cbn [memory with_memory] in Enx, Hinv4, Es4.
      match type of Hinv4 with heap_inv (with_memory _ ?mm) _ _ =>
        set (m4 := mm) in * end.
      assert (Hnxin : In nx (l1 ++ block :: nx :: l2))
        by (apply in_or_app; right; right; now left).
      destruct (heap_inv_heap_block _ lm _ nx Hinv3 Hnxin) as [Hn0 Hntop].
      cbn [memory brk with_memory] in Hntop.
      pose proof Hinv3 as (_ & _ & _ & _ & _ & Hct3 & _).
      cbn [memory brk with_memory] in Hct3.
      assert (Hbn : block + BLOCK_META_SIZE + get_size m3 block = nx).
      { pose proof (contig_app_r _ l1 _ _ Hct3) as Hcb.
        destruct Hcb as (_ & Hbn & _). exact Hbn. }
      pose proof (get_size_range m3 nx) as Hrn.
      rewrite Enx in Hfit. rewrite Es3 in Hfit, Hbn, Es4.
      rewrite ALIGN_header in Hfit. unfold BLOCK_META_SIZE in Hfit, Hbn, Es4, Hntop.
      rewrite (w64_small (bsz + get_size m3 nx)) in Hfit
        by (unfold SIZE_MAX1; lia).
      rewrite w64_small in Hfit by (unfold SIZE_MAX1; lia).
      unfold bind at 1. unfold wr at 1.
      unfold bind at 1. unfold wr at 1.
      unfold bind at 1. unfold wr at 1.
      unfold bind at 1. unfold wr at 1.
      unfold ret. rewrite Eptr.
      unfold Q. right.
      eexists. eexists. split; [reflexivity |]. split; [exact Hp0 |].
      intros i Hi. rewrite Hmin in Hi.
      change (split_block m4 block A (ptr + i) = memory s (ptr + i)).
      rewrite <- (Hpay3 i Hi).
      rewrite split_block_payload.
      * apply (header_writes_framed m3 block). intros c [<- | []].
        subst block. unfold get_block_ptr, BLOCK_META_SIZE in *. lia.
      * lia.
      * rewrite Es4. unfold SIZE_MAX1 in *. lia.
      * rewrite HAA, Es4. lia.
      * rewrite HAA. subst block.
        unfold get_block_ptr, BLOCK_META_SIZE in *. lia.
    + destruct (Z.eqb_spec (get_next m3 block) 0) as [E0 | _];
        [rewrite En3 in E0; contradiction |].
      unfold Q.
      destruct (realloc_move_bytes fuel (with_memory s m3) lm lh3 block A
                  Hinv3 ltac:(lia) Hin3)
        as [EF | (p & s' & E & Hp & Hbytes)].
      { cbn [memory with_memory]. rewrite Et3. exact Est. }
      { lia. }
      { exact HA8. }
      { exact HroomA. }
      { left. exact EF. }
      right.
      exists p, s'. split; [exact E |]. split; [exact Hp |].
      intros i Hi. rewrite Hmin in Hi. cbn [memory with_memory] in Hbytes.
      rewrite Es3, Hmin, Eptr in Hbytes.
      rewrite (Hbytes i Hi). exact (Hpay3 i Hi).
Qed.

(** X25. [os_realloc] keeps the bytes of every [ALLOCATED] heap block that
    is not the last block of the list.  In a state that satisfies the
    invariant of the block list, for such a block and a size above 0 with
    [room] in the system for [size + 7] bytes, the call ends in a fault or
    returns, and whenever it returns, the pointer it returns is not null
    and the first [min(old size, ALIGN(size))] bytes at that pointer are
    the bytes the old payload held before the call, whichever way the
    request is served: the size is unchanged, the block is cut down in
    place, it grows in place over a [FREE] successor, or it is moved by
    allocate, copy, free. *)
Theorem os_realloc_keeps_bytes fuel s lm lh ptr size :
  heap_inv s lm lh -> (length (lm ++ lh) + 2 < fuel)%nat ->
  In (get_block_ptr ptr) lh ->
  get_status (memory s) (get_block_ptr ptr) = STATUS_ALLOC ->
  get_next (memory s) (get_block_ptr ptr) <> 0 ->
  0 < size -> room s (size + 7) ->
  (os_realloc fuel ptr size s = Fault \/
   exists p s', os_realloc fuel ptr size s = Ok p s') /\
  (forall p s',
     os_realloc fuel ptr size s = Ok p s' ->
     p <> 0 /\
     forall i,
       0 <= i < min (get_size (memory s) (get_block_ptr ptr)) (ALIGN size) ->
       memory s' (p + i) = memory s (ptr + i)).
Proof.
  intros Hinv Hf Hin Est Hnx Hsz Hroom7.
  destruct (os_realloc_bytes fuel s lm lh ptr size Hinv Hf Hin Est Hnx Hsz
              Hroom7) as [EF | (p2 & s2 & E2 & Hrest)].
  - split; [left; exact EF |].
    intros p s' E. rewrite EF in E. discriminate E.
  - split; [right; exists p2, s2; exact E2 |].
    intros p s' E. rewrite E2 in E. injection E as <- <-. exact Hrest.
Qed.

Lemma os_realloc_keeps_bytes_witness :
  (os_realloc 8 4096024 200000 after_malloc_1000 = Fault \/
   exists p s', os_realloc 8 4096024 200000 after_malloc_1000 = Ok p s') /\
  (forall p s',
     os_realloc 8 4096024 200000 after_malloc_1000 = Ok p s' ->
     p <> 0 /\
     forall i,
       0 <= i < min (get_size (memory after_malloc_1000)
                       (get_block_ptr 4096024)) (ALIGN 200000) ->
       memory s' (p + i) = memory after_malloc_1000 (4096024 + i)).
Proof.
  refine (os_realloc_keeps_bytes 8 after_malloc_1000 [] [4096000; 4097024]
            4096024 200000 heap_inv_after_malloc_1000 _ _ _ _ _ _).
  - simpl. lia.
  - left. reflexivity.
  - vm_compute. reflexivity.
  - vm_compute. intros X; discriminate X.
  - lia.
  - unfold room. vm_compute. split; intros X; discriminate X.
Defined.

(** ** Freed memory is used again *)

Lemma coalesce_loop_free_kept fuel : forall m a l m' l',
  chain m a l -> sep l -> (length l < fuel)%nat ->
  (forall c, In c l -> get_status m c = STATUS_FREE ->
             get_size m c + 24 < 2 ^ 63) ->
  coalesce_loop fuel m a = Some m' -> chain m' a l' ->
  forall c, In c l -> get_status m c = STATUS_FREE ->
    exists c', In c' l' /\ get_status m' c' = STATUS_FREE /\
               get_size m c <= get_size m' c'.
Proof.
  induction fuel as [| f IH]; intros m a l m' l' Hc Hs Hf Hb E Hc' c Hin Hst;
    [lia |].
  cbn [coalesce_loop] in E.
  destruct (Z.eqb_spec a 0) as [-> | Ha].
  { apply chain_nil_inv in Hc. subst l. destruct Hin. }
  destruct (chain_cons_inv _ _ _ Hc Ha) as (l0 & -> & Hc0).
  destruct (chain_cons_inv _ _ _ Hc' Ha) as (l0' & -> & Hc0').
  destruct Hs as [Hda Hs0].
  destruct (Z.eqb_spec (get_next m a) 0) as [Hn | Hn].
  { injection E as <-. rewrite Hn in Hc0. apply chain_nil_inv in Hc0.
    subst l0. destruct Hin as [<- | []].
    exists a. split; [now left | split; [exact Hst | lia]]. }
  destruct (chain_cons_inv _ _ _ Hc0 Hn) as (rest & -> & Hc1).
  set (nx := get_next m a) in *.
  destruct Hs0 as [Hdn Hs1].
  pose proof (Forall_inv Hda) as Hanx.
  pose proof (Forall_inv_tail Hda) as Harest.
  destruct ((get_status m a =? STATUS_FREE) && (get_status m nx =? STATUS_FREE))
    eqn:Hfree.
  - apply andb_true_iff in Hfree. destruct Hfree as [Hfa Hfn].
    apply Z.eqb_eq in Hfa. apply Z.eqb_eq in Hfn.
    destruct (coalesce_blocks_spec m a nx Hanx) as (Enext & Est & Esz & Hfr).
    set (m1 := coalesce_blocks m a nx) in *. rewrite Enext in E.
    assert (Hk1 : forall c, In c rest ->
                    get_next m1 c = get_next m c /\
                    get_size m1 c = get_size m c /\
                    get_status m1 c = get_status m c).
    { intros x Hx. apply (framed_fields m m1 [a] x Hfr).
      constructor; [| constructor]. apply hdr_disjoint_sym.
      rewrite Forall_forall in Harest. auto. }
    assert (Hc1' : chain m1 (get_next m nx) rest).
    { apply (chain_frame m); trivial. intros x Hx. apply Hk1, Hx. }
    destruct (coalesce_loop_chain f m1 (get_next m nx) rest Hc1' Hs1)
      as (m2 & l2 & E2 & Hc2 & _ & _ & _ & Hfr2 & _);
      [simpl in Hf; lia |].
    rewrite E in E2. injection E2 as <-.
    destruct (framed_fields m1 m' rest a Hfr2 Harest) as (En2 & Es2 & Et2).
    rewrite En2, Enext in Hc0'.
    pose proof (Hb a (or_introl eq_refl) Hfa) as Hba.
    pose proof (Hb nx (or_intror (or_introl eq_refl)) Hfn) as Hbn.
    pose proof (get_size_range m a) as Hra.
    pose proof (get_size_range m nx) as Hrn.
    assert (Esa : get_size m' a = get_size m a + get_size m nx + 24).
    { rewrite Es2, Esz. rewrite ALIGN_header. unfold BLOCK_META_SIZE.
      rewrite (w64_small (get_size m nx + 24)) by (unfold SIZE_MAX1; lia).
      rewrite w64_small by (unfold SIZE_MAX1; lia). lia. }
    destruct Hin as [<- | [<- | Hin]].
    + exists a. split; [now left |].
      split; [rewrite Et2; exact Est | lia].
    + exists a. split; [now left |].
      split; [rewrite Et2; exact Est | lia].
    + destruct (Hk1 c Hin) as (_ & Es1 & Et1).
      destruct (IH m1 (get_next m nx) rest m' l0' Hc1' Hs1
                  ltac:(simpl in Hf; lia)) with (c := c)
        as (c' & Hin' & Hst' & Hsz'); trivial.
      * intros x Hx Hxf. destruct (Hk1 x Hx) as (_ & -> & Etx).
        apply Hb; [right; now right | rewrite <- Etx; exact Hxf].
      * rewrite Et1. exact Hst.
      * exists c'. split; [now right |]. split; [exact Hst' | lia].
  - fold nx in E.
    destruct (coalesce_loop_chain f m nx (nx :: rest) Hc0 (conj Hdn Hs1))
      as (m2 & l2 & E2 & Hc2 & _ & _ & _ & Hfr2 & _);
      [simpl in Hf |- *; lia |].
    rewrite E in E2. injection E2 as <-.
    destruct (framed_fields m m' (nx :: rest) a Hfr2 Hda) as (En2 & Es2 & Et2).
    rewrite En2 in Hc0'. fold nx in Hc0'.
    destruct Hin as [<- | Hin].
    + exists a. split; [now left |]. split; [rewrite Et2; exact Hst | lia].
    + destruct (IH m nx (nx :: rest) m' l0' Hc0 (conj Hdn Hs1)
                  ltac:(simpl in Hf |- *; lia)) with (c := c)
        as (c' & Hin' & Hst' & Hsz'); trivial.
      * intros x Hx Hxf. apply Hb; [now right | exact Hxf].
      * exists c'. split; [now right | auto].
Qed.

Lemma coalesce_memory_free_kept fuel s lm lh m3 lh3 c :
  heap_inv s lm lh -> (length (lm ++ lh) < fuel)%nat ->
  coalesce_memory fuel s = Ok tt (with_memory s m3) ->
  heap_inv (with_memory s m3) lm lh3 ->
  In c lh -> get_status (memory s) c = STATUS_FREE ->
  exists c', In c' lh3 /\ get_status m3 c' = STATUS_FREE /\
             get_size (memory s) c <= get_size m3 c'.
Proof.
  intros Hinv Hf E Hinv3 Hc0 Hst.
  pose proof (heap_inv_sep s lm lh Hinv) as Hsep.
  pose proof Hinv as (Hos & _ & Hc & _ & Hm & _).
  pose proof Hinv3 as (_ & _ & Hc3 & _ & Hm3 & _).
  cbn [memory head with_memory] in Hc3, Hm3.
  destruct (os_sane_bounds s Hos) as (Hbrk & _).
  assert (Hlim : brk_limit s + 24 <= 2 ^ 63)
    by (destruct Hos as (_ & _ & _ & _ & _ & _ & H1 & _ & H2 & H3);
        unfold BLOCK_META_SIZE in *; lia).
  assert (Hbl : brk s <= brk_limit s) by apply Hos.
  unfold coalesce_memory in E.
  destruct (coalesce_loop fuel (memory s) (head s)) as [m |] eqn:El;
    [| discriminate E].
  assert (Em : m = m3) by (unfold with_memory in E; now injection E).
  subst m.
  assert (Hb : forall x, In x (lm ++ lh) ->
                 get_status (memory s) x = STATUS_FREE ->
                 get_size (memory s) x + 24 < 2 ^ 63).
  { intros x Hx Hxf. apply in_app_or in Hx. destruct Hx as [Hx | Hx].
    - destruct (Hm x Hx) as (X & _). rewrite X in Hxf. discriminate Hxf.
    - destruct (heap_inv_heap_block s lm lh x Hinv Hx) as [Hx0 Hxt].
      unfold BLOCK_META_SIZE in *. lia. }
  destruct (coalesce_loop_free_kept fuel (memory s) (head s) (lm ++ lh) m3
              (lm ++ lh3) Hc Hsep Hf Hb El Hc3 c
              (in_or_app _ _ c (or_intror Hc0)) Hst)
    as (c' & Hin' & Hst' & Hsz').
  exists c'. split; [| auto].
  apply in_app_or in Hin'. destruct Hin' as [Hin' | Hin']; [| exact Hin'].
  destruct (Hm3 c' Hin') as (X & _). rewrite X in Hst'. discriminate Hst'.
Qed.

Lemma os_malloc_reuse fuel s lm lh size c :
  heap_inv s lm lh -> heap_preallocated s <> 0 ->
  (length (lm ++ lh) < fuel)%nat -> size <> 0 ->
  ALIGN size + 24 < MAP_THRESHOLD s ->
  In c lh -> get_status (memory s) c = STATUS_FREE ->
  ALIGN size <= get_size (memory s) c ->
  exists b m' lh',
    os_malloc fuel size s = Ok (get_ptr_block b) (with_memory s m') /\
    heap_inv (with_memory s m') lm lh' /\ In b lh' /\
    get_status m' b = STATUS_ALLOC /\ ALIGN size <= get_size m' b.
Proof.
  intros Hinv Hpre Hf Hsz Hthr Hc0 Hst Hfit.
  pose proof Hinv as (Hos & _).
  destruct (os_sane_bounds s Hos) as (Hbrk & _).
  assert (Hlim : brk_limit s + 24 <= 2 ^ 63)
    by (destruct Hos as (_ & _ & _ & _ & _ & _ & H1 & _ & H2 & H3);
        unfold BLOCK_META_SIZE in *; lia).
  assert (Hbl : brk s <= brk_limit s) by apply Hos.
  destruct (heap_inv_heap_block s lm lh c Hinv Hc0) as [Hc1 Hct].
  pose proof (ALIGN_range size) as HAr.
  assert (Etot : w64 (ALIGN size + ALIGN BLOCK_META_SIZE) = ALIGN size + 24).
  { rewrite ALIGN_header. unfold BLOCK_META_SIZE in *.
    apply w64_small. unfold SIZE_MAX1 in *. lia. }
  destruct (coalesce_memory_inv fuel s lm lh Hinv Hf)
    as (m3 & lh3 & Eco & Hinv3 & _ & Hlen3).
  destruct (coalesce_memory_free_kept fuel s lm lh m3 lh3 c Hinv Hf Eco Hinv3
              Hc0 Hst) as (c' & Hin' & Hst' & Hsz').
  pose proof Hinv3 as (_ & _ & Hc3 & _ & Hm3 & _).
  cbn [memory head with_memory] in Hc3, Hm3.
  assert (Hf3 : (length (lm ++ lh3) < fuel)%nat)
    by (rewrite length_app in *; lia).
  rewrite os_malloc_preallocated; trivial; [| rewrite Etot; exact Hthr].
  unfold os_malloc_heap. unfold bind at 1.
  rewrite (bind_ok _ _ _ _ _
             (find_best_free_block_eq fuel s m3 (lm ++ lh3) (head s)
                (ALIGN size) Eco Hc3 Hf3)).
  cbn [fst].
  pose proof (best_of_best_fit m3 (ALIGN size) (head s) (lm ++ lh3) Hc3)
    as Hbest.
  set (best := best_of m3 (ALIGN size) (lm ++ lh3) 0) in *.
  destruct Hbest as [[E0 Hnone] | (Hbn & l1 & l2 & El & [Hbf Hbs] & _)].
  { exfalso. apply (Hnone c'); [apply in_or_app; now right |].
    split; [exact Hst' | lia]. }
  destruct (Z.eqb_spec best 0); [contradiction |].
  cbn [negb]. run.
  assert (Hin : In best lh3).
  { assert (Hin : In best (lm ++ lh3)) by (rewrite El; apply in_elt).
    apply in_app_or in Hin. destruct Hin as [Hin | Hin]; [| exact Hin].
    destruct (Hm3 best Hin) as (Est & _). rewrite Hbf in Est.
    discriminate Est. }
  destruct (heap_inv_heap_block _ lm lh3 best Hinv3 Hin) as [Hb0 Hbt].
  cbn [memory brk with_memory] in Hbt.
  destruct (heap_inv_split (with_memory s m3) lm lh3 best size Hinv3 Hin)
    as (lh' & Hinv' & Hinb & _); try exact Hbs.
  { unfold BLOCK_META_SIZE in *. lia. }
  exists best, (split_block m3 best size), lh'.
  split; [reflexivity |].
  split; [exact Hinv' |]. split; [exact Hinb |].
  split; [apply split_block_status | apply split_block_size; exact Hbs].
Qed.

(** X26. Free memory of the list is used before the system is asked.
    With the heap preallocated, whenever some [FREE] block of the list
    holds [ALIGN(size)] bytes, a request below [MAP_THRESHOLD] is served
    from the list: only memory changes (no system call, the break stays
    where it is), the pointer returned belongs to a heap block of the
    list that is [ALLOCATED] and holds at least [ALIGN(size)] bytes, and
    the invariant of the list holds again.  For the sizes that [ALIGN]
    wraps to 0 every [FREE] block will do. *)
Theorem os_malloc_reuses_free_block fuel s lm lh size c :
  heap_inv s lm lh -> heap_preallocated s <> 0 ->
  (length (lm ++ lh) < fuel)%nat -> size <> 0 ->
  ALIGN size + 24 < MAP_THRESHOLD s ->
  In c lh -> get_status (memory s) c = STATUS_FREE ->
  ALIGN size <= get_size (memory s) c ->
  exists b m' lh',
    os_malloc fuel size s = Ok (get_ptr_block b) (with_memory s m') /\
    heap_inv (with_memory s m') lm lh' /\ In b lh' /\
    get_status m' b = STATUS_ALLOC /\ ALIGN size <= get_size m' b.
Proof. exact (os_malloc_reuse fuel s lm lh size c). Qed.

Lemma os_malloc_reuses_free_block_witness :
  exists b m' lh',
    os_malloc 8 500 after_malloc_1000
    = Ok (get_ptr_block b) (with_memory after_malloc_1000 m') /\
    heap_inv (with_memory after_malloc_1000 m') [] lh' /\ In b lh' /\
    get_status m' b = STATUS_ALLOC /\ ALIGN 500 <= get_size m' b.
Proof.
  refine (os_malloc_reuses_free_block 8 after_malloc_1000 []
            [4096000; 4097024] 500 4097024 heap_inv_after_malloc_1000
            _ _ _ _ _ _ _).
  - vm_compute. intros X; discriminate X.
  - simpl. lia.
  - discriminate.
  - vm_compute. reflexivity.
  - right. left. reflexivity.
  - vm_compute. reflexivity.
  - vm_compute. intros X; discriminate X.
Defined.

(** X27. Freed memory is used again.  After [os_free] of an [ALLOCATED]
    heap block, a request for at most as many aligned bytes as that block
    held, below [MAP_THRESHOLD], is served without any system call: after
    the two calls the break and the log of system calls are what they
    were before the free, and the pointer returned is not null. *)
Theorem os_free_then_malloc_reuses fuel s lm lh ptr size :
  heap_inv s lm lh -> heap_preallocated s <> 0 ->
  (length (lm ++ lh) < fuel)%nat ->
  In (get_block_ptr ptr) lh ->
  get_status (memory s) (get_block_ptr ptr) = STATUS_ALLOC ->
  size <> 0 -> ALIGN size <= get_size (memory s) (get_block_ptr ptr) ->
  ALIGN size + 24 < MAP_THRESHOLD s ->
  exists s1 p s2,
    os_free fuel ptr s = Ok tt s1 /\
    os_malloc fuel size s1 = Ok p s2 /\ p <> 0 /\
    brk s2 = brk s /\ trace s2 = trace s.
Proof.
  intros Hinv Hpre Hf Hin Est Hsz Hfit Hthr.
  set (b := get_block_ptr ptr) in *.
  pose proof Hinv as (_ & _ & Hc & _).
  destruct (heap_inv_heap_block s lm lh b Hinv Hin) as [Hb0 _].
  pose proof (heap_inv_set_status s lm lh b STATUS_FREE Hinv Hin
                (or_introl eq_refl)) as Hinv1.
  set (m1 := set_status (memory s) b STATUS_FREE) in *.
  destruct (coalesce_memory_inv fuel _ lm lh Hinv1 Hf)
    as (m3 & lh3 & E & Hinv3 & _ & Hlen3).
  destruct (coalesce_memory_free_kept fuel _ lm lh m3 lh3 b Hinv1 Hf E Hinv3
              Hin) as (c' & Hin' & Hst' & Hsz').
  { cbn [memory with_memory]. subst m1. apply set_status_status_same.
    unfold STATUS_FREE. lia. }
  cbn [memory with_memory] in Hsz'.
  assert (Esz1 : get_size m1 b = get_size (memory s) b)
    by (subst m1; apply set_status_keeps; now left).
  rewrite Esz1 in Hsz'.
  destruct (os_malloc_reuse fuel _ lm lh3 size c' Hinv3 Hpre)
    as (b2 & m' & lh' & E2 & Hinv' & Hin2 & _ & _); trivial.
  { rewrite length_app in *. lia. }
  { cbn [memory with_memory]. lia. }
  destruct (heap_inv_heap_block _ lm lh' b2 Hinv' Hin2) as [Hb2 _].
  eexists. exists (get_ptr_block b2). eexists.
  split; [| split; [exact E2 |]].
  - unfold os_free.
    destruct (Z.eqb_spec ptr 0);
      [subst b; unfold get_block_ptr, BLOCK_META_SIZE in *; lia |].
    fold b. unfold bind at 1. unfold is_block_in_memory, lift_opt.
    rewrite (member_loop_chain fuel (memory s) (head s) (lm ++ lh) b Hc Hf).
    destruct (in_dec Z.eq_dec b (lm ++ lh)) as [_ | Hout];
      [| exfalso; apply Hout; apply in_or_app; now right].
    change (1 =? 0) with false. cbv iota.
    unfold bind at 1. unfold rd at 1. rewrite Est.
    change (STATUS_ALLOC =? STATUS_ALLOC) with true. cbv iota.
    unfold bind at 1. unfold wr at 1. fold m1. exact E.
  - split; [unfold get_ptr_block, BLOCK_META_SIZE; lia |].
    split; reflexivity.
Qed.

Lemma os_free_then_malloc_reuses_witness :
  exists s1 p s2,
    os_free 8 4096024 after_malloc_1000 = Ok tt s1 /\
    os_malloc 8 1000 s1 = Ok p s2 /\ p <> 0 /\
    brk s2 = brk after_malloc_1000 /\ trace s2 = trace after_malloc_1000.
Proof.
  refine (os_free_then_malloc_reuses 8 after_malloc_1000 []
            [4096000; 4097024] 4096024 1000 heap_inv_after_malloc_1000
            _ _ _ _ _ _ _).
  - vm_compute. intros X; discriminate X.
  - simpl. lia.
  - left. reflexivity.
  - vm_compute. reflexivity.
  - discriminate.
  - vm_compute. intros X; discriminate X.
  - vm_compute. reflexivity.
Defined.

(** ** Heap blocks and the granted memory *)


